(** * CosmicNetworkSim1: spatial grid and per-frame simulation pipeline

    A shallow embedding of [src/spatialGrid.ts] (classes [SpatialGrid] and
    [NetworkManager]) and of the entity classes [Star], [RadioWave],
    [Connection] and [DustCloud], together with the properties of the
    specification that were checked against them.  The continuation of
    Part I embeds [validate] and [sanitize] of [SimulationSettings], the
    intersection tests of [DustCloud], [generateDustClouds], [reset] and
    [getArmPosition]; Part IV proves further properties of the program:
    of the grid, of the settings, of the dust tests, of one tick and of
    the manager over its whole life.

    Modelling conventions.
    - A JavaScript [number] is an exact rational ([Q]); rounding, NaN and
      the infinities of IEEE doubles are outside the model.  Divisions by
      a zero denominator are therefore outside the model as well, and the
      theorems that divide carry the positivity of the divisor.  Where
      the rounding of a quotient decides what the program does (the cell
      of a position in [SpatialGrid]), the code is embedded a second
      time over binary64 doubles (module [Double]) and evaluated there.
    - [Math.sqrt] never has to be evaluated: every square root of the
      source ends in a comparison, which is decided on the squares
      ([sqrt_leb], [sqrt_ltb]); Part III relates these tests to the
      reading of the source over the real numbers.
    - [Math.random()] and [Date.now()/1000] are read from an oracle (two
      sequences of rationals) through cursors that advance at every call.
    - A reference to a [Star] object is its [id]: [Star.nextId++] gives a
      distinct id to every object ever constructed.  Objects live in a
      heap keyed by id, so that a [Connection] and the [stars] array alias
      the same mutable object.
    - Rendering resources (meshes, lines, lights, scene membership) are
      kept only as far as the logical state reads or writes them. *)

From Stdlib Require Import QArith Qround Lqa Qabs.
From stdpp Require Import gmap list.
From Stdlib Require Reals Qreals Lra.
From Stdlib Require Ascii.
From stdpp Require strings.
From Stdlib Require Floats.

(** * Part I: the program *)

(** ** Numbers *)

Module Num.
Local Open Scope Q_scope.

Definition Qltb (x y : Q) : bool := negb (Qle_bool y x).
Definition Qgtb (x y : Q) : bool := Qltb y x.
Definition Qgeb (x y : Q) : bool := Qle_bool y x.
Definition Qmax (x y : Q) : Q := if Qle_bool x y then y else x.
Definition Qmin (x y : Q) : Q := if Qle_bool x y then x else y.

(** [Math.sqrt s <= r], for [0 <= s]. *)
Definition sqrt_leb (s r : Q) : bool := Qle_bool 0 r && Qle_bool s (r * r).
(** [Math.sqrt s < r], for [0 <= s]. *)
Definition sqrt_ltb (s r : Q) : bool := Qltb 0 r && Qltb s (r * r).
(** [Math.sqrt s > r] and [Math.sqrt s >= r]. *)
Definition sqrt_gtb (s r : Q) : bool := negb (sqrt_leb s r).
Definition sqrt_geb (s r : Q) : bool := negb (sqrt_ltb s r).

(** [c * Math.sqrt s <= r], for [0 <= s]. *)
Definition scaled_sqrt_leb (c s r : Q) : bool :=
  if Qltb 0 c then sqrt_leb s (r / c)
  else if Qltb c 0 then sqrt_geb s (r / c)
  else Qle_bool 0 r.

(** Number of iterations of [for (let i = 0; i < n; i++)]. *)
Definition loopCount (n : Q) : nat := Z.to_nat (Qceiling n).

End Num.
Import Num.

(** ** three.js [Vector3] *)

Record Vector3 := V3 { vx : Q; vy : Q; vz : Q }.

Module Vec.
Local Open Scope Q_scope.

Definition subVectors (a b : Vector3) : Vector3 :=
  V3 (vx a - vx b) (vy a - vy b) (vz a - vz b).
Definition dot (a b : Vector3) : Q := vx a * vx b + vy a * vy b + vz a * vz b.
Definition addScaledVector (a d : Vector3) (s : Q) : Vector3 :=
  V3 (vx a + vx d * s) (vy a + vy d * s) (vz a + vz d * s).
(** [a.distanceToSquared(b)]; [a.distanceTo(b)] is its square root. *)
Definition distanceToSquared (a b : Vector3) : Q :=
  let dx := vx a - vx b in
  let dy := vy a - vy b in
  let dz := vz a - vz b in
  dx * dx + dy * dy + dz * dz.
(** The square of the planar distance [Math.sqrt(dx * dx + dz * dz)]. *)
Definition planarDistanceSquared (a b : Vector3) : Q :=
  let dx := vx a - vx b in
  let dz := vz a - vz b in
  dx * dx + dz * dz.

End Vec.

(** ** [SpatialGrid<T>] *)

Module SpatialGrid.
Local Open Scope Q_scope.

(** A cell key is the string [`${cx},${cy},${cz}`] of three integers;
  the formatting is injective, so the key is the triple itself. *)
Abbreviation CellKey := (Z * Z * Z)%type.

Section Grid.
Context {T : Type}.

Record t := Grid {
  cellSize : Q;
  grid : gmap (Z * Z * Z) (list T);
  minBounds : Vector3;
  maxBounds : Vector3
}.

Definition new (cellSize : Q) (minBounds maxBounds : Vector3) : t :=
  Grid cellSize ∅ minBounds maxBounds.

(** The quotients are exact here.  The program rounds them to doubles
    before [Math.floor], and gets [Infinity] and [NaN] from a cell size
    0: see [Double.SpatialGrid.getCellKey]. *)
Definition getCellKey (g : t) (x y z : Q) : CellKey :=
  let cx := Qfloor (x / cellSize g) in
  let cy := Qfloor (y / cellSize g) in
  let cz := Qfloor (z / cellSize g) in
  (cx, cy, cz).

(** The cell of a position, [getCellKey(position.x, position.y,
    position.z)]. *)
Definition cellOf (g : t) (position : Vector3) : CellKey :=
  getCellKey g (vx position) (vy position) (vz position).

Definition insert (position : Vector3) (item : T) (g : t) : t :=
  let key := getCellKey g (vx position) (vy position) (vz position) in
  let m1 := match grid g !! key with
            | Some _ => grid g
            | None => <[key := []]> (grid g)
            end in
  let m2 := match m1 !! key with
            | Some cell => <[key := cell ++ [item]]> m1
            | None => m1
            end in
  Grid (cellSize g) m2 (minBounds g) (maxBounds g).

Definition query (g : t) (position : Vector3) : list T :=
  let key := getCellKey g (vx position) (vy position) (vz position) in
  match grid g !! key with
  | Some items => items
  | None => []
  end.

(** The values of [for (let d = -cellRadius; d <= cellRadius; d++)]. *)
Definition offsets (cellRadius : Z) : list Z :=
  seqZ (- cellRadius) (2 * cellRadius + 1).

Definition queryRadius (g : t) (position : Vector3) (radius : Q) : list T :=
  let cellRadius := Qceiling (radius / cellSize g) in
  let '(cx, cy, cz) :=
    getCellKey g (vx position) (vy position) (vz position) in
  dx ← offsets cellRadius;
  dy ← offsets cellRadius;
  dz ← offsets cellRadius;
  match grid g !! ((cx + dx)%Z, (cy + dy)%Z, (cz + dz)%Z) with
  | Some items => items
  | None => []
  end.

Definition clear (g : t) : t :=
  Grid (cellSize g) ∅ (minBounds g) (maxBounds g).

Definition size (g : t) : nat :=
  map_fold (fun _ items count => (count + length items)%nat) 0%nat (grid g).

(** [for (const (p, x) of entries) g.insert(p, x)] *)
Definition insertAll (entries : list (Vector3 * T)) (g : t) : t :=
  fold_left (fun acc e => insert e.1 e.2 acc) entries g.
End Grid.
Arguments t : clear implicits.

(** A call of a public method of the grid, and what the caller gets
    back from it. *)
Inductive GridOp (T : Type) : Type :=
| OpInsert (position : Vector3) (item : T)
| OpQuery (position : Vector3)
| OpQueryRadius (position : Vector3) (radius : Q)
| OpClear
| OpSize.
Arguments OpInsert {T} position item.
Arguments OpQuery {T} position.
Arguments OpQueryRadius {T} position radius.
Arguments OpClear {T}.
Arguments OpSize {T}.

Inductive GridResult (T : Type) : Type :=
| ResVoid
| ResItems (items : list T)
| ResCount (count : nat).
Arguments ResVoid {T}.
Arguments ResItems {T} items.
Arguments ResCount {T} count.

Definition applyOp {T} (op : GridOp T) (g : t T) : t T * GridResult T :=
  match op with
  | OpInsert position item => (insert position item g, ResVoid)
  | OpQuery position => (g, ResItems (query g position))
  | OpQueryRadius position radius => (g, ResItems (queryRadius g position radius))
  | OpClear => (clear g, ResVoid)
  | OpSize => (g, ResCount (size g))
  end.

(** The results of a sequence of calls on one grid object. *)
Fixpoint runOps {T} (ops : list (GridOp T)) (g : t T) : list (GridResult T) :=
  match ops with
  | [] => []
  | op :: ops' =>
      let '(g', result) := applyOp op g in
      result :: runOps ops' g'
  end.

End SpatialGrid.

(** ** Effects: [Math.random], [Date.now], exceptions *)

(** The values returned by the successive calls of [Math.random()] and of
    [Date.now() / 1000]. *)
Record Oracle := {
  random : nat -> Q;
  now : nat -> Q
}.

(** The state of the runtime outside any object: how many values of each
    oracle sequence were consumed, and the static counter [Star.nextId]. *)
Record World := {
  rngPos : nat;
  clockPos : nat;
  nextId : nat
}.

(** A computation over a state [S] that returns normally or raises a
    [TypeError]; in both cases the mutations made so far persist. *)
Inductive Res (S A : Type) : Type :=
| Ok (a : A) (s : S)
| Throw (s : S).
Arguments Ok {S A} a s.
Arguments Throw {S A} s.

Definition M (S A : Type) : Type := S -> Res S A.

Definition ret {S A} (a : A) : M S A := fun s => Ok a s.
Definition bind {S A B} (m : M S A) (k : A -> M S B) : M S B :=
  fun s => match m s with
           | Ok a s' => k a s'
           | Throw s' => Throw s'
           end.
Definition get {S} : M S S := fun s => Ok s s.
Definition gets {S A} (f : S -> A) : M S A := fun s => Ok (f s) s.
Definition modify {S} (f : S -> S) : M S unit := fun s => Ok tt (f s).
Definition throwTypeError {S A} : M S A := fun s => Throw s.

#[global] Instance M_ret {S} : MRet (M S) := @ret S.
#[global] Instance M_bind {S} : MBind (M S) := fun A B k m => bind m k.

(** [for (const x of l) body(x)] *)
Fixpoint forEach {S A} (l : list A) (body : A -> M S unit) : M S unit :=
  match l with
  | [] => ret tt
  | x :: l' => bind (body x) (fun _ => forEach l' body)
  end.

(** The state a computation ends in, whether it returned or threw. *)
Definition finalState {S A} (r : Res S A) : S :=
  match r with
  | Ok _ s => s
  | Throw s => s
  end.

Definition threw {S A} (r : Res S A) : bool :=
  match r with
  | Ok _ _ => false
  | Throw _ => true
  end.

Section Runtime.
Variable E : Oracle.

Definition Math_random : M World Q :=
  fun w => Ok (random E (rngPos w))
              {| rngPos := S (rngPos w); clockPos := clockPos w;
                 nextId := nextId w |}.

(** [Date.now() / 1000] *)
Definition Date_now_seconds : M World Q :=
  fun w => Ok (now E (clockPos w))
              {| rngPos := rngPos w; clockPos := S (clockPos w);
                 nextId := nextId w |}.

(** [Star.nextId++] *)
Definition Star_nextId_incr : M World nat :=
  fun w => Ok (nextId w)
              {| rngPos := rngPos w; clockPos := clockPos w;
                 nextId := S (nextId w) |}.

End Runtime.

(** ** [SimulationSettings] *)

Inductive AgeProfile := Young | MiddleAged | Old.

Record GalaxyConfig := {
  gc_position : Vector3;
  gc_radius : Q;
  gc_arms : Q;
  gc_armCurveFactor : Q;
  gc_armWidthFactor : Q;
  gc_centralBulgeFraction : Q;
  gc_ageProfile : AgeProfile;
  gc_starCount : Q;
  gc_rotation : Vector3
}.

(** The fields of [SimulationSettings] that the simulation core reads.
    [galaxyConfigs] is kept as its first entry and the rest: the getter
    [maxConnectionDistance] dereferences [galaxyConfigs[0]], and the
    constructor of [NetworkManager] already evaluates that getter. *)
Record SimulationSettings := {
  activationChance : Q;
  deactivationChance : Q;
  centralBulgeRadius : Q;
  minDistanceFromCenter : Q;
  centralBulgeFraction : Q;
  armWidthFactor : Q;
  armCurveFactor : Q;
  activeStarScale : Q;
  activeStarColorMultiplier : Q;
  activeStarLightIntensity : Q;
  behindCloudOpacity : Q;
  insideCloudOpacity : Q;
  clearOpacity : Q;
  behindCloudLightIntensity : Q;
  insideCloudLightIntensity : Q;
  waveSpeed : Q;
  waveMaxRadius : Q;
  starBirthReplacementRatio : Q;
  starBirthPopulationThreshold : Q;
  maxStars : Q;
  galaxyConfigs0 : GalaxyConfig;
  galaxyConfigsRest : list GalaxyConfig;
  starMinLifetime : Q;
  starLifetimeRange : Q;
  starLifeSupportProbability : Q;
  starEmissionMinInterval : Q;
  starEmissionIntervalRange : Q;
  starAgingThreshold : Q;
  starAgingFadeFactor : Q;
  starMinAgingOpacity : Q;
  dustCloudMinRadius : Q;
  dustCloudRadiusRange : Q;
  spiralArmWidthMultiplier : Q;
  spiralYoungStarProbability : Q;
  spiralOldStarProbability : Q;
  youngStarBulgeProbability : Q;
  youngGalaxyYoungStarProbability : Q;
  oldGalaxyOldStarProbability : Q;
  starBirthTimeDivisor : Q
}.

Module Settings.
Local Open Scope Q_scope.

Definition galaxyConfigs (s : SimulationSettings) : list GalaxyConfig :=
  galaxyConfigs0 s :: galaxyConfigsRest s.

(** [get maxConnectionDistance()] *)
Definition maxConnectionDistance (s : SimulationSettings) : Q :=
  let config := galaxyConfigs0 s in
  gc_armWidthFactor config * gc_radius config * spiralArmWidthMultiplier s
  * (4 # 10).

End Settings.

(** ** Entities: [Star], [RadioWave], [Connection], [DustCloud] *)

(** What was last assigned to [mesh.material.color]. *)
Inductive Colour :=
| BaseColour                    (* [this.color] / [copy(this.baseColor)] *)
| ActiveColour (multiplier : Q) (* [baseColor * activeStarColorMultiplier] *)
| InsideCloudColour             (* [baseColor * 0.3], red channel * 1.5 *)
| BehindCloudColour.            (* [baseColor * 0.1], red channel * 2.0 *)

(** The part of the three.js mesh that the entity code reads and writes:
    material opacity and colour, uniform scale, and the intensity of the
    only child (the point light) when there is one. *)
Record Mesh := {
  opacity : Q;
  scale : Q;
  colour : Colour;
  light : option Q
}.

(** A colour produced by [new THREE.Color().setHSL(h, s, l)]. *)
Record HSL := { hue : Q; saturation : Q; lightness : Q }.

(** The field [id] is not stored: it is the key under which the object
    lives in the heap of the [NetworkManager] (see [newStar]). *)
Record Star := {
  position : Vector3;
  galaxyCenter : Vector3;
  baseColor : HSL;
  mesh : Mesh;
  age : Q;
  lifetime : Q;
  hasDormantPlanet : bool;
  isActive : bool;
  activationTime : option Q;
  emissionTimer : Q;
  emissionInterval : Q;
  isEmitting : bool;
  canSupportLife : bool;
  isGoingSupernova : bool;
  isObscured : bool
}.

Record RadioWave := {
  wave_star : nat;
  wave_origin : Vector3;
  wave_radius : Q;
  wave_maxRadius : Q;
  wave_speed : Q;
  wave_isActive : bool
}.

(** [star1] and [star2] are references to [Star] objects. *)
Record Connection := {
  star1 : nat;
  star2 : nat
}.

Record DustCloud := {
  cloud_position : Vector3;
  cloud_radius : Q
}.

(** What a caller passes as [galaxyCenter] to the constructor of [Star]
    (and as [center] to [createSpiralGalaxy]): [initializeGalaxy] passes a
    [Vector3]; the birth branch of [update] passes [galaxy.config], a
    [GalaxyConfig] object literal. *)
Inductive CenterArg :=
| CenterVector (v : Vector3)
| CenterConfig (c : GalaxyConfig).

Module Entities.
Local Open Scope Q_scope.

Definition set_mesh (v : Mesh) (s : Star) : Star :=
  Build_Star (position s) (galaxyCenter s) (baseColor s) v (age s)
    (lifetime s) (hasDormantPlanet s) (isActive s) (activationTime s)
    (emissionTimer s) (emissionInterval s) (isEmitting s) (canSupportLife s)
    (isGoingSupernova s) (isObscured s).
Definition set_age (v : Q) (s : Star) : Star :=
  Build_Star (position s) (galaxyCenter s) (baseColor s) (mesh s) v
    (lifetime s) (hasDormantPlanet s) (isActive s) (activationTime s)
    (emissionTimer s) (emissionInterval s) (isEmitting s) (canSupportLife s)
    (isGoingSupernova s) (isObscured s).
Definition set_hasDormantPlanet (v : bool) (s : Star) : Star :=
  Build_Star (position s) (galaxyCenter s) (baseColor s) (mesh s) (age s) (lifetime s) v (isActive s) (activationTime s) (emissionTimer s)
    (emissionInterval s) (isEmitting s) (canSupportLife s) (isGoingSupernova s)
    (isObscured s).
Definition set_isActive (v : bool) (s : Star) : Star :=
  Build_Star (position s) (galaxyCenter s) (baseColor s) (mesh s) (age s) (lifetime s) (hasDormantPlanet s) v (activationTime s) (emissionTimer s)
    (emissionInterval s) (isEmitting s) (canSupportLife s) (isGoingSupernova s)
    (isObscured s).
Definition set_activationTime (v : option Q) (s : Star) : Star :=
  Build_Star (position s) (galaxyCenter s) (baseColor s) (mesh s) (age s) (lifetime s) (hasDormantPlanet s) (isActive s) v (emissionTimer s)
    (emissionInterval s) (isEmitting s) (canSupportLife s) (isGoingSupernova s)
    (isObscured s).
Definition set_emissionTimer (v : Q) (s : Star) : Star :=
  Build_Star (position s) (galaxyCenter s) (baseColor s) (mesh s) (age s) (lifetime s) (hasDormantPlanet s) (isActive s) (activationTime s) v
    (emissionInterval s) (isEmitting s) (canSupportLife s) (isGoingSupernova s)
    (isObscured s).
Definition set_isEmitting (v : bool) (s : Star) : Star :=
  Build_Star (position s) (galaxyCenter s) (baseColor s) (mesh s) (age s) (lifetime s) (hasDormantPlanet s) (isActive s) (activationTime s)
    (emissionTimer s) (emissionInterval s) v (canSupportLife s)
    (isGoingSupernova s) (isObscured s).
Definition set_isGoingSupernova (v : bool) (s : Star) : Star :=
  Build_Star (position s) (galaxyCenter s) (baseColor s) (mesh s) (age s) (lifetime s) (hasDormantPlanet s) (isActive s) (activationTime s)
    (emissionTimer s) (emissionInterval s) (isEmitting s) (canSupportLife s) v
    (isObscured s).
Definition set_isObscured (v : bool) (s : Star) : Star :=
  Build_Star (position s) (galaxyCenter s) (baseColor s) (mesh s) (age s) (lifetime s) (hasDormantPlanet s) (isActive s) (activationTime s)
    (emissionTimer s) (emissionInterval s) (isEmitting s) (canSupportLife s)
    (isGoingSupernova s) v.
Definition set_opacity (v : Q) (m : Mesh) : Mesh :=
  Build_Mesh v (scale m) (colour m) (light m).
Definition set_scale (v : Q) (m : Mesh) : Mesh :=
  Build_Mesh (opacity m) v (colour m) (light m).
Definition set_colour (v : Colour) (m : Mesh) : Mesh :=
  Build_Mesh (opacity m) (scale m) v (light m).
Definition set_light (v : option Q) (m : Mesh) : Mesh :=
  Build_Mesh (opacity m) (scale m) (colour m) v.

Section WithOracle.
Variable E : Oracle.
Variable settings : SimulationSettings.

(** *** class [Star] *)

Definition spectral (h0 hRange s l : Q) : M World HSL :=
  u ← Math_random E; mret {| hue := h0 + u * hRange; saturation := s; lightness := l |}.
Definition M_type := spectral 0 (5 # 100) 1 (4 # 10).
Definition K_type := spectral (5 # 100) (8 # 100) (9 # 10) (5 # 10).
Definition G_type := spectral (13 # 100) (5 # 100) (8 # 10) (65 # 100).
Definition F_type := spectral (15 # 100) (5 # 100) (5 # 10) (8 # 10).
Definition A_type : M World HSL :=
  mret {| hue := 55 # 100; saturation := 2 # 10; lightness := 95 # 100 |}.
Definition B_type : M World HSL :=
  mret {| hue := 58 # 100; saturation := 6 # 10; lightness := 85 # 100 |}.
Definition O_type := spectral (6 # 10) (5 # 100) (9 # 10) (7 # 10).

Definition generateStarColor (colorProfile : AgeProfile) : M World HSL :=
  rand ← Math_random E;
  match colorProfile with
  | Old =>
      if Qltb rand (60 # 100) then M_type
      else if Qltb rand (85 # 100) then K_type
      else if Qltb rand (95 # 100) then G_type
      else F_type
  | Young =>
      if Qltb rand (30 # 100) then M_type
      else if Qltb rand (50 # 100) then K_type
      else if Qltb rand (65 # 100) then G_type
      else if Qltb rand (80 # 100) then F_type
      else if Qltb rand (90 # 100) then A_type
      else if Qltb rand (97 # 100) then B_type
      else O_type
  | MiddleAged =>
      if Qltb rand (76 # 100) then M_type
      else if Qltb rand (88 # 100) then K_type
      else if Qltb rand (96 # 100) then G_type
      else if Qltb rand (99 # 100) then F_type
      else if Qltb rand (996 # 1000) then A_type
      else if Qltb rand (999 # 1000) then B_type
      else O_type
  end.

(** [createStarMesh]: no light by default. *)
Definition createStarMesh : Mesh :=
  {| opacity := clearOpacity settings; scale := 1; colour := BaseColour;
     light := None |}.

(** [galaxyCenter.clone()]: a [Vector3] has the method; a [GalaxyConfig]
    object literal has no [clone] property, and calling it raises
    [TypeError]. *)
Definition clone (galaxyCenter : CenterArg) : M World Vector3 :=
  match galaxyCenter with
  | CenterVector v => mret v
  | CenterConfig _ => throwTypeError
  end.

(** [new Star(position, galaxyCenter, colorProfile, settings)]: the new
    object together with its [id]. *)
Definition newStar (position : Vector3) (galaxyCenter : CenterArg)
    (colorProfile : AgeProfile) : M World (nat * Star) :=
  id ← Star_nextId_incr;
  galaxyCenter ← clone galaxyCenter;
  color ← generateStarColor colorProfile;
  let mesh := createStarMesh in
  u ← Math_random E;
  let lifetime := starMinLifetime settings + u * starLifetimeRange settings in
  u ← Math_random E;
  let canSupportLife := Qgtb u (1 - starLifeSupportProbability settings) in
  u ← Math_random E;
  let emissionTimer := u * starEmissionIntervalRange settings in
  u ← Math_random E;
  let emissionInterval :=
    u * starEmissionIntervalRange settings + starEmissionMinInterval settings in
  mret (id,
        {| position := position; galaxyCenter := galaxyCenter;
          baseColor := color; mesh := mesh; age := 0; lifetime := lifetime;
          hasDormantPlanet := false; isActive := false;
          activationTime := None; emissionTimer := emissionTimer;
          emissionInterval := emissionInterval; isEmitting := false;
          canSupportLife := canSupportLife; isGoingSupernova := false;
          isObscured := false |}).

Definition addLight (st : Star) : Star :=
  match light (mesh st) with
  | None => set_mesh (set_light (Some (activeStarLightIntensity settings)) (mesh st)) st
  | Some _ => st
  end.

Definition removeLight (st : Star) : Star :=
  match light (mesh st) with
  | Some _ => set_mesh (set_light None (mesh st)) st
  | None => st
  end.

(** [distanceFromCenter >= this.settings.minDistanceFromCenter], where
    [distanceFromCenter = Math.sqrt(dx * dx + dz * dz)]. *)
Definition outsideCentralBulge (st : Star) : bool :=
  sqrt_geb (Vec.planarDistanceSquared (position st) (galaxyCenter st))
           (minDistanceFromCenter settings).

(** The body of the activation branch of [Star.update]. *)
Definition activate (t : Q) (st : Star) : Star :=
  let st := set_isActive true st in
  let st := set_activationTime (Some t) st in
  let st := set_emissionTimer 0 st in
  let st := set_mesh (set_scale (activeStarScale settings) (mesh st)) st in
  let st := addLight st in
  set_mesh (set_colour (ActiveColour (activeStarColorMultiplier settings)) (mesh st)) st.

(** The body of the dormancy branch of [Star.update]. *)
Definition deactivate (st : Star) : Star :=
  let st := set_isActive false st in
  let st := set_isEmitting false st in
  let st := set_activationTime None st in
  let st := set_hasDormantPlanet true st in
  let st := set_mesh (set_scale 1 (mesh st)) st in
  let st := removeLight st in
  set_mesh (set_colour BaseColour (mesh st)) st.

(** [Star.update(deltaTime)] *)
Definition Star_update (deltaTime : Q) (st : Star) : M World Star :=
  let st := set_age (age st + deltaTime) st in
  goesSupernova ←
    (if Qgeb (age st) (lifetime st) && negb (isGoingSupernova st)
     then u ← Math_random E; mret (Qltb u (activationChance settings))
     else mret false);
  if goesSupernova : bool then mret (set_isGoingSupernova true st)
  else
    let lifeFraction := age st / lifetime st in
    let st :=
      if Qgtb lifeFraction (starAgingThreshold settings) then
        let fadeFactor :=
          1 - (lifeFraction - starAgingThreshold settings)
              * starAgingFadeFactor settings in
        set_mesh (set_opacity (Qmax (starMinAgingOpacity settings)
                                    (fadeFactor * clearOpacity settings))
                              (mesh st)) st
      else st in
    if negb (isActive st) && negb (hasDormantPlanet st) && canSupportLife st
    then
      if outsideCentralBulge st then
        u ← Math_random E;
        if Qltb u (activationChance settings * deltaTime) then
          t ← Date_now_seconds E; mret (activate t st)
        else mret st
      else mret st
    else if isActive st then
      u ← Math_random E;
      let st :=
        if Qltb u (deactivationChance settings * deltaTime)
        then deactivate st else st in
      let st := set_emissionTimer (emissionTimer st - deltaTime) st in
      if Qle_bool (emissionTimer st) 0 then
        let st := if outsideCentralBulge st then set_isEmitting true st else st in
        mret (set_emissionTimer (emissionInterval st) st)
      else mret st
    else mret st.

(** [consumeEmission()]: the returned flag and the star afterwards. *)
Definition consumeEmission (st : Star) : bool * Star :=
  let wasEmitting := isEmitting st in
  (wasEmitting, set_isEmitting false st).

Definition isAlive (st : Star) : bool := Qltb (age st) (lifetime st).

Definition setLightIntensity (v : Q) (st : Star) : Star :=
  match light (mesh st) with
  | Some _ => set_mesh (set_light (Some v) (mesh st)) st
  | None => st
  end.

(** [applyDustObscuration(insideCloud, behindCloud)] *)
Definition applyDustObscuration (insideCloud behindCloud : bool) (st : Star)
    : Star :=
  let obscured := insideCloud || behindCloud in
  if Bool.eqb obscured (isObscured st) then st
  else
    let st := set_isObscured obscured st in
    if behindCloud then
      let st := set_mesh (set_opacity (behindCloudOpacity settings) (mesh st)) st in
      let st := set_mesh (set_colour BehindCloudColour (mesh st)) st in
      setLightIntensity (behindCloudLightIntensity settings) st
    else if insideCloud then
      let st := set_mesh (set_opacity (insideCloudOpacity settings) (mesh st)) st in
      let st := set_mesh (set_colour InsideCloudColour (mesh st)) st in
      setLightIntensity (insideCloudLightIntensity settings) st
    else
      let st := set_mesh (set_opacity (clearOpacity settings) (mesh st)) st in
      let st :=
        if isActive st
        then set_mesh (set_colour (ActiveColour (activeStarColorMultiplier settings))
                                  (mesh st)) st
        else set_mesh (set_colour BaseColour (mesh st)) st in
      setLightIntensity (activeStarLightIntensity settings) st.

(** *** class [RadioWave] *)

(** [new RadioWave(star, settings)] *)
Definition newRadioWave (star : nat) (st : Star) : RadioWave :=
  {| wave_star := star; wave_origin := position st; wave_radius := 0;
     wave_maxRadius := waveMaxRadius settings;
     wave_speed := waveSpeed settings; wave_isActive := true |}.

(** [RadioWave.update(deltaTime)] *)
Definition RadioWave_update (deltaTime : Q) (w : RadioWave) : RadioWave :=
  let radius := wave_radius w + wave_speed w * deltaTime in
  {| wave_star := wave_star w; wave_origin := wave_origin w;
     wave_radius := radius; wave_maxRadius := wave_maxRadius w;
     wave_speed := wave_speed w;
     wave_isActive :=
       if Qgeb radius (wave_maxRadius w) then false else wave_isActive w |}.

End WithOracle.
End Entities.

(** ** class [NetworkManager] *)

(** An entry of [lastGalaxies]. *)
Record GalaxyRecord := {
  lg_center : Vector3;
  lg_radius : Q;
  lg_arms : Q;
  lg_count : Q;
  lg_config : option GalaxyConfig
}.

(** [heap] holds every [Star] object constructed so far, keyed by id;
    [stars] and the two ends of a [Connection] refer into it.  [world] is
    the runtime state shared with the entity code.  [supernovaFlashes]
    counts the invocations of the hook [onSupernovaFlash]. *)
Record NetworkManager := {
  settings : SimulationSettings;
  world : World;
  heap : gmap nat Star;
  stars : list nat;
  waves : list RadioWave;
  connections : list Connection;
  dustClouds : list DustCloud;
  lastGalaxies : list GalaxyRecord;
  waveGrid : SpatialGrid.t RadioWave;
  dustGrid : SpatialGrid.t DustCloud;
  starGrid : SpatialGrid.t nat;
  supernovaFlashes : nat
}.

(** The geometry of the procedural placement ([Math.pow], [Math.cos],
    [Math.sin], [Math.acos], Euler rotation) is not rational arithmetic;
    it enters as three functions of the uniform draws of one loop
    iteration of [createSpiralGalaxy]. *)
Record Geometry := {
  (** bulge loop: [new Vector3(x, y, z)] from the draws for [theta],
      [phi] and [r] *)
  bulgeStarPosition :
    SimulationSettings -> CenterArg -> option GalaxyConfig ->
    Q -> Q -> Q -> Vector3;
  (** arm loop: [r < radius * spiralYoungStarRadiusFraction], from the
      draw for [t] *)
  armStarIsInner : SimulationSettings -> option Q -> Q -> bool;
  (** arm loop: [new Vector3(x, y, z)] from the draws for [t],
      [armIndex], the angle jitter, [perpNoise] and the height *)
  armStarPosition :
    SimulationSettings -> CenterArg -> option Q -> option Q ->
    option GalaxyConfig -> Q -> Q -> Q -> Q -> Q -> Vector3
}.

Module Manager.
Import Entities.
Local Open Scope Q_scope.

Definition set_world (v : World) (nm : NetworkManager) : NetworkManager :=
  Build_NetworkManager (settings nm) v (heap nm) (stars nm) (waves nm)
    (connections nm) (dustClouds nm) (lastGalaxies nm) (waveGrid nm) (dustGrid nm) (starGrid nm) (supernovaFlashes nm).
Definition set_heap (v : gmap nat Star) (nm : NetworkManager) : NetworkManager :=
  Build_NetworkManager (settings nm) (world nm) v (stars nm) (waves nm)
    (connections nm) (dustClouds nm) (lastGalaxies nm) (waveGrid nm) (dustGrid nm) (starGrid nm) (supernovaFlashes nm).
Definition set_stars (v : list nat) (nm : NetworkManager) : NetworkManager :=
  Build_NetworkManager (settings nm) (world nm) (heap nm) v (waves nm)
    (connections nm) (dustClouds nm) (lastGalaxies nm) (waveGrid nm) (dustGrid nm) (starGrid nm) (supernovaFlashes nm).
Definition set_waves (v : list RadioWave) (nm : NetworkManager) : NetworkManager :=
  Build_NetworkManager (settings nm) (world nm) (heap nm) (stars nm) v
    (connections nm) (dustClouds nm) (lastGalaxies nm) (waveGrid nm) (dustGrid nm) (starGrid nm) (supernovaFlashes nm).
Definition set_connections (v : list Connection) (nm : NetworkManager) : NetworkManager :=
  Build_NetworkManager (settings nm) (world nm) (heap nm) (stars nm) (waves nm) v (dustClouds nm) (lastGalaxies nm) (waveGrid nm) (dustGrid nm)
    (starGrid nm) (supernovaFlashes nm).
Definition set_dustClouds (v : list DustCloud) (nm : NetworkManager) : NetworkManager :=
  Build_NetworkManager (settings nm) (world nm) (heap nm) (stars nm) (waves nm) (connections nm) v (lastGalaxies nm) (waveGrid nm) (dustGrid nm)
    (starGrid nm) (supernovaFlashes nm).
Definition set_lastGalaxies (v : list GalaxyRecord) (nm : NetworkManager) : NetworkManager :=
  Build_NetworkManager (settings nm) (world nm) (heap nm) (stars nm) (waves nm) (connections nm) (dustClouds nm) v (waveGrid nm) (dustGrid nm)
    (starGrid nm) (supernovaFlashes nm).
Definition set_waveGrid (v : SpatialGrid.t RadioWave) (nm : NetworkManager) : NetworkManager :=
  Build_NetworkManager (settings nm) (world nm) (heap nm) (stars nm) (waves nm) (connections nm) (dustClouds nm) (lastGalaxies nm) v (dustGrid nm)
    (starGrid nm) (supernovaFlashes nm).
Definition set_dustGrid (v : SpatialGrid.t DustCloud) (nm : NetworkManager) : NetworkManager :=
  Build_NetworkManager (settings nm) (world nm) (heap nm) (stars nm) (waves nm) (connections nm) (dustClouds nm) (lastGalaxies nm) (waveGrid nm) v
    (starGrid nm) (supernovaFlashes nm).
Definition set_starGrid (v : SpatialGrid.t nat) (nm : NetworkManager) : NetworkManager :=
  Build_NetworkManager (settings nm) (world nm) (heap nm) (stars nm) (waves nm) (connections nm) (dustClouds nm) (lastGalaxies nm) (waveGrid nm)
    (dustGrid nm) v (supernovaFlashes nm).
Definition set_supernovaFlashes (v : nat) (nm : NetworkManager) : NetworkManager :=
  Build_NetworkManager (settings nm) (world nm) (heap nm) (stars nm) (waves nm) (connections nm) (dustClouds nm) (lastGalaxies nm) (waveGrid nm)
    (dustGrid nm) (starGrid nm) v.

#[global] Instance Star_inhabited : Inhabited Star :=
  populate {| position := V3 0 0 0; galaxyCenter := V3 0 0 0;
              baseColor := {| hue := 0; saturation := 0; lightness := 0 |};
              mesh := {| opacity := 0; scale := 0; colour := BaseColour;
                         light := None |};
              age := 0; lifetime := 0; hasDormantPlanet := false;
              isActive := false; activationTime := None; emissionTimer := 0;
              emissionInterval := 0; isEmitting := false;
              canSupportLife := false; isGoingSupernova := false;
              isObscured := false |}.

(** Dereference of a [Star] reference. *)
Definition deref (nm : NetworkManager) (star : nat) : Star := heap nm !!! star.

(** In-place mutation of the object behind a reference. *)
Definition mutate (star : nat) (f : Star -> Star) (nm : NetworkManager)
    : NetworkManager :=
  set_heap (alter f star (heap nm)) nm.

(** Run entity code on the runtime state of the manager. *)
Definition liftW {A} (m : M World A) : M NetworkManager A :=
  fun nm => match m (world nm) with
            | Ok a w => Ok a (set_world w nm)
            | Throw w => Throw (set_world w nm)
            end.

(** A backward loop [for (i = l.length - 1; i >= 0; i--)] that removes
    with [l.splice(i, 1)] the elements failing [keep]: what remains. *)
Definition spliceBackward {A} (keep : A -> bool) (l : list A) : list A :=
  fold_right (fun x kept => if keep x then x :: kept else kept) [] l.

(** [new NetworkManager(scene, settings)], after [settings.sanitize()]. *)
Definition new (settings : SimulationSettings) (w : World) : NetworkManager :=
  {| settings := settings; world := w; heap := ∅; stars := []; waves := [];
     connections := []; dustClouds := []; lastGalaxies := [];
     waveGrid := SpatialGrid.new (waveMaxRadius settings * 2)
                   (V3 (-1000) (-100) (-1000)) (V3 1000 100 1000);
     dustGrid := SpatialGrid.new
                   (dustCloudMinRadius settings + dustCloudRadiusRange settings)
                   (V3 (-1000) (-100) (-1000)) (V3 1000 100 1000);
     starGrid := SpatialGrid.new (Settings.maxConnectionDistance settings)
                   (V3 (-1000) (-100) (-1000)) (V3 1000 100 1000);
     supernovaFlashes := 0 |}.

Definition clearSceneObjects (nm : NetworkManager) : NetworkManager :=
  let nm := set_stars [] nm in
  let nm := set_waves [] nm in
  let nm := set_connections [] nm in
  let nm := set_dustClouds [] nm in
  let nm := set_waveGrid (SpatialGrid.clear (waveGrid nm)) nm in
  let nm := set_dustGrid (SpatialGrid.clear (dustGrid nm)) nm in
  set_starGrid (SpatialGrid.clear (starGrid nm)) nm.

(** The three statements that close every loop body of
    [generateDustClouds], for the cloud the body has built. *)
Definition placeDustCloud (cloud : DustCloud) (nm : NetworkManager)
    : NetworkManager :=
  let nm := set_dustClouds (dustClouds nm ++ [cloud]) nm in
  set_dustGrid (SpatialGrid.insert (cloud_position cloud) cloud (dustGrid nm)) nm.

Definition addWave (wave : RadioWave) (nm : NetworkManager) : NetworkManager :=
  set_waves (waves nm ++ [wave]) nm.

(** [isStarInDustCloud(star)]: [distance < cloud.radius] for some cloud. *)
Definition isStarInDustCloud (nm : NetworkManager) (star : nat) : bool :=
  existsb (fun cloud =>
             sqrt_ltb (Vec.distanceToSquared (position (deref nm star))
                                             (cloud_position cloud))
                      (cloud_radius cloud))
          (dustClouds nm).

(** One iteration of the loop of [isBlockedByDust], [true] when it
    returns [true].  With [d = pointB - pointA] (the direction before
    [normalize()]) and [length = Math.sqrt(d.d)], the normalised direction
    is [d / length] (the zero vector when [length] is 0), so that
    - [projectionLength = toCloud.d / length],
    - [projectionLength < 0] exactly when [toCloud.d < 0],
    - [projectionLength > length] exactly when [toCloud.d > d.d],
    - [closestPoint = pointA + d * (toCloud.d / d.d)].
    [cloudBlocks_real] proves this against the literal reading. *)
Definition cloudBlocks (pointA pointB : Vector3) (cloud : DustCloud) : bool :=
  let d := Vec.subVectors pointB pointA in
  let lengthSquared := Vec.dot d d in
  let toCloud := Vec.subVectors (cloud_position cloud) pointA in
  let projection := Vec.dot toCloud d in
  if Qltb projection 0 || Qgtb projection lengthSquared then false
  else
    let closestPoint :=
      Vec.addScaledVector pointA d (projection / lengthSquared) in
    sqrt_ltb (Vec.distanceToSquared closestPoint (cloud_position cloud))
             (cloud_radius cloud).

(** [isBlockedByDust(pointA, pointB)] *)
Definition isBlockedByDust (nm : NetworkManager) (pointA pointB : Vector3)
    : bool :=
  existsb (cloudBlocks pointA pointB) (dustClouds nm).

(** [c.star1.id === a.id && c.star2.id === b.id || ...] *)
Definition connects (starA starB : nat) (c : Connection) : bool :=
  (star1 c =? starA)%nat && (star2 c =? starB)%nat
  || (star1 c =? starB)%nat && (star2 c =? starA)%nat.

(** [createConnection(starA, starB)] *)
Definition createConnection (starA starB : nat) (nm : NetworkManager)
    : NetworkManager :=
  let existingConnection := existsb (connects starA starB) (connections nm) in
  if existingConnection then nm
  else
    let distanceSquared :=
      Vec.distanceToSquared (position (deref nm starA))
                            (position (deref nm starB)) in
    if sqrt_gtb distanceSquared (Settings.maxConnectionDistance (settings nm))
    then nm
    else if isStarInDustCloud nm starA || isStarInDustCloud nm starB then nm
    else if isBlockedByDust nm (position (deref nm starA))
                               (position (deref nm starB)) then nm
    else set_connections
           (connections nm ++ [{| star1 := starA; star2 := starB |}]) nm.

Section WithOracle.
Variable E : Oracle.
Variable G : Geometry.

(** [const star = new Star(...); this.stars.push(star)] *)
Definition pushNewStar (position : Vector3) (center : CenterArg)
    (profile : AgeProfile) : M NetworkManager unit :=
  s ← gets settings;
  '(star, st) ← liftW (newStar E s position center profile);
  modify (fun nm => set_stars (stars nm ++ [star])
                      (set_heap (<[star := st]> (heap nm)) nm)).

(** One iteration of the loop over the central bulge. *)
Definition bulgeStar (center : CenterArg) (config : option GalaxyConfig)
    (ageProfile : AgeProfile) : M NetworkManager unit :=
  s ← gets settings;
  theta ← liftW (Math_random E);
  phi ← liftW (Math_random E);
  r ← liftW (Math_random E);
  let position := bulgeStarPosition G s center config theta phi r in
  u ← liftW (Math_random E);
  let profile :=
    match ageProfile with
    | Young => if Qltb u (youngStarBulgeProbability s) then Young else MiddleAged
    | _ => if Qltb u (spiralOldStarProbability s) then Old else MiddleAged
    end in
  pushNewStar position center profile.

(** One iteration of the loop over the spiral arms. *)
Definition armStar (center : CenterArg) (radius arms : option Q)
    (config : option GalaxyConfig) (ageProfile : AgeProfile)
    : M NetworkManager unit :=
  s ← gets settings;
  t ← liftW (Math_random E);
  armIndex ← liftW (Math_random E);
  jitter ← liftW (Math_random E);
  perpNoise ← liftW (Math_random E);
  height ← liftW (Math_random E);
  let position :=
    armStarPosition G s center radius arms config t armIndex jitter perpNoise
                    height in
  let inner := armStarIsInner G s radius t in
  profile ←
    match ageProfile with
    | Young =>
        if inner then mret Young
        else u ← liftW (Math_random E);
             mret (if Qltb u (youngGalaxyYoungStarProbability s)
                   then Young else MiddleAged)
    | Old =>
        u ← liftW (Math_random E);
        mret (if Qltb u (oldGalaxyOldStarProbability s) then Old else MiddleAged)
    | MiddleAged =>
        if inner then mret Young
        else u ← liftW (Math_random E);
             mret (if Qltb u (spiralYoungStarProbability s)
                   then Young else MiddleAged)
    end;
  pushNewStar position center profile.

(** [createSpiralGalaxy(center, count, radius, arms, config)]; an
    argument the caller leaves out is [None]. *)
Definition createSpiralGalaxy (center : CenterArg) (count : Q)
    (radius arms : option Q) (config : option GalaxyConfig)
    : M NetworkManager unit :=
  s ← gets settings;
  let bulgeFraction :=
    match config with
    | Some c => gc_centralBulgeFraction c
    | None => centralBulgeFraction s
    end in
  let ageProfile :=
    match config with
    | Some c => gc_ageProfile c
    | None => MiddleAged
    end in
  let bulgeCount := inject_Z (Qfloor (count * bulgeFraction)) in
  let armCount := count - bulgeCount in
  forEach (seq 0 (loopCount bulgeCount))
          (fun _ => bulgeStar center config ageProfile);;
  forEach (seq 0 (loopCount armCount))
          (fun _ => armStar center radius arms config ageProfile).

(** [initializeGalaxy()], without the arm glow sprites. *)
Definition initializeGalaxy : M NetworkManager unit :=
  modify clearSceneObjects;;
  modify (set_lastGalaxies []);;
  s ← gets settings;
  forEach (Settings.galaxyConfigs s)
    (fun config =>
       let center := gc_position config in
       let galaxyStarCount := Qmin (gc_starCount config) (maxStars s) in
       createSpiralGalaxy (CenterVector center) galaxyStarCount
                          (Some (gc_radius config)) (Some (gc_arms config))
                          (Some config);;
       modify (fun nm =>
                 set_lastGalaxies
                   (lastGalaxies nm ++
                    [{| lg_center := center; lg_radius := gc_radius config;
                        lg_arms := gc_arms config;
                        lg_count := galaxyStarCount;
                        lg_config := Some config |}]) nm)).

(** *** The phases of [update(deltaTime)] *)

(** The body of the first loop: update one star, emit its wave, consume
    its supernova flag. *)
Definition updateStar (deltaTime : Q) (star : nat) : M NetworkManager unit :=
  s ← gets settings;
  st ← gets (fun nm => deref nm star);
  st ← liftW (Star_update E s deltaTime st);
  let '(wasEmitting, st) := consumeEmission st in
  modify (mutate star (fun _ => st));;
  (if wasEmitting then modify (addWave (newRadioWave s star st)) else mret tt);;
  if isGoingSupernova st then
    modify (mutate star (set_isGoingSupernova false));;
    modify (fun nm => set_supernovaFlashes (S (supernovaFlashes nm)) nm)
  else mret tt.

Definition updateStars (deltaTime : Q) : M NetworkManager unit :=
  l ← gets stars;
  forEach l (updateStar deltaTime).

(** The backward loop that removes the dead stars: the ids it collects in
    [deadStars], and what is left of [this.stars].  The disposal of the
    mesh of a dead star is rendering and is left out. *)
Definition deadStarsOf (nm : NetworkManager) : gset nat :=
  fold_right (fun star dead =>
                if isAlive (deref nm star) then dead else {[star]} ∪ dead)
             ∅ (stars nm).

Definition removeDeadStars (nm : NetworkManager) : NetworkManager :=
  set_stars (spliceBackward (fun star => isAlive (deref nm star)) (stars nm)) nm.

(** [lastGalaxies[galaxyIndex]] *)
Definition galaxyAt (nm : NetworkManager) (galaxyIndex : Z)
    : option GalaxyRecord :=
  if (galaxyIndex <? 0)%Z then None
  else lastGalaxies nm !! Z.to_nat galaxyIndex.

(** Star birth. *)
Definition starBirth (deltaTime : Q) : M NetworkManager unit :=
  nm ← get;
  let s := settings nm in
  let population := inject_Z (Z.of_nat (length (stars nm))) in
  if Qltb population (maxStars s)
     && Qltb population (starBirthPopulationThreshold s)
  then
    u ← liftW (Math_random E);
    if Qltb u (starBirthReplacementRatio s * deltaTime / starBirthTimeDivisor s)
    then
      u ← liftW (Math_random E);
      let galaxyIndex :=
        Qfloor (u * inject_Z (Z.of_nat (length (lastGalaxies nm)))) in
      match galaxyAt nm galaxyIndex with
      | None => throwTypeError          (* [galaxy.config] of [undefined] *)
      | Some galaxy =>
          match lg_config galaxy with
          | Some config =>
              createSpiralGalaxy (CenterConfig config) 1 None None None
          | None => mret tt
          end
      end
    else mret tt
  else mret tt.

(** The backward loop that removes the connections of inactive or dead
    stars. *)
Definition connectionSurvives (nm : NetworkManager) (deadStars : gset nat)
    (conn : Connection) : bool :=
  negb (negb (isActive (deref nm (star1 conn)))
        || negb (isActive (deref nm (star2 conn)))
        || bool_decide (star1 conn ∈ deadStars)
        || bool_decide (star2 conn ∈ deadStars)).

Definition pruneConnections (deadStars : gset nat) (nm : NetworkManager)
    : NetworkManager :=
  set_connections
    (spliceBackward (connectionSurvives nm deadStars) (connections nm)) nm.

(** The backward loop over the waves, and the rebuilding of the wave
    grid. *)
Definition updateWaves (deltaTime : Q) (nm : NetworkManager) : NetworkManager :=
  set_waves (spliceBackward wave_isActive
               (map (RadioWave_update deltaTime) (waves nm))) nm.

Definition rebuildWaveGrid (nm : NetworkManager) : NetworkManager :=
  set_waveGrid
    (SpatialGrid.insertAll (map (fun w => (wave_origin w, w)) (waves nm))
                           (SpatialGrid.clear (waveGrid nm))) nm.

(** [this.stars.filter(s => s.isActive && s.activationTime !== null)] *)
Definition activeStars (nm : NetworkManager) : list nat :=
  List.filter (fun star => isActive (deref nm star)
                           && bool_decide (is_Some (activationTime (deref nm star))))
              (stars nm).

Definition rebuildStarGrid (nm : NetworkManager) : NetworkManager :=
  set_starGrid
    (SpatialGrid.insertAll
       (map (fun star => (position (deref nm star), star)) (activeStars nm))
       (SpatialGrid.clear (starGrid nm))) nm.

(** [`${minId}-${maxId}`] *)
Definition pairKey (starA starB : nat) : nat * nat :=
  (Nat.min starA starB, Nat.max starA starB).

(** [timeForRoundTrip <= activeTime], where
    [timeForRoundTrip = (2 * distance) / waveSpeed] and [distance] is the
    square root of [distanceSquared]. *)
Definition roundTripElapsed (s : SimulationSettings) (distanceSquared : Q)
    (activeTime : Q) : bool :=
  scaled_sqrt_leb (2 / waveSpeed s) distanceSquared activeTime.

(** The body of the inner loop of the handshake, on the set
    [checkedPairs] and the manager. *)
Definition handshakePair (currentTime : Q) (starA starB : nat)
    (acc : gset (nat * nat) * NetworkManager) : gset (nat * nat) * NetworkManager :=
  let '(checkedPairs, nm) := acc in
  if decide (starA = starB) then acc
  else
    let key := pairKey starA starB in
    if decide (key ∈ checkedPairs) then acc
    else
      let checkedPairs := {[key]} ∪ checkedPairs in
      let s := settings nm in
      let distanceSquared :=
        Vec.distanceToSquared (position (deref nm starA))
                              (position (deref nm starB)) in
      if sqrt_gtb distanceSquared (Settings.maxConnectionDistance s)
      then (checkedPairs, nm)
      else
        match activationTime (deref nm starA), activationTime (deref nm starB) with
        | Some timeA, Some timeB =>
            let starAActiveTime := currentTime - timeA in
            let starBActiveTime := currentTime - timeB in
            if roundTripElapsed s distanceSquared starAActiveTime
               && roundTripElapsed s distanceSquared starBActiveTime
            then (checkedPairs, createConnection starA starB nm)
            else (checkedPairs, nm)
        | _, _ => (checkedPairs, nm)
        end.

(** The body of the outer loop of the handshake. *)
Definition handshakeStar (currentTime : Q) (starA : nat)
    (acc : gset (nat * nat) * NetworkManager) : gset (nat * nat) * NetworkManager :=
  let nm := acc.2 in
  let nearbyStars :=
    SpatialGrid.queryRadius (starGrid nm) (position (deref nm starA))
                            (Settings.maxConnectionDistance (settings nm)) in
  fold_left (fun acc starB => handshakePair currentTime starA starB acc)
            nearbyStars acc.

(** The two-way handshake between the active stars, at a given reading of
    the clock. *)
Definition handshakeAt (currentTime : Q) (nm : NetworkManager) : NetworkManager :=
  (fold_left (fun acc starA => handshakeStar currentTime starA acc)
             (activeStars nm) (∅, nm)).2.

Definition handshake : M NetworkManager unit :=
  currentTime ← liftW (Date_now_seconds E);
  modify (handshakeAt currentTime).

(** The body of the dust obscuration loop. *)
Definition isObscuredBy (position : Vector3) (cloud : DustCloud) : bool :=
  sqrt_leb (Vec.planarDistanceSquared position (cloud_position cloud))
           (cloud_radius cloud).

Definition nearbyClouds (nm : NetworkManager) (star : nat) : list DustCloud :=
  SpatialGrid.queryRadius (dustGrid nm) (position (deref nm star))
    (dustCloudMinRadius (settings nm) + dustCloudRadiusRange (settings nm)).

Definition obscureStar (nm : NetworkManager) (star : nat) : NetworkManager :=
  let isObscured :=
    existsb (isObscuredBy (position (deref nm star))) (nearbyClouds nm star) in
  mutate star (applyDustObscuration (settings nm) isObscured false) nm.

Definition dustObscuration (nm : NetworkManager) : NetworkManager :=
  fold_left obscureStar (stars nm) nm.

(** [update(deltaTime)] *)
Definition update (deltaTime : Q) : M NetworkManager unit :=
  updateStars deltaTime;;
  deadStars ← gets deadStarsOf;
  modify removeDeadStars;;
  starBirth deltaTime;;
  modify (pruneConnections deadStars);;
  modify (updateWaves deltaTime);;
  modify rebuildWaveGrid;;
  modify rebuildStarGrid;;
  handshake;;
  modify dustObscuration.

(** The tick up to the point where the dead stars have left
    [this.stars]; the result is the set [deadStars]. *)
Definition updateUntilStarsRemoved (deltaTime : Q) : M NetworkManager (gset nat) :=
  updateStars deltaTime;;
  deadStars ← gets deadStarsOf;
  modify removeDeadStars;;
  mret deadStars.

(** [getStats()] *)
Definition getStats (nm : NetworkManager) : nat * nat * nat * nat :=
  (length (stars nm),
   length (List.filter (fun star => isActive (deref nm star)) (stars nm)),
   length (waves nm), length (connections nm)).

End WithOracle.
End Manager.

(** ** The life of a star object *)

(** One call made on a star object: [update], or one of the other
    mutations that [NetworkManager.update] performs on it.  The settings
    object is shared and mutable, so it may differ from call to call. *)
Inductive StarStep : Star -> Star -> Prop :=
| step_update E settings deltaTime st w st' w' :
    Entities.Star_update E settings deltaTime st w = Ok st' w' ->
    StarStep st st'
| step_consumeEmission st :
    StarStep st (Entities.consumeEmission st).2
| step_supernovaHandled st :
    StarStep st (Entities.set_isGoingSupernova false st)
| step_applyDustObscuration settings insideCloud behindCloud st :
    StarStep st (Entities.applyDustObscuration settings insideCloud behindCloud st).

(** The states of a star object: fresh from the constructor, or after
    one more call. *)
Inductive StarReachable : Star -> Prop :=
| reach_new E settings position galaxyCenter colorProfile w star st w' :
    Entities.newStar E settings position galaxyCenter colorProfile w
    = Ok (star, st) w' ->
    StarReachable st
| reach_step st st' :
    StarReachable st -> StarStep st st' -> StarReachable st'.

(** ** The connection collection *)

(** The unordered pair of stars that a connection joins. *)
Definition unorderedPair (c : Connection) : nat * nat :=
  Manager.pairKey (star1 c) (star2 c).

(** At most one connection per unordered pair of stars. *)
Definition uniqueConnections (l : list Connection) : Prop :=
  NoDup (map unorderedPair l).

(** Some connection of the collection joins [starA] and [starB], in
    either orientation. *)
Definition connected (starA starB : nat) (l : list Connection) : Prop :=
  exists c, c ∈ l /\ Manager.connects starA starB c = true.

(** The states of a manager after any sequence of [update] and
    [createConnection] calls, started with an empty connection
    collection (as the constructor, [initializeGalaxy] and [reset] leave
    it).  An [update] that throws leaves the mutations made so far. *)
Inductive Reachable (E : Oracle) (G : Geometry) : NetworkManager -> Prop :=
| reach_start nm :
    connections nm = [] -> Reachable E G nm
| reach_update nm deltaTime :
    Reachable E G nm ->
    Reachable E G (finalState (Manager.update E G deltaTime nm))
| reach_createConnection nm starA starB :
    Reachable E G nm ->
    Reachable E G (Manager.createConnection starA starB nm).

(** ** The segment test of the specification *)

Module SegmentSpec.
Local Open Scope Q_scope.

Definition clamp01 (t : Q) : Q := Qmax 0 (Qmin 1 t).

(** The point of the segment from [pointA] to [pointB] that is closest
    to [center]: the projection of [center] on the line, clamped to the
    segment. *)
Definition closestPointOnSegment (pointA pointB center : Vector3) : Vector3 :=
  let d := Vec.subVectors pointB pointA in
  let t := Vec.dot (Vec.subVectors center pointA) d / Vec.dot d d in
  Vec.addScaledVector pointA d (clamp01 t).

(** The distance from that point to the centre of the cloud is at most
    the radius of the cloud. *)
Definition touchesCloud (pointA pointB : Vector3) (cloud : DustCloud) : bool :=
  sqrt_leb (Vec.distanceToSquared
              (closestPointOnSegment pointA pointB (cloud_position cloud))
              (cloud_position cloud))
           (cloud_radius cloud).

(** The same distance is strictly less than the radius. *)
Definition entersCloud (pointA pointB : Vector3) (cloud : DustCloud) : bool :=
  sqrt_ltb (Vec.distanceToSquared
              (closestPointOnSegment pointA pointB (cloud_position cloud))
              (cloud_position cloud))
           (cloud_radius cloud).

(** The position lies strictly inside the cloud. *)
Definition insideCloud (point : Vector3) (cloud : DustCloud) : bool :=
  sqrt_ltb (Vec.distanceToSquared point (cloud_position cloud))
           (cloud_radius cloud).

End SegmentSpec.

(** ** Concrete settings and scenes *)

Module Scenario.
Import Entities Manager.
Local Open Scope Q_scope.

(** The first entry of [galaxyConfigs] in the class initialiser. *)
Definition galaxy0 : GalaxyConfig :=
  {| gc_position := V3 (-450) (-120) (-150); gc_radius := 200; gc_arms := 3;
     gc_armCurveFactor := 5; gc_armWidthFactor := 55 # 10;
     gc_centralBulgeFraction := 15 # 100; gc_ageProfile := MiddleAged;
     gc_starCount := 15000; gc_rotation := V3 (2 # 10) (3 # 10) (1 # 10) |}.

Definition galaxy1 : GalaxyConfig :=
  {| gc_position := V3 450 180 (-150); gc_radius := 240; gc_arms := 2;
     gc_armCurveFactor := 7; gc_armWidthFactor := 4;
     gc_centralBulgeFraction := 25 # 100; gc_ageProfile := Old;
     gc_starCount := 10000; gc_rotation := V3 (14 # 10) (- (5 # 10)) (8 # 10) |}.

Definition galaxy2 : GalaxyConfig :=
  {| gc_position := V3 0 60 450; gc_radius := 180; gc_arms := 4;
     gc_armCurveFactor := 35 # 10; gc_armWidthFactor := 65 # 10;
     gc_centralBulgeFraction := 10 # 100; gc_ageProfile := Young;
     gc_starCount := 15000; gc_rotation := V3 (- (6 # 10)) (9 # 10) (- (4 # 10)) |}.

(** A galaxy whose arm width makes [maxConnectionDistance] equal to 20
    (with [spiralArmWidthMultiplier] 0.1): 5 * 100 * 0.1 * 0.4. *)
Definition galaxy20 : GalaxyConfig :=
  {| gc_position := V3 (-450) (-120) (-150); gc_radius := 100; gc_arms := 3;
     gc_armCurveFactor := 5; gc_armWidthFactor := 5;
     gc_centralBulgeFraction := 15 # 100; gc_ageProfile := MiddleAged;
     gc_starCount := 15000; gc_rotation := V3 (2 # 10) (3 # 10) (1 # 10) |}.

(** The settings of the class initialiser, over a first galaxy and a
    value of [spiralArmWidthMultiplier]. *)
Definition settingsWith (first : GalaxyConfig) (armWidthMultiplier : Q)
    : SimulationSettings :=
  {| activationChance := 5 # 10000; deactivationChance := 5 # 10000;
     centralBulgeRadius := 50; minDistanceFromCenter := 50;
     centralBulgeFraction := 15 # 100; armWidthFactor := 55 # 10;
     armCurveFactor := 5; activeStarScale := 15 # 10;
     activeStarColorMultiplier := 15 # 10; activeStarLightIntensity := 4;
     behindCloudOpacity := 5 # 100; insideCloudOpacity := 2 # 10;
     clearOpacity := 9 # 10; behindCloudLightIntensity := 5 # 100;
     insideCloudLightIntensity := 2 # 10; waveSpeed := 5;
     waveMaxRadius := 30; starBirthReplacementRatio := 10 # 100;
     starBirthPopulationThreshold := 5000; maxStars := 50000;
     galaxyConfigs0 := first; galaxyConfigsRest := [galaxy1; galaxy2];
     starMinLifetime := 60; starLifetimeRange := 120;
     starLifeSupportProbability := 4 # 10; starEmissionMinInterval := 5;
     starEmissionIntervalRange := 10; starAgingThreshold := 8 # 10;
     starAgingFadeFactor := 5; starMinAgingOpacity := 3 # 10;
     dustCloudMinRadius := 27075 # 10000; dustCloudRadiusRange := 9025 # 1000;
     spiralArmWidthMultiplier := armWidthMultiplier;
     spiralYoungStarProbability := 25 # 100;
     spiralOldStarProbability := 8 # 10; youngStarBulgeProbability := 3 # 10;
     youngGalaxyYoungStarProbability := 6 # 10;
     oldGalaxyOldStarProbability := 7 # 10; starBirthTimeDivisor := 60 |}.

Definition defaultSettings : SimulationSettings := settingsWith galaxy0 (7 # 100).

(** Propagation speed 5 and [maxConnectionDistance] 20. *)
Definition handshakeSettings : SimulationSettings := settingsWith galaxy20 (1 # 10).

Definition world0 : World := {| rngPos := 0; clockPos := 0; nextId := 2 |}.

(** A star of the first galaxy, outside its central bulge. *)
Definition starAt (position : Vector3) (activeSince : option Q) (age lifetime : Q)
    : Star :=
  {| position := position; galaxyCenter := V3 (-450) (-120) (-150);
     baseColor := {| hue := 0; saturation := 1; lightness := 4 # 10 |};
     mesh := {| opacity := 9 # 10;
                scale := match activeSince with Some _ => 15 # 10 | None => 1 end;
                colour := match activeSince with
                          | Some _ => ActiveColour (15 # 10)
                          | None => BaseColour
                          end;
                light := match activeSince with Some _ => Some 4 | None => None end |};
     age := age; lifetime := lifetime; hasDormantPlanet := false;
     isActive := match activeSince with Some _ => true | None => false end;
     activationTime := activeSince; emissionTimer := 3; emissionInterval := 7;
     isEmitting := false; canSupportLife := true; isGoingSupernova := false;
     isObscured := false |}.

(** A manager over two star objects 0 and 1, and the dust clouds given. *)
Definition scene (s : SimulationSettings) (star0 star1 : Star)
    (clouds : list DustCloud) : NetworkManager :=
  let nm := new s world0 in
  let nm := set_heap (<[0%nat := star0]> (<[1%nat := star1]> ∅)) nm in
  let nm := set_stars [0%nat; 1%nat] nm in
  fold_left (fun nm cloud => placeDustCloud cloud nm) clouds nm.

(** Star A at (0,0,0) and star B at (10,0,0), both active since t = 0. *)
Definition twoActiveStars (clouds : list DustCloud) : NetworkManager :=
  scene handshakeSettings (starAt (V3 0 0 0) (Some 0) 10 100)
        (starAt (V3 10 0 0) (Some 0) 10 100) clouds.

(** The entries that [initializeGalaxy] leaves in [lastGalaxies]. *)
Definition lastGalaxiesOf (s : SimulationSettings) : list GalaxyRecord :=
  map (fun config =>
         {| lg_center := gc_position config; lg_radius := gc_radius config;
            lg_arms := gc_arms config;
            lg_count := Qmin (gc_starCount config) (maxStars s);
            lg_config := Some config |})
      (Settings.galaxyConfigs s).

(** What is left of the default galaxies when all stars but two have
    died: two dormant stars, no dust. *)
Definition lateGalaxy : NetworkManager :=
  set_lastGalaxies (lastGalaxiesOf defaultSettings)
    (scene defaultSettings (starAt (V3 0 0 0) None 10 100)
           (starAt (V3 10 0 0) None 10 100) []).

(** A connection between an active star that reaches the end of its life
    in the coming tick (star 0) and an active star that lives on. *)
Definition dyingEndpoint : NetworkManager :=
  set_connections [{| star1 := 0; star2 := 1 |}]
    (scene handshakeSettings (starAt (V3 0 0 0) (Some 0) 100 100)
           (starAt (V3 10 0 0) (Some 0) 10 100) []).

(** An oracle whose draws are [u] before position [n] and [v] from
    there on. *)
Definition stepOracle (n : nat) (u v t : Q) : Oracle :=
  {| random := fun k => if (k <? n)%nat then u else v; now := fun _ => t |}.

(** A cloud of radius 5 centred on the middle of the segment from
    (0,0,0) to (10,0,0), and one of the same radius that the segment only
    touches, at (5,0,0). *)
Definition cloudBetween : DustCloud :=
  {| cloud_position := V3 5 0 0; cloud_radius := 5 |}.
Definition cloudTangent : DustCloud :=
  {| cloud_position := V3 5 5 0; cloud_radius := 5 |}.

(** A cloud of radius 5 straight above the star at the origin, 1000
    units away, and the scene with that star, a second star and that
    cloud. *)
Definition cloudAbove : DustCloud :=
  {| cloud_position := V3 0 1000 0; cloud_radius := 5 |}.
Definition starUnderCloud : NetworkManager :=
  scene defaultSettings (starAt (V3 0 0 0) None 10 100)
        (starAt (V3 300 0 0) None 10 100) [cloudAbove].

(** The life of one star of the first default galaxy: constructed with
    every draw at 0.7 (so that it can support life), then updated second
    by second with every draw at 0 (so that it activates at once and goes
    dormant at the next update). *)
Definition lifeOracle : Oracle := stepOracle 6 (7 # 10) 0 5.

Definition newborn : Star * World :=
  match newStar lifeOracle defaultSettings (V3 0 0 0)
                (CenterVector (V3 (-450) (-120) (-150))) MiddleAged world0 with
  | Ok (_, st) w => (st, w)
  | Throw w => (starAt (V3 0 0 0) None 0 1, w)
  end.

Definition afterUpdates (n : nat) : Star * World :=
  Nat.iter n
    (fun p => match Star_update lifeOracle defaultSettings 1 p.1 p.2 with
              | Ok st w => (st, w)
              | Throw w => (p.1, w)
              end)
    newborn.

(** The placement functions are never looked at by the properties. *)
Definition flatGeometry : Geometry :=
  {| bulgeStarPosition := fun _ _ _ _ _ _ => V3 0 0 0;
     armStarIsInner := fun _ _ _ => false;
     armStarPosition := fun _ _ _ _ _ _ _ _ _ _ => V3 0 0 0 |}.

(** An oracle whose every draw is [u] and whose clock always reads [t]. *)
Definition constantOracle (u t : Q) : Oracle :=
  {| random := fun _ => u; now := fun _ => t |}.

End Scenario.

(** ** The handshake condition of the specification *)

Module HandshakeSpec.
Local Open Scope Q_scope.

(** [distance <= limit], for the distance whose square is
    [distanceSquared]. *)
Definition distanceWithin (distanceSquared limit : Q) : Prop :=
  0 <= limit /\ distanceSquared <= limit * limit.

(** [2 * distance / speed <= activeTime], for a positive [speed]: the
    round trip at that speed fits in the time the star has been active. *)
Definition roundTripWithin (speed distanceSquared activeTime : Q) : Prop :=
  0 <= activeTime /\
  4 * distanceSquared <= (activeTime * speed) * (activeTime * speed).

End HandshakeSpec.

(** The dust obscuration flag that the loop computes for a star: some
    cloud among those the grid query returns is within its radius of
    the star, in the plane. *)
Definition obscuredByCandidate (nm : NetworkManager) (star : nat) : bool :=
  existsb (Manager.isObscuredBy (position (Manager.deref nm star)))
          (Manager.nearbyClouds nm star).

(** The same test over every cloud of the manager. *)
Definition obscuredByAnyCloud (nm : NetworkManager) (star : nat) : bool :=
  existsb (Manager.isObscuredBy (position (Manager.deref nm star)))
          (dustClouds nm).

(** Some dust test of [createConnection] stops the pair. *)
Definition occluded (nm : NetworkManager) (starA starB : nat) : bool :=
  Manager.isStarInDustCloud nm starA || Manager.isStarInDustCloud nm starB
  || Manager.isBlockedByDust nm (position (Manager.deref nm starA))
                                (position (Manager.deref nm starB)).

(** ** Observing the draws of a tick *)

Module Draws.
Local Open Scope Q_scope.

(** The star after [update(deltaTime)]. *)
Definition starAfter (E : Oracle) (s : SimulationSettings) (deltaTime : Q)
    (st : Star) (w : World) : Star :=
  match Entities.Star_update E s deltaTime st w with
  | Ok st' _ => st'
  | Throw _ => st
  end.

(** The end-of-life test of [update]: the supernova draw is made. *)
Definition endOfLife (deltaTime : Q) (st : Star) : bool :=
  Qgeb (age st + deltaTime) (lifetime st) && negb (isGoingSupernova st).

(** The supernova draw is made and succeeds. *)
Definition supernovaFires (E : Oracle) (s : SimulationSettings) (deltaTime : Q)
    (st : Star) (w : World) : bool :=
  endOfLife deltaTime st && Qltb (random E (rngPos w)) (activationChance s).

(** The draw that the activation or the dormancy test of this [update]
    reads: the first of the call, or the second after a supernova draw. *)
Definition lifeDraw (E : Oracle) (deltaTime : Q) (st : Star) (w : World) : Q :=
  random E (if endOfLife deltaTime st then S (rngPos w) else rngPos w).

(** The star can be activated by this [update]. *)
Definition canActivate (s : SimulationSettings) (st : Star) : bool :=
  negb (isActive st) && negb (hasDormantPlanet st) && canSupportLife st
  && Entities.outsideCentralBulge s st.

End Draws.

(** ** The literal reading over the real numbers

    The comparisons above are stated on squares.  Here the vector
    operations of three.js and the loop body of [isBlockedByDust] are
    read literally over the real numbers, with [sqrt] and the
    normalisation; Part III shows that each rational test decides the
    literal one. *)

Module RealReading.
Import Reals Qreals Lra.
Local Open Scope R_scope.

Record Vector3R := V3R { rx : R; ry : R; rz : R }.

Definition toReal (v : Vector3) : Vector3R :=
  V3R (Q2R (vx v)) (Q2R (vy v)) (Q2R (vz v)).

Definition subR (a b : Vector3R) : Vector3R :=
  V3R (rx a - rx b) (ry a - ry b) (rz a - rz b).
Definition dotR (a b : Vector3R) : R := rx a * rx b + ry a * ry b + rz a * rz b.
(** [v.length()] *)
Definition lengthR (v : Vector3R) : R := sqrt (dotR v v).
(** [v.normalize()], that is [v.divideScalar(v.length() || 1)] *)
Definition normalizeR (v : Vector3R) : Vector3R :=
  let divisor := if Req_dec_T (lengthR v) 0 then 1 else lengthR v in
  V3R (rx v / divisor) (ry v / divisor) (rz v / divisor).
Definition addScaledR (a d : Vector3R) (s : R) : Vector3R :=
  V3R (rx a + rx d * s) (ry a + ry d * s) (rz a + rz d * s).
(** [a.distanceTo(b)] *)
Definition distanceToR (a b : Vector3R) : R := lengthR (subR a b).

(** The body of the loop of [isBlockedByDust], read literally: the
    cloud is not skipped and the closest point is inside it. *)
Definition cloudBlocksR (pointA pointB center : Vector3R) (radius : R) : Prop :=
  let direction0 := subR pointB pointA in
  let length := lengthR direction0 in
  let direction := normalizeR direction0 in
  let toCloud := subR center pointA in
  let projectionLength := dotR toCloud direction in
  ~ (projectionLength < 0 \/ projectionLength > length) /\
  distanceToR (addScaledR pointA direction projectionLength) center < radius.

End RealReading.

(** ** Auxiliary notions

    Names for the tests and loop bodies that the statements and the
    proofs of Part II refer to. *)

Section Auxiliary.
Import Entities Manager.

(** Two grids that differ at most in their declared bounds. *)
Definition sameUpToBounds {T} (g g' : SpatialGrid.t T) : Prop :=
  SpatialGrid.cellSize g = SpatialGrid.cellSize g' /\
  SpatialGrid.grid g = SpatialGrid.grid g'.

(** The link between the activation flags. *)
Definition flagsConsistent (st : Star) : Prop :=
  (is_Some (activationTime st) <-> isActive st = true) /\
  (hasDormantPlanet st = true -> isActive st = false).

Definition flagsOf (st : Star) : bool * option Q * bool :=
  (isActive st, activationTime st, hasDormantPlanet st).

(** The new connection of a successful [createConnection]. *)
Definition added (a b : nat) (nm : NetworkManager) : NetworkManager :=
  set_connections (connections nm ++ [{| star1 := a; star2 := b |}]) nm.

(** Everything that can stop [createConnection] after the test for an
    existing connection. *)
Definition refused (a b : nat) (nm : NetworkManager) : bool :=
  sqrt_gtb (Vec.distanceToSquared (position (deref nm a)) (position (deref nm b)))
           (Settings.maxConnectionDistance (settings nm))
  || (isStarInDustCloud nm a || isStarInDustCloud nm b)
  || isBlockedByDust nm (position (deref nm a)) (position (deref nm b)).

(** The tests of the inner handshake loop that come before
    [createConnection]. *)
Definition ready (currentTime : Q) (nm : NetworkManager) (a b : nat) : bool :=
  let distanceSquared :=
    Vec.distanceToSquared (position (deref nm a)) (position (deref nm b)) in
  negb (sqrt_gtb distanceSquared (Settings.maxConnectionDistance (settings nm)))
  && match activationTime (deref nm a), activationTime (deref nm b) with
     | Some timeA, Some timeB =>
         roundTripElapsed (settings nm) distanceSquared (currentTime - timeA)
         && roundTripElapsed (settings nm) distanceSquared (currentTime - timeB)
     | _, _ => false
     end.

(** The stars that the grid query returns around [a]. *)
Definition nearby (nm : NetworkManager) (a : nat) : list nat :=
  SpatialGrid.queryRadius (starGrid nm) (position (deref nm a))
                          (Settings.maxConnectionDistance (settings nm)).

(** The pairs that the two loops go through, in order. *)
Definition candidatePairs (nm : NetworkManager) : list (nat * nat) :=
  a ← activeStars nm; b ← nearby nm a; [(a, b)].

(** The inner loop body, on [checkedPairs] and the connection list. *)
Definition pairStep (t : Q) (nm : NetworkManager) (p : nat * nat)
    (acc : gset (nat * nat) * list Connection)
    : gset (nat * nat) * list Connection :=
  if decide (p.1 = p.2) then acc
  else if decide (pairKey p.1 p.2 ∈ acc.1) then acc
  else ({[pairKey p.1 p.2]} ∪ acc.1,
        if ready t nm p.1 p.2
           && negb (existsb (connects p.1 p.2) acc.2 || refused p.1 p.2 nm)
        then acc.2 ++ [{| star1 := p.1; star2 := p.2 |}] else acc.2).

(** The condition under which a pair that reaches [createConnection]
    gets its connection, beyond not having one. *)
Definition accepted (t : Q) (nm : NetworkManager) (a b : nat) : Prop :=
  ready t nm a b = true /\ refused a b nm = false.

(** [P] holds in the state a computation ends in, returned or thrown,
    whenever it holds in the state it starts from. *)
Definition preserves {S A} (P : S -> Prop) (m : M S A) : Prop :=
  forall s, P s -> P (finalState (m s)).

(** A property of the connection collection alone. *)
Definition onConnections (Q : list Connection -> Prop) (nm : NetworkManager) : Prop :=
  Q (connections nm).

(** The population is below both limits. *)
Definition birthGate (nm : NetworkManager) : bool :=
  let population := inject_Z (Z.of_nat (length (stars nm))) in
  Qltb population (maxStars (settings nm))
  && Qltb population (starBirthPopulationThreshold (settings nm)).

(** The birth draw of the tick, and whether it succeeds. *)
Definition birthDraw (E : Oracle) (nm : NetworkManager) : Q :=
  random E (rngPos (world nm)).

Definition birthDrawSucceeds (E : Oracle) (deltaTime : Q) (nm : NetworkManager)
    : bool :=
  Qltb (birthDraw E nm)
       (starBirthReplacementRatio (settings nm) * deltaTime
        / starBirthTimeDivisor (settings nm)).

(** The entry of [lastGalaxies] that the second draw selects. *)
Definition chosenGalaxy (E : Oracle) (nm : NetworkManager) : option GalaxyRecord :=
  galaxyAt nm (Qfloor (random E (S (rngPos (world nm)))
                       * inject_Z (Z.of_nat (length (lastGalaxies nm))))).

(** The spawn is reached and throws: the chosen index is out of range,
    or the chosen galaxy has a configuration. *)
Definition spawnThrows (E : Oracle) (nm : NetworkManager) : bool :=
  match chosenGalaxy E nm with
  | None => true
  | Some galaxy => match lg_config galaxy with Some _ => true | None => false end
  end.

End Auxiliary.

(** ** The grid and the handshake on IEEE doubles

    The numbers of the program are binary64 doubles: the quotients
    [x / this.cellSize] and [radius / this.cellSize] are rounded to the
    nearest double before [Math.floor] and [Math.ceil] see them.  To
    evaluate the program at inputs where this rounding decides the cell,
    [SpatialGrid] and the handshake loops of [update] are embedded once
    more over the doubles of the kernel ([PrimFloat.float], whose
    operations are those of IEEE 754 with rounding to nearest, ties to
    even, as ECMAScript prescribes for [number]).  A decimal literal
    stands for the nearest double, here as in JavaScript.  A loop whose
    counter is a double need not end: the loops carry a bound [fuel] on
    the number of tests of their condition, and the result is [None]
    when the bound is reached. *)

Module Double.
Import Floats.
Local Open Scope float_scope.
#[local] Set Warnings "-inexact-float".

(** *** Numbers *)

(** The double of an integer below [2 ^ 53] in absolute value. *)
Definition ofZ (n : Z) : float :=
  if (n <? 0)%Z then - of_uint63 (Uint63.of_Z (- n))
  else of_uint63 (Uint63.of_Z n).

(** [Math.floor(x)].  NaN, the infinities and the two zeros are returned
    as they are, and so is a finite [x = m * 2 ^ e] with [0 <= e], an
    integer already; otherwise [|x| < 2 ^ 53], and the result is the
    double of the largest integer not above [x]. *)
Definition Math_floor (x : float) : float :=
  match Prim2SF x with
  | S754_finite s m e =>
      if (0 <=? e)%Z then x
      else ofZ ((if s then Z.neg m else Z.pos m) / 2 ^ (- e))
  | _ => x
  end.

(** [Math.ceil(x)], which is [-Math.floor(-x)]. *)
Definition Math_ceil (x : float) : float := - Math_floor (- x).

(** [String(x)], as a template literal computes it.  The conversion is
    injective on doubles but for the two zeros, both printed [0]; the
    string is represented by the sign, the mantissa and the exponent of
    [x], with [-0] mapped to [0]. *)
Definition toString (x : float) : spec_float :=
  match Prim2SF x with
  | S754_zero _ => S754_zero false
  | s => s
  end.

(** [Number(s)] of a string that [toString] produced: the double of
    that sign, mantissa and exponent. *)
Definition toNumber (s : spec_float) : float := SF2Prim s.

(** The rational that a finite double is. *)
Definition toQ (x : float) : Q :=
  match Prim2SF x with
  | S754_finite s m e =>
      (inject_Z (if s then Z.neg m else Z.pos m) * Qpower 2 e)%Q
  | _ => 0%Q
  end.

#[global] Instance spec_float_eq_dec : EqDecision spec_float :=
  ltac:(solve_decision).

Definition encodeString (s : spec_float)
    : bool + bool + (unit + bool * positive * Z) :=
  match s with
  | S754_zero s => inl (inl s)
  | S754_infinity s => inl (inr s)
  | S754_nan => inr (inl ())
  | S754_finite s m e => inr (inr (s, m, e))
  end.

Definition decodeString (c : bool + bool + (unit + bool * positive * Z))
    : spec_float :=
  match c with
  | inl (inl s) => S754_zero s
  | inl (inr s) => S754_infinity s
  | inr (inl _) => S754_nan
  | inr (inr (s, m, e)) => S754_finite s m e
  end.

Definition decode_encodeString (s : spec_float)
    : decodeString (encodeString s) = s :=
  match s with
  | S754_zero _ | S754_infinity _ | S754_nan | S754_finite _ _ _ => eq_refl
  end.

#[global] Instance spec_float_countable : Countable spec_float :=
  inj_countable' encodeString decodeString decode_encodeString.

(** *** three.js [Vector3] *)

Record Vector3 := V3 { vx : float; vy : float; vz : float }.

Definition distanceToSquared (a b : Vector3) : float :=
  let dx := vx a - vx b in
  let dy := vy a - vy b in
  let dz := vz a - vz b in
  dx * dx + dy * dy + dz * dz.

Definition distanceTo (a b : Vector3) : float := sqrt (distanceToSquared a b).

(** *** [SpatialGrid<T>] *)

Module SpatialGrid.

(** The key [`${cx},${cy},${cz}`]. *)
Abbreviation CellKey := (spec_float * spec_float * spec_float)%type.

Definition cellKey (cx cy cz : float) : CellKey :=
  (toString cx, toString cy, toString cz).

(** The values that [d] takes in [for (let d = first; d <= last; d++)],
    when the loop ends within [fuel] tests of its condition. *)
Fixpoint forLoop (fuel : nat) (d last : float) : option (list float) :=
  match fuel with
  | O => None
  | S fuel' =>
      if d <=? last then cons d <$> forLoop fuel' (d + 1) last
      else Some []
  end.

Section Grid.
Context {T : Type}.

Record t := Grid {
  cellSize : float;
  grid : gmap CellKey (list T);
  minBounds : Vector3;
  maxBounds : Vector3
}.

Definition new (cellSize : float) (minBounds maxBounds : Vector3) : t :=
  Grid cellSize ∅ minBounds maxBounds.

Definition getCellKey (g : t) (x y z : float) : CellKey :=
  let cx := Math_floor (x / cellSize g) in
  let cy := Math_floor (y / cellSize g) in
  let cz := Math_floor (z / cellSize g) in
  cellKey cx cy cz.

Definition insert (position : Vector3) (item : T) (g : t) : t :=
  let key := getCellKey g (vx position) (vy position) (vz position) in
  let m1 := match grid g !! key with
            | Some _ => grid g
            | None => <[key := []]> (grid g)
            end in
  let m2 := match m1 !! key with
            | Some cell => <[key := cell ++ [item]]> m1
            | None => m1
            end in
  Grid (cellSize g) m2 (minBounds g) (maxBounds g).

Definition query (g : t) (position : Vector3) : list T :=
  let key := getCellKey g (vx position) (vy position) (vz position) in
  match grid g !! key with
  | Some items => items
  | None => []
  end.

(** [queryRadius(position, radius)]; the three loops have the same
    bounds, hence the same values of their counters. *)
Definition queryRadius (fuel : nat) (g : t) (position : Vector3)
    (radius : float) : option (list T) :=
  let cellRadius := Math_ceil (radius / cellSize g) in
  let centerKey := getCellKey g (vx position) (vy position) (vz position) in
  let cx := toNumber centerKey.1.1 in
  let cy := toNumber centerKey.1.2 in
  let cz := toNumber centerKey.2 in
  offsets ← forLoop fuel (- cellRadius) cellRadius;
  Some (dx ← offsets;
        dy ← offsets;
        dz ← offsets;
        match grid g !! cellKey (cx + dx) (cy + dy) (cz + dz) with
        | Some items => items
        | None => []
        end).

Definition clear (g : t) : t :=
  Grid (cellSize g) ∅ (minBounds g) (maxBounds g).

End Grid.
Arguments t : clear implicits.

End SpatialGrid.

(** *** The handshake loops of [update] *)

(** The getter [maxConnectionDistance] of [SimulationSettings]: the
    product is computed at every read, from
    [galaxyConfigs[0].armWidthFactor], [galaxyConfigs[0].radius] and
    [spiralArmWidthMultiplier]. *)
Definition maxConnectionDistance
    (armWidthFactor radius spiralArmWidthMultiplier : float) : float :=
  armWidthFactor * radius * spiralArmWidthMultiplier * 0.4.

(** What the handshake reads of a [Star]. *)
Record Star := {
  id : nat;
  position : Vector3;
  isActive : bool;
  activationTime : option float
}.

(** [this.stars.filter(s => s.isActive && s.activationTime !== null)] *)
Definition activeStarsOf (stars : list Star) : list Star :=
  List.filter (fun s => isActive s && bool_decide (is_Some (activationTime s)))
              stars.

(** [this.starGrid.clear()], then the insertion of the active stars. *)
Definition rebuildStarGrid (stars : list Star) (starGrid : SpatialGrid.t Star)
    : SpatialGrid.t Star :=
  fold_left (fun g star => SpatialGrid.insert (position star) star g)
            (activeStarsOf stars) (SpatialGrid.clear starGrid).

Section Handshake.
Variable fuel : nat.
Variables maxConnectionDistance waveSpeed currentTime : float.

(** The body of the inner loop, on [checkedPairs] and on the calls of
    [createConnection] made so far.  Two star objects are the same
    object exactly when their ids are equal. *)
Definition handshakePair (starA starB : Star)
    (acc : list (nat * nat) * list (Star * Star))
    : list (nat * nat) * list (Star * Star) :=
  let '(checkedPairs, calls) := acc in
  if bool_decide (id starA = id starB) then acc
  else
    let pairKey :=
      (Nat.min (id starA) (id starB), Nat.max (id starA) (id starB)) in
    if bool_decide (pairKey ∈ checkedPairs) then acc
    else
      let checkedPairs := pairKey :: checkedPairs in
      let distance := distanceTo (position starA) (position starB) in
      if maxConnectionDistance <? distance then (checkedPairs, calls)
      else
        let timeForRoundTrip := (2 * distance) / waveSpeed in
        match activationTime starA, activationTime starB with
        | Some timeA, Some timeB =>
            let starAActiveTime := currentTime - timeA in
            let starBActiveTime := currentTime - timeB in
            if (timeForRoundTrip <=? starAActiveTime)
               && (timeForRoundTrip <=? starBActiveTime)
            then (checkedPairs, calls ++ [(starA, starB)])
            else (checkedPairs, calls)
        | _, _ => (checkedPairs, calls)
        end.

(** The outer loop. *)
Fixpoint handshakeStars (starGrid : SpatialGrid.t Star)
    (activeStars : list Star) (acc : list (nat * nat) * list (Star * Star))
    : option (list (nat * nat) * list (Star * Star)) :=
  match activeStars with
  | [] => Some acc
  | starA :: rest =>
      nearbyStars ← SpatialGrid.queryRadius fuel starGrid (position starA)
                                            maxConnectionDistance;
      handshakeStars starGrid rest
        (fold_left (fun acc starB => handshakePair starA starB acc)
                   nearbyStars acc)
  end.

(** The two loops on the rebuilt grid: the calls of [createConnection],
    in order. *)
Definition handshake (stars : list Star) (starGrid : SpatialGrid.t Star)
    : option (list (Star * Star)) :=
  snd <$> handshakeStars (rebuildStarGrid stars starGrid) (activeStarsOf stars)
                         ([], []).

End Handshake.

(** *** Scenes *)

(** The bounds that [NetworkManager] gives to its grids. *)
Definition minBounds : Vector3 := V3 (-1000) (-100) (-1000).
Definition maxBounds : Vector3 := V3 1000 100 1000.

(** An active star, activated at time 0. *)
Definition activeStarAt (id : nat) (position : Vector3) : Star :=
  {| id := id; position := position; isActive := true;
     activationTime := Some 0 |}.

End Double.

(** The rational point that a vector of finite doubles is. *)
Definition exactVector (v : Double.Vector3) : Vector3 :=
  V3 (Double.toQ (Double.vx v)) (Double.toQ (Double.vy v))
     (Double.toQ (Double.vz v)).

(** * Part I, continued: the rest of the program *)

(** ** [SimulationSettings]: the whole object, [validate] and [sanitize] *)

(** The value of a property that the class does not declare:
    [undefined] until something assigns it, and then whatever
    [Math.max] made of it. *)
Inductive Dynamic :=
| Undefined
| NaN
| Number (q : Q).

(** The fields of [SimulationSettings] outside the record of the
    simulation core, in the order of the class; [galaxyRadius] is not
    declared by the class and only [sanitize] assigns it. *)
Record OtherSettings := {
  diskRadius : Q;
  diskThickness : Q;
  waveColor : String.string;
  waveOpacity : Q;
  waveSegments : Q;
  starGeometryRadius : Q;
  starGeometrySegments : Q;
  initialStarCount : Q;
  initialDustCloudCount : Q;
  dustCloudArmWidthMultiplier : Q;
  dustCloudRadialStart : Q;
  dustCloudRadialEnd : Q;
  dustCloudAngleJitter : Q;
  dustCloudThicknessFactor : Q;
  spiralRadialDistributionPower : Q;
  spiralAngleJitter : Q;
  spiralYoungStarRadiusFraction : Q;
  cameraInitialArmPosition : Q;
  cameraInitialHeight : Q;
  cameraFOV : Q;
  cameraNear : Q;
  cameraFar : Q;
  controlsDampingFactor : Q;
  controlsMinDistance : Q;
  controlsMaxDistance : Q;
  controlsKeyPanSpeed : Q;
  backgroundStarCount : Q;
  backgroundStarSpread : Q;
  backgroundStarSize : Q;
  backgroundStarOpacity : Q;
  dustCloudFallbackRadiusMultiplier : Q;
  dustCloudFallbackRangeMultiplier : Q;
  dustCloudFallbackThicknessMultiplier : Q;
  armGlowSpacing : Q;
  galaxyRadius : Dynamic
}.

(** A [SimulationSettings] object. *)
Record SettingsObject := {
  core : SimulationSettings;
  other : OtherSettings
}.

Module SettingsMethods.
Import Stdlib.Strings.Ascii stdpp.strings.
Local Open Scope Q_scope.

(** [Math.round(x)]: the integer nearest to [x], halves rounded up. *)
Definition Math_round (x : Q) : Q := inject_Z (Qfloor (x + (1 # 2))).

(** [Number.isInteger(x)] *)
Definition Number_isInteger (x : Q) : bool := Qeq_bool x (inject_Z (Qfloor x)).

(** [Math.max(lo, Math.min(hi, x))] *)
Definition clamp (lo hi x : Q) : Q := Qmax lo (Qmin hi x).

(** [Math.max(50, v)] on a value that may be [undefined]: [undefined]
    converts to NaN, and NaN is contagious. *)
Definition Math_max_dynamic (lo : Q) (v : Dynamic) : Dynamic :=
  match v with
  | Number q => Number (Qmax lo q)
  | Undefined | NaN => NaN
  end.

(** [[0-9A-Fa-f]] *)
Definition isHexDigit (c : ascii) : bool :=
  let n := nat_of_ascii c in
  ((48 <=? n) && (n <=? 57) || (65 <=? n) && (n <=? 70)
   || (97 <=? n) && (n <=? 102))%nat.

(** [/^#[0-9A-Fa-f]{6}$/.test(s)] *)
Definition isHexColor (s : string) : bool :=
  match s with
  | String "#" digits =>
      (String.length digits =? 6)%nat
      && forallb isHexDigit (String.list_ascii_of_string digits)
  | _ => false
  end.

(** [if (invalid) errors.push({ field, error })] *)
Definition check (invalid : bool) (field error : string)
    : list (string * string) :=
  if invalid then [(field, error)] else [].

Definition between0and1 : string := "Must be between 0 and 1".
Definition positive : string := "Must be positive".
Definition notNegative : string := "Cannot be negative".

(** [validate()]: the errors, in the order they are pushed. *)
Definition validate (this : SettingsObject) : list (string * string) :=
  let c := core this in
  let o := other this in
  (* probabilities (0 to 1, exclusive) *)
  check (Qle_bool (activationChance c) 0 || Qgeb (activationChance c) 1)
        "activationChance" between0and1
  ++ check (Qle_bool (deactivationChance c) 0 || Qgeb (deactivationChance c) 1)
        "deactivationChance" between0and1
  (* positive numbers *)
  ++ check (Qle_bool (centralBulgeRadius c) 0) "centralBulgeRadius" positive
  ++ check (Qltb (minDistanceFromCenter c) 0) "minDistanceFromCenter" notNegative
  ++ check (Qle_bool (diskRadius o) 0) "diskRadius" positive
  ++ check (Qle_bool (diskThickness o) 0) "diskThickness" positive
  ++ check (Qle_bool (armWidthFactor c) 0) "armWidthFactor" positive
  ++ check (Qle_bool (armCurveFactor c) 0) "armCurveFactor" positive
  ++ check (Qle_bool (activeStarScale c) 0) "activeStarScale" positive
  ++ check (Qle_bool (activeStarColorMultiplier c) 0)
        "activeStarColorMultiplier" positive
  ++ check (Qle_bool (activeStarLightIntensity c) 0)
        "activeStarLightIntensity" positive
  ++ check (Qle_bool (waveSpeed c) 0) "waveSpeed" positive
  ++ check (Qle_bool (waveMaxRadius c) 0) "waveMaxRadius" positive
  ++ check (Qle_bool (Settings.maxConnectionDistance c) 0)
        "maxConnectionDistance" positive
  ++ check (Qle_bool (starGeometryRadius o) 0) "starGeometryRadius" positive
  (* fractions (0 to 1, inclusive) *)
  ++ check (Qltb (centralBulgeFraction c) 0 || Qgtb (centralBulgeFraction c) 1)
        "centralBulgeFraction" between0and1
  ++ check (Qltb (starBirthReplacementRatio c) 0
            || Qgtb (starBirthReplacementRatio c) 1)
        "starBirthReplacementRatio" between0and1
  (* opacities (0 to 1, inclusive) *)
  ++ check (Qltb (behindCloudOpacity c) 0 || Qgtb (behindCloudOpacity c) 1)
        "behindCloudOpacity" between0and1
  ++ check (Qltb (insideCloudOpacity c) 0 || Qgtb (insideCloudOpacity c) 1)
        "insideCloudOpacity" between0and1
  ++ check (Qltb (clearOpacity c) 0 || Qgtb (clearOpacity c) 1)
        "clearOpacity" between0and1
  ++ check (Qltb (behindCloudLightIntensity c) 0)
        "behindCloudLightIntensity" notNegative
  ++ check (Qltb (insideCloudLightIntensity c) 0)
        "insideCloudLightIntensity" notNegative
  ++ check (Qltb (waveOpacity o) 0 || Qgtb (waveOpacity o) 1)
        "waveOpacity" between0and1
  (* integers *)
  ++ check (negb (Number_isInteger (waveSegments o)) || Qltb (waveSegments o) 3)
        "waveSegments" "Must be an integer ≥ 3"
  ++ check (negb (Number_isInteger (starGeometrySegments o))
            || Qltb (starGeometrySegments o) 3)
        "starGeometrySegments" "Must be an integer ≥ 3"
  ++ check (negb (Number_isInteger (starBirthPopulationThreshold c))
            || Qltb (starBirthPopulationThreshold c) 0)
        "starBirthPopulationThreshold" "Must be a non-negative integer"
  ++ check (negb (Number_isInteger (maxStars c)) || Qltb (maxStars c) 1000)
        "maxStars" "Must be an integer ≥ 1000"
  (* hex color *)
  ++ check (negb (isHexColor (waveColor o)))
        "waveColor" "Must be a valid hex color (e.g., #00ffff)"
  (* logical constraints *)
  ++ check (Qgtb (minDistanceFromCenter c) (diskRadius o))
        "minDistanceFromCenter" "Cannot exceed disk radius"
  ++ check (Qgtb (centralBulgeRadius c) (diskRadius o))
        "centralBulgeRadius" "Cannot exceed disk radius".

(** [sanitize()].  Every assignment reads only the field it assigns,
    except the last two, which read [diskRadius] after its own clamp; the
    fields are given here with their final values.  [galaxyConfigs], the
    three population probabilities, [starBirthTimeDivisor], [waveColor],
    the three fallback multipliers and [armGlowSpacing] are not
    assigned. *)
Definition sanitize (this : SettingsObject) : SettingsObject :=
  let c := core this in
  let o := other this in
  let diskRadius' := Qmax 10 (diskRadius o) in
  {| core :=
       {| activationChance :=
            clamp (1 # 100000) (99999 # 100000) (activationChance c);
          deactivationChance :=
            clamp (1 # 100000) (99999 # 100000) (deactivationChance c);
          centralBulgeRadius := Qmin (Qmax 1 (centralBulgeRadius c)) diskRadius';
          minDistanceFromCenter :=
            Qmin (Qmax 0 (minDistanceFromCenter c)) diskRadius';
          centralBulgeFraction := clamp 0 1 (centralBulgeFraction c);
          armWidthFactor := Qmax (1 # 10) (armWidthFactor c);
          armCurveFactor := Qmax (1 # 10) (armCurveFactor c);
          activeStarScale := Qmax (1 # 10) (activeStarScale c);
          activeStarColorMultiplier :=
            Qmax (1 # 10) (activeStarColorMultiplier c);
          activeStarLightIntensity := Qmax (1 # 10) (activeStarLightIntensity c);
          behindCloudOpacity := clamp 0 1 (behindCloudOpacity c);
          insideCloudOpacity := clamp 0 1 (insideCloudOpacity c);
          clearOpacity := clamp 0 1 (clearOpacity c);
          behindCloudLightIntensity := Qmax 0 (behindCloudLightIntensity c);
          insideCloudLightIntensity := Qmax 0 (insideCloudLightIntensity c);
          waveSpeed := Qmax (1 # 10) (waveSpeed c);
          waveMaxRadius := Qmax 1 (waveMaxRadius c);
          starBirthReplacementRatio := clamp 0 1 (starBirthReplacementRatio c);
          starBirthPopulationThreshold :=
            Qmax 0 (Math_round (starBirthPopulationThreshold c));
          maxStars := Qmax 1000 (Math_round (maxStars c));
          galaxyConfigs0 := galaxyConfigs0 c;
          galaxyConfigsRest := galaxyConfigsRest c;
          starMinLifetime := Qmax 1 (starMinLifetime c);
          starLifetimeRange := Qmax 1 (starLifetimeRange c);
          starLifeSupportProbability := clamp 0 1 (starLifeSupportProbability c);
          starEmissionMinInterval := Qmax (1 # 10) (starEmissionMinInterval c);
          starEmissionIntervalRange :=
            Qmax (1 # 10) (starEmissionIntervalRange c);
          starAgingThreshold := clamp 0 1 (starAgingThreshold c);
          starAgingFadeFactor := Qmax (1 # 10) (starAgingFadeFactor c);
          starMinAgingOpacity := clamp 0 1 (starMinAgingOpacity c);
          dustCloudMinRadius := Qmax (1 # 10) (dustCloudMinRadius c);
          dustCloudRadiusRange := Qmax (1 # 10) (dustCloudRadiusRange c);
          spiralArmWidthMultiplier := Qmax (1 # 100) (spiralArmWidthMultiplier c);
          spiralYoungStarProbability := clamp 0 1 (spiralYoungStarProbability c);
          spiralOldStarProbability := clamp 0 1 (spiralOldStarProbability c);
          youngStarBulgeProbability := youngStarBulgeProbability c;
          youngGalaxyYoungStarProbability := youngGalaxyYoungStarProbability c;
          oldGalaxyOldStarProbability := oldGalaxyOldStarProbability c;
          starBirthTimeDivisor := starBirthTimeDivisor c |};
     other :=
       {| diskRadius := diskRadius';
          diskThickness := Qmax 1 (diskThickness o);
          waveColor := waveColor o;
          waveOpacity := clamp 0 1 (waveOpacity o);
          waveSegments := Qmax 3 (Math_round (waveSegments o));
          starGeometryRadius := Qmax (1 # 10) (starGeometryRadius o);
          starGeometrySegments := Qmax 3 (Math_round (starGeometrySegments o));
          initialStarCount := Qmax 100 (Math_round (initialStarCount o));
          initialDustCloudCount := Qmax 10 (Math_round (initialDustCloudCount o));
          dustCloudArmWidthMultiplier :=
            Qmax (1 # 100) (dustCloudArmWidthMultiplier o);
          dustCloudRadialStart := clamp 0 1 (dustCloudRadialStart o);
          dustCloudRadialEnd := clamp 0 1 (dustCloudRadialEnd o);
          dustCloudAngleJitter := Qmax 0 (dustCloudAngleJitter o);
          dustCloudThicknessFactor := Qmax (1 # 10) (dustCloudThicknessFactor o);
          spiralRadialDistributionPower :=
            clamp (1 # 10) 2 (spiralRadialDistributionPower o);
          spiralAngleJitter := Qmax 0 (spiralAngleJitter o);
          spiralYoungStarRadiusFraction :=
            clamp 0 1 (spiralYoungStarRadiusFraction o);
          cameraInitialArmPosition := clamp 0 1 (cameraInitialArmPosition o);
          cameraInitialHeight := Qmax 10 (cameraInitialHeight o);
          cameraFOV := clamp 10 120 (cameraFOV o);
          cameraNear := Qmax (1 # 100) (cameraNear o);
          cameraFar := Qmax 100 (cameraFar o);
          controlsDampingFactor :=
            clamp (1 # 1000) (5 # 10) (controlsDampingFactor o);
          controlsMinDistance := Qmax 1 (controlsMinDistance o);
          controlsMaxDistance := Qmax 100 (controlsMaxDistance o);
          controlsKeyPanSpeed := Qmax 1 (controlsKeyPanSpeed o);
          backgroundStarCount := Qmax 100 (Math_round (backgroundStarCount o));
          backgroundStarSpread := Qmax 100 (backgroundStarSpread o);
          backgroundStarSize := Qmax (1 # 10) (backgroundStarSize o);
          backgroundStarOpacity := clamp 0 1 (backgroundStarOpacity o);
          dustCloudFallbackRadiusMultiplier :=
            dustCloudFallbackRadiusMultiplier o;
          dustCloudFallbackRangeMultiplier := dustCloudFallbackRangeMultiplier o;
          dustCloudFallbackThicknessMultiplier :=
            dustCloudFallbackThicknessMultiplier o;
          armGlowSpacing := armGlowSpacing o;
          galaxyRadius := Math_max_dynamic 50 (galaxyRadius o) |} |}.

(** [new SimulationSettings()]: the values of the class initialiser. *)
Definition defaults : SettingsObject :=
  {| core := Scenario.defaultSettings;
     other :=
       {| diskRadius := 500; diskThickness := 10; waveColor := "#00ffff";
          waveOpacity := 6 # 10; waveSegments := 64;
          starGeometryRadius := 15 # 100; starGeometrySegments := 12;
          initialStarCount := 40000; initialDustCloudCount := 243;
          dustCloudArmWidthMultiplier := 6 # 100;
          dustCloudRadialStart := 25 # 100; dustCloudRadialEnd := 75 # 100;
          dustCloudAngleJitter := 15 # 100; dustCloudThicknessFactor := 5 # 10;
          spiralRadialDistributionPower := 8 # 10; spiralAngleJitter := 4 # 10;
          spiralYoungStarRadiusFraction := 35 # 100;
          cameraInitialArmPosition := 65 # 100; cameraInitialHeight := 60;
          cameraFOV := 50; cameraNear := 1 # 10; cameraFar := 5000;
          controlsDampingFactor := 5 # 100; controlsMinDistance := 10;
          controlsMaxDistance := 5000; controlsKeyPanSpeed := 50;
          backgroundStarCount := 1500; backgroundStarSpread := 4000;
          backgroundStarSize := 5 # 10; backgroundStarOpacity := 4 # 10;
          dustCloudFallbackRadiusMultiplier := 27 # 10;
          dustCloudFallbackRangeMultiplier := 24 # 10;
          dustCloudFallbackThicknessMultiplier := 16 # 10;
          armGlowSpacing := 8; galaxyRadius := Undefined |} |}.

End SettingsMethods.

(** ** [DustCloud]: the two intersection tests *)

Module Cloud.
Local Open Scope Q_scope.

(** [intersectsLine(start, end)].  The two roots
    [t1 = (-b - root) / (2 * a)] and [t2 = (-b + root) / (2 * a)], with
    [root = Math.sqrt(discriminant)], are only compared with 0 and 1;
    [a = d.d] is never negative, and for a positive [a]
    - [t1 >= 0] exactly when [root <= -b],
    - [t1 <= 1] exactly when [root >= -b - 2 * a],
    - [t2 >= 0] exactly when [root >= b],
    - [t2 <= 1] exactly when [root <= 2 * a + b].
    When [a] is 0 ([start] and [end] coincide), [b] and the discriminant
    are 0 as well, both roots are [0 / 0], that is NaN, every comparison
    is false and so is the result.  [intersectsLine_real] proves the
    tests on the roots against the literal reading. *)
Definition intersectsLine (this : DustCloud) (start finish : Vector3) : bool :=
  let d := Vec.subVectors finish start in
  let f := Vec.subVectors start (cloud_position this) in
  let a := Vec.dot d d in
  let b := 2 * Vec.dot f d in
  let c := Vec.dot f f - cloud_radius this * cloud_radius this in
  let discriminant := b * b - 4 * a * c in
  if Qltb discriminant 0 then false
  else if Qeq_bool a 0 then false
  else
    let t1_ge_0 := sqrt_leb discriminant (- b) in
    let t1_le_1 := sqrt_geb discriminant (- b - 2 * a) in
    let t2_ge_0 := sqrt_geb discriminant b in
    let t2_le_1 := sqrt_leb discriminant (2 * a + b) in
    let t1_lt_0 := sqrt_gtb discriminant (- b) in
    let t2_gt_1 := sqrt_gtb discriminant (2 * a + b) in
    t1_ge_0 && t1_le_1 || t2_ge_0 && t2_le_1 || t1_lt_0 && t2_gt_1.

(** [intersectsRay(rayOrigin, rayDirection, maxDistance)] *)
Definition intersectsRay (this : DustCloud) (rayOrigin rayDirection : Vector3)
    (maxDistance : Q) : bool :=
  let toCloud := Vec.subVectors (cloud_position this) rayOrigin in
  let projection := Vec.dot toCloud rayDirection in
  if Qltb projection 0 then false
  else if Qgtb projection maxDistance then false
  else
    let closestPoint := Vec.addScaledVector rayOrigin rayDirection projection in
    sqrt_leb (Vec.distanceToSquared closestPoint (cloud_position this))
             (cloud_radius this).

(** The point of the segment from [start] to [finish] at parameter [t]
    lies in the closed ball of the cloud. *)
Definition pointInCloud (this : DustCloud) (start finish : Vector3) (t : Q)
    : Prop :=
  Vec.distanceToSquared
    (Vec.addScaledVector start (Vec.subVectors finish start) t)
    (cloud_position this)
  <= cloud_radius this * cloud_radius this.

End Cloud.

(** ** [NetworkManager]: dust generation and the arm position *)

(** The geometry of the placement of the dust clouds (trigonometry,
    [Math.pow], Euler rotation) enters as two functions of the loop
    indices and of the uniform draws of one loop iteration of
    [generateDustClouds]. *)
Record DustGeometry := {
  (** arm-aligned branch: [cloudPos], from the galaxy, [perG], the arm
      [a], the step [s] and the draws for [t], the angle jitter, [perp]
      and the height *)
  armCloudPosition :
    SimulationSettings -> OtherSettings -> GalaxyRecord -> Q -> nat -> nat ->
    Q -> Q -> Q -> Q -> Vector3;
  (** fallback branch: [pos], from the centre and the draws for [angle],
      [dist] and the height *)
  scatteredCloudPosition :
    SimulationSettings -> OtherSettings -> Vector3 -> Q -> Q -> Q -> Vector3;
  (** [positions.count] of [new THREE.SphereGeometry(radius, 8, 8)]: the
      constructor of [DustCloud] draws one noise value per vertex *)
  sphereVertexCount : nat
}.

Module Dust.
Import Entities Manager.
Local Open Scope Q_scope.

Section WithOracle.
Variable E : Oracle.
Variable D : DustGeometry.
(** The fields of [this.settings] outside the core record. *)
Variable o : OtherSettings.

(** [new DustCloud(position, radius)] *)
Definition newDustCloud (position : Vector3) (radius : Q) : M World DustCloud :=
  forEach (seq 0 (sphereVertexCount D)) (fun _ => _ ← Math_random E; mret tt);;
  mret {| cloud_position := position; cloud_radius := radius |}.

(** The body of the innermost loop of the arm-aligned branch. *)
Definition alignedCloud (g : GalaxyRecord) (perG : Q) (a s : nat)
    : M NetworkManager unit :=
  st ← gets settings;
  t ← liftW (Math_random E);
  jitter ← liftW (Math_random E);
  perp ← liftW (Math_random E);
  height ← liftW (Math_random E);
  let cloudPos := armCloudPosition D st o g perG a s t jitter perp height in
  u ← liftW (Math_random E);
  let rad := dustCloudMinRadius st + u * dustCloudRadiusRange st in
  cloud ← liftW (newDustCloud cloudPos rad);
  modify (placeDustCloud cloud).

(** The body of the inner loop of the fallback branch. *)
Definition scatteredCloud (center : Vector3) : M NetworkManager unit :=
  st ← gets settings;
  angle ← liftW (Math_random E);
  dist ← liftW (Math_random E);
  height ← liftW (Math_random E);
  let pos := scatteredCloudPosition D st o center angle dist height in
  u ← liftW (Math_random E);
  let r :=
    dustCloudMinRadius st * dustCloudFallbackRadiusMultiplier o
    + u * dustCloudRadiusRange st * dustCloudFallbackRangeMultiplier o in
  cloud ← liftW (newDustCloud pos r);
  modify (placeDustCloud cloud).

(** [Math.max(4, Math.floor(count / (this.lastGalaxies.length || 1)))] *)
Definition cloudsPerGalaxy (count : Q) (galaxies : list GalaxyRecord) : Q :=
  let n := length galaxies in
  let divisor := if (n =? 0)%nat then 1 else inject_Z (Z.of_nat n) in
  Qmax 4 (inject_Z (Qfloor (count / divisor))).

(** The number of iterations of the loop over [s],
    [Math.ceil(perG / g.arms)]. *)
Definition stepsPerArm (perG : Q) (g : GalaxyRecord) : nat :=
  loopCount (inject_Z (Qceiling (perG / lg_arms g))).

(** [generateDustClouds(count)] *)
Definition generateDustClouds (count : Q) : M NetworkManager unit :=
  galaxies ← gets lastGalaxies;
  match galaxies with
  | _ :: _ =>
      forEach galaxies (fun g =>
        let perG := cloudsPerGalaxy count galaxies in
        forEach (seq 0 (loopCount (lg_arms g))) (fun a =>
          forEach (seq 0 (stepsPerArm perG g)) (fun s =>
            alignedCloud g perG a s)))
  | [] =>
      let perGalaxy := Qmax 6 (inject_Z (Qfloor (count / 3))) in
      let galaxyCenters :=
        [V3 (- diskRadius o * (6 # 10)) 0 0;
         V3 (diskRadius o * (6 # 10)) 0 0;
         V3 0 0 (diskRadius o * (6 # 10))] in
      forEach galaxyCenters (fun center =>
        forEach (seq 0 (loopCount perGalaxy)) (fun _ => scatteredCloud center))
  end.

End WithOracle.

(** [reset()] *)
Definition reset (nm : NetworkManager) : NetworkManager := clearSceneObjects nm.

(** [x % y] on numbers: [x - y * trunc(x / y)], with the sign of [x]. *)
Definition remainder (x y : Q) : Q :=
  let q := x / y in
  x - y * inject_Z (if Qltb q 0 then Qceiling q else Qfloor q).

(** [this.lastGalaxies[galaxyIndex]] for a number: an element for an
    integer in range, [undefined] otherwise. *)
Definition galaxyByNumber (nm : NetworkManager) (galaxyIndex : Q)
    : option GalaxyRecord :=
  if SettingsMethods.Number_isInteger galaxyIndex
  then galaxyAt nm (Qfloor galaxyIndex)
  else None.

End Dust.

(** A dust geometry for the examples: every cloud sits at the centre it
    is generated around, and a cloud sphere has 81 vertices. *)
Module DustScenario.

Definition flatDust : DustGeometry :=
  {| armCloudPosition := fun _ _ g _ _ _ _ _ _ _ => lg_center g;
     scatteredCloudPosition := fun _ _ center _ _ _ => center;
     sphereVertexCount := 81 |}.

End DustScenario.

(** ** The literal reading, continued: the dust tests, [intersectsLine],
    [intersectsRay] and [getArmPosition] over the real numbers *)

Module RealMethods.
Import Reals Qreals Lra RealReading.
Local Open Scope R_scope.

(** [intersectsLine(start, end)], read literally. *)
Definition intersectsLineR (center : Vector3R) (radius : R)
    (start finish : Vector3R) : Prop :=
  let d := subR finish start in
  let f := subR start center in
  let a := dotR d d in
  let b := 2 * dotR f d in
  let c := dotR f f - radius * radius in
  let discriminant := b * b - 4 * a * c in
  ~ discriminant < 0 /\
  let root := sqrt discriminant in
  let t1 := (- b - root) / (2 * a) in
  let t2 := (- b + root) / (2 * a) in
  (t1 >= 0 /\ t1 <= 1) \/ (t2 >= 0 /\ t2 <= 1) \/ (t1 < 0 /\ t2 > 1).

(** [intersectsRay(rayOrigin, rayDirection, maxDistance)], read
    literally. *)
Definition intersectsRayR (center : Vector3R) (radius : R)
    (rayOrigin rayDirection : Vector3R) (maxDistance : R) : Prop :=
  let toCloud := subR center rayOrigin in
  let projection := dotR toCloud rayDirection in
  ~ projection < 0 /\
  ~ projection > maxDistance /\
  let closestPoint := addScaledR rayOrigin rayDirection projection in
  let distance := distanceToR closestPoint center in
  distance <= radius.

(** [isStarInDustCloud(star)] and [isBlockedByDust(pointA, pointB)],
    read literally: some cloud of [dustClouds] makes the loop return
    [true]. *)
Definition isStarInDustCloudR (nm : NetworkManager) (star : nat) : Prop :=
  exists cloud,
    cloud ∈ dustClouds nm /\
    distanceToR (toReal (position (Manager.deref nm star)))
                (toReal (cloud_position cloud))
    < Q2R (cloud_radius cloud).

Definition isBlockedByDustR (nm : NetworkManager) (pointA pointB : Vector3)
    : Prop :=
  exists cloud,
    cloud ∈ dustClouds nm /\
    cloudBlocksR (toReal pointA) (toReal pointB)
                 (toReal (cloud_position cloud)) (Q2R (cloud_radius cloud)).

(** [getArmPosition(galaxyIndex, armIndex, t)]: [None] is [null]. *)
Definition getArmPosition (nm : NetworkManager) (galaxyIndex armIndex t : Q)
    : option Vector3R :=
  match Dust.galaxyByNumber nm galaxyIndex with
  | None => None
  | Some g =>
      let r := Q2R (Qmax 0 (Qmin 1 t) * lg_radius g) in
      let baseAngle :=
        Q2R (Dust.remainder armIndex (lg_arms g) / lg_arms g) * PI * 2 in
      let twist :=
        Q2R (match lg_config g with
             | Some config => gc_armCurveFactor config
             | None => armCurveFactor (settings nm)
             end) in
      let angle := baseAngle + twist * (r / Q2R (lg_radius g)) in
      let perp := 0 in
      let x := Q2R (vx (lg_center g)) + cos angle * r - sin angle * perp in
      let z := Q2R (vz (lg_center g)) + sin angle * r + cos angle * perp in
      let y := Q2R (vy (lg_center g)) in
      Some (V3R x y z)
  end.

End RealMethods.

(** ** The grid under a sequence of calls *)

Section GridRuns.
Context {T : Type}.
Import SpatialGrid.

(** The grid object after a sequence of calls. *)
Definition gridAfter (ops : list (GridOp T)) (g : SpatialGrid.t T)
    : SpatialGrid.t T :=
  fold_left (fun g op => (applyOp op g).1) ops g.

(** The number of calls of [insert] since the last call of [clear],
    after [n] earlier inserts. *)
Definition insertsSinceClear (ops : list (GridOp T)) (n : nat) : nat :=
  fold_left (fun n op => match op with
                         | OpInsert _ _ => S n
                         | OpClear => 0%nat
                         | _ => n
                         end) ops n.

End GridRuns.

(** ** Further notions

    Names for the states of one tick and for the invariants of the
    manager that the statements of Part IV refer to. *)

Section FurtherNotions.
Import Entities Manager.
Local Open Scope Q_scope.

(** The star object at the end of its iteration of the first loop of
    [update]: the result of [Star.update] with the two one-shot flags
    consumed. *)
Definition consumed (st : Star) : Star :=
  set_isGoingSupernova false (set_isEmitting false st).

(** The manager after one iteration of the first loop of [update], for
    the result [st] and the runtime state [w] of [star.update]. *)
Definition afterStarUpdate (star : nat) (st : Star) (w : World)
    (nm : NetworkManager) : NetworkManager :=
  {| settings := settings nm; world := w;
     heap := alter (fun _ => consumed st) star (heap nm);
     stars := stars nm;
     waves := waves nm
              ++ (if isEmitting st
                  then [newRadioWave (settings nm) star (set_isEmitting false st)]
                  else []);
     connections := connections nm; dustClouds := dustClouds nm;
     lastGalaxies := lastGalaxies nm; waveGrid := waveGrid nm;
     dustGrid := dustGrid nm; starGrid := starGrid nm;
     supernovaFlashes :=
       if isGoingSupernova st then S (supernovaFlashes nm)
       else supernovaFlashes nm |}.

(** The star reaches the end of its life in the coming tick:
    [age + deltaTime >= lifetime]. *)
Definition expires (deltaTime : Q) (nm : NetworkManager) (star : nat) : bool :=
  negb (Qltb (age (deref nm star) + deltaTime) (lifetime (deref nm star))).

(** Every reference of [stars] points to an object of the heap, and no
    reference occurs twice. *)
Definition starsValid (nm : NetworkManager) : Prop :=
  NoDup (stars nm) /\ forall star, star ∈ stars nm -> is_Some (heap nm !! star).

(** The one-shot flags of every star of the collection are down. *)
Definition flagsConsumed (nm : NetworkManager) : Prop :=
  forall star, star ∈ stars nm ->
    isEmitting (deref nm star) = false /\
    isGoingSupernova (deref nm star) = false.

(** The activation flags of every star of the collection are linked as
    the constructor leaves them. *)
Definition starsConsistent (nm : NetworkManager) : Prop :=
  forall star, star ∈ stars nm -> flagsConsistent (deref nm star).

(** A connection joins two different stars of the collection that are
    no further apart than [maxConnectionDistance]. *)
Definition wellPlaced (nm : NetworkManager) (c : Connection) : Prop :=
  star1 c ≠ star2 c /\ star1 c ∈ stars nm /\ star2 c ∈ stars nm /\
  HandshakeSpec.distanceWithin
    (Vec.distanceToSquared (position (deref nm (star1 c)))
                           (position (deref nm (star2 c))))
    (Settings.maxConnectionDistance (settings nm)).

(** Both ends of a connection are active. *)
Definition bothActive (nm : NetworkManager) (c : Connection) : Prop :=
  isActive (deref nm (star1 c)) = true /\ isActive (deref nm (star2 c)) = true.

(** Every dust cloud of the collection is stored in the dust grid, in
    the cell of its position. *)
Definition dustIndexed (nm : NetworkManager) : Prop :=
  forall cloud, cloud ∈ dustClouds nm ->
    cloud ∈ SpatialGrid.query (dustGrid nm) (cloud_position cloud).

(** Two states of a star object that differ at most in its looks (the
    mesh and the obscuration flag). *)
Definition sameLife (st st' : Star) : Prop :=
  position st' = position st /\ age st' = age st /\
  lifetime st' = lifetime st /\ isActive st' = isActive st /\
  activationTime st' = activationTime st /\
  hasDormantPlanet st' = hasDormantPlanet st /\
  isEmitting st' = isEmitting st /\
  isGoingSupernova st' = isGoingSupernova st.

(** The part of [update] that follows a birth branch that did not
    throw: from the manager [nm] the branch leaves, for the set
    [deadStars] of the removal loop and the reading [t] of the clock. *)
Definition tickEnd (deltaTime : Q) (deadStars : gset nat) (w : World) (t : Q)
    (nm : NetworkManager) : NetworkManager :=
  dustObscuration
    (handshakeAt t
       (set_world w
          (rebuildStarGrid
             (rebuildWaveGrid
                (updateWaves deltaTime (pruneConnections deadStars nm)))))).

(** The statements that close the loop bodies of [generateDustClouds],
    for the clouds of several iterations in turn. *)
Definition placeAll (clouds : list DustCloud) (nm : NetworkManager)
    : NetworkManager :=
  fold_left (fun nm cloud => placeDustCloud cloud nm) clouds nm.

(** The runtime state after [k] more calls of [Math.random()]. *)
Definition afterDraws (k : nat) (w : World) : World :=
  {| rngPos := rngPos w + k; clockPos := clockPos w; nextId := nextId w |}.

(** The computation returns normally and does nothing but draw random
    numbers and place [n] dust clouds, each of them satisfying [P]. *)
Definition placesClouds (P : SimulationSettings -> DustCloud -> Prop) (n : nat)
    (m : M NetworkManager unit) : Prop :=
  forall nm, exists new k,
    m nm = Ok tt (placeAll new (set_world (afterDraws k (world nm)) nm)) /\
    length new = n /\ Forall (P (settings nm)) new.

(** The number of iterations of the cloud-placing loop bodies of
    [generateDustClouds(count)], for the recorded galaxies. *)
Definition cloudsGenerated (count : Q) (galaxies : list GalaxyRecord) : nat :=
  match galaxies with
  | _ :: _ =>
      sum_list_with
        (fun g => (loopCount (lg_arms g)
                   * Dust.stepsPerArm (Dust.cloudsPerGalaxy count galaxies) g)%nat)
        galaxies
  | [] => (3 * loopCount (Qmax 6 (inject_Z (Qfloor (count / 3)))))%nat
  end.

(** The radius the loops of [generateDustClouds] give a cloud, for some
    random draw [u]: by the arm-aligned branch when galaxies are
    recorded, by the fallback branch otherwise. *)
Definition radiusDrawn (E : Oracle) (o : OtherSettings)
    (galaxies : list GalaxyRecord) (s : SimulationSettings)
    (cloud : DustCloud) : Prop :=
  exists u,
    cloud_radius cloud
    = match galaxies with
      | _ :: _ => dustCloudMinRadius s + random E u * dustCloudRadiusRange s
      | [] => dustCloudMinRadius s * dustCloudFallbackRadiusMultiplier o
              + random E u * dustCloudRadiusRange s
                * dustCloudFallbackRangeMultiplier o
      end.

(** The computation returns normally; it pushes [n] new stars, with the
    next [n] identifiers in their order, and the records [gs] to
    [lastGalaxies], and leaves the settings, the waves, the connections
    and the dust clouds alone. *)
Definition galaxyGrows {A} (n : nat) (gs : list GalaxyRecord)
    (m : M NetworkManager A) : Prop :=
  forall nm, exists a nm',
    m nm = Ok a nm' /\
    stars nm' = stars nm ++ seq (nextId (world nm)) n /\
    nextId (world nm') = (nextId (world nm) + n)%nat /\
    lastGalaxies nm' = lastGalaxies nm ++ gs /\
    settings nm' = settings nm /\ waves nm' = waves nm /\
    connections nm' = connections nm /\ dustClouds nm' = dustClouds nm.

(** The static counter [Star.nextId] has reached [n]. *)
Definition nextIdFrom (n : nat) (nm : NetworkManager) : Prop :=
  (n <= nextId (world nm))%nat.

(** What holds of the manager between any two calls of its methods. *)
Definition managerInvariant (nm : NetworkManager) : Prop :=
  starsValid nm /\
  (forall star, is_Some (heap nm !! star) -> (star < nextId (world nm))%nat) /\
  (forall star st, heap nm !! star = Some st -> flagsConsistent st) /\
  flagsConsumed nm /\
  dustIndexed nm /\
  (forall wave, wave ∈ waves nm -> wave_isActive wave = true).

End FurtherNotions.

(** The states of a manager: fresh from the constructor, or after one
    more call of a method that changes it.  A call that throws leaves
    the mutations made so far.  The wave handed to [addWave] is active,
    as every wave is when it is constructed. *)
Inductive Lifecycle (E : Oracle) (G : Geometry) (D : DustGeometry)
    (o : OtherSettings) : NetworkManager -> Prop :=
| life_new settings w :
    Lifecycle E G D o (Manager.new settings w)
| life_initializeGalaxy nm :
    Lifecycle E G D o nm ->
    Lifecycle E G D o (finalState (Manager.initializeGalaxy E G nm))
| life_generateDustClouds nm count :
    Lifecycle E G D o nm ->
    Lifecycle E G D o (finalState (Dust.generateDustClouds E D o count nm))
| life_update nm deltaTime :
    Lifecycle E G D o nm ->
    Lifecycle E G D o (finalState (Manager.update E G deltaTime nm))
| life_reset nm :
    Lifecycle E G D o nm -> Lifecycle E G D o (Dust.reset nm)
| life_createConnection nm starA starB :
    Lifecycle E G D o nm ->
    Lifecycle E G D o (Manager.createConnection starA starB nm)
| life_addWave nm wave :
    Lifecycle E G D o nm -> wave_isActive wave = true ->
    Lifecycle E G D o (Manager.addWave wave nm).

(** * Part II: properties *)

(** ** Facts about the comparisons *)

Section NumFacts.
Local Open Scope Q_scope.

Lemma Qltb_lt x y : Qltb x y = true <-> x < y.
Proof.
  unfold Qltb. rewrite negb_true_iff, <- not_true_iff_false, Qle_bool_iff.
  split; [apply Qnot_le_lt | apply Qlt_not_le].
Qed.

Lemma Qltb_ge x y : Qltb x y = false <-> y <= x.
Proof. unfold Qltb. rewrite negb_false_iff, Qle_bool_iff. reflexivity. Qed.

Lemma Qleb_gt x y : Qle_bool x y = false <-> y < x.
Proof.
  rewrite <- not_true_iff_false, Qle_bool_iff.
  split; [apply Qnot_le_lt | apply Qlt_not_le].
Qed.

Lemma sqrt_leb_spec s r : sqrt_leb s r = true <-> 0 <= r /\ s <= r * r.
Proof. unfold sqrt_leb. rewrite andb_true_iff, !Qle_bool_iff. reflexivity. Qed.

Lemma sqrt_ltb_spec s r : sqrt_ltb s r = true <-> 0 < r /\ s < r * r.
Proof. unfold sqrt_ltb. rewrite andb_true_iff, !Qltb_lt. reflexivity. Qed.

#[global] Instance Qltb_proper : Proper (Qeq ==> Qeq ==> eq) Qltb.
Proof. intros x x' Hx y y' Hy. unfold Qltb. now rewrite Hx, Hy. Qed.

#[global] Instance sqrt_leb_proper : Proper (Qeq ==> Qeq ==> eq) sqrt_leb.
Proof. intros x x' Hx y y' Hy. unfold sqrt_leb. now rewrite Hx, Hy. Qed.

#[global] Instance sqrt_ltb_proper : Proper (Qeq ==> Qeq ==> eq) sqrt_ltb.
Proof. intros x x' Hx y y' Hy. unfold sqrt_ltb. now rewrite Hx, Hy. Qed.

Lemma sq_nonneg (x : Q) : 0 <= x * x.
Proof. nra. Qed.

Lemma distanceToSquared_nonneg a b : 0 <= Vec.distanceToSquared a b.
Proof.
  unfold Vec.distanceToSquared; cbv zeta.
  pose proof (sq_nonneg (vx a - vx b)).
  pose proof (sq_nonneg (vy a - vy b)).
  pose proof (sq_nonneg (vz a - vz b)). lra.
Qed.

Lemma distanceToSquared_sym a b :
  Vec.distanceToSquared a b == Vec.distanceToSquared b a.
Proof. unfold Vec.distanceToSquared; cbv zeta. ring. Qed.

(** Each coordinate differs by at most the distance. *)
Lemma axis_within_distance (a b r : Q) (rest : Q) :
  0 <= r -> 0 <= rest -> (a - b) * (a - b) + rest <= r * r ->
  a - b <= r /\ b - a <= r.
Proof. intros Hr Hrest H. split; nra. Qed.

Lemma distance_bounds_axes p q r :
  0 <= r -> Vec.distanceToSquared p q <= r * r ->
  (vx p - vx q <= r /\ vx q - vx p <= r) /\
  (vy p - vy q <= r /\ vy q - vy p <= r) /\
  (vz p - vz q <= r /\ vz q - vz p <= r).
Proof.
  unfold Vec.distanceToSquared; cbv zeta. intros Hr H.
  pose proof (sq_nonneg (vx p - vx q)).
  pose proof (sq_nonneg (vy p - vy q)).
  pose proof (sq_nonneg (vz p - vz q)).
  repeat split; nra.
Qed.

(** Two numbers at most [r] apart fall in cells at most
    [ceil (r / c)] apart. *)
Lemma floor_cells_close (a b r c : Q) :
  0 < c -> a - b <= r ->
  (Qfloor (a / c) - Qfloor (b / c) <= Qceiling (r / c))%Z.
Proof.
  intros Hc Hab.
  assert (Hdiv : a / c <= b / c + r / c).
  { assert (Hsum : b / c + r / c == (b + r) / c) by (field; lra).
    rewrite Hsum. apply Qmult_le_compat_r; [lra|]. apply Qlt_le_weak, Qinv_lt_0_compat, Hc. }
  pose proof (Qfloor_le (a / c)) as Ha.
  pose proof (Qlt_floor (b / c)) as Hb.
  pose proof (Qle_ceiling (r / c)) as Hr.
  assert (H : inject_Z (Qfloor (a / c)) < inject_Z (Qfloor (b / c) + 1 + Qceiling (r / c))).
  { rewrite !inject_Z_plus in *. lra. }
  rewrite <- Zlt_Qlt in H. lia.
Qed.

End NumFacts.

(** ** Facts about [SpatialGrid] *)

Section GridFacts.
Context {T : Type}.
Implicit Types (g : SpatialGrid.t T) (p q : Vector3) (x : T).
Import SpatialGrid.

Lemma cellSize_insert p x g : cellSize (insert p x g) = cellSize g.
Proof. reflexivity. Qed.

Lemma grid_insert p x g :
  grid (insert p x g)
  = <[cellOf g p := default [] (grid g !! cellOf g p) ++ [x]]> (grid g).
Proof.
  unfold insert, cellOf; cbv zeta.
  set (key := getCellKey g (vx p) (vy p) (vz p)).
  destruct (grid g !! key) as [cell|] eqn:Hkey; simpl.
  - now rewrite Hkey.
  - rewrite lookup_insert_eq. now rewrite insert_insert_eq.
Qed.

Lemma cellOf_insert p x g q : cellOf (insert p x g) q = cellOf g q.
Proof. reflexivity. Qed.

Lemma cellSize_insertAll entries g : cellSize (insertAll entries g) = cellSize g.
Proof.
  unfold insertAll. revert g.
  induction entries as [|e entries IH]; intros g; [reflexivity|].
  simpl. now rewrite IH.
Qed.

Lemma cellOf_insertAll entries g q : cellOf (insertAll entries g) q = cellOf g q.
Proof. unfold cellOf, getCellKey. now rewrite cellSize_insertAll. Qed.

(** A cell only grows under [insert]. *)
Lemma insert_grows p x g k items :
  grid g !! k = Some items ->
  exists items', grid (insert p x g) !! k = Some items' /\ items ⊆ items'.
Proof.
  intros Hk. rewrite grid_insert.
  destruct (decide (cellOf g p = k)) as [->|Hne].
  - rewrite lookup_insert_eq. rewrite Hk. simpl. eexists; split; [reflexivity|].
    intros y Hy. apply elem_of_app; now left.
  - rewrite lookup_insert_ne by done. now exists items.
Qed.

Lemma insertAll_grows entries g k items :
  grid g !! k = Some items ->
  exists items', grid (insertAll entries g) !! k = Some items' /\ items ⊆ items'.
Proof.
  unfold insertAll. revert g items.
  induction entries as [|e entries IH]; intros g items Hk; simpl.
  - now exists items.
  - destruct (insert_grows e.1 e.2 g k items Hk) as (items1 & H1 & Hsub1).
    destruct (IH _ _ H1) as (items2 & H2 & Hsub2).
    exists items2; split; [done|]. by etrans.
Qed.

Lemma insert_stores p x g :
  exists items, grid (insert p x g) !! cellOf g p = Some items /\ x ∈ items.
Proof.
  rewrite grid_insert, lookup_insert_eq. eexists; split; [reflexivity|].
  apply elem_of_app; right. now apply list_elem_of_singleton.
Qed.

(** Every inserted item sits in the cell of its position. *)
Lemma insertAll_stores entries g p x :
  (p, x) ∈ entries ->
  exists items, grid (insertAll entries g) !! cellOf g p = Some items /\ x ∈ items.
Proof.
  revert g. induction entries as [|e entries IH]; intros g Hin.
  - by apply elem_of_nil in Hin.
  - apply elem_of_cons in Hin as [<-|Hin].
    + destruct (insert_stores p x g) as (items & Hk & Hx).
      destruct (insertAll_grows entries _ _ _ Hk) as (items' & Hk' & Hsub).
      exists items'; split; [exact Hk'|]. now apply Hsub.
    + destruct (IH (insert e.1 e.2 g) Hin) as (items & Hk & Hx).
      exists items; split; [|done]. exact Hk.
Qed.

(** What an inserted grid holds came from the entries or was there. *)
Lemma insertAll_origin entries g k items x :
  grid (insertAll entries g) !! k = Some items -> x ∈ items ->
  (exists p, (p, x) ∈ entries) \/
  (exists items0, grid g !! k = Some items0 /\ x ∈ items0).
Proof.
  revert g items. induction entries as [|e entries IH]; intros g items Hk Hx.
  - right. now exists items.
  - destruct (IH (insert e.1 e.2 g) items Hk Hx) as [(p & Hp)|(items0 & H0 & Hx0)].
    + left. exists p. now apply elem_of_cons; right.
    + rewrite grid_insert in H0.
      destruct (decide (cellOf g e.1 = k)) as [<-|Hne].
      * rewrite lookup_insert_eq in H0. injection H0 as <-.
        apply elem_of_app in Hx0 as [Hx0|Hx0].
        -- right. destruct (grid g !! cellOf g e.1) as [c|] eqn:Hc; simpl in Hx0.
           ++ now exists c.
           ++ by apply elem_of_nil in Hx0.
        -- apply list_elem_of_singleton in Hx0 as ->. left. exists e.1.
           apply elem_of_cons; left. now destruct e.
      * rewrite lookup_insert_ne in H0 by done. right. now exists items0.
Qed.

Lemma elem_of_offsets (cellRadius d : Z) :
  d ∈ offsets cellRadius <-> (- cellRadius <= d <= cellRadius)%Z.
Proof. unfold offsets. rewrite elem_of_seqZ. lia. Qed.

(** [queryRadius] gathers exactly the cells within [cellRadius] of the
    cell of the query position, on each axis. *)
Lemma elem_of_queryRadius g q radius x :
  x ∈ queryRadius g q radius <->
  exists dx dy dz items,
    let cellRadius := Qceiling (radius / cellSize g) in
    (- cellRadius <= dx <= cellRadius)%Z /\
    (- cellRadius <= dy <= cellRadius)%Z /\
    (- cellRadius <= dz <= cellRadius)%Z /\
    grid g !! ((cellOf g q).1.1 + dx, (cellOf g q).1.2 + dy, (cellOf g q).2 + dz)%Z
      = Some items /\
    x ∈ items.
Proof.
  unfold queryRadius, cellOf. cbv zeta.
  destruct (getCellKey g (vx q) (vy q) (vz q)) as [[cx cy] cz]. simpl.
  split.
  - intros Hin.
    apply list_elem_of_bind in Hin as (dx & Hin & Hdx).
    apply list_elem_of_bind in Hin as (dy & Hin & Hdy).
    apply list_elem_of_bind in Hin as (dz & Hin & Hdz).
    apply elem_of_offsets in Hdx, Hdy, Hdz.
    destruct (grid g !! _) as [items'|] eqn:Hk.
    + exists dx, dy, dz, items'. done.
    + by apply elem_of_nil in Hin.
  - intros (dx & dy & dz & items & Hdx & Hdy & Hdz & Hk & Hx).
    apply list_elem_of_bind. exists dx. split; [|by apply elem_of_offsets].
    apply list_elem_of_bind. exists dy. split; [|by apply elem_of_offsets].
    apply list_elem_of_bind. exists dz. split; [|by apply elem_of_offsets].
    now rewrite Hk.
Qed.

Local Open Scope Q_scope.

(** With exact quotients the scan is wide enough: the cell of a point
    within [radius] of the query position is one of the scanned cells.
    This lemma and the next hold of the rational model; the program
    floors the rounded quotient, which can be the next integer
    ([Double.SpatialGrid]). *)
Lemma near_cell_is_scanned g p q radius :
  0 < cellSize g -> 0 <= radius ->
  Vec.distanceToSquared p q <= radius * radius ->
  exists dx dy dz,
    let cellRadius := Qceiling (radius / cellSize g) in
    (- cellRadius <= dx <= cellRadius)%Z /\
    (- cellRadius <= dy <= cellRadius)%Z /\
    (- cellRadius <= dz <= cellRadius)%Z /\
    cellOf g p
    = ((cellOf g q).1.1 + dx, (cellOf g q).1.2 + dy, (cellOf g q).2 + dz)%Z.
Proof.
  intros Hc Hr Hd.
  destruct (distance_bounds_axes p q radius Hr Hd) as ((Hx1 & Hx2) & (Hy1 & Hy2) & (Hz1 & Hz2)).
  unfold cellOf, getCellKey; cbv zeta; cbn [fst snd].
  exists (Qfloor (vx p / cellSize g) - Qfloor (vx q / cellSize g))%Z,
         (Qfloor (vy p / cellSize g) - Qfloor (vy q / cellSize g))%Z,
         (Qfloor (vz p / cellSize g) - Qfloor (vz q / cellSize g))%Z.
  pose proof (floor_cells_close _ _ _ _ Hc Hx1).
  pose proof (floor_cells_close _ _ _ _ Hc Hx2).
  pose proof (floor_cells_close _ _ _ _ Hc Hy1).
  pose proof (floor_cells_close _ _ _ _ Hc Hy2).
  pose proof (floor_cells_close _ _ _ _ Hc Hz1).
  pose proof (floor_cells_close _ _ _ _ Hc Hz2).
  repeat split; try lia. f_equal; [f_equal|]; lia.
Qed.

Lemma queryRadius_finds entries g p q radius x :
  0 < cellSize g -> 0 <= radius ->
  (p, x) ∈ entries ->
  Vec.distanceToSquared p q <= radius * radius ->
  x ∈ queryRadius (insertAll entries g) q radius.
Proof.
  intros Hc Hr Hin Hd.
  destruct (insertAll_stores entries g p x Hin) as (items & Hk & Hx).
  apply elem_of_queryRadius.
  destruct (near_cell_is_scanned g p q radius Hc Hr Hd) as (dx & dy & dz & H).
  cbv zeta in H. destruct H as (Hdx & Hdy & Hdz & Hcell).
  exists dx, dy, dz, items. cbv zeta.
  rewrite cellSize_insertAll, cellOf_insertAll, <- Hcell. done.
Qed.

(** A grid filled from empty returns only inserted items. *)
Lemma queryRadius_from_clear entries g q radius x :
  x ∈ queryRadius (insertAll entries (clear g)) q radius ->
  exists p, (p, x) ∈ entries.
Proof.
  intros Hx. apply elem_of_queryRadius in Hx as (dx & dy & dz & items & H).
  cbv zeta in H. destruct H as (_ & _ & _ & Hk & Hx).
  destruct (insertAll_origin _ _ _ _ _ Hk Hx) as [?|(items0 & H0 & _)]; [done|].
  simpl in H0. by rewrite lookup_empty in H0.
Qed.

End GridFacts.

Section GridBounds.
Context {T : Type}.
Implicit Types (g : SpatialGrid.t T) (p q : Vector3) (x : T).
Import SpatialGrid.

Lemma applyOp_sameUpToBounds op g g' :
  sameUpToBounds g g' ->
  sameUpToBounds (applyOp op g).1 (applyOp op g').1 /\
  (applyOp op g).2 = (applyOp op g').2.
Proof.
  intros [Hc Hg]. destruct op as [p x|p|p r| |]; simpl.
  - split; [|reflexivity]. split; [exact Hc|].
    rewrite !grid_insert. unfold cellOf, getCellKey. now rewrite Hc, Hg.
  - split; [done|]. unfold query, getCellKey. now rewrite Hc, Hg.
  - split; [done|]. unfold queryRadius, getCellKey. now rewrite Hc, Hg.
  - split; [|reflexivity]. split; [exact Hc|reflexivity].
  - split; [done|]. unfold size. now rewrite Hg.
Qed.

Lemma runOps_sameUpToBounds ops g g' :
  sameUpToBounds g g' -> runOps ops g = runOps ops g'.
Proof.
  revert g g'. induction ops as [|op ops IH]; intros g g' Hs; [reflexivity|].
  simpl. destruct (applyOp_sameUpToBounds op g g' Hs) as [Hs' Hr].
  destruct (applyOp op g) as [g1 r1], (applyOp op g') as [g1' r1'].
  simpl in *. subst r1'. f_equal. now apply IH.
Qed.

Lemma query_insert p x g : x ∈ query (insert p x g) p.
Proof.
  unfold query. fold (cellOf (insert p x g) p). rewrite cellOf_insert.
  destruct (insert_stores p x g) as (items & -> & Hx). exact Hx.
Qed.

Lemma size_insert p x g : size (insert p x g) = S (size g).
Proof.
  unfold size. rewrite grid_insert.
  set (f := fun (_ : Z * Z * Z) (items : list T) (count : nat) =>
              (count + length items)%nat).
  assert (Hcomm : forall (m : gmap (Z * Z * Z) (list T)) j1 j2 z1 z2 y,
             j1 ≠ j2 -> m !! j1 = Some z1 -> m !! j2 = Some z2 ->
             f j1 z1 (f j2 z2 y) = f j2 z2 (f j1 z1 y)).
  { intros. unfold f. lia. }
  destruct (grid g !! cellOf g p) as [cell|] eqn:Hk; simpl.
  - rewrite <- insert_delete_eq.
    rewrite (map_fold_insert_L f); [|apply Hcomm|apply lookup_delete_eq].
    rewrite (map_fold_delete_L f _ _ _ _ (Hcomm _) Hk).
    unfold f. rewrite length_app. simpl. lia.
  - rewrite (map_fold_insert_L f); [|apply Hcomm|exact Hk].
    unfold f. simpl. lia.
Qed.

End GridBounds.

(** ** The grid and the handshake on doubles *)

Section DoubleFacts.
Import Floats.
Local Open Scope float_scope.

(** A loop that has ended within [fuel] tests has the same values with
    any larger bound. *)
Lemma forLoop_more (fuel : nat) (d last : float) (l : list float) (k : nat) :
  Double.SpatialGrid.forLoop fuel d last = Some l ->
  Double.SpatialGrid.forLoop (fuel + k) d last = Some l.
Proof.
  revert d l. induction fuel as [|fuel IH]; intros d l; [discriminate|].
  cbn [Double.SpatialGrid.forLoop Nat.add].
  destruct (d <=? last); [|exact (fun H => H)].
  destruct (Double.SpatialGrid.forLoop fuel (d + 1) last) as [l'|] eqn:Hl;
    [|discriminate].
  rewrite (IH _ _ Hl). exact (fun H => H).
Qed.

Lemma queryRadius_more {T : Type} (fuel : nat) (g : Double.SpatialGrid.t T)
    (position : Double.Vector3) (radius : float) (l : list T) (k : nat) :
  Double.SpatialGrid.queryRadius fuel g position radius = Some l ->
  Double.SpatialGrid.queryRadius (fuel + k) g position radius = Some l.
Proof.
  unfold Double.SpatialGrid.queryRadius. cbv zeta.
  destruct (Double.SpatialGrid.forLoop fuel _ _) as [offsets|] eqn:Ho;
    [|discriminate].
  rewrite (forLoop_more _ _ _ _ k Ho). exact (fun H => H).
Qed.

Lemma handshakeStars_more (fuel : nat) (maxDistance waveSpeed currentTime : float)
    (starGrid : Double.SpatialGrid.t Double.Star)
    (activeStars : list Double.Star) acc r (k : nat) :
  Double.handshakeStars fuel maxDistance waveSpeed currentTime starGrid
    activeStars acc = Some r ->
  Double.handshakeStars (fuel + k) maxDistance waveSpeed currentTime starGrid
    activeStars acc = Some r.
Proof.
  revert acc. induction activeStars as [|starA rest IH]; intros acc;
    [exact (fun H => H)|].
  cbn [Double.handshakeStars].
  destruct (Double.SpatialGrid.queryRadius fuel starGrid _ _)
    as [nearbyStars|] eqn:Hq; [|discriminate].
  rewrite (queryRadius_more _ _ _ _ _ k Hq). cbn [mbind option_bind].
  apply IH.
Qed.

Lemma handshake_more (fuel : nat) (maxDistance waveSpeed currentTime : float)
    (stars : list Double.Star) (starGrid : Double.SpatialGrid.t Double.Star)
    calls (k : nat) :
  Double.handshake fuel maxDistance waveSpeed currentTime stars starGrid
  = Some calls ->
  Double.handshake (fuel + k) maxDistance waveSpeed currentTime stars starGrid
  = Some calls.
Proof.
  unfold Double.handshake.
  destruct (Double.handshakeStars fuel _ _ _ _ _ _) as [r|] eqn:Hr;
    [|discriminate].
  rewrite (handshakeStars_more _ _ _ _ _ _ _ _ k Hr). exact (fun H => H).
Qed.

(** From [-Infinity] the counter never moves. *)
Lemma forLoop_diverges (fuel : nat) :
  Double.SpatialGrid.forLoop fuel neg_infinity infinity = None.
Proof.
  induction fuel as [|fuel IH]; [reflexivity|].
  cbn [Double.SpatialGrid.forLoop].
  change (neg_infinity <=? infinity) with true.
  change (neg_infinity + 1) with neg_infinity.
  cbv iota. rewrite IH. reflexivity.
Qed.

Lemma queryRadius_diverges {T : Type} (g : Double.SpatialGrid.t T)
    (position : Double.Vector3) (radius : float) (fuel : nat) :
  Double.Math_ceil (radius / Double.SpatialGrid.cellSize g) = infinity ->
  Double.SpatialGrid.queryRadius fuel g position radius = None.
Proof.
  intros Hc. unfold Double.SpatialGrid.queryRadius. cbv zeta. rewrite Hc.
  change (- infinity) with neg_infinity.
  rewrite forLoop_diverges. reflexivity.
Qed.

End DoubleFacts.

Section DoubleGrid.
Import Floats.
Local Open Scope float_scope.
#[local] Set Warnings "-inexact-float".

(** C1 (the code departs from it): [queryRadius] leaves out an item that
    lies within the radius.  On a grid of cell size 0.1 an item is
    inserted at (0.5, 0, 0) and the query is made around (0.3, 0, 0) with
    radius 0.2.  The item is at distance 0.2 of the query position: the
    two doubles differ by the double 0.2 exactly, and [distanceTo]
    computes 0.2.  But [insert] files the item under cell 5 of the x
    axis, since the quotient 0.5 / 0.1 is rounded to 5, while the cell of
    the query position is 2 (0.3 / 0.1 is 2.9999999999999996) and
    [cellRadius] is 2: the loops scan the cells 0 to 4 and [queryRadius]
    returns the empty array, as soon as the bound on the loops allows
    the six tests that each makes.  On a grid of cell size 0 the
    same call does not return: [cellRadius] is [Infinity] and the loop
    counter stays at [-Infinity]. *)
Theorem queryRadius_misses_item_within_radius :
  let item := Double.V3 0.5 0 0 in
  let position := Double.V3 0.3 0 0 in
  let radius := 0.2 in
  let g := Double.SpatialGrid.insert item 7%nat
             (Double.SpatialGrid.new 0.1 Double.minBounds Double.maxBounds) in
  let g0 := Double.SpatialGrid.insert item 7%nat
              (Double.SpatialGrid.new 0 Double.minBounds Double.maxBounds) in
  (Vec.distanceToSquared (exactVector item) (exactVector position)
   == Double.toQ radius * Double.toQ radius)%Q /\
  Double.distanceTo item position = radius /\
  Double.SpatialGrid.query g item = [7%nat] /\
  Double.SpatialGrid.getCellKey g 0.5 0 0 = Double.SpatialGrid.cellKey 5 0 0 /\
  Double.SpatialGrid.getCellKey g 0.3 0 0 = Double.SpatialGrid.cellKey 2 0 0 /\
  Double.Math_ceil (radius / Double.SpatialGrid.cellSize g) = 2 /\
  (forall fuel,
     Double.SpatialGrid.queryRadius (6 + fuel) g position radius = Some []) /\
  (forall fuel, Double.SpatialGrid.queryRadius fuel g0 position radius = None).
Proof.
  cbv zeta.
  split; [vm_compute; reflexivity|].
  split; [vm_compute; reflexivity|].
  split; [vm_compute; reflexivity|].
  split; [vm_compute; reflexivity|].
  split; [vm_compute; reflexivity|].
  split; [vm_compute; reflexivity|].
  split.
  - intros fuel. apply queryRadius_more. vm_compute. reflexivity.
  - intros fuel. apply queryRadius_diverges. vm_compute. reflexivity.
Qed.

End DoubleGrid.

(** C10: the bounds given to the constructor have no effect.  Two grids
    built with the same cell size and any two choices of bounds return
    the same results along every sequence of [insert], [query],
    [queryRadius], [clear] and [size] calls; and a position is inserted
    and found again in its own cell, and counted, wherever it lies (the
    bounds are never read). *)
Theorem bounds_have_no_effect {T : Type} :
  (forall (cellSize : Q) (minBounds maxBounds minBounds' maxBounds' : Vector3)
          (ops : list (SpatialGrid.GridOp T)),
     SpatialGrid.runOps ops (SpatialGrid.new cellSize minBounds maxBounds)
     = SpatialGrid.runOps ops (SpatialGrid.new cellSize minBounds' maxBounds')) /\
  (forall (g : SpatialGrid.t T) (position : Vector3) (item : T),
     item ∈ SpatialGrid.query (SpatialGrid.insert position item g) position /\
     SpatialGrid.size (SpatialGrid.insert position item g)
     = S (SpatialGrid.size g)).
Proof.
  split.
  - intros. apply runOps_sameUpToBounds. split; reflexivity.
  - intros g position item. split.
    + apply query_insert.
    + apply size_insert.
Qed.

(** ** Facts about [Star] *)

(** Unfold the monadic plumbing of entity code. *)
Ltac unfold_world :=
  unfold mbind, M_bind, bind, mret, M_ret, ret, Math_random, Date_now_seconds,
    Star_nextId_incr, throwTypeError in *.

(** Split on every conditional of a hypothesis. *)
Ltac split_ifs_in H :=
  repeat match type of H with
         | context [if ?b then _ else _] => destruct b eqn:?
         end.

Section StarFacts.
Import Entities.

(** [update] always returns. *)
Lemma Star_update_returns E S deltaTime st w :
  exists st' w', Star_update E S deltaTime st w = Ok st' w'.
Proof.
  unfold Star_update. unfold_world. cbv zeta.
  repeat match goal with
         | |- context [if ?b then _ else _] => destruct b; cbn [fst snd]
         end; eauto.
Qed.

Lemma newStar_flags E S position center profile w star st w' :
  newStar E S position center profile w = Ok (star, st) w' ->
  flagsConsistent st /\ hasDormantPlanet st = false.
Proof.
  unfold newStar, clone, generateStarColor, M_type, K_type, G_type, F_type,
    A_type, B_type, O_type, spectral. unfold_world.
  intros H.
  destruct center; [|discriminate].
  destruct profile;
    repeat match type of H with
           | context [if ?b then _ else _] => destruct b
           end;
    injection H as _ <- _; (split; [split|]); simpl; try done;
    split; try done; by intros [? ?].
Qed.

(** What one [update] can do to the activation flags: nothing, the
    activation of a dormant star that never deactivated, or the
    deactivation of an active star. *)
Lemma Star_update_flags_cases E S deltaTime st w st' w' :
  Star_update E S deltaTime st w = Ok st' w' ->
  flagsOf st' = flagsOf st \/
  (isActive st = false /\ hasDormantPlanet st = false /\
   exists t, flagsOf st' = (true, Some t, false)) \/
  (isActive st = true /\ flagsOf st' = (false, None, true)).
Proof.
  unfold Star_update. unfold_world. cbv zeta.
  destruct st as [pos ctr col [op sc cl li] a l dormant active atime et ei em life nova obs].
  unfold flagsOf, set_age.
  cbn [position galaxyCenter baseColor mesh age lifetime hasDormantPlanet
       isActive activationTime emissionTimer emissionInterval isEmitting
       canSupportLife isGoingSupernova isObscured].
  intros H.
  destruct active, dormant, life, li; cbn [negb andb] in H;
    split_ifs_in H; injection H as <- _;
    cbn [activate deactivate addLight removeLight set_isActive
         set_activationTime set_emissionTimer set_mesh set_scale set_light
         set_colour set_opacity set_isEmitting set_hasDormantPlanet
         set_isGoingSupernova mesh light isActive activationTime
         hasDormantPlanet emissionTimer emissionInterval position
         galaxyCenter];
    first [ left; reflexivity
          | right; left; split; [reflexivity|split; [reflexivity|eexists; reflexivity]]
          | right; right; split; reflexivity
          | done ].
Qed.

Lemma Star_update_flags E S deltaTime st w st' w' :
  Star_update E S deltaTime st w = Ok st' w' ->
  flagsConsistent st ->
  flagsConsistent st' /\
  (hasDormantPlanet st = true -> hasDormantPlanet st' = true).
Proof.
  intros H [Hact Hdorm].
  destruct (Star_update_flags_cases _ _ _ _ _ _ _ H)
    as [Heq|[(Ha & Hd & t & Heq)|(Ha & Heq)]];
    unfold flagsOf in Heq; injection Heq as Hi Ht Hp;
    unfold flagsConsistent; rewrite Hi, Ht, Hp.
  - done.
  - split; [split|]; [split; [done|by eexists]|done|congruence].
  - split; [split|]; [split; [by intros [? ?]|done]|done|done].
Qed.

Lemma StarStep_flags st st' :
  StarStep st st' -> flagsConsistent st ->
  flagsConsistent st' /\
  (hasDormantPlanet st = true -> hasDormantPlanet st' = true).
Proof.
  intros Hstep Hinv. destruct Hstep as [E S dt st w st' w' H|st|st|S i b st].
  - eapply Star_update_flags; eauto.
  - split; [exact Hinv|done].
  - split; [exact Hinv|done].
  - unfold applyDustObscuration, setLightIntensity. cbv zeta.
    destruct st as [pos ctr col m a l dormant active atime et ei em life nova obs].
    unfold flagsConsistent in *.
    cbn [hasDormantPlanet isActive activationTime isObscured mesh] in *.
    repeat match goal with
           | |- context [if ?b then _ else _] => destruct b; cbn
           | |- context [match ?x with _ => _ end] => destruct x; cbn
           end; split; try tauto; try done.
Qed.

Lemma StarReachable_flags st : StarReachable st -> flagsConsistent st.
Proof.
  induction 1 as [E S pos c prof w i st w' H|st st' _ IH Hstep].
  - eapply newStar_flags; eauto.
  - eapply StarStep_flags; eauto.
Qed.

Lemma StarReachable_rtc st st' :
  StarReachable st -> rtc StarStep st st' -> StarReachable st'.
Proof.
  intros Hr Hsteps. induction Hsteps as [st|st st1 st2 Hstep _ IH]; [done|].
  apply IH. eapply reach_step; eauto.
Qed.

Lemma dormant_forever st st' :
  StarReachable st -> rtc StarStep st st' ->
  hasDormantPlanet st = true -> hasDormantPlanet st' = true.
Proof.
  intros Hr Hsteps. induction Hsteps as [st|st st1 st2 Hstep _ IH]; [done|].
  intros Hd. apply IH.
  - eapply reach_step; eauto.
  - eapply StarStep_flags; eauto using StarReachable_flags.
Qed.

End StarFacts.

(** C7: along the life of every star object, from its construction and
    through every sequence of [update(deltaTime)] calls (for every
    [deltaTime], and also through the other mutations the manager
    applies), [activationTime] is non-null exactly when [isActive]; and
    from a state where [hasDormantPlanet] holds the star is never active
    again.  Besides, [update] always returns. *)
Theorem star_activation_invariant (st st' : Star) :
  StarReachable st ->
  rtc StarStep st st' ->
  (is_Some (activationTime st') <-> isActive st' = true) /\
  (hasDormantPlanet st = true ->
   isActive st' = false /\ hasDormantPlanet st' = true) /\
  (forall E settings deltaTime w,
     exists st'' w', Entities.Star_update E settings deltaTime st' w = Ok st'' w').
Proof.
  intros Hr Hsteps.
  pose proof (StarReachable_flags st' (StarReachable_rtc st st' Hr Hsteps)) as [Hact Hdorm].
  split; [exact Hact|]. split.
  - intros Hd. pose proof (dormant_forever st st' Hr Hsteps Hd) as Hd'.
    split; [now apply Hdorm|exact Hd'].
  - intros. apply Star_update_returns.
Qed.

(** ** Facts about [createConnection] and the dust tests *)

Section ConnectionFacts.
Import Entities Manager.

Lemma pairKey_sym a b : pairKey a b = pairKey b a.
Proof. unfold pairKey. f_equal; lia. Qed.

Lemma pairKey_eq a b c d :
  pairKey a b = pairKey c d <-> (a = c /\ b = d) \/ (a = d /\ b = c).
Proof.
  unfold pairKey. split.
  - intros H. injection H as Hmin Hmax. lia.
  - intros [[-> ->]|[-> ->]]; f_equal; lia.
Qed.

Lemma connects_unorderedPair a b c :
  connects a b c = true <-> unorderedPair c = pairKey a b.
Proof.
  unfold connects, unorderedPair. rewrite pairKey_eq.
  rewrite orb_true_iff, !andb_true_iff, !Nat.eqb_eq. reflexivity.
Qed.

Lemma connects_sym a b c : connects a b c = connects b a c.
Proof. unfold connects. apply orb_comm. Qed.

Lemma existsb_connects a b l :
  existsb (connects a b) l = true <-> connected a b l.
Proof.
  rewrite existsb_exists. unfold connected.
  split; intros (c & Hin & Hc); exists c; split; try done;
    by apply list_elem_of_In.
Qed.

Lemma connected_pair a b l :
  connected a b l <-> pairKey a b ∈ map unorderedPair l.
Proof.
  unfold connected. rewrite list_elem_of_fmap. split.
  - intros (c & Hin & Hc). exists c. split; [|done].
    symmetry. now apply connects_unorderedPair.
  - intros (c & Hc & Hin). exists c. split; [done|].
    now apply connects_unorderedPair.
Qed.

Lemma connected_sym a b l : connected a b l <-> connected b a l.
Proof. rewrite !connected_pair, (pairKey_sym a b). reflexivity. Qed.

Lemma createConnection_cases a b nm :
  createConnection a b nm
  = if existsb (connects a b) (connections nm) || refused a b nm
    then nm else added a b nm.
Proof.
  unfold createConnection, refused, added. cbv zeta.
  destruct (existsb _ _); [reflexivity|].
  destruct (sqrt_gtb _ _); [reflexivity|].
  destruct (isStarInDustCloud nm a || isStarInDustCloud nm b); [reflexivity|].
  destruct (isBlockedByDust _ _ _); reflexivity.
Qed.

Lemma createConnection_existing a b nm :
  connected a b (connections nm) -> createConnection a b nm = nm.
Proof.
  intros H. apply existsb_connects in H.
  rewrite createConnection_cases, H. reflexivity.
Qed.

Lemma createConnection_unique a b nm :
  uniqueConnections (connections nm) ->
  uniqueConnections (connections (createConnection a b nm)).
Proof.
  intros Hu. rewrite createConnection_cases.
  destruct (existsb (connects a b) (connections nm)) eqn:Hex; [done|].
  destruct (refused a b nm); [done|]. simpl.
  unfold uniqueConnections. rewrite map_app. simpl.
  apply NoDup_app. split; [exact Hu|]. split; [|apply NoDup_singleton].
  intros k Hk Hk'. apply list_elem_of_singleton in Hk'. subst k.
  change (unorderedPair {| star1 := a; star2 := b |}) with (pairKey a b) in Hk.
  apply connected_pair, existsb_connects in Hk. congruence.
Qed.

Lemma createConnection_twice a b nm :
  createConnection a b (createConnection a b nm) = createConnection a b nm.
Proof.
  rewrite (createConnection_cases a b nm).
  destruct (existsb (connects a b) (connections nm) || refused a b nm) eqn:Hc.
  - rewrite createConnection_cases, Hc. reflexivity.
  - apply createConnection_existing. exists {| star1 := a; star2 := b |}.
    split.
    + simpl. apply elem_of_app. right. now apply list_elem_of_singleton.
    + unfold connects. simpl. now rewrite !Nat.eqb_refl.
Qed.

(** What [createConnection] leaves alone. *)
Lemma createConnection_frame a b nm :
  let nm' := createConnection a b nm in
  settings nm' = settings nm /\ world nm' = world nm /\ heap nm' = heap nm /\
  stars nm' = stars nm /\ waves nm' = waves nm /\
  dustClouds nm' = dustClouds nm /\ lastGalaxies nm' = lastGalaxies nm /\
  waveGrid nm' = waveGrid nm /\ dustGrid nm' = dustGrid nm /\
  starGrid nm' = starGrid nm /\ supernovaFlashes nm' = supernovaFlashes nm.
Proof.
  cbv zeta. rewrite createConnection_cases.
  destruct (_ || _); repeat split; reflexivity.
Qed.

Local Open Scope Q_scope.

Lemma isStarInDustCloud_spec nm a :
  isStarInDustCloud nm a = true <->
  exists cloud, cloud ∈ dustClouds nm /\
                SegmentSpec.insideCloud (position (deref nm a)) cloud = true.
Proof.
  unfold isStarInDustCloud. rewrite existsb_exists.
  split; intros (c & Hin & Hc); exists c; split; try done;
    by apply list_elem_of_In.
Qed.

Lemma isBlockedByDust_spec nm A B :
  isBlockedByDust nm A B = true <->
  exists cloud, cloud ∈ dustClouds nm /\ cloudBlocks A B cloud = true.
Proof.
  unfold isBlockedByDust. rewrite existsb_exists.
  split; intros (c & Hin & Hc); exists c; split; try done;
    by apply list_elem_of_In.
Qed.

Lemma distance_scaled_proper A d C s s' :
  s == s' ->
  Vec.distanceToSquared (Vec.addScaledVector A d s) C
  == Vec.distanceToSquared (Vec.addScaledVector A d s') C.
Proof.
  intros Hs. unfold Vec.distanceToSquared, Vec.addScaledVector. simpl.
  now rewrite Hs.
Qed.

Lemma distance_scaled_0 A d C :
  Vec.distanceToSquared (Vec.addScaledVector A d 0) C
  == Vec.distanceToSquared A C.
Proof. unfold Vec.distanceToSquared, Vec.addScaledVector. simpl. ring. Qed.

Lemma distance_scaled_1 A B C :
  Vec.distanceToSquared (Vec.addScaledVector A (Vec.subVectors B A) 1) C
  == Vec.distanceToSquared B C.
Proof.
  unfold Vec.distanceToSquared, Vec.addScaledVector, Vec.subVectors. simpl. ring.
Qed.

Lemma dot_self_nonneg d : 0 <= Vec.dot d d.
Proof.
  unfold Vec.dot. pose proof (sq_nonneg (vx d)). pose proof (sq_nonneg (vy d)).
  pose proof (sq_nonneg (vz d)). lra.
Qed.

Lemma clamp01_cases t :
  (t <= 0 /\ SegmentSpec.clamp01 t == 0) \/
  (1 <= t /\ SegmentSpec.clamp01 t == 1) \/
  (0 <= t <= 1 /\ SegmentSpec.clamp01 t == t).
Proof.
  unfold SegmentSpec.clamp01, Qmax, Qmin.
  destruct (Qle_bool 1 t) eqn:H1.
  - apply Qle_bool_iff in H1. right; left. split; [done|].
    destruct (Qle_bool 0 1) eqn:H0; [reflexivity|discriminate].
  - apply Qleb_gt in H1. destruct (Qle_bool 0 t) eqn:H0.
    + apply Qle_bool_iff in H0. right; right. split; [|reflexivity]. lra.
    + apply Qleb_gt in H0. left. split; [lra|reflexivity].
Qed.

(** The parameter of the projection, when the projection falls on the
    segment. *)
Lemma projection_parameter (proj len : Q) :
  0 <= len -> 0 <= proj -> proj <= len -> 0 <= proj / len <= 1.
Proof.
  intros Hl Hp Hpl.
  destruct (Qlt_le_dec 0 len) as [Hpos|Hz].
  - split.
    + apply Qle_shift_div_l; lra.
    + apply Qle_shift_div_r; lra.
  - assert (Hlen : len == 0) by lra.
    assert (Hq : proj / len == 0).
    { unfold Qdiv. rewrite Hlen. unfold Qinv. simpl. ring. }
    rewrite Hq. lra.
Qed.

Lemma projection_parameter_neg (proj len : Q) :
  0 <= len -> proj < 0 -> proj / len <= 0.
Proof.
  intros Hl Hp.
  destruct (Qlt_le_dec 0 len) as [Hpos|Hz].
  - apply Qle_shift_div_r; lra.
  - assert (Hlen : len == 0) by lra.
    assert (Hq : proj / len == 0).
    { unfold Qdiv. rewrite Hlen. unfold Qinv. simpl. ring. }
    rewrite Hq. lra.
Qed.

Lemma projection_parameter_beyond (proj len : Q) :
  0 <= len -> len < proj -> proj / len <= 0 \/ 1 <= proj / len.
Proof.
  intros Hl Hp.
  destruct (Qlt_le_dec 0 len) as [Hpos|Hz].
  - right. apply Qle_shift_div_l; lra.
  - left. assert (Hlen : len == 0) by lra.
    assert (Hq : proj / len == 0).
    { unfold Qdiv. rewrite Hlen. unfold Qinv. simpl. ring. }
    rewrite Hq. lra.
Qed.

(** A segment that enters a cloud, in the clamped sense of the
    specification and strictly, is stopped by one of the three tests of
    [createConnection]. *)
Lemma entersCloud_stopped A B cloud :
  SegmentSpec.entersCloud A B cloud = true ->
  SegmentSpec.insideCloud A cloud = true \/
  SegmentSpec.insideCloud B cloud = true \/
  cloudBlocks A B cloud = true.
Proof.
  unfold SegmentSpec.entersCloud, SegmentSpec.closestPointOnSegment,
    SegmentSpec.insideCloud, cloudBlocks. cbv zeta.
  set (d := Vec.subVectors B A).
  set (proj := Vec.dot (Vec.subVectors (cloud_position cloud) A) d).
  set (len := Vec.dot d d).
  pose proof (dot_self_nonneg d) as Hlen. fold len in Hlen.
  intros H.
  destruct (clamp01_cases (proj / len)) as [[Ht Hc]|[[Ht Hc]|[Ht Hc]]].
  - left. rewrite (distance_scaled_proper _ _ _ _ _ Hc) in H.
    now rewrite distance_scaled_0 in H.
  - right; left. rewrite (distance_scaled_proper _ _ _ _ _ Hc) in H.
    unfold d in H. now rewrite distance_scaled_1 in H.
  - rewrite (distance_scaled_proper _ _ _ _ _ Hc) in H.
    destruct (Qltb proj 0) eqn:Hneg.
    + apply Qltb_lt in Hneg.
      pose proof (projection_parameter_neg proj len Hlen Hneg) as Hle.
      assert (Hz : proj / len == 0) by lra.
      left. rewrite (distance_scaled_proper _ _ _ _ _ Hz) in H.
      now rewrite distance_scaled_0 in H.
    + destruct (Qgtb proj len) eqn:Hbeyond.
      * apply Qltb_lt in Hbeyond.
        destruct (projection_parameter_beyond proj len Hlen Hbeyond) as [Hle|Hge].
        -- assert (Hz : proj / len == 0) by lra.
           left. rewrite (distance_scaled_proper _ _ _ _ _ Hz) in H.
           now rewrite distance_scaled_0 in H.
        -- assert (Hz : proj / len == 1) by lra.
           right; left. rewrite (distance_scaled_proper _ _ _ _ _ Hz) in H.
           unfold d in H. now rewrite distance_scaled_1 in H.
      * right; right. simpl. exact H.
Qed.

Lemma createConnection_blocked a b nm cloud :
  cloud ∈ dustClouds nm ->
  SegmentSpec.insideCloud (position (deref nm a)) cloud = true \/
  SegmentSpec.insideCloud (position (deref nm b)) cloud = true \/
  SegmentSpec.entersCloud (position (deref nm a)) (position (deref nm b)) cloud
  = true ->
  createConnection a b nm = nm.
Proof.
  intros Hin H. rewrite createConnection_cases.
  assert (Hr : refused a b nm = true); [|rewrite Hr, orb_true_r; reflexivity].
  unfold refused.
  assert (Hcases :
    SegmentSpec.insideCloud (position (deref nm a)) cloud = true \/
    SegmentSpec.insideCloud (position (deref nm b)) cloud = true \/
    cloudBlocks (position (deref nm a)) (position (deref nm b)) cloud = true).
  { destruct H as [H|[H|H]]; [by left|by right; left|].
    now apply entersCloud_stopped. }
  destruct Hcases as [H1|[H1|H1]].
  - assert (isStarInDustCloud nm a = true) as ->
      by (apply isStarInDustCloud_spec; eauto).
    now rewrite orb_true_r.
  - assert (isStarInDustCloud nm b = true) as ->
      by (apply isStarInDustCloud_spec; eauto).
    now rewrite !orb_true_r.
  - assert (isBlockedByDust nm (position (deref nm a)) (position (deref nm b)) = true) as ->
      by (apply isBlockedByDust_spec; eauto).
    now rewrite orb_true_r.
Qed.

End ConnectionFacts.

(** ** Symmetry of the tests on a pair of stars *)

Section Symmetry.
Import Entities Manager.
Local Open Scope Q_scope.

#[global] Instance scaled_sqrt_leb_proper :
  Proper (Qeq ==> Qeq ==> Qeq ==> eq) scaled_sqrt_leb.
Proof.
  intros c c' Hc s s' Hs r r' Hr. unfold scaled_sqrt_leb, sqrt_geb.
  assert (Hq : r / c == r' / c') by now rewrite Hc, Hr.
  rewrite (Qltb_proper 0 0 (Qeq_refl 0) c c' Hc).
  rewrite (Qltb_proper c c' Hc 0 0 (Qeq_refl 0)).
  rewrite (sqrt_leb_proper s s' Hs _ _ Hq).
  rewrite (sqrt_ltb_proper s s' Hs _ _ Hq).
  rewrite (Qleb_comp 0 0 (Qeq_refl 0) r r' Hr).
  reflexivity.
Qed.

Lemma dot_self_zero d :
  Vec.dot d d == 0 -> vx d == 0 /\ vy d == 0 /\ vz d == 0.
Proof.
  unfold Vec.dot. intros H.
  pose proof (sq_nonneg (vx d)). pose proof (sq_nonneg (vy d)).
  pose proof (sq_nonneg (vz d)).
  assert (vx d * vx d == 0) as Hx by lra.
  assert (vy d * vy d == 0) as Hy by lra.
  assert (vz d * vz d == 0) as Hz by lra.
  repeat split; nra.
Qed.

Lemma cloudBlocks_sym A B cloud : cloudBlocks A B cloud = cloudBlocks B A cloud.
Proof.
  unfold cloudBlocks. cbv zeta.
  set (C := cloud_position cloud).
  set (d := Vec.subVectors B A). set (d' := Vec.subVectors A B).
  set (len := Vec.dot d d). set (len' := Vec.dot d' d').
  set (proj := Vec.dot (Vec.subVectors C A) d).
  set (proj' := Vec.dot (Vec.subVectors C B) d').
  assert (Hlen : len' == len).
  { unfold len, len', d, d', Vec.dot, Vec.subVectors. simpl. ring. }
  assert (Hproj : proj' == len - proj).
  { unfold proj, proj', len, d, d', Vec.dot, Vec.subVectors. simpl. ring. }
  assert (Hgate : Qltb proj' 0 || Qgtb proj' len' = Qltb proj 0 || Qgtb proj len).
  { unfold Qgtb.
    rewrite (Qltb_proper proj' (len - proj) Hproj 0 0 (Qeq_refl 0)).
    rewrite (Qltb_proper len' len Hlen proj' (len - proj) Hproj).
    rewrite orb_comm. f_equal.
    - destruct (Qltb len (len - proj)) eqn:H1, (Qltb proj 0) eqn:H2; try done.
      + apply Qltb_lt in H1. apply Qltb_ge in H2. lra.
      + apply Qltb_ge in H1. apply Qltb_lt in H2. lra.
    - destruct (Qltb (len - proj) 0) eqn:H1, (Qltb len proj) eqn:H2; try done.
      + apply Qltb_lt in H1. apply Qltb_ge in H2. lra.
      + apply Qltb_ge in H1. apply Qltb_lt in H2. lra. }
  rewrite Hgate. destruct (Qltb proj 0 || Qgtb proj len); [reflexivity|].
  apply sqrt_ltb_proper; [|reflexivity].
  pose proof (dot_self_nonneg d) as Hnn. fold len in Hnn.
  destruct (Qlt_le_dec 0 len) as [Hpos|Hz].
  - assert (Hs : proj' / len' == 1 - proj / len).
    { assert (Hq : proj' / len' == (len - proj) / len).
      { apply Qdiv_comp; assumption. }
      rewrite Hq. field. lra. }
    rewrite (distance_scaled_proper _ _ _ _ _ Hs).
    unfold Vec.distanceToSquared, Vec.addScaledVector, d, d', Vec.subVectors.
    simpl. ring.
  - assert (Hzero : len == 0) by lra.
    destruct (dot_self_zero d Hzero) as (Hx & Hy & Hz').
    unfold d, Vec.subVectors in Hx, Hy, Hz'. simpl in Hx, Hy, Hz'.
    assert (Hbx : vx B == vx A) by lra.
    assert (Hby : vy B == vy A) by lra.
    assert (Hbz : vz B == vz A) by lra.
    unfold Vec.distanceToSquared, Vec.addScaledVector, d, d', Vec.subVectors.
    simpl. rewrite Hbx, Hby, Hbz. ring.
Qed.

Lemma isBlockedByDust_sym nm A B : isBlockedByDust nm A B = isBlockedByDust nm B A.
Proof.
  unfold isBlockedByDust. induction (dustClouds nm) as [|c l IH]; [done|].
  simpl. now rewrite IH, cloudBlocks_sym.
Qed.

Lemma occluded_sym nm a b : occluded nm a b = occluded nm b a.
Proof.
  unfold occluded. rewrite (isBlockedByDust_sym nm (position (deref nm a))).
  f_equal. apply orb_comm.
Qed.

Lemma refused_sym a b nm : refused a b nm = refused b a nm.
Proof.
  unfold refused.
  rewrite (isBlockedByDust_sym nm (position (deref nm a))).
  rewrite (orb_comm (isStarInDustCloud nm a)).
  f_equal. f_equal. unfold sqrt_gtb. f_equal.
  apply sqrt_leb_proper; [apply distanceToSquared_sym|reflexivity].
Qed.

Lemma refused_occluded a b nm :
  refused a b nm
  = sqrt_gtb (Vec.distanceToSquared (position (deref nm a)) (position (deref nm b)))
             (Settings.maxConnectionDistance (settings nm))
    || occluded nm a b.
Proof. unfold refused, occluded. now rewrite <- !orb_assoc. Qed.

Lemma ready_sym t nm a b : ready t nm a b = ready t nm b a.
Proof.
  unfold ready. cbv zeta.
  pose proof (distanceToSquared_sym (position (deref nm a)) (position (deref nm b))) as Hd.
  f_equal.
  - unfold sqrt_gtb. f_equal. f_equal. now apply sqrt_leb_proper.
  - destruct (activationTime (deref nm a)) as [ta|], (activationTime (deref nm b)) as [tb|];
      try reflexivity.
    unfold roundTripElapsed. rewrite andb_comm.
    f_equal; now apply scaled_sqrt_leb_proper.
Qed.

Lemma roundTripElapsed_spec s distanceSquared activeTime :
  0 < waveSpeed s ->
  roundTripElapsed s distanceSquared activeTime = true <->
  HandshakeSpec.roundTripWithin (waveSpeed s) distanceSquared activeTime.
Proof.
  intros Hw. unfold roundTripElapsed, scaled_sqrt_leb, HandshakeSpec.roundTripWithin.
  assert (Hc : 0 < 2 / waveSpeed s).
  { apply Qlt_shift_div_l; lra. }
  apply Qltb_lt in Hc. rewrite Hc. rewrite sqrt_leb_spec.
  assert (Hq : activeTime / (2 / waveSpeed s) == (1 # 2) * (activeTime * waveSpeed s)).
  { field. lra. }
  rewrite Hq.
  assert (Hsign : 0 <= activeTime <-> 0 <= activeTime * waveSpeed s).
  { split; intros H.
    - apply Qmult_le_0_compat; lra.
    - destruct (Qlt_le_dec activeTime 0) as [Hneg|]; [|done].
      assert (activeTime * waveSpeed s < 0); [|lra].
      setoid_rewrite <- (Qmult_0_l (waveSpeed s)).
      apply Qmult_lt_compat_r; lra. }
  rewrite Hsign.
  set (X := activeTime * waveSpeed s). split; intros [H0 H1]; split; lra.
Qed.

Lemma ready_spec t nm a b :
  0 < waveSpeed (settings nm) ->
  ready t nm a b = true <->
  exists timeA timeB,
    activationTime (deref nm a) = Some timeA /\
    activationTime (deref nm b) = Some timeB /\
    let distanceSquared :=
      Vec.distanceToSquared (position (deref nm a)) (position (deref nm b)) in
    HandshakeSpec.distanceWithin distanceSquared
      (Settings.maxConnectionDistance (settings nm)) /\
    HandshakeSpec.roundTripWithin (waveSpeed (settings nm)) distanceSquared
      (t - timeA) /\
    HandshakeSpec.roundTripWithin (waveSpeed (settings nm)) distanceSquared
      (t - timeB).
Proof.
  intros Hw. unfold ready. cbv zeta.
  rewrite andb_true_iff. unfold sqrt_gtb. rewrite negb_involutive, sqrt_leb_spec.
  destruct (activationTime (deref nm a)) as [ta|], (activationTime (deref nm b)) as [tb|].
  - rewrite andb_true_iff, !roundTripElapsed_spec by done.
    unfold HandshakeSpec.distanceWithin. split.
    + intros (Hd & Ha & Hb). exists ta, tb. done.
    + intros (ta' & tb' & [= <-] & [= <-] & Hd & Ha & Hb). done.
  - split; [intros [_ ?]; done|intros (? & ? & _ & ? & _); done].
  - split; [intros [_ ?]; done|intros (? & ? & ? & _); done].
  - split; [intros [_ ?]; done|intros (? & ? & ? & _); done].
Qed.

End Symmetry.

(** ** The handshake loops *)

Section Handshake.
Import Entities Manager.

Lemma set_connections_eta nm : set_connections (connections nm) nm = nm.
Proof. now destruct nm. Qed.

Lemma handshakePair_step t nm a b ck l :
  handshakePair t a b (ck, set_connections l nm)
  = ((pairStep t nm (a, b) (ck, l)).1,
     set_connections (pairStep t nm (a, b) (ck, l)).2 nm).
Proof.
  unfold handshakePair, pairStep. cbn [fst snd].
  destruct (decide (a = b)); [reflexivity|].
  destruct (decide (pairKey a b ∈ ck)); [reflexivity|].
  cbv zeta. unfold ready. cbv zeta.
  change (deref (set_connections l nm)) with (deref nm).
  change (settings (set_connections l nm)) with (settings nm).
  destruct (sqrt_gtb _ _); [reflexivity|]. cbn [negb andb].
  destruct (activationTime (deref nm a)) as [ta|]; [|reflexivity].
  destruct (activationTime (deref nm b)) as [tb|]; [|reflexivity].
  destruct (_ && _); [|reflexivity].
  cbn [andb fst snd]. rewrite createConnection_cases.
  change (connections (set_connections l nm)) with l.
  change (refused a b (set_connections l nm)) with (refused a b nm).
  destruct (_ || _); reflexivity.
Qed.

Lemma handshakeStar_step t nm a ck l :
  handshakeStar t a (ck, set_connections l nm)
  = let r := fold_left (fun acc b => pairStep t nm (a, b) acc) (nearby nm a) (ck, l) in
    (r.1, set_connections r.2 nm).
Proof.
  unfold handshakeStar. cbn [snd].
  change (fold_left (fun acc b => handshakePair t a b acc) (nearby nm a)
                    (ck, set_connections l nm)
          = let r := fold_left (fun acc b => pairStep t nm (a, b) acc)
                               (nearby nm a) (ck, l) in
            (r.1, set_connections r.2 nm)).
  generalize (nearby nm a). intros bs. revert ck l.
  induction bs as [|b bs IH]; intros ck l; [reflexivity|].
  cbn [fold_left]. rewrite handshakePair_step.
  destruct (pairStep t nm (a, b) (ck, l)) as [ck1 l1]. apply IH.
Qed.

Lemma handshakeStars_step t nm (l : list nat) ck cs :
  fold_left (fun acc a => handshakeStar t a acc) l (ck, set_connections cs nm)
  = let r := fold_left (fun acc p => pairStep t nm p acc)
                       (a ← l; b ← nearby nm a; [(a, b)]) (ck, cs) in
    (r.1, set_connections r.2 nm).
Proof.
  revert ck cs. induction l as [|a l IH]; intros ck cs; [reflexivity|].
  cbn [fold_left mbind list_bind]. rewrite handshakeStar_step. cbv zeta.
  rewrite fold_left_app.
  assert (Hinner :
    fold_left (fun acc p => pairStep t nm p acc) (nearby nm a ≫= λ b, [(a, b)]) (ck, cs)
    = fold_left (fun acc b => pairStep t nm (a, b) acc) (nearby nm a) (ck, cs)).
  { generalize (nearby nm a). intros bs. generalize (ck, cs).
    induction bs as [|b bs IHb]; intros acc; [reflexivity|]. simpl. apply IHb. }
  rewrite Hinner.
  destruct (fold_left _ (nearby nm a) (ck, cs)) as [ck1 l1]. apply IH.
Qed.

Lemma handshakeAt_fold t nm :
  handshakeAt t nm
  = set_connections
      (fold_left (fun acc p => pairStep t nm p acc) (candidatePairs nm)
                 (∅, connections nm)).2 nm.
Proof.
  unfold handshakeAt, candidatePairs.
  pose proof (handshakeStars_step t nm (activeStars nm) ∅ (connections nm)) as H.
  rewrite set_connections_eta in H. rewrite H. reflexivity.
Qed.

Lemma accepted_sym t nm a b : accepted t nm a b <-> accepted t nm b a.
Proof. unfold accepted. now rewrite ready_sym, refused_sym. Qed.

Lemma accepted_key t nm a b x y :
  pairKey a b = pairKey x y -> accepted t nm a b <-> accepted t nm x y.
Proof.
  intros [[-> ->]|[-> ->]]%pairKey_eq; [reflexivity|apply accepted_sym].
Qed.

Lemma connected_key a b x y l :
  pairKey a b = pairKey x y -> connected a b l <-> connected x y l.
Proof. intros H. now rewrite !connected_pair, H. Qed.

Lemma connected_app_other a b x y l :
  pairKey a b ≠ pairKey x y ->
  connected a b (l ++ [{| star1 := x; star2 := y |}]) <-> connected a b l.
Proof.
  intros Hne. rewrite !connected_pair, map_app, elem_of_app. simpl.
  rewrite list_elem_of_singleton. unfold unorderedPair at 2. simpl. tauto.
Qed.

Lemma connected_app_same x y l :
  connected x y (l ++ [{| star1 := x; star2 := y |}]).
Proof.
  rewrite connected_pair, map_app, elem_of_app. right. simpl.
  now apply list_elem_of_singleton.
Qed.

(** One pair. *)
Lemma pairStep_spec t nm p ck l :
  let r := pairStep t nm p (ck, l) in
  (forall k, k ∈ r.1 <-> k ∈ ck \/ (p.1 ≠ p.2 /\ pairKey p.1 p.2 = k)) /\
  (forall a b,
     connected a b r.2 <->
     connected a b l \/
     (pairKey a b ∈ r.1 /\ (pairKey a b ∉ ck) /\ accepted t nm a b)).
Proof.
  destruct p as [x y]. unfold pairStep. cbn [fst snd].
  destruct (decide (x = y)) as [Heq|Hne].
  { cbn [fst snd]. split; [intros k|intros a b]; tauto. }
  destruct (decide (pairKey x y ∈ ck)) as [Hck|Hck].
  { cbn [fst snd]. split; [intros k|intros a b]; [|tauto].
    split; [tauto|]. intros [?|[_ <-]]; done. }
  cbn [fst snd]. split.
  { intros k. rewrite elem_of_union, elem_of_singleton. split.
    - intros [->|?]; [right|left]; done.
    - intros [?|[_ <-]]; [right|left]; done. }
  intros a b. rewrite elem_of_union, elem_of_singleton.
  destruct (decide (pairKey a b = pairKey x y)) as [Hk|Hk].
  - rewrite (accepted_key t nm a b x y Hk). unfold accepted.
    rewrite !(connected_key a b x y _ Hk). rewrite Hk.
    destruct (ready t nm x y) eqn:Hr; cbn [andb].
    + destruct (existsb (connects x y) l) eqn:Hex; cbn [orb negb].
      * apply existsb_connects in Hex. tauto.
      * destruct (refused x y nm) eqn:Href; cbn [negb].
        -- split; [tauto|]. intros [?|(_ & _ & _ & ?)]; done.
        -- split; [|intros _; apply connected_app_same].
           intros _. right. tauto.
    + split; [tauto|]. intros [?|(_ & _ & ? & _)]; done.
  - assert (Hsame : connected a b
              (if ready t nm x y && negb (existsb (connects x y) l || refused x y nm)
               then l ++ [{| star1 := x; star2 := y |}] else l)
            <-> connected a b l).
    { destruct (_ && _); [|reflexivity]. now apply connected_app_other. }
    rewrite Hsame. split; [tauto|]. intros [?|([?|?] & ? & _)]; done.
Qed.

(** All pairs. *)
Lemma pairSteps_spec t nm ps ck l :
  let r := fold_left (fun acc p => pairStep t nm p acc) ps (ck, l) in
  (forall k, k ∈ r.1 <->
             k ∈ ck \/ exists p, p ∈ ps /\ p.1 ≠ p.2 /\ pairKey p.1 p.2 = k) /\
  (forall a b,
     connected a b r.2 <->
     connected a b l \/
     (pairKey a b ∈ r.1 /\ (pairKey a b ∉ ck) /\ accepted t nm a b)).
Proof.
  revert ck l. induction ps as [|p ps IH]; intros ck l; cbv zeta.
  - simpl. split.
    + intros k. split; [tauto|]. intros [?|(p & Hp & _)]; [done|].
      by apply elem_of_nil in Hp.
    + intros a b. tauto.
  - simpl.
    destruct (pairStep_spec t nm p ck l) as [Hk1 Hc1]. cbv zeta in Hk1, Hc1.
    destruct (pairStep t nm p (ck, l)) as [ck1 l1] eqn:Hstep. cbn [fst snd] in *.
    destruct (IH ck1 l1) as [Hk2 Hc2]. cbv zeta in Hk2, Hc2.
    set (r := fold_left _ ps (ck1, l1)) in *.
    assert (Hk : forall k, k ∈ r.1 <->
              k ∈ ck \/ exists q, q ∈ p :: ps /\ q.1 ≠ q.2 /\ pairKey q.1 q.2 = k).
    { intros k. rewrite Hk2, Hk1. split.
      - intros [[?|[? ?]]|(q & Hq & ? & ?)].
        + by left.
        + right. exists p. split; [apply list_elem_of_here|done].
        + right. exists q. split; [by apply list_elem_of_further|done].
      - intros [?|(q & Hq & ? & ?)]; [by left; left|].
        apply elem_of_cons in Hq as [->|Hq]; [by left; right|].
        right. exists q. done. }
    split; [exact Hk|].
    intros a b. rewrite Hc2, Hc1.
    assert (Hmono1 : pairKey a b ∈ ck -> pairKey a b ∈ ck1) by (rewrite Hk1; tauto).
    assert (Hmono2 : pairKey a b ∈ ck1 -> pairKey a b ∈ r.1) by (rewrite Hk2; tauto).
    destruct (decide (pairKey a b ∈ ck1)); tauto.
Qed.

Lemma elem_of_candidatePairs nm a b :
  (a, b) ∈ candidatePairs nm <-> a ∈ activeStars nm /\ b ∈ nearby nm a.
Proof.
  unfold candidatePairs. rewrite list_elem_of_bind. split.
  - intros (x & Hin & Hx). apply list_elem_of_bind in Hin as (y & Hin & Hy).
    apply list_elem_of_singleton in Hin. injection Hin as -> ->. done.
  - intros [Ha Hb]. exists a. split; [|done].
    apply list_elem_of_bind. exists b. split; [|done].
    now apply list_elem_of_singleton.
Qed.

Lemma elem_of_activeStars nm a :
  a ∈ activeStars nm <->
  a ∈ stars nm /\ isActive (deref nm a) = true /\
  is_Some (activationTime (deref nm a)).
Proof.
  unfold activeStars. rewrite list_elem_of_In, filter_In, <- list_elem_of_In.
  rewrite andb_true_iff, bool_decide_eq_true. tauto.
Qed.

Lemma nearby_rebuilt_active nm a b :
  b ∈ nearby (rebuildStarGrid nm) a -> b ∈ activeStars nm.
Proof.
  unfold nearby, rebuildStarGrid. cbn [starGrid set_starGrid].
  intros H. apply queryRadius_from_clear in H as (p & Hp).
  apply list_elem_of_fmap in Hp as (x & Heq & Hx). now injection Heq as _ ->.
Qed.

Local Open Scope Q_scope.

End Handshake.

Section HandshakeTheorem.
Import Entities Manager.
Local Open Scope Q_scope.

(** After the handshake on the rebuilt grid, a pair of distinct stars is
    connected exactly when it was before, or both stars are active, the
    grid query around one of them returns the other, and the handshake
    accepts the pair. *)
Lemma handshake_connected (nm : NetworkManager) (t : Q) (a b : nat) :
  a ≠ b ->
  connected a b (connections (handshakeAt t (rebuildStarGrid nm))) <->
  connected a b (connections nm) \/
  (a ∈ activeStars nm /\ b ∈ activeStars nm /\
   (b ∈ nearby (rebuildStarGrid nm) a \/ a ∈ nearby (rebuildStarGrid nm) b) /\
   accepted t nm a b).
Proof.
  intros Hab. rewrite handshakeAt_fold. cbn [connections set_connections].
  destruct (pairSteps_spec t (rebuildStarGrid nm)
              (candidatePairs (rebuildStarGrid nm)) ∅
              (connections (rebuildStarGrid nm))) as [Hk Hc].
  cbv zeta in Hk, Hc. rewrite Hc. clear Hc.
  change (connections (rebuildStarGrid nm)) with (connections nm).
  change (accepted t (rebuildStarGrid nm) a b) with (accepted t nm a b).
  split.
  - intros [?|(Hin & _ & Hacc)]; [by left|]. right.
    apply Hk in Hin as [Hin|([x y] & Hp & Hxy & Hkey)]; [set_solver|].
    cbn [fst snd] in *.
    apply elem_of_candidatePairs in Hp as [Hx Hy].
    pose proof (nearby_rebuilt_active nm x y Hy) as Hy'.
    change (activeStars (rebuildStarGrid nm)) with (activeStars nm) in Hx.
    apply pairKey_eq in Hkey as [[-> ->]|[-> ->]].
    + split; [exact Hx|]. split; [exact Hy'|]. split; [left; exact Hy|exact Hacc].
    + split; [exact Hy'|]. split; [exact Hx|]. split; [right; exact Hy|exact Hacc].
  - intros [?|(Ha & Hb & Hnear & Hacc)]; [by left|]. right.
    split; [|split; [set_solver|exact Hacc]].
    apply Hk. right. destruct Hnear as [Hnear|Hnear].
    + exists (a, b). cbn [fst snd]. split; [|done].
      apply elem_of_candidatePairs. split; [exact Ha|exact Hnear].
    + exists (b, a). cbn [fst snd].
      split; [|split; [by apply not_eq_sym|apply pairKey_sym]].
      apply elem_of_candidatePairs. split; [exact Hb|exact Hnear].
Qed.

Lemma accepted_spec t nm a b :
  0 < waveSpeed (settings nm) ->
  accepted t nm a b <->
  (exists timeA timeB,
     activationTime (deref nm a) = Some timeA /\
     activationTime (deref nm b) = Some timeB /\
     let distanceSquared :=
       Vec.distanceToSquared (position (deref nm a)) (position (deref nm b)) in
     HandshakeSpec.distanceWithin distanceSquared
       (Settings.maxConnectionDistance (settings nm)) /\
     HandshakeSpec.roundTripWithin (waveSpeed (settings nm)) distanceSquared
       (t - timeA) /\
     HandshakeSpec.roundTripWithin (waveSpeed (settings nm)) distanceSquared
       (t - timeB)) /\
  occluded nm a b = false.
Proof.
  intros Hw. unfold accepted. rewrite (ready_spec t nm a b Hw), refused_occluded.
  rewrite orb_false_iff. split.
  - intros [Hr [_ Ho]]. done.
  - intros [Hr Ho]. split; [done|]. split; [|done].
    destruct Hr as (ta & tb & _ & _ & Hd & _). cbv zeta in Hd.
    unfold sqrt_gtb. apply negb_false_iff. now apply sqrt_leb_spec.
Qed.

End HandshakeTheorem.

Section DoubleHandshake.
Import Floats.
Local Open Scope float_scope.
#[local] Set Warnings "-inexact-float".

(** C2 (the code departs from it): the handshake phase passes over a
    pair of active stars within [maxConnectionDistance].  The manager is
    built with [galaxyConfigs[0].armWidthFactor] and
    [galaxyConfigs[0].radius] 1 and [spiralArmWidthMultiplier] 0.25, so
    that the star grid gets the cell size [maxConnectionDistance] = 0.1;
    [spiralArmWidthMultiplier] is then set to 0.5, and the getter gives
    0.2.  Stars A at (0.3, 0, 0) and B at (0.5, 0, 0) are active since
    time 0, and the clock reads 10, with [waveSpeed] 5.  Their distance is
    0.2, exactly and as [distanceTo] computes it, not above
    [maxConnectionDistance], and the round trip [2 * 0.2 / 5] has long
    elapsed.  But the rebuilt grid holds A in cell 2 and B in cell 5 of
    the x axis, and the queries around A and around B, of [cellRadius]
    2, return A alone and B alone: [createConnection] is never called.
    With B at (0.45, 0, 0) instead the same phase calls
    [createConnection(A, B)].  In the scenario of the specification (A at
    (0,0,0), B at (10,0,0), speed 5, maximal distance 20 for the grid
    and the getter) the phase makes no call at 3.9 and one at 4.1. *)
Theorem handshake_misses_pair_in_range :
  let cell := Double.maxConnectionDistance 1 1 0.25 in
  let maxDistance := Double.maxConnectionDistance 1 1 0.5 in
  let starGrid :=
    Double.SpatialGrid.new cell Double.minBounds Double.maxBounds in
  let A := Double.activeStarAt 0 (Double.V3 0.3 0 0) in
  let B := Double.activeStarAt 1 (Double.V3 0.5 0 0) in
  let B' := Double.activeStarAt 1 (Double.V3 0.45 0 0) in
  let rebuilt := Double.rebuildStarGrid [A; B] starGrid in
  let grid20 := Double.SpatialGrid.new 20 Double.minBounds Double.maxBounds in
  let A0 := Double.activeStarAt 0 (Double.V3 0 0 0) in
  let B10 := Double.activeStarAt 1 (Double.V3 10 0 0) in
  (cell = 0.1 /\ maxDistance = 0.2) /\
  ((Vec.distanceToSquared (exactVector (Double.position A))
                          (exactVector (Double.position B))
    == Double.toQ maxDistance * Double.toQ maxDistance)%Q /\
   Double.distanceTo (Double.position A) (Double.position B) = maxDistance /\
   (2 * maxDistance / 5 <=? 10 - 0) = true) /\
  (Double.SpatialGrid.getCellKey rebuilt 0.3 0 0
   = Double.SpatialGrid.cellKey 2 0 0 /\
   Double.SpatialGrid.getCellKey rebuilt 0.5 0 0
   = Double.SpatialGrid.cellKey 5 0 0 /\
   Double.Math_ceil (maxDistance / Double.SpatialGrid.cellSize rebuilt) = 2) /\
  (forall fuel,
     Double.SpatialGrid.queryRadius (6 + fuel) rebuilt (Double.position A)
       maxDistance = Some [A] /\
     Double.SpatialGrid.queryRadius (6 + fuel) rebuilt (Double.position B)
       maxDistance = Some [B] /\
     Double.handshake (6 + fuel) maxDistance 5 10 [A; B] starGrid = Some [] /\
     Double.handshake (6 + fuel) maxDistance 5 10 [A; B'] starGrid
     = Some [(A, B')]) /\
  (forall fuel,
     Double.handshake (4 + fuel) 20 5 3.9 [A0; B10] grid20 = Some [] /\
     Double.handshake (4 + fuel) 20 5 4.1 [A0; B10] grid20
     = Some [(A0, B10)]).
Proof.
  cbv zeta.
  split; [split; vm_compute; reflexivity|].
  split; [repeat split; vm_compute; reflexivity|].
  split; [repeat split; vm_compute; reflexivity|].
  split.
  - intros fuel.
    split; [apply queryRadius_more; vm_compute; reflexivity|].
    split; [apply queryRadius_more; vm_compute; reflexivity|].
    split; apply handshake_more; vm_compute; reflexivity.
  - intros fuel. split; apply handshake_more; vm_compute; reflexivity.
Qed.

End DoubleHandshake.

(** ** Invariants of monadic code *)

Section Preserves.
Context {S : Type} (P : S -> Prop).

Lemma preserves_ret {A} (a : A) : preserves P (mret a).
Proof. intros s Hs. exact Hs. Qed.

Lemma preserves_bind {A B} (m : M S A) (k : A -> M S B) :
  preserves P m -> (forall a, preserves P (k a)) -> preserves P (m ≫= k).
Proof.
  intros Hm Hk s Hs. unfold mbind, M_bind, bind.
  specialize (Hm s Hs). destruct (m s) as [a s'|s']; simpl in *.
  - now apply Hk.
  - exact Hm.
Qed.

Lemma preserves_get : preserves P get.
Proof. intros s Hs. exact Hs. Qed.

Lemma preserves_gets {A} (f : S -> A) : preserves P (gets f).
Proof. intros s Hs. exact Hs. Qed.

Lemma preserves_modify (f : S -> S) :
  (forall s, P s -> P (f s)) -> preserves P (modify f).
Proof. intros Hf s Hs. now apply Hf. Qed.

Lemma preserves_throw {A} : preserves P (throwTypeError (A := A)).
Proof. intros s Hs. exact Hs. Qed.

Lemma preserves_forEach {A} (l : list A) (body : A -> M S unit) :
  (forall x, preserves P (body x)) -> preserves P (forEach l body).
Proof.
  intros Hb. induction l as [|x l IH]; simpl.
  - apply (preserves_ret tt).
  - apply (preserves_bind (body x) (fun _ => forEach l body)); auto.
Qed.

End Preserves.

Lemma preserves_liftW (P : NetworkManager -> Prop) {A} (m : M World A) :
  (forall nm w, P nm -> P (Manager.set_world w nm)) ->
  preserves P (Manager.liftW m).
Proof.
  intros Hw nm Hnm. unfold Manager.liftW.
  destruct (m (world nm)); simpl; now apply Hw.
Qed.

(** Decompose the goal along the structure of the computation. *)
Ltac preserves_step :=
  lazymatch goal with
  | |- preserves _ (mbind _ _) => apply preserves_bind; [|intros ?]
  | |- preserves _ (mret _) => apply preserves_ret
  | |- preserves _ (gets _) => apply preserves_gets
  | |- preserves _ get => apply preserves_get
  | |- preserves _ (modify _) => apply preserves_modify; intros ? ?
  | |- preserves _ (Manager.liftW _) => apply preserves_liftW; intros ? ? ?
  | |- preserves _ (forEach _ _) => apply preserves_forEach; intros ?
  | |- preserves _ throwTypeError => apply preserves_throw
  | |- preserves _ (if ?b then _ else _) => destruct b
  | |- preserves _ (match ?x with _ => _ end) => destruct x
  end.

(** ** The connection collection along a tick *)

Section Connections.
Import Entities Manager.
Variable E : Oracle.
Variable G : Geometry.

Lemma spliceBackward_filter {A} (keep : A -> bool) (l : list A) :
  spliceBackward keep l = List.filter keep l.
Proof. induction l as [|x l IH]; simpl; [done|]. now rewrite IH. Qed.

Lemma spliceBackward_sublist {A} (keep : A -> bool) (l : list A) :
  spliceBackward keep l `sublist_of` l.
Proof.
  induction l as [|x l IH]; simpl; [constructor|].
  destruct (keep x); [by apply sublist_skip|by apply sublist_cons].
Qed.

Lemma elem_of_spliceBackward {A} (keep : A -> bool) (l : list A) x :
  x ∈ spliceBackward keep l <-> x ∈ l /\ keep x = true.
Proof.
  rewrite spliceBackward_filter, !list_elem_of_In. apply filter_In.
Qed.

Lemma uniqueConnections_sublist l l' :
  l' `sublist_of` l -> uniqueConnections l -> uniqueConnections l'.
Proof.
  unfold uniqueConnections. intros Hsub Hu.
  eapply sublist_NoDup; [exact Hu|]. now apply fmap_sublist.
Qed.

Lemma updateStars_connections Q deltaTime :
  preserves (onConnections Q) (updateStars E deltaTime).
Proof.
  unfold updateStars, updateStar. repeat preserves_step; done.
Qed.

Lemma createSpiralGalaxy_connections Q center count radius arms config :
  preserves (onConnections Q) (createSpiralGalaxy E G center count radius arms config).
Proof.
  unfold createSpiralGalaxy, bulgeStar, armStar, pushNewStar.
  repeat preserves_step; done.
Qed.

Lemma starBirth_connections Q deltaTime :
  preserves (onConnections Q) (starBirth E G deltaTime).
Proof.
  unfold starBirth. repeat preserves_step;
    try apply createSpiralGalaxy_connections; done.
Qed.

Lemma handshakeAt_unique t nm :
  uniqueConnections (connections nm) ->
  uniqueConnections (connections (handshakeAt t nm)).
Proof.
  rewrite handshakeAt_fold. cbn [connections set_connections].
  generalize (∅ : gset (nat * nat)). generalize (connections nm).
  induction (candidatePairs nm) as [|p ps IH]; intros l ck Hu; [done|].
  cbn [fold_left].
  destruct (pairStep t nm p (ck, l)) as [ck1 l1] eqn:Hstep.
  apply IH. unfold pairStep in Hstep. cbn [fst snd] in Hstep.
  destruct (decide (p.1 = p.2)); [by injection Hstep as <- <-|].
  destruct (decide (_ ∈ ck)); [by injection Hstep as <- <-|].
  injection Hstep as _ <-.
  destruct (ready t nm p.1 p.2); cbn [andb]; [|done].
  destruct (existsb (connects p.1 p.2) l) eqn:Hex; cbn [orb negb]; [done|].
  destruct (refused p.1 p.2 nm); cbn [negb]; [done|].
  unfold uniqueConnections. rewrite map_app. simpl.
  apply NoDup_app. split; [exact Hu|]. split; [|apply NoDup_singleton].
  intros k Hk Hk'. apply list_elem_of_singleton in Hk'. subst k.
  change (unorderedPair _) with (pairKey p.1 p.2) in Hk.
  apply connected_pair, existsb_connects in Hk. congruence.
Qed.

Lemma update_unique deltaTime :
  preserves (onConnections uniqueConnections) (update E G deltaTime).
Proof.
  unfold update, handshake.
  repeat preserves_step;
    try apply updateStars_connections;
    try apply starBirth_connections; try done.
  - unfold onConnections in *. cbn [pruneConnections connections set_connections].
    eapply uniqueConnections_sublist; [apply spliceBackward_sublist|done].
  - now apply handshakeAt_unique.
  - unfold onConnections in *.
    assert (Hsame : forall l nm0, connections (fold_left obscureStar l nm0) = connections nm0).
    { induction l as [|x l IH]; intros nm0; [done|]. simpl. now rewrite IH. }
    unfold dustObscuration. now rewrite Hsame.
Qed.

Lemma Reachable_unique nm :
  Reachable E G nm -> uniqueConnections (connections nm).
Proof.
  induction 1 as [nm Hnil|nm dt _ IH|nm a b _ IH].
  - rewrite Hnil. apply NoDup_nil_2.
  - now apply update_unique.
  - now apply createConnection_unique.
Qed.

End Connections.

(** C3: in every state reached by [update] and [createConnection]
    calls, the collection holds at most one connection per unordered
    pair of stars; and [createConnection] on a pair that already has a
    connection, in either orientation, changes nothing, so that calling
    it twice is calling it once. *)
Theorem one_connection_per_pair (E : Oracle) (G : Geometry)
    (nm : NetworkManager) (starA starB : nat) :
  Reachable E G nm ->
  uniqueConnections (connections nm) /\
  (connected starA starB (connections nm) ->
   Manager.createConnection starA starB nm = nm /\
   Manager.createConnection starB starA nm = nm) /\
  Manager.createConnection starA starB (Manager.createConnection starA starB nm)
  = Manager.createConnection starA starB nm.
Proof.
  intros Hr. split; [now apply (Reachable_unique E G)|]. split.
  - intros Hc. split; apply createConnection_existing; [done|].
    now apply connected_sym.
  - apply createConnection_twice.
Qed.

(** ** Star birth *)

Section Birth.
Import Entities Manager.
Variable E : Oracle.
Variable G : Geometry.

(** The constructor of [Star] throws on a [GalaxyConfig], after it has
    taken an id. *)
Lemma newStar_config_throws s position c profile w :
  newStar E s position (CenterConfig c) profile w
  = Throw {| rngPos := rngPos w; clockPos := clockPos w; nextId := S (nextId w) |}.
Proof. reflexivity. Qed.

Lemma pushNewStar_config_throws position c profile nm :
  exists w, pushNewStar E position (CenterConfig c) profile nm
            = Throw (set_world w nm).
Proof. eexists. lazy. reflexivity. Qed.

Lemma bulgeStar_config_throws c config ageProfile nm :
  exists w, bulgeStar E G (CenterConfig c) config ageProfile nm
            = Throw (set_world w nm).
Proof. eexists. lazy. reflexivity. Qed.

Lemma armStar_config_throws c radius arms config ageProfile nm :
  exists w, armStar E G (CenterConfig c) radius arms config ageProfile nm
            = Throw (set_world w nm).
Proof.
  unfold armStar.
  destruct ageProfile; [| |];
    try (destruct (armStarIsInner G (settings nm) radius (random E (rngPos (world nm)))) eqn:Hin);
    eexists; unfold mbind, M_bind, bind, gets, liftW, Math_random; cbn [world set_world];
    rewrite ?Hin; lazy; reflexivity.
Qed.

Lemma forEach_throws {A} (l : list A) (body : A -> M NetworkManager unit) :
  l ≠ [] ->
  (forall x nm, exists w, body x nm = Throw (set_world w nm)) ->
  forall nm, exists w, forEach l body nm = Throw (set_world w nm).
Proof.
  intros Hl Hb nm. destruct l as [|x l]; [done|].
  simpl. unfold bind. destruct (Hb x nm) as [w ->]. now exists w.
Qed.

Lemma birth_loop_counts (fraction : Q) :
  let bulgeCount := inject_Z (Qfloor (1 * fraction)) in
  loopCount bulgeCount = 0%nat -> loopCount (1 - bulgeCount) ≠ 0%nat.
Proof.
  cbv zeta. unfold loopCount. set (z := Qfloor (1 * fraction)).
  rewrite Qceiling_Z.
  assert (Hq : (1 - inject_Z z == inject_Z (1 - z))%Q).
  { unfold Zminus. rewrite inject_Z_plus, inject_Z_opp. reflexivity. }
  rewrite (Qceiling_comp _ _ Hq), Qceiling_Z. lia.
Qed.

(** The call [createSpiralGalaxy(galaxy.config, 1)] of the birth branch
    never returns: the first star it constructs throws. *)
Lemma createSpiralGalaxy_birth_throws c nm :
  exists w, createSpiralGalaxy E G (CenterConfig c) 1 None None None nm
            = Throw (set_world w nm).
Proof.
  unfold createSpiralGalaxy. unfold mbind at 1. unfold M_bind, bind at 1.
  unfold gets at 1. cbv zeta.
  set (bulgeCount := inject_Z (Qfloor (1 * centralBulgeFraction (settings nm)))).
  pose proof (birth_loop_counts (centralBulgeFraction (settings nm))) as Hcount.
  cbv zeta in Hcount. fold bulgeCount in Hcount.
  unfold mbind, M_bind, bind.
  destruct (loopCount bulgeCount) as [|n] eqn:Hn.
  - simpl forEach at 1. unfold ret.
    apply forEach_throws.
    + specialize (Hcount eq_refl). destruct (loopCount (1 - bulgeCount)); done.
    + intros _ nm'. apply armStar_config_throws.
  - destruct (forEach_throws (seq 0 (S n))
                (fun _ => bulgeStar E G (CenterConfig c) None MiddleAged)) with (nm := nm)
      as [w Hw]; [done|intros _ nm'; apply bulgeStar_config_throws|].
    rewrite Hw. now exists w.
Qed.

Lemma starBirth_outcome deltaTime nm :
  exists w,
    starBirth E G deltaTime nm
    = if birthGate nm && birthDrawSucceeds E deltaTime nm && spawnThrows E nm
      then Throw (set_world w nm) else Ok tt (set_world w nm).
Proof.
  unfold starBirth, birthGate, birthDrawSucceeds, birthDraw, spawnThrows, chosenGalaxy.
  unfold mbind at 1. unfold M_bind, bind at 1. unfold get at 1. cbv zeta.
  destruct (_ && _) eqn:Hgate; cbn [andb].
  - unfold mbind at 1. unfold M_bind, bind at 1.
    unfold liftW at 1, Math_random at 1.
    set (nm1 := set_world _ nm).
    change (settings nm1) with (settings nm).
    destruct (Qltb (random E (rngPos (world nm))) _) eqn:Hdraw; cbn [andb].
    + unfold mbind at 1. unfold M_bind, bind at 1.
      unfold liftW at 1, Math_random at 1.
      set (nm2 := set_world _ nm1).
      change (rngPos (world nm1)) with (S (rngPos (world nm))).
      change (galaxyAt nm2) with (galaxyAt nm).
      destruct (galaxyAt nm _) as [galaxy|].
      * destruct (lg_config galaxy) as [c|].
        -- destruct (createSpiralGalaxy_birth_throws c nm2) as [w ->]. now exists w.
        -- now exists (world nm2).
      * now exists (world nm2).
    + now exists (world nm1).
  - exists (world nm). unfold mret, M_ret, ret. now destruct nm.
Qed.

Lemma starBirth_gate_closed deltaTime nm :
  birthGate nm = false -> starBirth E G deltaTime nm = Ok tt nm.
Proof.
  unfold starBirth, birthGate. unfold mbind at 1. unfold M_bind, bind at 1.
  unfold get at 1. cbv zeta. now intros ->.
Qed.

Lemma starBirth_only_world deltaTime nm :
  exists w, finalState (starBirth E G deltaTime nm) = set_world w nm.
Proof.
  destruct (starBirth_outcome deltaTime nm) as [w ->]. exists w.
  now destruct (_ && _).
Qed.

Lemma starBirth_threw deltaTime nm :
  threw (starBirth E G deltaTime nm)
  = birthGate nm && birthDrawSucceeds E deltaTime nm && spawnThrows E nm.
Proof.
  destruct (starBirth_outcome deltaTime nm) as [w ->]. now destruct (_ && _).
Qed.

End Birth.

(** C5 (the code departs from it): the birth branch runs only while the
    population is below both limits, but its spawn never produces a
    star.  For a positive [starBirthTimeDivisor] (the divisor of the
    birth probability), in every state and for every [deltaTime],
    [starBirth] leaves [stars] and the heap as they are; it throws
    exactly when the gate is open, the draw succeeds and the spawn is
    reached with a galaxy configuration (or an index out of range),
    because [createSpiralGalaxy(galaxy.config, 1)] hands the
    configuration to the constructor of [Star] as [galaxyCenter].  In
    the default galaxies reduced to two stars, a tick whose birth draw
    succeeds throws, with the population still 2 and one star id
    consumed. *)
Theorem birth_spawns_nothing (E : Oracle) (G : Geometry) (deltaTime : Q)
    (nm : NetworkManager) :
  (0 < starBirthTimeDivisor (settings nm))%Q ->
  (let r := Manager.starBirth E G deltaTime nm in
   stars (finalState r) = stars nm /\
   heap (finalState r) = heap nm /\
   threw r = birthGate nm && birthDrawSucceeds E deltaTime nm && spawnThrows E nm) /\
  (let r := Manager.update (Scenario.stepOracle 2 1 0 0) Scenario.flatGeometry
                           (16 # 1000) Scenario.lateGalaxy in
   birthGate Scenario.lateGalaxy = true /\
   threw r = true /\
   stars (finalState r) = [0%nat; 1%nat] /\
   nextId (world (finalState r)) = 3%nat).
Proof.
  intros _. split.
  - cbv zeta. destruct (starBirth_only_world E G deltaTime nm) as [w Hw].
    rewrite Hw. split; [reflexivity|]. split; [reflexivity|].
    apply starBirth_threw.
  - cbv zeta. repeat split; vm_compute; reflexivity.
Qed.

Lemma birth_spawns_nothing_witness :
  let E := Scenario.stepOracle 2 1 0 0 in
  let G := Scenario.flatGeometry in
  let deltaTime := (16 # 1000)%Q in
  let nm := Scenario.lateGalaxy in
  (let r := Manager.starBirth E G deltaTime nm in
   stars (finalState r) = stars nm /\
   heap (finalState r) = heap nm /\
   threw r = birthGate nm && birthDrawSucceeds E deltaTime nm && spawnThrows E nm) /\
  (let r := Manager.update (Scenario.stepOracle 2 1 0 0) Scenario.flatGeometry
                           (16 # 1000) Scenario.lateGalaxy in
   birthGate Scenario.lateGalaxy = true /\
   threw r = true /\
   stars (finalState r) = [0%nat; 1%nat] /\
   nextId (world (finalState r)) = 3%nat).
Proof.
  intros E G deltaTime nm.
  apply (birth_spawns_nothing E G deltaTime nm).
  reflexivity.
Defined.

(** ** The order of removals in a tick *)

Section Removal.
Import Entities Manager.
Variable E : Oracle.
Variable G : Geometry.

Lemma bind_Ok {S A B} (m : M S A) (k : A -> M S B) s b s' :
  (m ≫= k) s = Ok b s' <-> exists a s1, m s = Ok a s1 /\ k a s1 = Ok b s'.
Proof.
  unfold mbind, M_bind, bind. destruct (m s) as [a s1|s1]; split.
  - intros H. now exists a, s1.
  - intros (a' & s1' & [= <- <-] & H). exact H.
  - discriminate.
  - intros (? & ? & ? & _). discriminate.
Qed.

Lemma modify_Ok {S} (f : S -> S) s u s' :
  modify f s = Ok u s' <-> s' = f s.
Proof. unfold modify. destruct u. split; [by intros [= <-]|by intros ->]. Qed.

Lemma updateStars_connections_eq deltaTime nm :
  connections (finalState (updateStars E deltaTime nm)) = connections nm.
Proof.
  apply (updateStars_connections E (fun l => l = connections nm) deltaTime nm).
  reflexivity.
Qed.

Lemma elem_of_deadStarsOf nm star :
  star ∈ deadStarsOf nm <-> star ∈ stars nm /\ isAlive (deref nm star) = false.
Proof.
  unfold deadStarsOf. induction (stars nm) as [|x l IH]; simpl.
  - rewrite elem_of_nil, elem_of_empty. tauto.
  - rewrite elem_of_cons. destruct (isAlive (deref nm x)) eqn:Hx.
    + rewrite IH. split; [tauto|]. intros [[->|?] ?]; [congruence|tauto].
    + rewrite elem_of_union, elem_of_singleton, IH. split.
      * intros [->|[? ?]]; tauto.
      * intros [[->|?] ?]; tauto.
Qed.

Lemma dead_not_in_removed nm star :
  star ∈ deadStarsOf nm -> star ∉ stars (removeDeadStars nm).
Proof.
  intros [_ Hd]%elem_of_deadStarsOf.
  unfold removeDeadStars. cbn [stars set_stars].
  rewrite elem_of_spliceBackward. intros [_ Ha]. congruence.
Qed.

(** Where the connections of the handshake come from. *)
Lemma handshakeAt_origin t nm c :
  c ∈ connections (handshakeAt t nm) ->
  c ∈ connections nm \/ (star1 c, star2 c) ∈ candidatePairs nm.
Proof.
  rewrite handshakeAt_fold. cbn [connections set_connections].
  generalize (∅ : gset (nat * nat)). generalize (connections nm).
  induction (candidatePairs nm) as [|p ps IH]; intros l ck Hc; [by left|].
  cbn [fold_left] in Hc.
  destruct (pairStep t nm p (ck, l)) as [ck1 l1] eqn:Hstep.
  apply IH in Hc as [Hc|Hc]; [|right; by apply list_elem_of_further].
  unfold pairStep in Hstep. cbn [fst snd] in Hstep.
  destruct (decide (p.1 = p.2)); [injection Hstep as <- <-; by left|].
  destruct (decide (_ ∈ ck)); [injection Hstep as <- <-; by left|].
  injection Hstep as _ <-.
  destruct (_ && _); [|by left].
  apply elem_of_app in Hc as [Hc|Hc]; [by left|].
  apply list_elem_of_singleton in Hc as ->. right. destruct p. apply list_elem_of_here.
Qed.

Lemma dustObscuration_frame nm :
  stars (dustObscuration nm) = stars nm /\
  connections (dustObscuration nm) = connections nm.
Proof.
  unfold dustObscuration. generalize (stars nm) at 1 3. intros l.
  revert nm. induction l as [|x l IH]; intros nm; [done|].
  simpl. destruct (IH (obscureStar nm x)) as [-> ->]. done.
Qed.

(** A tick that completes: the state when the dead stars have been
    removed, and what the end state owes to it. *)
Lemma update_Ok_inv deltaTime nm nm' :
  update E G deltaTime nm = Ok tt nm' ->
  exists nm1 w w' t,
    updateStars E deltaTime nm = Ok tt nm1 /\
    let pruned := pruneConnections (deadStarsOf nm1)
                    (set_world w (removeDeadStars nm1)) in
    nm' = dustObscuration
            (handshakeAt t
               (set_world w'
                  (rebuildStarGrid (rebuildWaveGrid (updateWaves deltaTime pruned))))).
Proof.
  unfold update, handshake. intros H.
  apply bind_Ok in H as ([] & nm1 & H1 & H).
  apply bind_Ok in H as (dead & nm1' & Hd & H).
  unfold gets in Hd. injection Hd as <- <-.
  apply bind_Ok in H as ([] & nm2 & H2 & H). apply modify_Ok in H2. subst nm2.
  apply bind_Ok in H as ([] & nm3 & H3 & H).
  destruct (starBirth_only_world E G deltaTime (removeDeadStars nm1)) as [w Hw].
  rewrite H3 in Hw. simpl in Hw. subst nm3.
  apply bind_Ok in H as ([] & nm4 & H4 & H). apply modify_Ok in H4. subst nm4.
  apply bind_Ok in H as ([] & nm5 & H5 & H). apply modify_Ok in H5. subst nm5.
  apply bind_Ok in H as ([] & nm6 & H6 & H). apply modify_Ok in H6. subst nm6.
  apply bind_Ok in H as ([] & nm7 & H7 & H). apply modify_Ok in H7. subst nm7.
  apply bind_Ok in H as ([] & nm8 & H8 & H).
  apply bind_Ok in H8 as (t & nm9 & H9 & H8). apply modify_Ok in H8. subst nm8.
  apply modify_Ok in H.
  unfold liftW, Date_now_seconds in H9. injection H9 as <- <-.
  eexists nm1, w, _, (now E (clockPos w)). split; [exact H1|]. cbv zeta.
  exact H.
Qed.

End Removal.

Section RemovalOrder.
Import Entities Manager.
Variable E : Oracle.
Variable G : Geometry.

Lemma updateUntilStarsRemoved_Ok deltaTime nm nm1 :
  updateStars E deltaTime nm = Ok tt nm1 ->
  updateUntilStarsRemoved E deltaTime nm
  = Ok (deadStarsOf nm1) (removeDeadStars nm1).
Proof.
  intros H. unfold updateUntilStarsRemoved, mbind, M_bind, bind. now rewrite H.
Qed.

Lemma handshakeAt_stars t nm : stars (handshakeAt t nm) = stars nm.
Proof. now rewrite handshakeAt_fold. Qed.

Lemma survivor_avoids_dead nm dead c star :
  connectionSurvives nm dead c = true -> star ∈ dead ->
  star1 c ≠ star /\ star2 c ≠ star.
Proof.
  unfold connectionSurvives. rewrite negb_true_iff, !orb_false_iff.
  rewrite !bool_decide_eq_false. intros (((_ & _) & H1) & H2) Hd.
  split; intros <-; done.
Qed.

Lemma completed_tick_drops_dead deltaTime nm nm' :
  update E G deltaTime nm = Ok tt nm' ->
  exists deadStars nm1,
    updateUntilStarsRemoved E deltaTime nm = Ok deadStars nm1 /\
    connections nm1 = connections nm /\
    forall star,
      star ∈ deadStars ->
      (star ∉ stars nm1) /\ (star ∉ stars nm') /\
      forall c, c ∈ connections nm' -> star1 c ≠ star /\ star2 c ≠ star.
Proof.
  intros H. apply update_Ok_inv in H as (nmS & w & w' & t & HS & Hnm').
  cbv zeta in Hnm'.
  exists (deadStarsOf nmS), (removeDeadStars nmS).
  split; [now apply updateUntilStarsRemoved_Ok|]. split.
  { pose proof (updateStars_connections_eq E deltaTime nm) as Hc.
    rewrite HS in Hc. exact Hc. }
  intros star Hdead.
  pose proof (dead_not_in_removed nmS star Hdead) as Hnot.
  set (Y := rebuildWaveGrid (updateWaves deltaTime
              (pruneConnections (deadStarsOf nmS) (set_world w (removeDeadStars nmS))))) in *.
  set (Z := set_world w' (rebuildStarGrid Y)) in *.
  assert (HstarsZ : stars Z = stars (removeDeadStars nmS)) by reflexivity.
  destruct (dustObscuration_frame (handshakeAt t Z)) as [Hst Hco].
  rewrite <- Hnm' in Hst, Hco. rewrite handshakeAt_stars in Hst.
  split; [exact Hnot|]. split; [now rewrite Hst, HstarsZ|].
  intros c Hc. rewrite Hco in Hc.
  apply handshakeAt_origin in Hc as [Hc|Hc].
  - change (connections Z)
      with (spliceBackward
              (connectionSurvives (set_world w (removeDeadStars nmS)) (deadStarsOf nmS))
              (connections nmS)) in Hc.
    apply elem_of_spliceBackward in Hc as [_ Hc].
    eapply survivor_avoids_dead; eauto.
  - apply elem_of_candidatePairs in Hc as [H1 H2].
    change (nearby Z (star1 c)) with (nearby (rebuildStarGrid Y) (star1 c)) in H2.
    apply nearby_rebuilt_active in H2.
    apply elem_of_activeStars in H1 as [H1 _].
    apply elem_of_activeStars in H2 as [H2 _].
    change (stars Y) with (stars (removeDeadStars nmS)) in H2.
    rewrite HstarsZ in H1.
    split; intros <-; done.
Qed.

End RemovalOrder.

(** C9, as the code has it: a star that dies in a tick leaves the star
    collection first, while the connection collection is still the one
    the tick started with; a tick that completes then removes every
    connection that refers to it, so that at the end of the tick neither
    the star nor a connection of it remains. *)
Theorem dead_star_leaves_before_its_connections (E : Oracle) (G : Geometry)
    (deltaTime : Q) (nm nm' : NetworkManager) :
  Manager.update E G deltaTime nm = Ok tt nm' ->
  exists deadStars nm1,
    Manager.updateUntilStarsRemoved E deltaTime nm = Ok deadStars nm1 /\
    connections nm1 = connections nm /\
    forall star,
      star ∈ deadStars ->
      (star ∉ stars nm1) /\ (star ∉ stars nm') /\
      forall c, c ∈ connections nm' -> star1 c ≠ star /\ star2 c ≠ star.
Proof. apply completed_tick_drops_dead. Qed.

Lemma dead_star_leaves_before_its_connections_witness :
  let E := Scenario.constantOracle 1 5 in
  let nm := Scenario.dyingEndpoint in
  let nm' := finalState (Manager.update E Scenario.flatGeometry (16 # 1000) nm) in
  exists deadStars nm1,
    Manager.updateUntilStarsRemoved E (16 # 1000) nm = Ok deadStars nm1 /\
    connections nm1 = connections nm /\
    forall star,
      star ∈ deadStars ->
      (star ∉ stars nm1) /\ (star ∉ stars nm') /\
      forall c, c ∈ connections nm' -> star1 c ≠ star /\ star2 c ≠ star.
Proof.
  intros E nm nm'.
  apply (dead_star_leaves_before_its_connections E Scenario.flatGeometry (16 # 1000) nm nm').
  vm_compute. reflexivity.
Defined.

(** C9 as stated fails: when the star with id 0 reaches the end of its
    life, the tick takes it out of the star collection while the
    connection between 0 and 1 is still in the connection collection. *)
Lemma connections_removed_first_counterexample :
  exists deadStars nm1,
    Manager.updateUntilStarsRemoved (Scenario.constantOracle 1 5) (16 # 1000)
                                    Scenario.dyingEndpoint
    = Ok deadStars nm1 /\
    0%nat ∈ deadStars /\
    (0%nat ∉ stars nm1) /\
    {| star1 := 0; star2 := 1 |} ∈ connections nm1.
Proof.
  destruct (Manager.updateStars (Scenario.constantOracle 1 5) (16 # 1000)
              Scenario.dyingEndpoint) as [[] nmS|nmS] eqn:HS;
    [|vm_compute in HS; discriminate].
  exists (Manager.deadStarsOf nmS), (Manager.removeDeadStars nmS).
  split; [now apply updateUntilStarsRemoved_Ok|].
  vm_compute in HS. injection HS as <-.
  split; [|split].
  - apply elem_of_deadStarsOf. split; [apply list_elem_of_here|].
    vm_compute. reflexivity.
  - vm_compute. intros H. apply list_elem_of_singleton in H. discriminate.
  - vm_compute. apply list_elem_of_here.
Qed.

(** ** Occluders between two stars *)

Section Occluders.
Import Entities Manager.

Lemma blocked_refused a b nm cloud :
  cloud ∈ dustClouds nm ->
  SegmentSpec.insideCloud (position (deref nm a)) cloud = true \/
  SegmentSpec.insideCloud (position (deref nm b)) cloud = true \/
  SegmentSpec.entersCloud (position (deref nm a)) (position (deref nm b)) cloud
  = true ->
  refused a b nm = true.
Proof.
  intros Hin H.
  pose proof (createConnection_blocked a b nm cloud Hin H) as Hc.
  destruct (refused a b nm) eqn:Hr; [reflexivity|].
  assert (Hocc : occluded nm a b = true).
  { unfold occluded.
    assert (Hcases :
      SegmentSpec.insideCloud (position (deref nm a)) cloud = true \/
      SegmentSpec.insideCloud (position (deref nm b)) cloud = true \/
      cloudBlocks (position (deref nm a)) (position (deref nm b)) cloud = true).
    { destruct H as [H|[H|H]]; [by left|by right; left|].
      now apply entersCloud_stopped. }
    destruct Hcases as [H1|[H1|H1]].
    - assert (isStarInDustCloud nm a = true) as ->
        by (apply isStarInDustCloud_spec; eauto). reflexivity.
    - assert (isStarInDustCloud nm b = true) as ->
        by (apply isStarInDustCloud_spec; eauto). now rewrite orb_true_r.
    - assert (isBlockedByDust nm (position (deref nm a)) (position (deref nm b)) = true) as ->
        by (apply isBlockedByDust_spec; eauto). now rewrite orb_true_r. }
  rewrite refused_occluded, Hocc, orb_true_r in Hr. discriminate.
Qed.

Lemma refused_no_connection a b nm :
  refused a b nm = true ->
  createConnection a b nm = nm /\
  createConnection b a nm = nm /\
  forall t, connected a b (connections (handshakeAt t nm)) ->
            connected a b (connections nm).
Proof.
  intros Hr. split; [|split].
  - rewrite createConnection_cases, Hr, orb_true_r. reflexivity.
  - rewrite createConnection_cases, refused_sym, Hr, orb_true_r. reflexivity.
  - intros t. rewrite handshakeAt_fold. cbn [connections set_connections].
    destruct (pairSteps_spec t nm (candidatePairs nm) ∅ (connections nm)) as [_ Hc].
    cbv zeta in Hc. rewrite Hc.
    intros [?|(_ & _ & _ & Hacc)]; [done|]. congruence.
Qed.

End Occluders.

(** C4, as the code has it: no connection is created between two stars
    when the position of one of them lies strictly inside a cloud, or
    when the point of the segment between them that is closest to the
    centre of a cloud (the projection clamped to the segment) is at a
    distance strictly less than the radius of the cloud:
    [createConnection] is then a no-op in both orientations and the
    handshake adds no connection for the pair at any clock reading.  With
    a cloud of radius 5 centred at (5,0,0) between A at (0,0,0) and B at
    (10,0,0), no connection between A and B ever forms. *)
Theorem occluded_pair_gets_no_connection (nm : NetworkManager)
    (starA starB : nat) (cloud : DustCloud) :
  cloud ∈ dustClouds nm ->
  SegmentSpec.insideCloud (position (Manager.deref nm starA)) cloud = true \/
  SegmentSpec.insideCloud (position (Manager.deref nm starB)) cloud = true \/
  SegmentSpec.entersCloud (position (Manager.deref nm starA))
                          (position (Manager.deref nm starB)) cloud = true ->
  (Manager.createConnection starA starB nm = nm /\
   Manager.createConnection starB starA nm = nm /\
   forall currentTime,
     connected starA starB (connections (Manager.handshakeAt currentTime nm)) ->
     connected starA starB (connections nm))
  /\
  (SegmentSpec.entersCloud (V3 0 0 0) (V3 10 0 0) Scenario.cloudBetween = true /\
   forall currentTime,
     ~ connected 0 1
         (connections
            (Manager.handshakeAt currentTime
               (Manager.rebuildStarGrid
                  (Scenario.twoActiveStars [Scenario.cloudBetween]))))).
Proof.
  intros Hin H. split.
  - apply refused_no_connection. eapply blocked_refused; eauto.
  - split; [reflexivity|]. intros t Hc.
    set (nm0 := Manager.rebuildStarGrid (Scenario.twoActiveStars [Scenario.cloudBetween])) in *.
    assert (Hr : refused 0 1 nm0 = true).
    { apply (blocked_refused 0 1 nm0 Scenario.cloudBetween).
      - apply list_elem_of_here.
      - right; right. reflexivity. }
    destruct (refused_no_connection 0 1 nm0 Hr) as (_ & _ & Hh).
    apply Hh in Hc. destruct Hc as (c & Hc & _).
    vm_compute in Hc. by apply elem_of_nil in Hc.
Qed.

Lemma occluded_pair_gets_no_connection_witness :
  let nm := Scenario.twoActiveStars [Scenario.cloudBetween] in
  Manager.createConnection 0 1 nm = nm /\
  Manager.createConnection 1 0 nm = nm /\
  forall currentTime,
    connected 0 1 (connections (Manager.handshakeAt currentTime nm)) ->
    connected 0 1 (connections nm).
Proof.
  intros nm.
  assert (Hin : Scenario.cloudBetween ∈ dustClouds nm) by apply list_elem_of_here.
  assert (H : SegmentSpec.insideCloud (position (Manager.deref nm 0)) Scenario.cloudBetween = true \/
              SegmentSpec.insideCloud (position (Manager.deref nm 1)) Scenario.cloudBetween = true \/
              SegmentSpec.entersCloud (position (Manager.deref nm 0))
                (position (Manager.deref nm 1)) Scenario.cloudBetween = true)
    by (right; right; reflexivity).
  exact (proj1 (occluded_pair_gets_no_connection nm 0 1 Scenario.cloudBetween Hin H)).
Defined.

(** C4 as stated fails on the boundary: the segment from (0,0,0) to
    (10,0,0) comes exactly as close as the radius to the centre of the
    cloud of radius 5 at (5,5,0), and the connection is created. *)
Lemma tangent_cloud_counterexample :
  let nm := Scenario.twoActiveStars [Scenario.cloudTangent] in
  Scenario.cloudTangent ∈ dustClouds nm /\
  SegmentSpec.touchesCloud (position (Manager.deref nm 0))
                           (position (Manager.deref nm 1))
                           Scenario.cloudTangent = true /\
  connections nm = [] /\
  connections (Manager.createConnection 0 1 nm) = [{| star1 := 0; star2 := 1 |}] /\
  connections (Manager.handshakeAt (41 # 10) (Manager.rebuildStarGrid nm))
  = [{| star1 := 0; star2 := 1 |}].
Proof.
  cbv zeta. split; [apply list_elem_of_here|].
  repeat split; vm_compute; reflexivity.
Qed.

(** ** Dust obscuration *)

Section Obscuration.
Import Entities Manager.

Lemma applyDustObscuration_position s inside behind st :
  position (applyDustObscuration s inside behind st) = position st /\
  isActive (applyDustObscuration s inside behind st) = isActive st.
Proof.
  unfold applyDustObscuration, setLightIntensity. cbv zeta.
  destruct st as [pos ctr col [op sc cl li] a l dormant active atime et ei em life nova obs].
  cbn [isObscured mesh light isActive].
  destruct (Bool.eqb _ obs); [done|].
  destruct behind, inside, active, li; done.
Qed.

Lemma applyDustObscuration_flag s flag st :
  isObscured (applyDustObscuration s flag false st) = flag.
Proof.
  unfold applyDustObscuration, setLightIntensity. cbv zeta.
  rewrite orb_false_r.
  destruct st as [pos ctr col [op sc cl li] a l dormant active atime et ei em life nova obs].
  cbn [isObscured mesh light isActive].
  destruct flag, obs, active, li; done.
Qed.

Lemma applyDustObscuration_idem s flag st :
  applyDustObscuration s flag false (applyDustObscuration s flag false st)
  = applyDustObscuration s flag false st.
Proof.
  unfold applyDustObscuration at 1. cbv zeta.
  rewrite orb_false_r, applyDustObscuration_flag.
  now destruct flag.
Qed.

Lemma applyDustObscuration_restores s st :
  isObscured st = true ->
  let st' := applyDustObscuration s false false st in
  opacity (mesh st') = clearOpacity s /\
  colour (mesh st')
  = (if isActive st then ActiveColour (activeStarColorMultiplier s) else BaseColour).
Proof.
  unfold applyDustObscuration, setLightIntensity. cbv zeta.
  destruct st as [pos ctr col [op sc cl li] a l dormant active atime et ei em life nova obs].
  cbn [isObscured mesh light isActive]. intros ->.
  destruct active, li; done.
Qed.

Lemma applyDustObscuration_unchanged s st :
  isObscured st = false -> applyDustObscuration s false false st = st.
Proof. unfold applyDustObscuration. cbv zeta. now intros ->. Qed.

(** The loop leaves in the heap, for a star of the collection, the
    object of the start with [applyDustObscuration] applied once, on the
    flag computed from the candidates of the grid query. *)
Lemma dustObscuration_lookup nm star :
  star ∈ stars nm ->
  heap (dustObscuration nm) !! star
  = applyDustObscuration (settings nm) (obscuredByCandidate nm star) false
    <$> heap nm !! star.
Proof.
  set (f := applyDustObscuration (settings nm) (obscuredByCandidate nm star) false).
  unfold dustObscuration.
  assert (Hgen : forall l cur,
    settings cur = settings nm -> dustGrid cur = dustGrid nm ->
    (heap cur !! star = heap nm !! star \/ heap cur !! star = f <$> heap nm !! star) ->
    let final := fold_left obscureStar l cur in
    (star ∈ l -> heap final !! star = f <$> heap nm !! star) /\
    (heap final !! star = heap nm !! star \/ heap final !! star = f <$> heap nm !! star)).
  { induction l as [|x l IH]; intros cur Hs Hg Hh; cbv zeta.
    - split; [intros H; by apply elem_of_nil in H|exact Hh].
    - cbn [fold_left].
      assert (Hflag : x = star ->
                obscuredByCandidate cur star = obscuredByCandidate nm star).
      { intros _. unfold obscuredByCandidate, nearbyClouds, deref.
        rewrite Hs, Hg.
        assert (Hpos : position (heap cur !!! star) = position (heap nm !!! star)).
        { unfold lookup_total, map_lookup_total.
          destruct Hh as [->| ->]; [done|].
          destruct (heap nm !! star); [|done]. simpl.
          apply applyDustObscuration_position. }
        now rewrite Hpos. }
      assert (Hstep : heap (obscureStar cur x) !! star
                      = if decide (x = star) then f <$> heap cur !! star
                        else heap cur !! star).
      { unfold obscureStar, mutate. cbn [heap set_heap].
        rewrite lookup_alter. destruct (decide (x = star)) as [->|Hne].
        - change (existsb _ _) with (obscuredByCandidate cur star).
          rewrite (Hflag eq_refl), Hs. reflexivity.
        - reflexivity. }
      assert (Hh' : heap (obscureStar cur x) !! star = heap nm !! star \/
                    heap (obscureStar cur x) !! star = f <$> heap nm !! star).
      { rewrite Hstep. destruct (decide (x = star)); [|exact Hh].
        right. destruct Hh as [->| ->]; [done|].
        destruct (heap nm !! star); [|done]. simpl. f_equal.
        apply applyDustObscuration_idem. }
      destruct (IH (obscureStar cur x)) as [IH1 IH2]; [done|done|exact Hh'|].
      split; [|exact IH2].
      intros Hin. apply elem_of_cons in Hin as [Heq|Hin]; [subst x|now apply IH1].
      assert (Hnow : heap (obscureStar cur star) !! star = f <$> heap nm !! star).
      { rewrite Hstep, decide_True by done.
        destruct Hh as [->| ->]; [done|].
        destruct (heap nm !! star); [|done]. simpl. f_equal.
        apply applyDustObscuration_idem. }
      destruct (decide (star ∈ l)) as [Hl|Hl]; [now apply IH1|].
      clear IH IH1 IH2 Hstep Hh' Hflag.
      revert Hnow. generalize (obscureStar cur star). clear Hs Hg Hh cur.
      induction l as [|y l IHl]; intros cur Hnow; [exact Hnow|].
      cbn [fold_left]. apply IHl.
      + intros H. apply Hl. now apply list_elem_of_further.
      + unfold obscureStar, mutate. cbn [heap set_heap].
        rewrite lookup_alter, decide_False; [exact Hnow|].
        intros ->. apply Hl. apply list_elem_of_here. }
  intros Hin. destruct (Hgen (stars nm) nm eq_refl eq_refl (or_introl eq_refl)) as [H _].
  now apply H.
Qed.

Lemma obscuredByCandidate_spec nm star :
  obscuredByCandidate nm star = true <->
  exists cloud,
    cloud ∈ nearbyClouds nm star /\
    HandshakeSpec.distanceWithin
      (Vec.planarDistanceSquared (position (deref nm star)) (cloud_position cloud))
      (cloud_radius cloud).
Proof.
  unfold obscuredByCandidate. rewrite existsb_exists. unfold isObscuredBy.
  split; intros (c & Hin & Hc); exists c; (split; [by apply list_elem_of_In|]);
    by apply sqrt_leb_spec.
Qed.

End Obscuration.

(** ** The draws of [Star.update] *)

Section StarDraws.
Import Entities Draws.

Ltac open_update :=
  unfold starAfter, supernovaFires, lifeDraw, canActivate, endOfLife,
    Star_update, outsideCentralBulge, set_age in *;
  unfold_world; cbv zeta in *.

Ltac star_cbn :=
  cbn [position galaxyCenter baseColor mesh age lifetime hasDormantPlanet
       isActive activationTime emissionTimer emissionInterval isEmitting
       canSupportLife isGoingSupernova isObscured set_age set_mesh
       set_opacity set_scale set_colour set_light set_isActive
       set_activationTime set_emissionTimer set_isEmitting
       set_hasDormantPlanet set_isGoingSupernova activate deactivate
       addLight removeLight light negb andb rngPos clockPos] in *.

Ltac split_goal_ifs :=
  repeat match goal with
         | |- context [if ?b then _ else _] => destruct b eqn:?
         end.

Lemma supernova_draw E s deltaTime st w :
  endOfLife deltaTime st = true ->
  isGoingSupernova (starAfter E s deltaTime st w)
  = Qltb (random E (rngPos w)) (activationChance s).
Proof.
  open_update.
  destruct st as [pos ctr col [op sc cl li] a l dormant active atime et ei em life nova obs].
  star_cbn.
  intros Hend. rewrite Hend.
  apply andb_true_iff in Hend as [_ Hn]. apply negb_true_iff in Hn. subst nova.
  destruct (Qltb (random E (rngPos w)) (activationChance s)); [reflexivity|].
  destruct active, dormant, life, li; star_cbn;
    split_goal_ifs; star_cbn; reflexivity.
Qed.

Lemma activation_draw E s deltaTime st w :
  supernovaFires E s deltaTime st w = false ->
  canActivate s st = true ->
  isActive (starAfter E s deltaTime st w)
  = Qltb (lifeDraw E deltaTime st w) (activationChance s * deltaTime).
Proof.
  open_update.
  destruct st as [pos ctr col [op sc cl li] a l dormant active atime et ei em life nova obs].
  star_cbn.
  intros Hfire Hcan.
  apply andb_true_iff in Hcan as [Hcan Hout].
  apply andb_true_iff in Hcan as [Hcan Hlife].
  apply andb_true_iff in Hcan as [Hact Hdorm].
  apply negb_true_iff in Hact, Hdorm. subst active dormant life.
  destruct (Qgeb (a + deltaTime) l && negb nova) eqn:Hend; cbn [andb] in Hfire.
  - rewrite Hfire.
    destruct (Qgtb _ _); star_cbn; rewrite Hout;
      star_cbn;
      destruct (Qltb (random E (S (rngPos w))) (activationChance s * deltaTime));
      destruct li; reflexivity.
  - destruct (Qgtb _ _); star_cbn; rewrite Hout;
      star_cbn;
      destruct (Qltb (random E (rngPos w)) (activationChance s * deltaTime));
      destruct li; reflexivity.
Qed.

Lemma deactivation_draw E s deltaTime st w :
  supernovaFires E s deltaTime st w = false ->
  isActive st = true ->
  isActive (starAfter E s deltaTime st w)
  = negb (Qltb (lifeDraw E deltaTime st w) (deactivationChance s * deltaTime)).
Proof.
  open_update.
  destruct st as [pos ctr col [op sc cl li] a l dormant active atime et ei em life nova obs].
  star_cbn.
  intros Hfire ->.
  destruct (Qgeb (a + deltaTime) l && negb nova) eqn:Hend; cbn [andb] in Hfire.
  - rewrite Hfire.
    destruct (Qgtb _ _); star_cbn;
      destruct (Qltb (random E (S (rngPos w))) (deactivationChance s * deltaTime));
      destruct li; star_cbn; split_goal_ifs; reflexivity.
  - destruct (Qgtb _ _); star_cbn;
      destruct (Qltb (random E (rngPos w)) (deactivationChance s * deltaTime));
      destruct li; star_cbn; split_goal_ifs; reflexivity.
Qed.

End StarDraws.

(** C6, as the code has it: after the obscuration phase a star of the
    collection is marked obscured exactly when one of the clouds that
    the grid query returns around it (the cells within
    [ceil (radius / cellSize)] of its cell on the three axes, for the
    radius [dustCloudMinRadius + dustCloudRadiusRange]) has the star
    within its radius in the x,z plane; when there is none, a star that
    was marked is restored to the clear opacity and to the colour of its
    activity state, and a star that was not marked is left as it is. *)
Theorem obscured_iff_candidate_cloud (nm : NetworkManager) (star : nat)
    (st : Star) :
  star ∈ stars nm ->
  heap nm !! star = Some st ->
  let st' := Manager.deref (Manager.dustObscuration nm) star in
  (isObscured st' = true <->
   exists cloud,
     cloud ∈ Manager.nearbyClouds nm star /\
     HandshakeSpec.distanceWithin
       (Vec.planarDistanceSquared (position st) (cloud_position cloud))
       (cloud_radius cloud)) /\
  (obscuredByCandidate nm star = false ->
   (isObscured st = true ->
    opacity (mesh st') = clearOpacity (settings nm) /\
    colour (mesh st')
    = (if isActive st
       then ActiveColour (activeStarColorMultiplier (settings nm))
       else BaseColour)) /\
   (isObscured st = false -> st' = st)).
Proof.
  intros Hin Hst st'.
  assert (Hst' : st' = Entities.applyDustObscuration (settings nm)
                         (obscuredByCandidate nm star) false st).
  { unfold st', Manager.deref, lookup_total, map_lookup_total.
    rewrite (dustObscuration_lookup nm star Hin), Hst. reflexivity. }
  assert (Hderef : Manager.deref nm star = st).
  { unfold Manager.deref, lookup_total, map_lookup_total. now rewrite Hst. }
  split.
  - rewrite Hst', applyDustObscuration_flag, obscuredByCandidate_spec, Hderef.
    reflexivity.
  - intros Hflag. rewrite Hflag in Hst'. rewrite Hst'. split.
    + intros Hobs. now apply applyDustObscuration_restores.
    + intros Hobs. now apply applyDustObscuration_unchanged.
Qed.

Lemma obscured_iff_candidate_cloud_witness :
  let nm := Scenario.starUnderCloud in
  let st := Scenario.starAt (V3 0 0 0) None 10 100 in
  let st' := Manager.deref (Manager.dustObscuration nm) 0 in
  (isObscured st' = true <->
   exists cloud,
     cloud ∈ Manager.nearbyClouds nm 0 /\
     HandshakeSpec.distanceWithin
       (Vec.planarDistanceSquared (position st) (cloud_position cloud))
       (cloud_radius cloud)) /\
  (obscuredByCandidate nm 0 = false ->
   (isObscured st = true ->
    opacity (mesh st') = clearOpacity (settings nm) /\
    colour (mesh st')
    = (if isActive st
       then ActiveColour (activeStarColorMultiplier (settings nm))
       else BaseColour)) /\
   (isObscured st = false -> st' = st)).
Proof.
  intros nm st.
  apply (obscured_iff_candidate_cloud nm 0 st).
  - apply list_elem_of_here.
  - reflexivity.
Defined.

(** C6 as stated fails: the cloud of radius 5 at (0,1000,0) has the star
    at the origin within its radius in the x,z plane, but its cell is far
    from those that the grid query scans, and the star is not marked. *)
Lemma distant_cloud_counterexample :
  let nm := Scenario.starUnderCloud in
  0%nat ∈ stars nm /\
  Scenario.cloudAbove ∈ dustClouds nm /\
  HandshakeSpec.distanceWithin
    (Vec.planarDistanceSquared (position (Manager.deref nm 0))
                               (cloud_position Scenario.cloudAbove))
    (cloud_radius Scenario.cloudAbove) /\
  isObscured (Manager.deref (Manager.dustObscuration nm) 0) = false.
Proof.
  cbv zeta. split; [apply list_elem_of_here|]. split; [apply list_elem_of_here|].
  split; [split; vm_compute; discriminate|vm_compute; reflexivity].
Qed.

(** C8, as the code has it: the activation draw, the dormancy draw and
    the birth draw compare a uniform draw with a rate multiplied by
    [deltaTime] ([activationChance * deltaTime],
    [deactivationChance * deltaTime],
    [starBirthReplacementRatio * deltaTime / starBirthTimeDivisor], for
    a positive divisor); the supernova draw at the end of life compares
    it with [activationChance] alone, whatever [deltaTime]. *)
Theorem draws_scaled_except_supernova (E : Oracle) (G : Geometry)
    (s : SimulationSettings) (deltaTime : Q) (dying dormant active : Star)
    (w : World) (nm : NetworkManager) :
  Draws.endOfLife deltaTime dying = true ->
  Draws.supernovaFires E s deltaTime dormant w = false ->
  Draws.canActivate s dormant = true ->
  Draws.supernovaFires E s deltaTime active w = false ->
  isActive active = true ->
  birthGate nm = true ->
  spawnThrows E nm = true ->
  (0 < starBirthTimeDivisor (settings nm))%Q ->
  isGoingSupernova (Draws.starAfter E s deltaTime dying w)
  = Qltb (random E (rngPos w)) (activationChance s) /\
  isActive (Draws.starAfter E s deltaTime dormant w)
  = Qltb (Draws.lifeDraw E deltaTime dormant w) (activationChance s * deltaTime) /\
  isActive (Draws.starAfter E s deltaTime active w)
  = negb (Qltb (Draws.lifeDraw E deltaTime active w)
               (deactivationChance s * deltaTime)) /\
  threw (Manager.starBirth E G deltaTime nm)
  = Qltb (random E (rngPos (world nm)))
         (starBirthReplacementRatio (settings nm) * deltaTime
          / starBirthTimeDivisor (settings nm)).
Proof.
  intros Hend Hfire1 Hcan Hfire2 Hact Hgate Hspawn _.
  split; [now apply supernova_draw|].
  split; [now apply activation_draw|].
  split; [now apply deactivation_draw|].
  rewrite starBirth_threw, Hgate, Hspawn, andb_true_r. reflexivity.
Qed.

Lemma draws_scaled_except_supernova_witness :
  let E := Scenario.constantOracle (1 # 10000) 5 in
  let G := Scenario.flatGeometry in
  let s := Scenario.defaultSettings in
  let deltaTime := (16 # 1000)%Q in
  let dying := Scenario.starAt (V3 0 0 0) (Some 0%Q) 100 100 in
  let dormant := Scenario.starAt (V3 0 0 0) None 10 100 in
  let active := Scenario.starAt (V3 0 0 0) (Some 0%Q) 10 100 in
  let w := Scenario.world0 in
  let nm := Scenario.lateGalaxy in
  isGoingSupernova (Draws.starAfter E s deltaTime dying w)
  = Qltb (random E (rngPos w)) (activationChance s) /\
  isActive (Draws.starAfter E s deltaTime dormant w)
  = Qltb (Draws.lifeDraw E deltaTime dormant w) (activationChance s * deltaTime) /\
  isActive (Draws.starAfter E s deltaTime active w)
  = negb (Qltb (Draws.lifeDraw E deltaTime active w)
               (deactivationChance s * deltaTime)) /\
  threw (Manager.starBirth E G deltaTime nm)
  = Qltb (random E (rngPos (world nm)))
         (starBirthReplacementRatio (settings nm) * deltaTime
          / starBirthTimeDivisor (settings nm)).
Proof.
  intros E G s deltaTime dying dormant active w nm.
  apply (draws_scaled_except_supernova E G s deltaTime dying dormant active w nm);
    vm_compute; reflexivity.
Defined.

(** C8 as stated fails for the supernova draw: at the end of its life,
    with [deltaTime] 0.016 and a draw of 0.0001, the star goes supernova
    (0.0001 < activationChance = 0.0005) although the draw is not below
    [activationChance * deltaTime] = 0.000008. *)
Lemma supernova_draw_counterexample :
  let E := Scenario.constantOracle (1 # 10000) 5 in
  let s := Scenario.defaultSettings in
  let deltaTime := (16 # 1000)%Q in
  let st := Scenario.starAt (V3 0 0 0) (Some 0%Q) 100 100 in
  Draws.endOfLife deltaTime st = true /\
  isGoingSupernova (Draws.starAfter E s deltaTime st Scenario.world0) = true /\
  Qltb (random E (rngPos Scenario.world0)) (activationChance s * deltaTime) = false.
Proof. cbv zeta. repeat split; vm_compute; reflexivity. Qed.

Lemma one_connection_per_pair_witness :
  let E := Scenario.constantOracle 1 5 in
  let nm := Manager.createConnection 0 1 (Scenario.twoActiveStars []) in
  uniqueConnections (connections nm) /\
  (connected 0 1 (connections nm) ->
   Manager.createConnection 0 1 nm = nm /\
   Manager.createConnection 1 0 nm = nm) /\
  Manager.createConnection 0 1 (Manager.createConnection 0 1 nm)
  = Manager.createConnection 0 1 nm.
Proof.
  intros E nm.
  apply (one_connection_per_pair E Scenario.flatGeometry nm 0 1).
  apply reach_createConnection, reach_start. reflexivity.
Defined.

Lemma star_activation_invariant_witness :
  let st := (Scenario.afterUpdates 2).1 in
  let st' := (Scenario.afterUpdates 3).1 in
  (is_Some (activationTime st') <-> isActive st' = true) /\
  (hasDormantPlanet st = true ->
   isActive st' = false /\ hasDormantPlanet st' = true) /\
  (forall E settings deltaTime w,
     exists st'' w', Entities.Star_update E settings deltaTime st' w = Ok st'' w').
Proof.
  intros st st'.
  apply (star_activation_invariant st st').
  - apply reach_step with (st := (Scenario.afterUpdates 1).1).
    + apply reach_step with (st := (Scenario.afterUpdates 0).1).
      * apply (reach_new Scenario.lifeOracle Scenario.defaultSettings (V3 0 0 0)
                 (CenterVector (V3 (-450) (-120) (-150))) MiddleAged
                 Scenario.world0 2%nat _ (Scenario.afterUpdates 0).2).
        vm_compute. reflexivity.
      * apply (step_update Scenario.lifeOracle Scenario.defaultSettings 1 _
                 (Scenario.afterUpdates 0).2 _ (Scenario.afterUpdates 1).2).
        vm_compute. reflexivity.
    + apply (step_update Scenario.lifeOracle Scenario.defaultSettings 1 _
               (Scenario.afterUpdates 1).2 _ (Scenario.afterUpdates 2).2).
      vm_compute. reflexivity.
  - apply rtc_once.
    apply (step_update Scenario.lifeOracle Scenario.defaultSettings 1 _
             (Scenario.afterUpdates 2).2 _ (Scenario.afterUpdates 3).2).
    vm_compute. reflexivity.
Defined.

(** * Part III: the rational tests against the real-number reading *)

Module RealReadingFacts.
Import Reals Qreals Lra RealReading.
Local Open Scope R_scope.

Lemma Q2R_zero : Q2R 0 = 0.
Proof. unfold Q2R. simpl. lra. Qed.

Lemma sqrt_le_iff (s r : R) : 0 <= s -> (sqrt s <= r <-> 0 <= r /\ s <= r * r).
Proof.
  intros Hs. split.
  - intros H. pose proof (sqrt_pos s) as Hp. split; [lra|].
    rewrite <- (sqrt_sqrt s Hs). apply Rmult_le_compat; lra.
  - intros [Hr H]. rewrite <- (sqrt_square r Hr). now apply sqrt_le_1_alt.
Qed.

Lemma sqrt_lt_iff (s r : R) : 0 <= s -> (sqrt s < r <-> 0 < r /\ s < r * r).
Proof.
  intros Hs. split.
  - intros H. pose proof (sqrt_pos s) as Hp. split; [lra|].
    rewrite <- (sqrt_sqrt s Hs). apply Rmult_le_0_lt_compat; lra.
  - intros [Hr H]. rewrite <- (sqrt_square r) by lra.
    apply sqrt_lt_1_alt. lra.
Qed.

(** [sqrt_leb s r] decides [Math.sqrt(s) <= r]. *)
Lemma sqrt_leb_real (s r : Q) :
  (0 <= s)%Q -> sqrt_leb s r = true <-> sqrt (Q2R s) <= Q2R r.
Proof.
  intros Hs. apply Qle_Rle in Hs. rewrite Q2R_zero in Hs.
  unfold sqrt_leb. rewrite andb_true_iff, !Qle_bool_iff, sqrt_le_iff by done.
  rewrite <- Q2R_mult, <- Q2R_zero. split.
  - intros [H1 H2]. split; now apply Qle_Rle.
  - intros [H1 H2]. split; now apply Rle_Qle.
Qed.

(** [sqrt_ltb s r] decides [Math.sqrt(s) < r]. *)
Lemma sqrt_ltb_real (s r : Q) :
  (0 <= s)%Q -> sqrt_ltb s r = true <-> sqrt (Q2R s) < Q2R r.
Proof.
  intros Hs. apply Qle_Rle in Hs. rewrite Q2R_zero in Hs.
  rewrite sqrt_ltb_spec, sqrt_lt_iff by done.
  rewrite <- Q2R_mult, <- Q2R_zero. split.
  - intros [H1 H2]. split; now apply Qlt_Rlt.
  - intros [H1 H2]. split; now apply Rlt_Qlt.
Qed.


Lemma distanceToSquared_real (a b : Vector3) :
  Q2R (Vec.distanceToSquared a b)
  = dotR (subR (toReal a) (toReal b)) (subR (toReal a) (toReal b)).
Proof.
  unfold Vec.distanceToSquared, dotR, subR, toReal. cbv zeta. simpl.
  rewrite !Q2R_plus, !Q2R_mult, !Q2R_minus. reflexivity.
Qed.

Lemma dotR_self_nonneg (v : Vector3R) : 0 <= dotR v v.
Proof. unfold dotR. nra. Qed.

(** The distance tests of [isStarInDustCloud] ([distance < radius]) and
    of the handshake and [createConnection] ([distance > limit]). *)
Lemma distance_lt_real (a b : Vector3) (r : Q) :
  sqrt_ltb (Vec.distanceToSquared a b) r = true
  <-> distanceToR (toReal a) (toReal b) < Q2R r.
Proof.
  rewrite sqrt_ltb_real by apply distanceToSquared_nonneg.
  unfold distanceToR, lengthR. now rewrite distanceToSquared_real.
Qed.

Lemma distance_gt_real (a b : Vector3) (r : Q) :
  sqrt_gtb (Vec.distanceToSquared a b) r = true
  <-> distanceToR (toReal a) (toReal b) > Q2R r.
Proof.
  unfold sqrt_gtb. rewrite negb_true_iff, <- not_true_iff_false.
  rewrite sqrt_leb_real by apply distanceToSquared_nonneg.
  unfold distanceToR, lengthR. rewrite distanceToSquared_real. lra.
Qed.

(** The round-trip test of the handshake:
    [(2 * distance) / waveSpeed <= activeTime]. *)
Lemma roundTripElapsed_real (s : SimulationSettings) (a b : Vector3) (activeTime : Q) :
  (0 < waveSpeed s)%Q ->
  Manager.roundTripElapsed s (Vec.distanceToSquared a b) activeTime = true
  <-> 2 * distanceToR (toReal a) (toReal b) / Q2R (waveSpeed s) <= Q2R activeTime.
Proof.
  intros Hw. rewrite roundTripElapsed_spec by done.
  unfold HandshakeSpec.roundTripWithin, distanceToR, lengthR.
  rewrite <- distanceToSquared_real.
  set (D := Vec.distanceToSquared a b).
  assert (HD : 0 <= Q2R D).
  { rewrite <- Q2R_zero. apply Qle_Rle, distanceToSquared_nonneg. }
  apply Qlt_Rlt in Hw. rewrite Q2R_zero in Hw.
  set (W := Q2R (waveSpeed s)) in *. set (T := Q2R activeTime).
  assert (Hiff : 2 * sqrt (Q2R D) / W <= T <-> sqrt (Q2R D) <= T * W / 2).
  { split; intros H.
    - apply Rmult_le_reg_r with (r := 2 / W); [apply Rdiv_lt_0_compat; lra|].
      replace (T * W / 2 * (2 / W)) with T by (field; lra).
      replace (sqrt (Q2R D) * (2 / W)) with (2 * sqrt (Q2R D) / W) by (field; lra).
      exact H.
    - replace (2 * sqrt (Q2R D) / W) with (sqrt (Q2R D) * (2 / W)) by (field; lra).
      replace T with (T * W / 2 * (2 / W)) by (field; lra).
      apply Rmult_le_compat_r; [|exact H].
      apply Rlt_le, Rdiv_lt_0_compat; lra. }
  rewrite Hiff, sqrt_le_iff by done.
  assert (Hq1 : (0 <= activeTime)%Q <-> 0 <= T).
  { unfold T. rewrite <- Q2R_zero. split; [apply Qle_Rle|apply Rle_Qle]. }
  assert (Hq2 : (4 * D <= activeTime * waveSpeed s * (activeTime * waveSpeed s))%Q
                <-> 4 * Q2R D <= T * W * (T * W)).
  { unfold T, W. rewrite <- !Q2R_mult.
    replace 4 with (Q2R 4) by (unfold Q2R; simpl; lra).
    rewrite <- Q2R_mult. split; [apply Qle_Rle|apply Rle_Qle]. }
  rewrite Hq1, Hq2. split.
  - intros [H0 H1]. split; [|nra].
    apply Rmult_le_pos; [|lra]. apply Rmult_le_pos; lra.
  - intros [H0 H1]. split; [|nra].
    destruct (Rle_or_lt 0 T) as [?|Hneg]; [done|].
    assert (T * W < 0) by nra. lra.
Qed.

(** The planar test of the dust obscuration loop:
    [Math.sqrt(dx * dx + dz * dz) <= cloud.radius]. *)
Lemma isObscuredBy_real (p : Vector3) (cloud : DustCloud) :
  Manager.isObscuredBy p cloud = true
  <-> let dx := Q2R (vx p) - Q2R (vx (cloud_position cloud)) in
      let dz := Q2R (vz p) - Q2R (vz (cloud_position cloud)) in
      sqrt (dx * dx + dz * dz) <= Q2R (cloud_radius cloud).
Proof.
  unfold Manager.isObscuredBy. cbv zeta.
  assert (Hnn : (0 <= Vec.planarDistanceSquared p (cloud_position cloud))%Q).
  { unfold Vec.planarDistanceSquared. cbv zeta.
    pose proof (sq_nonneg (vx p - vx (cloud_position cloud))).
    pose proof (sq_nonneg (vz p - vz (cloud_position cloud))).
    Lqa.lra. }
  rewrite (sqrt_leb_real _ _ Hnn).
  unfold Vec.planarDistanceSquared. cbv zeta.
  rewrite !Q2R_plus, !Q2R_mult, !Q2R_minus. reflexivity.
Qed.

Lemma toReal_sub (a b : Vector3) :
  toReal (Vec.subVectors a b) = subR (toReal a) (toReal b).
Proof.
  unfold toReal, subR, Vec.subVectors. simpl. now rewrite !Q2R_minus.
Qed.

Lemma toReal_dot (a b : Vector3) :
  Q2R (Vec.dot a b) = dotR (toReal a) (toReal b).
Proof.
  unfold toReal, dotR, Vec.dot. simpl. now rewrite !Q2R_plus, !Q2R_mult.
Qed.

Lemma toReal_addScaled (a d : Vector3) (s : Q) :
  toReal (Vec.addScaledVector a d s) = addScaledR (toReal a) (toReal d) (Q2R s).
Proof.
  unfold toReal, addScaledR, Vec.addScaledVector. simpl.
  now rewrite !Q2R_plus, !Q2R_mult.
Qed.

Lemma dotR_self_zero (v : Vector3R) :
  dotR v v = 0 -> rx v = 0 /\ ry v = 0 /\ rz v = 0.
Proof. unfold dotR. intros H. repeat split; nra. Qed.

(** The normalised form of the source against the form on squares: the
    projection on the unit direction compared with the length is the
    projection on the difference compared with the squared length, and
    the closest point is the same. *)
Lemma cloudBlocksR_squares (pointA pointB center : Vector3R) (radius s : R) :
  let d := subR pointB pointA in
  let lengthSquared := dotR d d in
  let projection := dotR (subR center pointA) d in
  (lengthSquared <> 0 -> s = projection / lengthSquared) ->
  cloudBlocksR pointA pointB center radius
  <-> ~ (projection < 0 \/ projection > lengthSquared)
      /\ distanceToR (addScaledR pointA d s) center < radius.
Proof.
  intros d lengthSquared projection Hs.
  unfold cloudBlocksR. cbv zeta. fold d.
  pose proof (dotR_self_nonneg d) as Hnn. fold lengthSquared in Hnn.
  destruct (Req_dec_T lengthSquared 0) as [Hz|Hnz].
  - destruct (dotR_self_zero d Hz) as (Hx & Hy & Hzz).
    assert (Hlen : lengthR d = 0).
    { unfold lengthR. fold lengthSquared. rewrite Hz. apply sqrt_0. }
    assert (Hdir : normalizeR d = V3R 0 0 0).
    { unfold normalizeR. cbv zeta. rewrite Hlen.
      destruct (Req_dec_T 0 0) as [_|Hne]; [|now destruct Hne].
      rewrite Hx, Hy, Hzz. f_equal; lra. }
    rewrite Hdir, Hlen.
    assert (Hp : projection = 0).
    { unfold projection, dotR. rewrite Hx, Hy, Hzz. lra. }
    assert (Hp' : dotR (subR center pointA) (V3R 0 0 0) = 0).
    { unfold dotR. simpl. lra. }
    rewrite Hp', Hp, Hz.
    assert (Hc : addScaledR pointA (V3R 0 0 0) 0 = addScaledR pointA d s).
    { unfold addScaledR. rewrite Hx, Hy, Hzz. simpl. f_equal; lra. }
    now rewrite Hc.
  - assert (Hpos : 0 < lengthSquared) by lra.
    set (L := lengthR d).
    assert (HL : 0 < L) by (apply sqrt_lt_R0; exact Hpos).
    assert (HLL : L * L = lengthSquared) by (apply sqrt_sqrt; lra).
    assert (Hdir : normalizeR d = V3R (rx d / L) (ry d / L) (rz d / L)).
    { unfold normalizeR. cbv zeta. fold L.
      destruct (Req_dec_T L 0) as [He|_]; [lra|reflexivity]. }
    rewrite Hdir.
    assert (Hpl : dotR (subR center pointA) (V3R (rx d / L) (ry d / L) (rz d / L))
                  = projection / L).
    { unfold projection, dotR. simpl. field. lra. }
    rewrite Hpl.
    assert (Hc : addScaledR pointA (V3R (rx d / L) (ry d / L) (rz d / L))
                            (projection / L)
                 = addScaledR pointA d s).
    { rewrite (Hs Hnz), <- HLL. unfold addScaledR. simpl. f_equal; field; lra. }
    rewrite Hc.
    assert (H1 : projection / L < 0 <-> projection < 0).
    { split; intros H.
      - apply Rmult_lt_compat_r with (r := L) in H; [|exact HL].
        replace (projection / L * L) with projection in H by (field; lra). lra.
      - apply Rmult_lt_reg_r with (r := L); [exact HL|].
        replace (projection / L * L) with projection by (field; lra). lra. }
    assert (H2 : projection / L > L <-> projection > lengthSquared).
    { rewrite <- HLL. split; intros H.
      - apply Rmult_lt_compat_r with (r := L) in H; [|exact HL].
        replace (projection / L * L) with projection in H by (field; lra). lra.
      - apply Rmult_lt_reg_r with (r := L); [exact HL|].
        replace (projection / L * L) with projection by (field; lra). lra. }
    rewrite H1, H2. reflexivity.
Qed.

(** [cloudBlocks] decides the literal reading of the loop body of
    [isBlockedByDust]. *)
Lemma cloudBlocks_real (pointA pointB : Vector3) (cloud : DustCloud) :
  Manager.cloudBlocks pointA pointB cloud = true
  <-> cloudBlocksR (toReal pointA) (toReal pointB)
                   (toReal (cloud_position cloud)) (Q2R (cloud_radius cloud)).
Proof.
  unfold Manager.cloudBlocks. cbv zeta.
  set (d := Vec.subVectors pointB pointA).
  set (toCloud := Vec.subVectors (cloud_position cloud) pointA).
  rewrite (cloudBlocksR_squares _ _ _ _
             (Q2R (Vec.dot toCloud d / Vec.dot d d))).
  2:{ cbv zeta. rewrite <- !toReal_sub. fold d toCloud.
      rewrite <- !toReal_dot. intros Hnz.
      apply Q2R_div. intros Heq. apply Hnz.
      rewrite <- Q2R_zero. now apply Qeq_eqR. }
  cbv zeta. rewrite <- !toReal_sub. fold d toCloud.
  rewrite <- !toReal_dot, <- toReal_addScaled.
  rewrite <- distance_lt_real.
  assert (Hlt : Qltb (Vec.dot toCloud d) 0 = true <-> Q2R (Vec.dot toCloud d) < 0).
  { rewrite Qltb_lt, <- Q2R_zero. split; [apply Qlt_Rlt|apply Rlt_Qlt]. }
  assert (Hgt : Qgtb (Vec.dot toCloud d) (Vec.dot d d) = true
                <-> Q2R (Vec.dot toCloud d) > Q2R (Vec.dot d d)).
  { unfold Qgtb; rewrite Qltb_lt. split; [apply Qlt_Rlt|apply Rlt_Qlt]. }
  destruct (Qltb (Vec.dot toCloud d) 0) eqn:E1;
    destruct (Qgtb (Vec.dot toCloud d) (Vec.dot d d)) eqn:E2; cbn [orb].
  - split; [discriminate|]. intros [Hn _]. exfalso. apply Hn. left. now apply Hlt.
  - split; [discriminate|]. intros [Hn _]. exfalso. apply Hn. left. now apply Hlt.
  - split; [discriminate|]. intros [Hn _]. exfalso. apply Hn. right. now apply Hgt.
  - split.
    + intros H. split; [|exact H].
      intros [H'|H']; [apply Hlt in H'|apply Hgt in H']; discriminate.
    + intros [_ H]. exact H.
Qed.

End RealReadingFacts.

(** * Part IV: further properties of the program *)

(** ** Facts about [validate] and [sanitize] *)

Section SettingsFacts.
Import Stdlib.Strings.Ascii stdpp.strings SettingsMethods.
Local Open Scope Q_scope.

Lemma Qmax_cases a x : (a <= x /\ Qmax a x = x) \/ (x < a /\ Qmax a x = a).
Proof.
  unfold Qmax. destruct (Qle_bool a x) eqn:H.
  - left. now apply Qle_bool_iff in H.
  - right. now apply Qleb_gt in H.
Qed.

Lemma Qmin_cases a x : (a <= x /\ Qmin a x = a) \/ (x < a /\ Qmin a x = x).
Proof.
  unfold Qmin. destruct (Qle_bool a x) eqn:H.
  - left. now apply Qle_bool_iff in H.
  - right. now apply Qleb_gt in H.
Qed.

Lemma Qmax_lower a x : a <= Qmax a x.
Proof. destruct (Qmax_cases a x) as [[? ->]|[? ->]]; lra. Qed.

Lemma Qmax_fixed a x : a <= x -> Qmax a x = x.
Proof. intros H. destruct (Qmax_cases a x) as [[? ->]|[? ->]]; [done|lra]. Qed.

Lemma Qmin_fixed a x : a <= x -> Qmin a x = a.
Proof. intros H. destruct (Qmin_cases a x) as [[? ->]|[? ->]]; [done|lra]. Qed.

Lemma Qmin_upper a x : Qmin a x <= x.
Proof. destruct (Qmin_cases a x) as [[? ->]|[? ->]]; lra. Qed.

Lemma Qmax_idem a x : Qmax a (Qmax a x) = Qmax a x.
Proof. apply Qmax_fixed, Qmax_lower. Qed.

Lemma clamp_cases lo hi x :
  lo <= hi ->
  (hi <= x /\ clamp lo hi x = hi) \/ (x < lo /\ clamp lo hi x = lo)
  \/ (lo <= x /\ x < hi /\ clamp lo hi x = x).
Proof.
  intros H. unfold clamp.
  destruct (Qmin_cases hi x) as [[H1 ->]|[H1 ->]].
  - left. split; [done|]. now apply Qmax_fixed.
  - destruct (Qmax_cases lo x) as [[H2 ->]|[H2 ->]]; auto.
Qed.

Lemma clamp_bounds lo hi x :
  lo <= hi -> lo <= clamp lo hi x /\ clamp lo hi x <= hi.
Proof.
  intros H.
  destruct (clamp_cases lo hi x H) as [[? ->]|[[? ->]|(? & ? & ->)]]; lra.
Qed.

Lemma clamp_idem lo hi x :
  lo < hi -> clamp lo hi (clamp lo hi x) = clamp lo hi x.
Proof.
  intros H.
  destruct (clamp_cases lo hi x) as [[H1 E]|[[H1 E]|(H1 & H2 & E)]];
    [lra| | |]; rewrite E;
    destruct (clamp_cases lo hi x) as [[? ?]|[[? ?]|(? & ? & ?)]]; try lra.
  - destruct (clamp_cases lo hi hi) as [[? ->]|[[? ?]|(? & ? & ?)]]; lra || done.
  - unfold clamp. assert (Hm : Qmin hi lo = lo).
    { destruct (Qmin_cases hi lo) as [[? ?]|[? ->]]; [lra|done]. }
    rewrite Hm. apply Qmax_fixed. lra.
  - unfold clamp. assert (Hm : Qmin hi x = x).
    { destruct (Qmin_cases hi x) as [[? ?]|[? ->]]; [lra|done]. }
    rewrite Hm. now apply Qmax_fixed.
Qed.

Lemma Qfloor_half (n : Z) : Qfloor (inject_Z n + (1 # 2)) = n.
Proof.
  unfold Qfloor, Qplus, inject_Z. simpl.
  rewrite Z.mul_1_r. symmetry. apply (Z.div_unique _ 2 n 1); lia.
Qed.

Lemma Math_round_integer (n : Z) : Math_round (inject_Z n) = inject_Z n.
Proof. unfold Math_round. now rewrite Qfloor_half. Qed.

Lemma Math_round_idem x : Math_round (Math_round x) = Math_round x.
Proof. unfold Math_round at 2. apply Math_round_integer. Qed.

Lemma Qfloor_inject_Z (n : Z) : Qfloor (inject_Z n) = n.
Proof. unfold Qfloor, inject_Z. simpl. apply Z.div_1_r. Qed.

Lemma Number_isInteger_inject_Z (n : Z) : Number_isInteger (inject_Z n) = true.
Proof.
  unfold Number_isInteger. rewrite Qfloor_inject_Z. apply Qeq_bool_iff. reflexivity.
Qed.

(** [Math.max(k, Math.round(x))] for an integer [k]. *)
Lemma rounded_floor_cases (k : Z) x :
  exists n : Z, Qmax (inject_Z k) (Math_round x) = inject_Z n
                /\ inject_Z k <= inject_Z n.
Proof.
  destruct (Qmax_cases (inject_Z k) (Math_round x)) as [[H ->]|[H ->]].
  - eexists. split; [reflexivity|exact H].
  - exists k. split; [reflexivity|lra].
Qed.

Lemma rounded_floor_idem (k : Z) x :
  Qmax (inject_Z k) (Math_round (Qmax (inject_Z k) (Math_round x)))
  = Qmax (inject_Z k) (Math_round x).
Proof.
  destruct (rounded_floor_cases k x) as (n & -> & Hn).
  rewrite Math_round_integer. now apply Qmax_fixed.
Qed.

Lemma Math_max_dynamic_idem lo v :
  Math_max_dynamic lo (Math_max_dynamic lo v) = Math_max_dynamic lo v.
Proof. destruct v; simpl; [done..|]. now rewrite Qmax_idem. Qed.

Lemma capped_idem lo x cap :
  0 <= lo -> lo <= cap ->
  Qmin (Qmax lo (Qmin (Qmax lo x) cap)) cap = Qmin (Qmax lo x) cap.
Proof.
  intros H0 Hcap.
  assert (Hlb : lo <= Qmin (Qmax lo x) cap).
  { pose proof (Qmax_lower lo x).
    destruct (Qmin_cases (Qmax lo x) cap) as [[? ->]|[? ->]]; lra. }
  rewrite (Qmax_fixed _ _ Hlb).
  destruct (Qmin_cases (Qmax lo x) cap) as [[H E]|[H E]]; rewrite E.
  - now apply Qmin_fixed.
  - apply Qmin_fixed. lra.
Qed.

Lemma check_false field error : check false field error = [].
Proof. reflexivity. Qed.

Lemma Qle_bool_false_of_lt x y : y < x -> Qle_bool x y = false.
Proof. intros H. now apply Qleb_gt. Qed.

Lemma Qltb_false_of_le x y : y <= x -> Qltb x y = false.
Proof. intros H. now apply Qltb_ge. Qed.

Lemma Qgtb_false_of_le x y : x <= y -> Qgtb x y = false.
Proof. intros H. unfold Qgtb. now apply Qltb_ge. Qed.

Lemma Qgeb_false_of_lt x y : x < y -> Qgeb x y = false.
Proof. intros H. unfold Qgeb. now apply Qleb_gt. Qed.


Lemma Qmin_either a x : Qmin a x == a \/ Qmin a x == x.
Proof. destruct (Qmin_cases a x) as [[? ->]|[? ->]]; [left|right]; reflexivity. Qed.

Lemma Qmin_left a x : Qmin a x <= a.
Proof. destruct (Qmin_cases a x) as [[? ->]|[? ->]]; lra. Qed.

(** Name the clamped terms of the goal and keep their bounds. *)
Ltac pose_bounds :=
  repeat match goal with
  | |- context [clamp ?lo ?hi ?x] =>
      pose proof (clamp_bounds lo hi x ltac:(discriminate));
      generalize dependent (clamp lo hi x); intros
  | |- context [Qmax ?a ?x] =>
      pose proof (Qmax_lower a x); generalize dependent (Qmax a x); intros
  | |- context [Qmin ?a ?x] =>
      pose proof (Qmin_left a x); pose proof (Qmin_upper a x);
      pose proof (Qmin_either a x);
      generalize dependent (Qmin a x); intros
  end.

Ltac solve_bound :=
  pose_bounds;
  repeat match goal with H : _ /\ _ |- _ => destruct H end;
  repeat match goal with H : _ \/ _ |- _ => destruct H end;
  lra.

Ltac in_range :=
  first [ apply Qle_bool_false_of_lt | apply Qltb_false_of_le
        | apply Qgtb_false_of_le | apply Qgeb_false_of_lt ];
  solve_bound.

Ltac passes :=
  first [ apply orb_false_intro; [in_range|in_range] | in_range ].

Lemma rounded_floor_passes (k : Z) x :
  negb (Number_isInteger (Qmax (inject_Z k) (Math_round x)))
  || Qltb (Qmax (inject_Z k) (Math_round x)) (inject_Z k) = false.
Proof.
  destruct (rounded_floor_cases k x) as (n & -> & Hn).
  rewrite Number_isInteger_inject_Z. simpl. now apply Qltb_false_of_le.
Qed.

Local Arguments Qmax : simpl never.
Local Arguments Qmin : simpl never.
Local Arguments clamp : simpl never.
Local Arguments Math_round : simpl never.
Local Arguments Math_max_dynamic : simpl never.
Local Arguments Qle_bool : simpl never.
Local Arguments Qltb : simpl never.
Local Arguments Qgtb : simpl never.
Local Arguments Qgeb : simpl never.
Local Arguments Number_isInteger : simpl never.
Local Arguments isHexColor : simpl never.
Local Arguments check : simpl never.
Local Arguments Settings.maxConnectionDistance : simpl never.

(** X1: [sanitize()] is idempotent: a second call changes no field. *)
Theorem sanitize_idempotent (this : SettingsObject) :
  sanitize (sanitize this) = sanitize this.
Proof.
  destruct this as [c o]. unfold sanitize. simpl. rewrite !Qmax_idem.
  f_equal; f_equal;
    first [ apply clamp_idem; reflexivity
          | apply (rounded_floor_idem 0) | apply (rounded_floor_idem 3)
          | apply (rounded_floor_idem 10) | apply (rounded_floor_idem 100)
          | apply (rounded_floor_idem 1000)
          | apply Math_max_dynamic_idem
          | apply capped_idem; [discriminate|solve_bound] ].
Qed.

(** X2: after [sanitize()], [validate()] reports nothing but, at most,
    the two errors that [sanitize()] cannot repair: a
    [maxConnectionDistance] (derived from the first galaxy) that is not
    positive, and a [waveColor] that is not a six-digit hex colour.
    Every other field passes its check, whatever finite number it held
    (the numbers of a [SettingsObject] are rationals: NaN and the
    infinities, which [Math.round] and [Math.max] would hand on to the
    [Number.isInteger] checks, are not among them). *)
Theorem sanitize_leaves_two_errors (this : SettingsObject) :
  validate (sanitize this)
  = check (Qle_bool (Settings.maxConnectionDistance (core (sanitize this))) 0)
          "maxConnectionDistance" positive
    ++ check (negb (isHexColor (waveColor (other this))))
             "waveColor" "Must be a valid hex color (e.g., #00ffff)".
Proof.
  destruct this as [c o]. unfold validate.
  set (mcd := Settings.maxConnectionDistance (core (sanitize _))).
  unfold sanitize. simpl.
  repeat match goal with
  | |- context [check ?cond ?f ?e] =>
      lazymatch cond with
      | context [mcd] => fail
      | context [isHexColor] => fail
      | _ => idtac
      end;
      let H := fresh in
      assert (H : cond = false)
        by first [ apply (rounded_floor_passes 0) | apply (rounded_floor_passes 3)
                 | apply (rounded_floor_passes 1000) | passes ];
      rewrite H; clear H
  end.
  rewrite !check_false. cbn [app]. now rewrite app_nil_r.
Qed.

End SettingsFacts.

(** ** Facts about the intersection tests of [DustCloud] *)

Section CloudFacts.
Import Cloud.
Local Open Scope Q_scope.

Lemma sqrt_leb_false s r : sqrt_leb s r = false <-> r < 0 \/ r * r < s.
Proof.
  unfold sqrt_leb. rewrite andb_false_iff, !Qleb_gt. reflexivity.
Qed.

Lemma sqrt_ltb_false s r : sqrt_ltb s r = false <-> r <= 0 \/ r * r <= s.
Proof.
  unfold sqrt_ltb. rewrite andb_false_iff, !Qltb_ge. reflexivity.
Qed.

(** The three-way test on the two roots amounts to [t1 <= 1] and
    [t2 >= 0]. *)
Lemma roots_test (a b D : Q) :
  0 < a -> 0 <= D ->
  (sqrt_leb D (- b) && sqrt_geb D (- b - 2 * a)
   || sqrt_geb D b && sqrt_leb D (2 * a + b)
   || sqrt_gtb D (- b) && sqrt_gtb D (2 * a + b)) = true
  <-> ~ (0 < b /\ D < b * b)
      /\ ~ (b + 2 * a < 0 /\ D < (b + 2 * a) * (b + 2 * a)).
Proof.
  intros Ha HD. unfold sqrt_geb, sqrt_gtb.
  destruct (sqrt_leb D (- b)) eqn:P1;
    destruct (sqrt_ltb D (- b - 2 * a)) eqn:P2;
    destruct (sqrt_ltb D b) eqn:P3;
    destruct (sqrt_leb D (2 * a + b)) eqn:P4; cbn [negb andb orb];
    try apply sqrt_leb_spec in P1; try apply sqrt_leb_false in P1;
    try apply sqrt_ltb_spec in P2; try apply sqrt_ltb_false in P2;
    try apply sqrt_ltb_spec in P3; try apply sqrt_ltb_false in P3;
    try apply sqrt_leb_spec in P4; try apply sqrt_leb_false in P4.
  all: split; [intros Hb|intros [H3 H2]]; try discriminate; try reflexivity.
  all: try (split; intros [? ?]; destruct P1 as [? ?] || destruct P1;
            destruct P2 as [? ?] || destruct P2;
            destruct P3 as [? ?] || destruct P3;
            destruct P4 as [? ?] || destruct P4; nra).
  all: exfalso.
  all: try (apply H3; destruct P3; split; nra).
  all: try (apply H2; destruct P2; split; nra).
Qed.


(** The squared distance from the point at parameter [t] to the centre,
    less the squared radius, is the quadratic [a t^2 + b t + c]. *)
Lemma point_quadratic (this : DustCloud) (start finish : Vector3) (t : Q) :
  let d := Vec.subVectors finish start in
  let f := Vec.subVectors start (cloud_position this) in
  Vec.distanceToSquared (Vec.addScaledVector start d t) (cloud_position this)
  - cloud_radius this * cloud_radius this
  == Vec.dot d d * t * t + 2 * Vec.dot f d * t
     + (Vec.dot f f - cloud_radius this * cloud_radius this).
Proof.
  unfold Vec.distanceToSquared, Vec.addScaledVector, Vec.subVectors, Vec.dot.
  simpl. ring.
Qed.

Lemma quadratic_on_unit_interval (a b c : Q) :
  0 < a ->
  (exists t, 0 <= t /\ t <= 1 /\ a * t * t + b * t + c <= 0)
  <-> 0 <= b * b - 4 * a * c
      /\ ~ (0 < b /\ b * b - 4 * a * c < b * b)
      /\ ~ (b + 2 * a < 0
            /\ b * b - 4 * a * c < (b + 2 * a) * (b + 2 * a)).
Proof.
  intros Ha. split.
  - intros (t & H0 & H1 & Hf). repeat split.
    + assert (H : 0 <= (2 * a * t + b) * (2 * a * t + b)) by apply sq_nonneg.
      nra.
    + intros [Hb Hc]. assert (0 < c) by nra. nra.
    + intros [Hb Hc]. assert (0 < a + b + c) by nra.
      assert (0 <= (1 - t) * - (a * (t + 1) + b)) by (apply Qmult_le_0_compat; nra).
      nra.
  - intros (HD & H3 & H2).
    destruct (Qlt_le_dec 0 b) as [Hb|Hb].
    + exists 0. repeat split; [lra..|].
      destruct (Qlt_le_dec 0 c) as [Hc|Hc]; [|lra].
      exfalso. apply H3. split; [done|]. nra.
    + destruct (Qlt_le_dec (b + 2 * a) 0) as [Hb'|Hb'].
      * exists 1. repeat split; [lra..|].
        destruct (Qlt_le_dec 0 (a + b + c)) as [Hc|Hc]; [|lra].
        exfalso. apply H2. split; [done|]. nra.
      * exists (- b / (2 * a)).
        assert (Ht : - b / (2 * a) * (2 * a) == - b) by (field; lra).
        set (t := - b / (2 * a)) in *.
        assert (H0 : 0 <= t).
        { apply Qmult_le_0_compat; [lra|].
          apply Qlt_le_weak, Qinv_lt_0_compat. lra. }
        repeat split; [exact H0| |].
        -- destruct (Qlt_le_dec 1 t) as [Hgt|]; [|done]. exfalso. nra.
        -- assert (H4 : 4 * a * (a * t * t + b * t + c)
                        == - (b * b - 4 * a * c)).
           { assert (E : 2 * a * t == - b) by lra.
             assert (E2 : (2 * a * t) * (2 * a * t) == b * b) by (rewrite E; ring).
             nra. }
           nra.
Qed.

(** A segment that is not reduced to a point meets the closed ball of
    the cloud exactly when [intersectsLine] says so. *)
Lemma intersectsLine_segment (this : DustCloud) (start finish : Vector3) :
  0 < Vec.distanceToSquared finish start ->
  intersectsLine this start finish = true
  <-> exists t, 0 <= t /\ t <= 1 /\ pointInCloud this start finish t.
Proof.
  intros Hlen.
  assert (Ha : 0 < Vec.dot (Vec.subVectors finish start) (Vec.subVectors finish start)).
  { unfold Vec.distanceToSquared in Hlen. unfold Vec.dot, Vec.subVectors. simpl.
    exact Hlen. }
  unfold intersectsLine, pointInCloud. cbv zeta.
  set (d := Vec.subVectors finish start) in *.
  set (f := Vec.subVectors start (cloud_position this)).
  set (a := Vec.dot d d) in *.
  set (b := 2 * Vec.dot f d).
  set (c := Vec.dot f f - cloud_radius this * cloud_radius this).
  assert (Hpt : forall t,
             Vec.distanceToSquared (Vec.addScaledVector start d t)
                                   (cloud_position this)
             <= cloud_radius this * cloud_radius this
             <-> a * t * t + b * t + c <= 0).
  { intros t. pose proof (point_quadratic this start finish t) as H.
    cbv zeta in H. fold d f a in H. unfold b, c. split; intros; lra. }
  assert (Hex : (exists t, 0 <= t /\ t <= 1 /\
                   Vec.distanceToSquared (Vec.addScaledVector start d t)
                                         (cloud_position this)
                   <= cloud_radius this * cloud_radius this)
                <-> exists t, 0 <= t /\ t <= 1 /\ a * t * t + b * t + c <= 0).
  { split; intros (t & H0 & H1 & H); exists t;
      (split; [exact H0|split; [exact H1|]]).
    - apply (proj1 (Hpt t)). exact H.
    - apply (proj2 (Hpt t)). exact H. }
  rewrite Hex, (quadratic_on_unit_interval a b c Ha).
  destruct (Qltb (b * b - 4 * a * c) 0) eqn:HD.
  - apply Qltb_lt in HD. split; [discriminate|]. intros [? _]. lra.
  - apply Qltb_ge in HD.
    destruct (Qeq_bool a 0) eqn:Ha0.
    { apply Qeq_bool_iff in Ha0. lra. }
    rewrite (roots_test a b _ Ha HD). split; [intros [? ?]|intros (_ & ? & ?)]; auto.
Qed.


Lemma segment_not_point (start finish : Vector3) :
  0 < Vec.distanceToSquared finish start ->
  0 < Vec.dot (Vec.subVectors finish start) (Vec.subVectors finish start).
Proof.
  intros H. unfold Vec.distanceToSquared in H.
  unfold Vec.dot, Vec.subVectors. simpl. exact H.
Qed.

Lemma cloudBlocks_point (A B : Vector3) (cloud : DustCloud) :
  Manager.cloudBlocks A B cloud = true ->
  exists t, 0 <= t /\ t <= 1 /\ pointInCloud cloud A B t.
Proof.
  unfold Manager.cloudBlocks, pointInCloud. cbv zeta.
  set (d := Vec.subVectors B A).
  set (proj := Vec.dot (Vec.subVectors (cloud_position cloud) A) d).
  set (len := Vec.dot d d).
  pose proof (dot_self_nonneg d) as Hlen. fold len in Hlen.
  destruct (Qltb proj 0) eqn:Hneg; [discriminate|].
  destruct (Qgtb proj len) eqn:Hbeyond; [discriminate|]. cbn [orb].
  apply Qltb_ge in Hneg. apply Qltb_ge in Hbeyond.
  intros H. apply sqrt_ltb_spec in H as [Hr H].
  destruct (projection_parameter proj len Hlen Hneg Hbeyond) as [H0 H1].
  exists (proj / len). split; [exact H0|]. split; [exact H1|].
  apply Qlt_le_weak. exact H.
Qed.

Lemma insideCloud_point (P : Vector3) (cloud : DustCloud) :
  SegmentSpec.insideCloud P cloud = true ->
  Vec.distanceToSquared P (cloud_position cloud)
  <= cloud_radius cloud * cloud_radius cloud.
Proof.
  unfold SegmentSpec.insideCloud. intros H.
  apply sqrt_ltb_spec in H as [_ H]. apply Qlt_le_weak. exact H.
Qed.

Lemma dust_tests_intersectsLine (A B : Vector3) (cloud : DustCloud) :
  0 < Vec.distanceToSquared B A ->
  SegmentSpec.insideCloud A cloud = true \/
  SegmentSpec.insideCloud B cloud = true \/
  Manager.cloudBlocks A B cloud = true ->
  intersectsLine cloud A B = true.
Proof.
  intros Hlen H. apply (intersectsLine_segment cloud A B Hlen).
  destruct H as [H|[H|H]].
  - exists 0. split; [lra|]. split; [lra|]. unfold pointInCloud.
    rewrite distance_scaled_0. now apply insideCloud_point.
  - exists 1. split; [lra|]. split; [lra|]. unfold pointInCloud.
    rewrite distance_scaled_1. now apply insideCloud_point.
  - now apply cloudBlocks_point.
Qed.

End CloudFacts.

(** ** The literal reading of the dust tests, of [intersectsLine],
    [intersectsRay] and [getArmPosition] *)

Module RealMethodsFacts.
Import Reals Qreals Lra RealReading RealReadingFacts RealMethods.
Local Open Scope R_scope.

Lemma sqrt_geb_real (s r : Q) :
  (0 <= s)%Q -> sqrt_geb s r = true <-> sqrt (Q2R s) >= Q2R r.
Proof.
  intros Hs. unfold sqrt_geb. rewrite negb_true_iff, <- not_true_iff_false.
  rewrite (sqrt_ltb_real s r Hs). lra.
Qed.

Lemma sqrt_gtb_real (s r : Q) :
  (0 <= s)%Q -> sqrt_gtb s r = true <-> sqrt (Q2R s) > Q2R r.
Proof.
  intros Hs. unfold sqrt_gtb. rewrite negb_true_iff, <- not_true_iff_false.
  rewrite (sqrt_leb_real s r Hs). lra.
Qed.

Lemma quotient_sign (x a : R) :
  0 < a ->
  (x / (2 * a) >= 0 <-> x >= 0) /\ (x / (2 * a) <= 1 <-> x <= 2 * a) /\
  (x / (2 * a) < 0 <-> x < 0) /\ (x / (2 * a) > 1 <-> x > 2 * a).
Proof.
  intros Ha.
  assert (Hinv : 0 < / (2 * a)) by (apply Rinv_0_lt_compat; lra).
  assert (Hx : x = x / (2 * a) * (2 * a)) by (field; lra).
  set (q := x / (2 * a)) in *.
  repeat split; intros H; nra.
Qed.

(** [intersectsLine] decides the literal reading of the method, on a
    segment that is not reduced to a point. *)
Lemma intersectsLine_real (this : DustCloud) (start finish : Vector3) :
  (0 < Vec.distanceToSquared finish start)%Q ->
  Cloud.intersectsLine this start finish = true
  <-> intersectsLineR (toReal (cloud_position this)) (Q2R (cloud_radius this))
                      (toReal start) (toReal finish).
Proof.
  intros Hlen.
  unfold Cloud.intersectsLine, intersectsLineR. cbv zeta.
  rewrite <- !toReal_sub.
  set (d := Vec.subVectors finish start).
  set (f := Vec.subVectors start (cloud_position this)).
  rewrite <- !toReal_dot.
  assert (Ha : (0 < Vec.dot d d)%Q).
  { unfold Vec.distanceToSquared in Hlen. unfold Vec.dot, d, Vec.subVectors.
    simpl. exact Hlen. }
  set (a := Vec.dot d d) in *.
  set (b := (2 * Vec.dot f d)%Q).
  set (c := (Vec.dot f f - cloud_radius this * cloud_radius this)%Q).
  set (D := (b * b - 4 * a * c)%Q).
  assert (Hb : 2 * Q2R (Vec.dot f d) = Q2R b).
  { unfold b. rewrite Q2R_mult. f_equal. unfold Q2R. simpl. lra. }
  assert (Hc : Q2R (Vec.dot f f) - Q2R (cloud_radius this) * Q2R (cloud_radius this)
               = Q2R c).
  { unfold c. now rewrite Q2R_minus, Q2R_mult. }
  rewrite Hb, Hc.
  assert (HD : Q2R b * Q2R b - 4 * Q2R a * Q2R c = Q2R D).
  { unfold D. rewrite Q2R_minus, !Q2R_mult. f_equal. f_equal. f_equal.
    unfold Q2R. simpl. lra. }
  rewrite HD.
  assert (HaR : 0 < Q2R a) by (rewrite <- Q2R_zero; now apply Qlt_Rlt).
  destruct (Qltb D 0) eqn:HD0.
  - apply Qltb_lt in HD0. apply Qlt_Rlt in HD0. rewrite Q2R_zero in HD0.
    split; [discriminate|]. intros [H _]. lra.
  - apply Qltb_ge in HD0.
    destruct (Qeq_bool a 0) eqn:Ha0.
    { apply Qeq_bool_iff in Ha0. rewrite Ha0 in Ha. now apply Qlt_irrefl in Ha. }
    assert (HDR : ~ Q2R D < 0).
    { apply Qle_Rle in HD0. rewrite Q2R_zero in HD0. lra. }
    destruct (quotient_sign (- Q2R b - sqrt (Q2R D)) (Q2R a) HaR)
      as (G1 & L1 & N1 & _).
    destruct (quotient_sign (- Q2R b + sqrt (Q2R D)) (Q2R a) HaR)
      as (G2 & L2 & _ & M2).
    rewrite G1, L1, N1, G2, L2, M2.
    rewrite !orb_true_iff, !andb_true_iff.
    rewrite (sqrt_leb_real D (- b) HD0), (sqrt_geb_real D (- b - 2 * a) HD0),
      (sqrt_geb_real D b HD0), (sqrt_leb_real D (2 * a + b) HD0),
      (sqrt_gtb_real D (- b) HD0), (sqrt_gtb_real D (2 * a + b) HD0).
    rewrite Q2R_opp, Q2R_minus, Q2R_plus, Q2R_mult, Q2R_opp.
    assert (H2 : Q2R 2 = 2) by (unfold Q2R; simpl; lra). rewrite H2.
    split.
    + intros H. split; [exact HDR|]. lra.
    + intros [_ H]. lra.
Qed.


(** *** The segment test over the real numbers *)

Lemma Rabs_square (r : R) : Rabs r * Rabs r = r * r.
Proof. unfold Rabs. destruct (Rcase_abs r); ring. Qed.

(** The squared distance from the point at parameter [t] to the centre,
    less the squared radius, is the quadratic [a t^2 + b t + c]. *)
Lemma pointR_quadratic (center : Vector3R) (radius : R)
    (start finish : Vector3R) (t : R) :
  let d := subR finish start in
  let f := subR start center in
  dotR (subR (addScaledR start d t) center) (subR (addScaledR start d t) center)
  - radius * radius
  = dotR d d * t * t + 2 * dotR f d * t + (dotR f f - radius * radius).
Proof. unfold dotR, subR, addScaledR. simpl. ring. Qed.

(** The point at parameter [t] is in the closed ball. *)
Lemma pointR_in_ball (center : Vector3R) (radius : R)
    (start finish : Vector3R) (t : R) :
  let d := subR finish start in
  let f := subR start center in
  distanceToR (addScaledR start d t) center <= Rabs radius
  <-> dotR d d * t * t + 2 * dotR f d * t + (dotR f f - radius * radius) <= 0.
Proof.
  cbv zeta. unfold distanceToR, lengthR.
  rewrite sqrt_le_iff by apply dotR_self_nonneg.
  rewrite Rabs_square.
  pose proof (pointR_quadratic center radius start finish t) as H.
  cbv zeta in H. pose proof (Rabs_pos radius). split.
  - intros [_ Hd]. lra.
  - intros Hq. split; [assumption|lra].
Qed.

(** The test on the two roots of [a t^2 + b t + c], for [0 < a]: some
    [t] of the unit interval makes the quadratic non-positive. *)
Lemma rootsR_test (a b c : R) :
  0 < a ->
  let discriminant := b * b - 4 * a * c in
  let root := sqrt discriminant in
  let t1 := (- b - root) / (2 * a) in
  let t2 := (- b + root) / (2 * a) in
  (~ discriminant < 0 /\
   ((t1 >= 0 /\ t1 <= 1) \/ (t2 >= 0 /\ t2 <= 1) \/ (t1 < 0 /\ t2 > 1)))
  <-> exists t, 0 <= t <= 1 /\ a * t * t + b * t + c <= 0.
Proof.
  intros Ha. cbv zeta.
  set (D := b * b - 4 * a * c).
  destruct (quotient_sign (- b - sqrt D) a Ha) as (G1 & L1 & N1 & _).
  destruct (quotient_sign (- b + sqrt D) a Ha) as (G2 & L2 & _ & M2).
  rewrite G1, L1, N1, G2, L2, M2.
  assert (Hq : forall t, 4 * a * (a * t * t + b * t + c)
                         = (2 * a * t + b) * (2 * a * t + b) - D)
    by (intros t; unfold D; ring).
  split.
  - intros [HD Hroots].
    assert (HD0 : 0 <= D) by lra.
    pose proof (sqrt_pos D) as Hs0.
    pose proof (sqrt_sqrt D HD0) as Hs.
    set (s := sqrt D) in *.
    destruct Hroots as [[H1 H2]|[[H1 H2]|[H1 H2]]].
    + exists ((- b - s) / (2 * a)).
      assert (Ht : 2 * a * ((- b - s) / (2 * a)) = - b - s) by (field; lra).
      set (t := (- b - s) / (2 * a)) in *.
      split; [split; nra|].
      pose proof (Hq t) as Hqt.
      assert (E : (2 * a * t + b) * (2 * a * t + b) = D)
        by (rewrite Ht; rewrite <- Hs; ring).
      nra.
    + exists ((- b + s) / (2 * a)).
      assert (Ht : 2 * a * ((- b + s) / (2 * a)) = - b + s) by (field; lra).
      set (t := (- b + s) / (2 * a)) in *.
      split; [split; nra|].
      pose proof (Hq t) as Hqt.
      assert (E : (2 * a * t + b) * (2 * a * t + b) = D)
        by (rewrite Ht; rewrite <- Hs; ring).
      nra.
    + exists 0. split; [lra|].
      assert (E : (s - b) * (s + b) = - (4 * a * c))
        by (replace ((s - b) * (s + b)) with (s * s - b * b) by ring;
            rewrite Hs; unfold D; ring).
      assert (0 < (s - b) * (s + b)) by (apply Rmult_lt_0_compat; lra).
      nra.
  - intros (t & [Ht0 Ht1] & Hqt).
    pose proof (Hq t) as E.
    set (q := a * t * t + b * t + c) in *.
    set (u := 2 * a * t + b) in *.
    assert (Hsq : 0 <= u * u) by apply Rle_0_sqr.
    assert (Haq : a * q <= 0) by (clearbody q; nra).
    assert (HD0 : 0 <= D) by (clearbody q u D; lra).
    pose proof (sqrt_pos D) as Hs0.
    pose proof (sqrt_sqrt D HD0) as Hs.
    set (s := sqrt D) in *.
    assert (Hle : u * u <= s * s) by (clearbody q u D s; lra).
    assert (Hup : u <= s) by (clearbody q u D s; nra).
    assert (Hlow : - s <= u) by (clearbody q u D s; nra).
    assert (Hu : u = 2 * a * t + b) by reflexivity.
    clearbody q u D s.
    split; [lra|].
    destruct (Rle_lt_dec 0 (- b - s)) as [H1|H1].
    + left. split; [lra|nra].
    + destruct (Rle_lt_dec (- b + s) (2 * a)) as [H2|H2].
      * right; left. split; [nra|lra].
      * right; right. split; lra.
Qed.

(** A segment that is not reduced to a point meets the closed ball of
    the cloud exactly when the literal reading of [intersectsLine]
    holds. *)
Lemma intersectsLineR_segment (center : Vector3R) (radius : R)
    (start finish : Vector3R) :
  0 < dotR (subR finish start) (subR finish start) ->
  intersectsLineR center radius start finish
  <-> exists t, 0 <= t <= 1 /\
        distanceToR (addScaledR start (subR finish start) t) center
        <= Rabs radius.
Proof.
  intros Ha. unfold intersectsLineR. cbv zeta.
  rewrite (rootsR_test _ (2 * dotR (subR start center) (subR finish start))
             (dotR (subR start center) (subR start center) - radius * radius) Ha).
  split; intros (t & Ht & H); exists t; (split; [exact Ht|]).
  - apply pointR_in_ball. exact H.
  - apply (proj1 (pointR_in_ball center radius start finish t)). exact H.
Qed.

(** The rational tests of the manager against their literal reading. *)
Lemma isStarInDustCloud_real (nm : NetworkManager) (star : nat) :
  Manager.isStarInDustCloud nm star = true <-> isStarInDustCloudR nm star.
Proof.
  rewrite isStarInDustCloud_spec. unfold isStarInDustCloudR.
  split; intros (cloud & Hin & H); exists cloud; (split; [exact Hin|]).
  - apply distance_lt_real. exact H.
  - apply distance_lt_real in H. exact H.
Qed.

Lemma isBlockedByDust_real (nm : NetworkManager) (pointA pointB : Vector3) :
  Manager.isBlockedByDust nm pointA pointB = true
  <-> isBlockedByDustR nm pointA pointB.
Proof.
  rewrite isBlockedByDust_spec. unfold isBlockedByDustR.
  split; intros (cloud & Hin & H); exists cloud; (split; [exact Hin|]).
  - apply cloudBlocks_real. exact H.
  - apply cloudBlocks_real in H. exact H.
Qed.

(** X3: read over the real numbers (exact arithmetic and square root),
    [intersectsLine(start, end)] between two different points holds
    exactly when some point [start + t * (end - start)] of the segment,
    [0 <= t <= 1], lies at distance at most [|radius|] from the centre
    of the cloud: the test is that of the segment against the closed
    ball, and a segment that only touches the ball, or lies wholly
    inside it, counts. *)
Theorem intersectsLine_iff_segment_meets_ball (center : Vector3R) (radius : R)
    (start finish : Vector3R)
    (Hlength : 0 < dotR (subR finish start) (subR finish start)) :
  intersectsLineR center radius start finish
  <-> exists t, 0 <= t <= 1 /\
        distanceToR (addScaledR start (subR finish start) t) center
        <= Rabs radius.
Proof. exact (intersectsLineR_segment center radius start finish Hlength). Qed.

Lemma intersectsLine_iff_segment_meets_ball_witness :
  intersectsLineR (V3R 5 5 0) 5 (V3R 0 0 0) (V3R 10 0 0)
  <-> exists t, 0 <= t <= 1 /\
        distanceToR (addScaledR (V3R 0 0 0) (subR (V3R 10 0 0) (V3R 0 0 0)) t)
                    (V3R 5 5 0)
        <= Rabs 5.
Proof.
  apply (intersectsLine_iff_segment_meets_ball (V3R 5 5 0) 5 (V3R 0 0 0)
           (V3R 10 0 0)).
  unfold dotR, subR. simpl. lra.
Defined.

(** X4: read over the real numbers, the dust tests of
    [createConnection] are subsumed by [intersectsLine]: when a pair of
    stars at different positions is stopped by dust (the literal
    reading of [isStarInDustCloud] holds for one of them, or that of
    [isBlockedByDust] between them), the literal reading of
    [intersectsLine] between the two positions holds for a cloud of the
    manager. *)
Theorem dust_refusal_implies_intersectsLine (nm : NetworkManager)
    (starA starB : nat)
    (Hapart : (0 < Vec.distanceToSquared (position (Manager.deref nm starB))
                                         (position (Manager.deref nm starA)))%Q)
    (Hdust : isStarInDustCloudR nm starA \/ isStarInDustCloudR nm starB \/
             isBlockedByDustR nm (position (Manager.deref nm starA))
                                 (position (Manager.deref nm starB))) :
  exists cloud,
    cloud ∈ dustClouds nm /\
    intersectsLineR (toReal (cloud_position cloud)) (Q2R (cloud_radius cloud))
                    (toReal (position (Manager.deref nm starA)))
                    (toReal (position (Manager.deref nm starB))).
Proof.
  assert (H : exists cloud,
             cloud ∈ dustClouds nm /\
             (SegmentSpec.insideCloud (position (Manager.deref nm starA)) cloud = true \/
              SegmentSpec.insideCloud (position (Manager.deref nm starB)) cloud = true \/
              Manager.cloudBlocks (position (Manager.deref nm starA))
                                  (position (Manager.deref nm starB)) cloud = true)).
  { destruct Hdust as [Hd|[Hd|Hd]].
    - apply isStarInDustCloud_real, isStarInDustCloud_spec in Hd
        as (cloud & Hin & Hc).
      exists cloud. split; [exact Hin|]. left. exact Hc.
    - apply isStarInDustCloud_real, isStarInDustCloud_spec in Hd
        as (cloud & Hin & Hc).
      exists cloud. split; [exact Hin|]. right; left. exact Hc.
    - apply isBlockedByDust_real, isBlockedByDust_spec in Hd
        as (cloud & Hin & Hc).
      exists cloud. split; [exact Hin|]. right; right. exact Hc. }
  destruct H as (cloud & Hin & Hc). exists cloud. split; [exact Hin|].
  apply (intersectsLine_real cloud _ _ Hapart).
  apply dust_tests_intersectsLine; [exact Hapart|exact Hc].
Qed.

Lemma dust_refusal_implies_intersectsLine_witness :
  let nm := Scenario.twoActiveStars [Scenario.cloudBetween] in
  exists cloud,
    cloud ∈ dustClouds nm /\
    intersectsLineR (toReal (cloud_position cloud)) (Q2R (cloud_radius cloud))
                    (toReal (position (Manager.deref nm 0%nat)))
                    (toReal (position (Manager.deref nm 1%nat))).
Proof.
  intros nm.
  apply (dust_refusal_implies_intersectsLine nm 0%nat 1%nat).
  - reflexivity.
  - right; right. apply isBlockedByDust_real. reflexivity.
Defined.

(** X5: read over the real numbers, [intersectsRay] agrees with
    [intersectsLine] on the segment it looks along: for a direction that
    is not zero and a positive [maxDistance], a cloud for which the
    literal reading of [intersectsRay(rayOrigin, rayDirection,
    maxDistance)] holds also satisfies that of [intersectsLine] from
    [rayOrigin] to [rayOrigin + rayDirection * maxDistance]. *)
Theorem intersectsRay_implies_intersectsLine (center : Vector3R) (radius : R)
    (rayOrigin rayDirection : Vector3R) (maxDistance : R)
    (Hdistance : 0 < maxDistance)
    (Hdirection : 0 < dotR rayDirection rayDirection)
    (Hray : intersectsRayR center radius rayOrigin rayDirection maxDistance) :
  intersectsLineR center radius rayOrigin
    (addScaledR rayOrigin rayDirection maxDistance).
Proof.
  unfold intersectsRayR in Hray. cbv zeta in Hray.
  destruct Hray as (Hneg & Hbeyond & Hd).
  set (projection := dotR (subR center rayOrigin) rayDirection) in *.
  apply intersectsLineR_segment.
  - replace (dotR (subR (addScaledR rayOrigin rayDirection maxDistance) rayOrigin)
                  (subR (addScaledR rayOrigin rayDirection maxDistance) rayOrigin))
      with (maxDistance * maxDistance * dotR rayDirection rayDirection)
      by (unfold dotR, subR, addScaledR; simpl; ring).
    apply Rmult_lt_0_compat; [|exact Hdirection].
    now apply Rmult_lt_0_compat.
  - exists (projection / maxDistance).
    assert (Ht : projection / maxDistance * maxDistance = projection)
      by (field; lra).
    assert (Hinv : 0 < / maxDistance) by now apply Rinv_0_lt_compat.
    split.
    + unfold Rdiv. split; [nra|].
      assert (projection <= maxDistance) by lra.
      unfold Rdiv in Ht. nra.
    + replace (addScaledR rayOrigin
                 (subR (addScaledR rayOrigin rayDirection maxDistance) rayOrigin)
                 (projection / maxDistance))
        with (addScaledR rayOrigin rayDirection projection).
      * pose proof (Rle_abs radius). lra.
      * unfold addScaledR, subR. simpl. f_equal; field; lra.
Qed.

Lemma intersectsRay_implies_intersectsLine_witness :
  intersectsLineR (V3R 5 0 0) 1 (V3R 0 0 0)
    (addScaledR (V3R 0 0 0) (V3R 1 0 0) 10).
Proof.
  apply (intersectsRay_implies_intersectsLine (V3R 5 0 0) 1 (V3R 0 0 0)
           (V3R 1 0 0) 10).
  - lra.
  - unfold dotR. simpl. lra.
  - unfold intersectsRayR. cbv zeta.
    split; [unfold dotR, subR; simpl; lra|].
    split; [unfold dotR, subR; simpl; lra|].
    unfold distanceToR, lengthR.
    rewrite sqrt_le_iff by apply dotR_self_nonneg.
    split; [lra|]. unfold dotR, subR, addScaledR. simpl. lra.
Defined.

Lemma galaxyByNumber_nat (nm : NetworkManager) (n : nat) :
  Dust.galaxyByNumber nm (inject_Z (Z.of_nat n)) = lastGalaxies nm !! n.
Proof.
  unfold Dust.galaxyByNumber.
  rewrite Number_isInteger_inject_Z, Qfloor_inject_Z.
  unfold Manager.galaxyAt.
  destruct (Z.of_nat n <? 0)%Z eqn:H; [apply Z.ltb_lt in H; lia|].
  now rewrite Nat2Z.id.
Qed.

Lemma clamp01_nonneg (t : Q) : (0 <= Qmax 0 (Qmin 1 t))%Q.
Proof. apply Qmax_lower. Qed.

(** X6: the point that [getArmPosition] returns for the galaxy of index
    [n] lies at the height of the galaxy centre and, in the plane, on the
    circle of radius [clamp(t, 0, 1) * radius] around it (for a galaxy of
    positive radius with a non-zero number of arms, the two divisors of
    the method). *)
Theorem getArmPosition_on_circle (nm : NetworkManager) (n : nat)
    (g : GalaxyRecord) (armIndex t : Q) :
  lastGalaxies nm !! n = Some g ->
  (0 < lg_radius g)%Q ->
  ~ (lg_arms g == 0)%Q ->
  exists p,
    getArmPosition nm (inject_Z (Z.of_nat n)) armIndex t = Some p /\
    ry p = Q2R (vy (lg_center g)) /\
    sqrt ((rx p - Q2R (vx (lg_center g))) * (rx p - Q2R (vx (lg_center g)))
          + (rz p - Q2R (vz (lg_center g))) * (rz p - Q2R (vz (lg_center g))))
    = Q2R (Qmax 0 (Qmin 1 t) * lg_radius g).
Proof.
  intros Hg Hradius Harms.
  unfold getArmPosition. rewrite galaxyByNumber_nat, Hg. cbv zeta.
  eexists. split; [reflexivity|]. split; [reflexivity|]. cbn [rx rz].
  set (r := Q2R (Qmax 0 (Qmin 1 t) * lg_radius g)).
  set (angle := _ + _ * (r / _)).
  assert (Hr : 0 <= r).
  { unfold r. rewrite <- Q2R_zero. apply Qle_Rle.
    apply Qmult_le_0_compat; [apply clamp01_nonneg|now apply Qlt_le_weak]. }
  replace ((Q2R (vx (lg_center g)) + cos angle * r - sin angle * 0
            - Q2R (vx (lg_center g)))
           * (Q2R (vx (lg_center g)) + cos angle * r - sin angle * 0
              - Q2R (vx (lg_center g)))
           + (Q2R (vz (lg_center g)) + sin angle * r + cos angle * 0
              - Q2R (vz (lg_center g)))
             * (Q2R (vz (lg_center g)) + sin angle * r + cos angle * 0
                - Q2R (vz (lg_center g))))
    with (r * r * (Rsqr (sin angle) + Rsqr (cos angle)))
    by (unfold Rsqr; ring).
  rewrite sin2_cos2, Rmult_1_r. now apply sqrt_square.
Qed.

Lemma getArmPosition_on_circle_witness :
  exists p,
    getArmPosition Scenario.lateGalaxy (inject_Z (Z.of_nat 0)) 0 (65 # 100)
    = Some p /\
    ry p = Q2R (-120) /\
    sqrt ((rx p - Q2R (-450)) * (rx p - Q2R (-450))
          + (rz p - Q2R (-150)) * (rz p - Q2R (-150)))
    = Q2R (Qmax 0 (Qmin 1 (65 # 100)) * 200).
Proof.
  apply (getArmPosition_on_circle Scenario.lateGalaxy 0
           {| lg_center := V3 (-450) (-120) (-150); lg_radius := 200;
              lg_arms := 3; lg_count := Qmin 15000 50000;
              lg_config := Some Scenario.galaxy0 |} 0 (65 # 100)).
  - reflexivity.
  - reflexivity.
  - discriminate.
Defined.

End RealMethodsFacts.

(** ** One tick, star by star *)

Section StarFrame.
Import Entities Manager.
Variable E : Oracle.

(** What [Star.update] leaves alone, and when it raises the supernova
    flag. *)
Lemma Star_update_frame S deltaTime st w st' w' :
  Star_update E S deltaTime st w = Ok st' w' ->
  (age st' = age st + deltaTime)%Q /\ lifetime st' = lifetime st /\
  position st' = position st /\
  (isGoingSupernova st' = true ->
   isGoingSupernova st = true \/ Qgeb (age st + deltaTime) (lifetime st) = true).
Proof.
  unfold Star_update. unfold_world. cbv zeta.
  destruct st as [pos ctr col [op sc cl li] a l dormant active atime et ei em life nova obs].
  unfold set_age.
  cbn [position galaxyCenter baseColor mesh age lifetime hasDormantPlanet
       isActive activationTime emissionTimer emissionInterval isEmitting
       canSupportLife isGoingSupernova isObscured].
  intros H.
  destruct active, dormant, life, li, nova; cbn [negb andb] in H;
    split_ifs_in H; injection H as <- _;
    cbn [activate deactivate addLight removeLight set_isActive
         set_activationTime set_emissionTimer set_mesh set_scale set_light
         set_colour set_opacity set_isEmitting set_hasDormantPlanet
         set_isGoingSupernova mesh light isActive activationTime
         hasDormantPlanet emissionTimer emissionInterval position
         galaxyCenter age lifetime isGoingSupernova];
    (split; [reflexivity|split; [reflexivity|split; [reflexivity|]]]);
    intros Hn;
    first [ left; reflexivity
          | discriminate Hn
          | right;
            match goal with
            | H : (Qgeb _ _ && true) = true |- _ =>
                rewrite andb_true_r in H; exact H
            end ].
Qed.



Lemma Math_random_nextId n :
  preserves (fun w => nextId w = n) (Math_random E).
Proof. intros w H. exact H. Qed.

Lemma Date_now_nextId n :
  preserves (fun w => nextId w = n) (Date_now_seconds E).
Proof. intros w H. exact H. Qed.

Lemma Star_update_keeps_nextId S deltaTime st n :
  preserves (fun w => nextId w = n) (Star_update E S deltaTime st).
Proof.
  unfold Star_update. cbv zeta.
  repeat first [ apply Math_random_nextId | apply Date_now_nextId
               | preserves_step ].
Qed.

Lemma Star_update_nextId S deltaTime st w st' w' :
  Star_update E S deltaTime st w = Ok st' w' -> nextId w' = nextId w.
Proof.
  intros H.
  pose proof (Star_update_keeps_nextId S deltaTime st (nextId w) w eq_refl) as Hp.
  now rewrite H in Hp.
Qed.

End StarFrame.

Section TickFacts.
Import Entities Manager.
Variable E : Oracle.
Variable G : Geometry.

Lemma consumed_frame st :
  age (consumed st) = age st /\ lifetime (consumed st) = lifetime st /\
  position (consumed st) = position st /\ isActive (consumed st) = isActive st /\
  activationTime (consumed st) = activationTime st /\
  hasDormantPlanet (consumed st) = hasDormantPlanet st /\
  isEmitting (consumed st) = false /\ isGoingSupernova (consumed st) = false.
Proof. destruct st. repeat split. Qed.

Lemma consumed_quiet st :
  isGoingSupernova st = false -> consumed st = set_isEmitting false st.
Proof. destruct st. simpl. intros ->. reflexivity. Qed.

(** One iteration of the first loop of [update]. *)
Lemma updateStar_eq deltaTime star nm st w :
  Star_update E (settings nm) deltaTime (deref nm star) (world nm) = Ok st w ->
  updateStar E deltaTime star nm = Ok tt (afterStarUpdate star st w nm).
Proof.
  intros H. unfold updateStar.
  unfold mbind, M_bind, bind, mret, M_ret, ret, gets, modify, liftW.
  rewrite H. unfold consumeEmission. cbv zeta.
  unfold afterStarUpdate, addWave, mutate.
  cbn [isGoingSupernova set_isEmitting].
  destruct (isEmitting st) eqn:Hem; destruct (isGoingSupernova st) eqn:Hnova;
    cbn [settings world heap stars waves connections dustClouds lastGalaxies
         waveGrid dustGrid starGrid supernovaFlashes set_world set_heap
         set_waves set_supernovaFlashes];
    f_equal; f_equal; rewrite ?app_nil_r; try reflexivity.
  - rewrite alter_alter_eq. reflexivity.
  - now rewrite consumed_quiet.
  - rewrite alter_alter_eq. reflexivity.
  - now rewrite consumed_quiet.
Qed.

Lemma updateStar_returns deltaTime star nm :
  exists st w,
    Star_update E (settings nm) deltaTime (deref nm star) (world nm) = Ok st w /\
    updateStar E deltaTime star nm = Ok tt (afterStarUpdate star st w nm).
Proof.
  destruct (Star_update_returns E (settings nm) deltaTime (deref nm star) (world nm))
    as (st & w & H).
  exists st, w. split; [exact H|]. now apply updateStar_eq.
Qed.

Lemma deref_afterStarUpdate_other star st w nm other :
  other ≠ star -> deref (afterStarUpdate star st w nm) other = deref nm other.
Proof.
  intros Hne. unfold deref, afterStarUpdate, lookup_total, map_lookup_total.
  cbn [heap]. now rewrite lookup_alter_ne.
Qed.

Lemma deref_afterStarUpdate_same star st w nm :
  is_Some (heap nm !! star) ->
  deref (afterStarUpdate star st w nm) star = consumed st.
Proof.
  intros [st0 H]. unfold deref, afterStarUpdate, lookup_total, map_lookup_total.
  cbn [heap]. rewrite lookup_alter_eq, H. reflexivity.
Qed.


Lemma expires_Qgeb deltaTime nm star :
  expires deltaTime nm star
  = Qgeb (age (deref nm star) + deltaTime) (lifetime (deref nm star)).
Proof. unfold expires, Qgeb, Qltb. apply negb_involutive. Qed.

(** The first loop of [update], over distinct references. *)
Lemma updateStars_loop deltaTime l nm :
  NoDup l ->
  exists nm',
    forEach l (updateStar E deltaTime) nm = Ok tt nm' /\
    (settings nm' = settings nm /\ stars nm' = stars nm /\
     connections nm' = connections nm /\ dustClouds nm' = dustClouds nm /\
     lastGalaxies nm' = lastGalaxies nm /\ dustGrid nm' = dustGrid nm /\
     nextId (world nm') = nextId (world nm)) /\
    (forall star, star ∉ l -> heap nm' !! star = heap nm !! star) /\
    (forall star, star ∈ l ->
       exists st w w',
         Star_update E (settings nm) deltaTime (deref nm star) w = Ok st w' /\
         heap nm' !! star = (fun _ => consumed st) <$> heap nm !! star) /\
    (exists new,
       waves nm' = waves nm ++ new /\
       forall wave, wave ∈ new ->
         wave_radius wave = 0%Q /\ wave_isActive wave = true /\
         wave_maxRadius wave = waveMaxRadius (settings nm)) /\
    ((forall star, star ∈ l -> isGoingSupernova (deref nm star) = false) ->
     (supernovaFlashes nm'
      <= supernovaFlashes nm + length (List.filter (expires deltaTime nm) l))%nat).
Proof.
  intros Hnd. revert nm. induction l as [|x l IH]; intros nm.
  - exists nm. split; [reflexivity|]. split; [done|]. split; [done|].
    split; [intros ? H; by apply elem_of_nil in H|]. split.
    + exists []. split; [now rewrite app_nil_r|].
      intros ? H; by apply elem_of_nil in H.
    + intros _. simpl. lia.
  - apply NoDup_cons in Hnd as [Hx Hnd].
    destruct (updateStar_returns deltaTime x nm) as (st & w & HS & Hstep).
    destruct (IH Hnd (afterStarUpdate x st w nm))
      as (nm' & Hrun & Hframe & Hother & Hsame & Hwaves & Hflash).
    exists nm'. split.
    { cbn [forEach]. unfold bind. now rewrite Hstep. }
    cbn [settings stars connections dustClouds lastGalaxies dustGrid world
         afterStarUpdate] in Hframe.
    destruct Hframe as (Hs & Hst & Hc & Hd & Hl & Hg & Hn).
    split.
    { repeat split; try assumption.
      rewrite Hn. apply (Star_update_nextId E _ _ _ _ _ _ HS). }
    split.
    { intros star Hin. rewrite Hother.
      - unfold afterStarUpdate. cbn [heap]. apply lookup_alter_ne.
        intros ->. apply Hin, list_elem_of_here.
      - intros H. apply Hin. now apply list_elem_of_further. }
    split.
    { intros star Hin. apply elem_of_cons in Hin as [->|Hin].
      - exists st, (world nm), w. split; [exact HS|].
        rewrite (Hother x Hx). unfold afterStarUpdate. cbn [heap].
        apply lookup_alter_eq.
      - assert (Hne : star ≠ x) by (intros ->; contradiction).
        destruct (Hsame star Hin) as (st2 & w2 & w2' & HS2 & Hh).
        exists st2, w2, w2'. split.
        + rewrite deref_afterStarUpdate_other in HS2 by done. exact HS2.
        + rewrite Hh. unfold afterStarUpdate. cbn [heap].
          now rewrite lookup_alter_ne. }
    split.
    { destruct Hwaves as (new & Hw & Hnew).
      cbn [waves afterStarUpdate settings] in Hw, Hnew.
      eexists. split; [rewrite Hw, <- app_assoc; reflexivity|].
      intros wave Hin. apply elem_of_app in Hin as [Hin|Hin]; [|now apply Hnew].
      destruct (isEmitting st); [|by apply elem_of_nil in Hin].
      apply list_elem_of_singleton in Hin as ->. done. }
    intros Hquiet.
    assert (Hquiet' : forall star, star ∈ l ->
              isGoingSupernova (deref (afterStarUpdate x st w nm) star) = false).
    { intros star Hin. rewrite deref_afterStarUpdate_other.
      - apply Hquiet. now apply list_elem_of_further.
      - intros ->. contradiction. }
    specialize (Hflash Hquiet').
    assert (Hfilter : List.filter (expires deltaTime (afterStarUpdate x st w nm)) l
                      = List.filter (expires deltaTime nm) l).
    { apply filter_ext_in. intros star Hin. unfold expires.
      rewrite deref_afterStarUpdate_other; [reflexivity|].
      intros ->. apply Hx. now apply list_elem_of_In. }
    rewrite Hfilter in Hflash.
    cbn [supernovaFlashes afterStarUpdate] in Hflash.
    cbn [List.filter].
    destruct (isGoingSupernova st) eqn:Hnova.
    + destruct (Star_update_frame E _ _ _ _ _ _ HS) as (_ & _ & _ & Hfire).
      destruct (Hfire Hnova) as [Hwas|Hend].
      * rewrite Hquiet in Hwas by apply list_elem_of_here. discriminate.
      * rewrite expires_Qgeb, Hend. cbn [length]. lia.
    + destruct (expires deltaTime nm x); cbn [length]; lia.
Qed.


(** *** [Star.nextId] only grows *)

Lemma preserves_liftW_world (P : NetworkManager -> Prop) {A} (m : M World A) :
  (forall nm, P nm -> P (set_world (finalState (m (world nm))) nm)) ->
  preserves P (liftW m).
Proof.
  intros H nm HP. specialize (H nm HP). unfold liftW.
  destruct (m (world nm)); exact H.
Qed.

Lemma newStar_nextId_grows S position center profile n :
  preserves (fun w => (n <= nextId w)%nat) (newStar E S position center profile).
Proof.
  unfold newStar, clone, generateStarColor, M_type, K_type, G_type, F_type,
    A_type, B_type, O_type, spectral. cbv zeta.
  apply preserves_bind.
  { intros w H. cbn [finalState Star_nextId_incr nextId]. lia. }
  intros id.
  repeat first [ apply preserves_bind; [|intros ?]
               | apply preserves_ret | apply preserves_throw
               | (intros w H; exact H)
               | match goal with
                 | |- preserves _ (match ?x with _ => _ end) => destruct x
                 | |- preserves _ (if ?b then _ else _) => destruct b
                 end ].
Qed.

Ltac grows_step :=
  first [ apply preserves_liftW_world; intros ? ?; unfold nextIdFrom in *;
          cbn [world set_world];
          first [ assumption
                | eapply (newStar_nextId_grows _ _ _ _ _ _); eassumption ]
        | preserves_step ].

Lemma createSpiralGalaxy_nextId_grows center count radius arms config n :
  preserves (nextIdFrom n) (createSpiralGalaxy E G center count radius arms config).
Proof.
  unfold createSpiralGalaxy, bulgeStar, armStar, pushNewStar. cbv zeta.
  repeat grows_step; try (unfold nextIdFrom in *; assumption).
Qed.

Lemma starBirth_nextId_grows deltaTime n :
  preserves (nextIdFrom n) (starBirth E G deltaTime).
Proof.
  unfold starBirth. cbv zeta.
  repeat first [ apply createSpiralGalaxy_nextId_grows | grows_step ];
    try (unfold nextIdFrom in *; assumption).
Qed.

Lemma updateStars_returns deltaTime nm :
  NoDup (stars nm) ->
  exists nm1, updateStars E deltaTime nm = Ok tt nm1.
Proof.
  intros Hnd. destruct (updateStars_loop deltaTime (stars nm) nm Hnd) as (nm1 & H & _).
  exists nm1. exact H.
Qed.

(** The two ways a tick ends: the birth branch throws, after the dead
    stars have left the collection; or the tick runs to its end. *)
Lemma update_shape deltaTime nm nm1 :
  updateStars E deltaTime nm = Ok tt nm1 ->
  exists w,
    (nextId (world nm1) <= nextId w)%nat /\
    let nm2 := set_world w (removeDeadStars nm1) in
    update E G deltaTime nm = Throw nm2 \/
    exists w' t,
      nextId w' = nextId w /\
      update E G deltaTime nm
      = Ok tt (tickEnd deltaTime (deadStarsOf nm1) w' t nm2).
Proof.
  intros H.
  destruct (starBirth_only_world E G deltaTime (removeDeadStars nm1)) as [w Hw].
  exists w. split.
  { pose proof (starBirth_nextId_grows deltaTime (nextId (world nm1))
                  (removeDeadStars nm1)) as Hg.
    unfold nextIdFrom in Hg. rewrite Hw in Hg. apply Hg. reflexivity. }
  cbv zeta.
  unfold update, mbind, M_bind, bind, gets, modify. rewrite H.
  destruct (starBirth E G deltaTime (removeDeadStars nm1)) as [[] nm3|nm3];
    cbn [finalState] in Hw; subst nm3.
  - right.
    exists {| rngPos := rngPos w; clockPos := S (clockPos w); nextId := nextId w |},
           (now E (clockPos w)).
    split; [reflexivity|].
    unfold tickEnd, handshake, liftW, Date_now_seconds, mbind, M_bind, bind, modify.
    reflexivity.
  - left. reflexivity.
Qed.


Lemma sameLife_refl st : sameLife st st.
Proof. repeat split. Qed.

Lemma sameLife_trans st1 st2 st3 :
  sameLife st1 st2 -> sameLife st2 st3 -> sameLife st1 st3.
Proof.
  unfold sameLife. intros (?&?&?&?&?&?&?&?) (?&?&?&?&?&?&?&?).
  repeat split; congruence.
Qed.

Lemma applyDustObscuration_sameLife s inside behind st :
  sameLife st (applyDustObscuration s inside behind st).
Proof.
  unfold applyDustObscuration, setLightIntensity, sameLife. cbv zeta.
  destruct st as [pos ctr col [op sc cl li] a l dormant active atime et ei em life nova obs].
  cbn [isObscured mesh light isActive].
  destruct (Bool.eqb _ obs); [done|].
  destruct behind, inside, active, li; done.
Qed.

(** The obscuration loop only writes to the heap, and only to the looks
    of the stars. *)
Lemma dustObscuration_heap nm :
  dustObscuration nm = set_heap (heap (dustObscuration nm)) nm /\
  forall star,
    sameLife (deref nm star) (deref (dustObscuration nm) star) /\
    (is_Some (heap (dustObscuration nm) !! star) <-> is_Some (heap nm !! star)).
Proof.
  unfold dustObscuration.
  assert (Hgen : forall l cur,
    cur = set_heap (heap cur) nm ->
    (forall star, sameLife (deref nm star) (deref cur star) /\
                  (is_Some (heap cur !! star) <-> is_Some (heap nm !! star))) ->
    let final := fold_left obscureStar l cur in
    final = set_heap (heap final) nm /\
    forall star, sameLife (deref nm star) (deref final star) /\
                 (is_Some (heap final !! star) <-> is_Some (heap nm !! star))).
  { induction l as [|x l IH]; intros cur Hcur Hlife; cbv zeta; [done|].
    cbn [fold_left]. apply IH.
    - unfold obscureStar, mutate.
      set (h := alter _ _ _). clearbody h. rewrite Hcur. reflexivity.
    - intros star. destruct (Hlife star) as [Hl Hd].
      unfold obscureStar, mutate, deref, lookup_total, map_lookup_total.
      cbn [heap set_heap]. rewrite lookup_alter.
      destruct (decide (x = star)) as [->|Hne]; [|done].
      split.
      + unfold deref, lookup_total, map_lookup_total in Hl.
        destruct (heap cur !! star) as [st|]; [|exact Hl]. cbn [fmap option_fmap option_map default].
        eapply sameLife_trans; [exact Hl|apply applyDustObscuration_sameLife].
      + rewrite <- Hd. apply fmap_is_Some. }
  destruct (Hgen (stars nm) nm) as [H1 H2].
  - now destruct nm.
  - intros star. split; [apply sameLife_refl|done].
  - split; [exact H1|exact H2].
Qed.

Lemma handshakeAt_connections t nm :
  handshakeAt t nm = set_connections (connections (handshakeAt t nm)) nm.
Proof. rewrite handshakeAt_fold at 1. now rewrite handshakeAt_fold. Qed.

(** What the end of a tick leaves alone. *)
Lemma tickEnd_frame deltaTime dead w t nm :
  let nm' := tickEnd deltaTime dead w t nm in
  settings nm' = settings nm /\ stars nm' = stars nm /\
  dustClouds nm' = dustClouds nm /\ dustGrid nm' = dustGrid nm /\
  lastGalaxies nm' = lastGalaxies nm /\
  supernovaFlashes nm' = supernovaFlashes nm /\
  waves nm' = spliceBackward wave_isActive
                (map (RadioWave_update deltaTime) (waves nm)) /\
  world nm' = w /\
  forall star,
    sameLife (deref nm star) (deref nm' star) /\
    (is_Some (heap nm' !! star) <-> is_Some (heap nm !! star)).
Proof.
  cbv zeta. unfold tickEnd.
  set (nm3 := set_world w _).
  destruct (dustObscuration_heap (handshakeAt t nm3)) as [Hd Hlife].
  pose proof (handshakeAt_connections t nm3) as Hh.
  set (nm4 := handshakeAt t nm3) in *.
  assert (Hheap : heap nm4 = heap nm) by (rewrite Hh; reflexivity).
  split; [rewrite Hd, Hh; reflexivity|].
  split; [rewrite Hd, Hh; reflexivity|].
  split; [rewrite Hd, Hh; reflexivity|].
  split; [rewrite Hd, Hh; reflexivity|].
  split; [rewrite Hd, Hh; reflexivity|].
  split; [rewrite Hd, Hh; reflexivity|].
  split; [rewrite Hd, Hh; reflexivity|].
  split; [rewrite Hd, Hh; reflexivity|].
  intros star. destruct (Hlife star) as [Hl Hs].
  unfold deref in Hl at 1. rewrite Hheap in Hl, Hs. split; [exact Hl|exact Hs].
Qed.


Lemma updateStars_forEach deltaTime nm :
  updateStars E deltaTime nm = forEach (stars nm) (updateStar E deltaTime) nm.
Proof. reflexivity. Qed.

(** The state a tick ends in, returned or thrown, against the state
    [nm2] in which the dead stars have just left the collection. *)
Lemma update_final deltaTime nm nm1 :
  updateStars E deltaTime nm = Ok tt nm1 ->
  let nm' := finalState (update E G deltaTime nm) in
  settings nm' = settings nm1 /\
  stars nm' = spliceBackward (fun star => isAlive (deref nm1 star)) (stars nm1) /\
  dustClouds nm' = dustClouds nm1 /\ dustGrid nm' = dustGrid nm1 /\
  lastGalaxies nm' = lastGalaxies nm1 /\
  supernovaFlashes nm' = supernovaFlashes nm1 /\
  (waves nm' = waves nm1 \/
   waves nm' = spliceBackward wave_isActive
                 (map (RadioWave_update deltaTime) (waves nm1))) /\
  (nextId (world nm1) <= nextId (world nm'))%nat /\
  forall star,
    sameLife (deref nm1 star) (deref nm' star) /\
    (is_Some (heap nm' !! star) <-> is_Some (heap nm1 !! star)).
Proof.
  intros H. cbv zeta.
  destruct (update_shape deltaTime nm nm1 H) as (w & Hw & Hshape).
  cbv zeta in Hshape.
  destruct Hshape as [->|(w' & t & Hw' & ->)]; cbn [finalState].
  - repeat split; try reflexivity; try (intros Hs; exact Hs).
    + left. reflexivity.
    + exact Hw.
  - destruct (tickEnd_frame deltaTime (deadStarsOf nm1) w' t
                (set_world w (removeDeadStars nm1)))
      as (Hs & Hst & Hd & Hg & Hl & Hf & Hwv & Hwd & Hlife).
    rewrite Hs, Hst, Hd, Hg, Hl, Hf, Hwv, Hwd.
    repeat split; try reflexivity; try apply Hlife.
    + right. reflexivity.
    + rewrite Hw'. exact Hw.
Qed.

Lemma isAlive_expires deltaTime nm nm1 star st w w' :
  Star_update E (settings nm) deltaTime (deref nm star) w = Ok st w' ->
  heap nm1 !! star = (fun _ => consumed st) <$> heap nm !! star ->
  is_Some (heap nm !! star) ->
  deref nm1 star = consumed st /\
  isAlive (deref nm1 star) = negb (expires deltaTime nm star).
Proof.
  intros HS Hh [st0 H0].
  assert (Hd : deref nm1 star = consumed st).
  { unfold deref, lookup_total, map_lookup_total. rewrite Hh, H0. reflexivity. }
  split; [exact Hd|].
  destruct (Star_update_frame E _ _ _ _ _ _ HS) as (Ha & Hl & _).
  destruct (consumed_frame st) as (Ha' & Hl' & _).
  unfold isAlive, expires. rewrite Hd, Ha', Hl', Ha, Hl.
  now rewrite negb_involutive.
Qed.

(** One tick, seen from the collection of stars. *)
Lemma tick_survivors deltaTime nm :
  starsValid nm ->
  let nm' := finalState (update E G deltaTime nm) in
  stars nm'
  = List.filter (fun star => negb (expires deltaTime nm star)) (stars nm) /\
  (forall star, star ∈ stars nm ->
     exists st w w',
       Star_update E (settings nm) deltaTime (deref nm star) w = Ok st w' /\
       sameLife (consumed st) (deref nm' star)) /\
  (settings nm' = settings nm /\ dustClouds nm' = dustClouds nm /\
   dustGrid nm' = dustGrid nm /\ lastGalaxies nm' = lastGalaxies nm) /\
  ((forall star, star ∈ stars nm -> isGoingSupernova (deref nm star) = false) ->
   (supernovaFlashes nm'
    <= supernovaFlashes nm
       + length (List.filter (expires deltaTime nm) (stars nm)))%nat).
Proof.
  intros [Hnd Hvalid]. cbv zeta.
  destruct (updateStars_loop deltaTime (stars nm) nm Hnd)
    as (nm1 & Hrun & Hframe & _ & Hsame & _ & Hflash).
  destruct Hframe as (Hs & Hst & _ & Hd & Hl & Hg & _).
  rewrite <- updateStars_forEach in Hrun.
  destruct (update_final deltaTime nm nm1 Hrun)
    as (Fs & Fst & Fd & Fg & Fl & Ff & _ & _ & Flife).
  split.
  { rewrite Fst, Hst, spliceBackward_filter. apply filter_ext_in.
    intros star Hin. apply list_elem_of_In in Hin.
    destruct (Hsame star Hin) as (st & w & w' & HS & Hh).
    now destruct (isAlive_expires _ _ _ _ _ _ _ HS Hh (Hvalid star Hin)). }
  split.
  { intros star Hin.
    destruct (Hsame star Hin) as (st & w & w' & HS & Hh).
    exists st, w, w'. split; [exact HS|].
    destruct (isAlive_expires _ _ _ _ _ _ _ HS Hh (Hvalid star Hin)) as [<- _].
    apply Flife. }
  split.
  { rewrite Fs, Fd, Fg, Fl. done. }
  intros Hquiet. rewrite Ff. now apply Hflash.
Qed.

End TickFacts.

(** ** Dust generation *)

Section DustFacts.
Import Entities Manager Dust.
Variable E : Oracle.
Variable D : DustGeometry.
Variable o : OtherSettings.
Local Open Scope Q_scope.

Lemma afterDraws_0 w : afterDraws 0 w = w.
Proof. destruct w. unfold afterDraws. cbn. f_equal. lia. Qed.

Lemma afterDraws_add j k w : afterDraws k (afterDraws j w) = afterDraws (j + k) w.
Proof. unfold afterDraws. cbn. f_equal. lia. Qed.

Lemma random_afterDraws w :
  Math_random E w = Ok (random E (rngPos w)) (afterDraws 1 w).
Proof. unfold Math_random, afterDraws. do 2 f_equal. lia. Qed.

Lemma draws_run {A} (l : list A) w :
  forEach l (fun _ => _ ← Math_random E; mret tt) w
  = Ok tt (afterDraws (length l) w).
Proof.
  revert w. induction l as [|x l IH]; intros w.
  - cbn. unfold ret. now rewrite afterDraws_0.
  - cbn [forEach length]. unfold bind at 1.
    unfold mbind, M_bind, bind at 1. rewrite random_afterDraws.
    unfold mret, M_ret, ret. rewrite IH, afterDraws_add. reflexivity.
Qed.

(** The constructor of a dust cloud returns the cloud it is asked for. *)
Lemma newDustCloud_eq position radius w :
  newDustCloud E D position radius w
  = Ok {| cloud_position := position; cloud_radius := radius |}
       (afterDraws (sphereVertexCount D) w).
Proof.
  unfold newDustCloud. unfold mbind, M_bind, bind.
  rewrite draws_run, length_seq. reflexivity.
Qed.

Lemma set_world_set_world w w' nm :
  set_world w' (set_world w nm) = set_world w' nm.
Proof. reflexivity. Qed.

Lemma placeDustCloud_set_world cloud w nm :
  placeDustCloud cloud (set_world w nm) = set_world w (placeDustCloud cloud nm).
Proof. reflexivity. Qed.

Lemma placeAll_set_world new w nm :
  placeAll new (set_world w nm) = set_world w (placeAll new nm).
Proof.
  unfold placeAll. revert nm. induction new as [|c new IH]; intros nm; [reflexivity|].
  cbn [fold_left]. rewrite placeDustCloud_set_world. apply IH.
Qed.

Lemma placeAll_app new1 new2 nm :
  placeAll (new1 ++ new2) nm = placeAll new2 (placeAll new1 nm).
Proof. unfold placeAll. apply fold_left_app. Qed.

(** What placing clouds leaves alone, and what it adds. *)
Lemma placeAll_frame new nm :
  settings (placeAll new nm) = settings nm /\
  world (placeAll new nm) = world nm /\
  heap (placeAll new nm) = heap nm /\
  stars (placeAll new nm) = stars nm /\
  waves (placeAll new nm) = waves nm /\
  connections (placeAll new nm) = connections nm /\
  lastGalaxies (placeAll new nm) = lastGalaxies nm /\
  waveGrid (placeAll new nm) = waveGrid nm /\
  starGrid (placeAll new nm) = starGrid nm /\
  supernovaFlashes (placeAll new nm) = supernovaFlashes nm /\
  dustClouds (placeAll new nm) = dustClouds nm ++ new /\
  dustGrid (placeAll new nm)
  = SpatialGrid.insertAll (map (fun c => (cloud_position c, c)) new) (dustGrid nm).
Proof.
  unfold placeAll. revert nm. induction new as [|c new IH]; intros nm.
  - cbn. rewrite app_nil_r. repeat split.
  - cbn [fold_left map]. 
    destruct (IH (placeDustCloud c nm))
      as (H1 & H2 & H3 & H4 & H5 & H6 & H7 & H8 & H9 & H10 & H11 & H12).
    rewrite H1, H2, H3, H4, H5, H6, H7, H8, H9, H10, H11, H12.
    repeat split. cbn. now rewrite <- app_assoc.
Qed.

Lemma world_afterDraws_world k j w nm :
  afterDraws k (world (set_world (afterDraws j w) nm)) = afterDraws (j + k) w.
Proof. cbn [world set_world]. apply afterDraws_add. Qed.

Lemma placesClouds_ret P : placesClouds P 0 (mret tt).
Proof.
  intros nm. exists [], 0%nat. split; [|split; [reflexivity|constructor]].
  unfold mret, M_ret, ret, placeAll. cbn [fold_left].
  rewrite afterDraws_0. now destruct nm.
Qed.

Lemma placesClouds_bind P n1 n2 (m : M NetworkManager unit)
    (k : unit -> M NetworkManager unit) :
  placesClouds P n1 m -> placesClouds P n2 (k tt) ->
  placesClouds P (n1 + n2)%nat (m ≫= k).
Proof.
  intros Hm Hk nm.
  destruct (Hm nm) as (new1 & k1 & Hr1 & Hl1 & HP1).
  set (nm1 := placeAll new1 (set_world (afterDraws k1 (world nm)) nm)) in *.
  destruct (Hk nm1) as (new2 & k2 & Hr2 & Hl2 & HP2).
  exists (new1 ++ new2), (k1 + k2)%nat. split; [|split].
  - unfold mbind, M_bind, bind. rewrite Hr1, Hr2. f_equal.
    rewrite placeAll_app. fold nm1. f_equal.
    unfold nm1. rewrite !placeAll_set_world. cbn [world set_world].
    now rewrite afterDraws_add.
  - rewrite length_app. lia.
  - apply Forall_app. split; [exact HP1|].
    unfold nm1 in HP2. rewrite placeAll_set_world in HP2.
    destruct (placeAll_frame new1 nm) as (Hs & _).
    cbn [settings set_world] in HP2. now rewrite Hs in HP2.
Qed.

Lemma placesClouds_forEach {A} P (f : A -> nat) (l : list A)
    (body : A -> M NetworkManager unit) :
  (forall x, x ∈ l -> placesClouds P (f x) (body x)) ->
  placesClouds P (sum_list_with f l) (forEach l body).
Proof.
  induction l as [|x l IH]; intros Hb.
  - apply placesClouds_ret.
  - cbn [forEach sum_list_with].
    apply (placesClouds_bind P (f x) (sum_list_with f l) (body x)
             (fun _ => forEach l body)).
    + apply Hb. now left.
    + apply IH. intros y Hy. apply Hb. now right.
Qed.

Lemma sum_list_with_const {A} (n : nat) (l : list A) :
  sum_list_with (fun _ => n) l = (length l * n)%nat.
Proof. induction l as [|x l IH]; cbn; [reflexivity|]. rewrite IH. lia. Qed.

Lemma size_insertAll {T} (entries : list (Vector3 * T)) (g : SpatialGrid.t T) :
  SpatialGrid.size (SpatialGrid.insertAll entries g)
  = (SpatialGrid.size g + length entries)%nat.
Proof.
  unfold SpatialGrid.insertAll. revert g.
  induction entries as [|e entries IH]; intros g; cbn [fold_left length]; [lia|].
  rewrite IH, size_insert. lia.
Qed.

Ltac run_draws :=
  unfold mbind, M_bind, bind, gets, liftW, modify;
  repeat (rewrite random_afterDraws; cbn [world set_world];
          rewrite ?afterDraws_add);
  rewrite newDustCloud_eq; cbn [world set_world]; rewrite ?afterDraws_add.

(** One iteration of the innermost loop of the arm-aligned branch. *)
Lemma alignedCloud_places g perG a i :
  placesClouds
    (fun s cloud => exists u,
       cloud_radius cloud
       = dustCloudMinRadius s + random E u * dustCloudRadiusRange s)
    1 (alignedCloud E D o g perG a i).
Proof.
  intros nm. unfold alignedCloud. run_draws.
  eexists [_], _. split; [reflexivity|]. split; [reflexivity|].
  apply Forall_singleton. eexists. reflexivity.
Qed.

(** One iteration of the inner loop of the fallback branch. *)
Lemma scatteredCloud_places center :
  placesClouds
    (fun s cloud => exists u,
       cloud_radius cloud
       = dustCloudMinRadius s * dustCloudFallbackRadiusMultiplier o
         + random E u * dustCloudRadiusRange s
           * dustCloudFallbackRangeMultiplier o)
    1 (scatteredCloud E D o center).
Proof.
  intros nm. unfold scatteredCloud. run_draws.
  eexists [_], _. split; [reflexivity|]. split; [reflexivity|].
  apply Forall_singleton. eexists. reflexivity.
Qed.

Lemma placesClouds_weaken (P Q : SimulationSettings -> DustCloud -> Prop) n m :
  (forall s c, P s c -> Q s c) -> placesClouds P n m -> placesClouds Q n m.
Proof.
  intros HPQ Hm nm. destruct (Hm nm) as (new & k & Hr & Hl & HP).
  exists new, k. split; [exact Hr|]. split; [exact Hl|].
  eapply Forall_impl; [exact HP|]. apply HPQ.
Qed.

Lemma placesClouds_count P n n' m :
  n = n' -> placesClouds P n m -> placesClouds P n' m.
Proof. now intros ->. Qed.


Lemma generateDustClouds_run count nm :
  exists new k,
    generateDustClouds E D o count nm
    = Ok tt (placeAll new (set_world (afterDraws k (world nm)) nm)) /\
    length new = cloudsGenerated count (lastGalaxies nm) /\
    Forall (radiusDrawn E o (lastGalaxies nm) (settings nm)) new.
Proof.
  unfold generateDustClouds, cloudsGenerated.
  unfold mbind at 1, M_bind at 1, bind at 1, gets at 1.
  destruct (lastGalaxies nm) as [|g0 gs] eqn:Hgs.
  - refine (placesClouds_count _ _ _ _ _ _ nm); cycle 1.
    + apply (placesClouds_forEach
               (radiusDrawn E o [])
               (fun _ => loopCount (Qmax 6 (inject_Z (Qfloor (count / 3)))))).
      intros center _.
      eapply placesClouds_count; cycle 1.
      * apply (placesClouds_forEach (radiusDrawn E o []) (fun _ => 1%nat)).
        intros i _. apply scatteredCloud_places.
      * rewrite sum_list_with_const, length_seq. lia.
    + rewrite sum_list_with_const. reflexivity.
  - apply (placesClouds_forEach (radiusDrawn E o (g0 :: gs))
             (fun g => (loopCount (lg_arms g)
                        * stepsPerArm (cloudsPerGalaxy count (g0 :: gs)) g)%nat)).
    intros g _.
    eapply placesClouds_count; cycle 1.
    + apply (placesClouds_forEach (radiusDrawn E o (g0 :: gs))
               (fun _ => stepsPerArm (cloudsPerGalaxy count (g0 :: gs)) g)).
      intros a _.
      eapply placesClouds_count; cycle 1.
      * apply (placesClouds_forEach (radiusDrawn E o (g0 :: gs)) (fun _ => 1%nat)).
        intros i _. apply alignedCloud_places.
      * rewrite sum_list_with_const, length_seq. lia.
    + rewrite sum_list_with_const, length_seq. reflexivity.
Qed.


Lemma loopCount_ge (x : Q) : x <= inject_Z (Z.of_nat (loopCount x)).
Proof.
  unfold loopCount. rewrite ZifyInst.of_nat_to_nat_eq.
  apply Qle_trans with (inject_Z (Qceiling x)); [apply Qle_ceiling|].
  rewrite <- Zle_Qle. lia.
Qed.

Lemma cloudsPerGalaxy_ge count galaxies : 4 <= cloudsPerGalaxy count galaxies.
Proof. unfold cloudsPerGalaxy. cbv zeta. apply Qmax_lower. Qed.

(** The two inner loops place at least [perG] clouds for a galaxy with
    arms. *)
Lemma arm_clouds perG g :
  0 < lg_arms g -> 0 <= perG ->
  perG <= inject_Z (Z.of_nat (loopCount (lg_arms g) * stepsPerArm perG g)).
Proof.
  intros Ha Hp. rewrite Nat2Z.inj_mul, inject_Z_mult.
  pose proof (loopCount_ge (lg_arms g)) as H1.
  unfold stepsPerArm.
  pose proof (loopCount_ge (inject_Z (Qceiling (perG / lg_arms g)))) as H2.
  pose proof (Qle_ceiling (perG / lg_arms g)) as H3.
  set (A := inject_Z (Z.of_nat (loopCount (lg_arms g)))) in *.
  set (B := inject_Z (Z.of_nat (loopCount (inject_Z (Qceiling (perG / lg_arms g)))))) in *.
  set (q := perG / lg_arms g) in *.
  assert (Hq : perG == lg_arms g * q).
  { unfold q. field. intros H0. rewrite H0 in Ha. now apply Qlt_irrefl in Ha. }
  assert (Hq0 : 0 <= q).
  { unfold q. apply Qle_shift_div_l; [exact Ha|]. now rewrite Qmult_0_l. }
  set (c := inject_Z (Qceiling q)) in *. clearbody A B c q.
  rewrite Hq. nra.
Qed.

Lemma arms_clouds perG (galaxies : list GalaxyRecord) :
  Forall (fun g => 0 < lg_arms g) galaxies -> 0 <= perG ->
  inject_Z (Z.of_nat (length galaxies)) * perG
  <= inject_Z (Z.of_nat
       (sum_list_with (fun g => (loopCount (lg_arms g) * stepsPerArm perG g)%nat)
                      galaxies)).
Proof.
  intros Hall Hp. induction Hall as [|g gs Hg _ IH].
  - cbn [length sum_list_with]. change (inject_Z (Z.of_nat 0)) with 0. lra.
  - cbn [length sum_list_with].
    rewrite Nat2Z.inj_succ, Nat2Z.inj_add, inject_Z_plus.
    unfold Z.succ. rewrite inject_Z_plus.
    pose proof (arm_clouds perG g Hg Hp) as H1.
    set (A := inject_Z (Z.of_nat (loopCount (lg_arms g) * stepsPerArm perG g))) in *.
    set (B := inject_Z (Z.of_nat (sum_list_with _ gs))) in *.
    set (n := inject_Z (Z.of_nat (length gs))) in *.
    clearbody A B n. change (inject_Z 1) with 1. lra.
Qed.

Lemma at_least_four perG (n k : nat) :
  4 <= perG -> inject_Z (Z.of_nat n) * perG <= inject_Z (Z.of_nat k) ->
  (4 * n <= k)%nat.
Proof.
  intros H4 H.
  assert (Hn : 0 <= inject_Z (Z.of_nat n)).
  { change 0 with (inject_Z 0). rewrite <- Zle_Qle. lia. }
  assert (H' : inject_Z (Z.of_nat (4 * n)) <= inject_Z (Z.of_nat k)).
  { rewrite Nat2Z.inj_mul, inject_Z_mult. change (inject_Z (Z.of_nat 4)) with 4.
    set (a := inject_Z (Z.of_nat n)) in *. set (b := inject_Z (Z.of_nat k)) in *.
    clearbody a b. nra. }
  rewrite <- Zle_Qle in H'. lia.
Qed.

Lemma radiusDrawn_bounds galaxies s cloud :
  galaxies <> [] ->
  (forall u, 0 <= random E u /\ random E u < 1) ->
  0 <= dustCloudRadiusRange s ->
  radiusDrawn E o galaxies s cloud ->
  dustCloudMinRadius s <= cloud_radius cloud /\
  cloud_radius cloud <= dustCloudMinRadius s + dustCloudRadiusRange s.
Proof.
  intros Hne Hu Hr [u Hc]. destruct galaxies as [|g gs]; [contradiction|].
  rewrite Hc. destruct (Hu u) as [H0 H1].
  set (a := random E u) in *. set (r := dustCloudRadiusRange s) in *.
  set (m := dustCloudMinRadius s). clearbody a r m. split; nra.
Qed.

End DustFacts.

Section DustTheorems.
Import Entities Manager.

(** X7: [generateDustClouds(count)] always returns normally and only
    adds dust clouds.  It appends as many clouds as its loops have
    iterations, stores each of them in the dust grid, where a query at
    the cloud's position finds it, and leaves the stars, the waves, the
    connections, the recorded galaxies and the settings as they were. *)
Theorem generateDustClouds_only_adds_clouds (E : Oracle) (D : DustGeometry)
    (o : OtherSettings) (count : Q) (nm : NetworkManager) :
  let r := Dust.generateDustClouds E D o count nm in
  threw r = false /\
  exists new,
    length new = cloudsGenerated count (lastGalaxies nm) /\
    dustClouds (finalState r) = dustClouds nm ++ new /\
    SpatialGrid.size (dustGrid (finalState r))
    = (SpatialGrid.size (dustGrid nm) + length new)%nat /\
    (forall cloud, cloud ∈ new ->
       cloud ∈ SpatialGrid.query (dustGrid (finalState r)) (cloud_position cloud)) /\
    stars (finalState r) = stars nm /\ heap (finalState r) = heap nm /\
    waves (finalState r) = waves nm /\
    connections (finalState r) = connections nm /\
    lastGalaxies (finalState r) = lastGalaxies nm /\
    settings (finalState r) = settings nm.
Proof.
  intros r. subst r.
  destruct (generateDustClouds_run E D o count nm) as (new & k & Hr & Hl & _).
  rewrite Hr. cbn [threw finalState]. split; [reflexivity|].
  exists new. split; [exact Hl|].
  destruct (placeAll_frame new (set_world (afterDraws k (world nm)) nm))
    as (H1 & _ & H3 & H4 & H5 & H6 & H7 & _ & _ & _ & H11 & H12).
  rewrite H1, H3, H4, H5, H6, H7, H11, H12. cbn [dustClouds dustGrid set_world].
  split; [reflexivity|]. split.
  { rewrite size_insertAll, length_map. reflexivity. }
  split; [|repeat split].
  intros cloud Hin.
  destruct (insertAll_stores (map (fun c => (cloud_position c, c)) new)
              (dustGrid nm) (cloud_position cloud) cloud) as (items & Hk & Hx).
  { apply list_elem_of_fmap. now exists cloud. }
  unfold SpatialGrid.query.
  change (SpatialGrid.getCellKey ?g (vx ?p) (vy ?p) (vz ?p))
    with (SpatialGrid.cellOf g p).
  rewrite cellOf_insertAll, Hk. exact Hx.
Qed.

(** X8: with galaxies recorded, every one of them with a positive
    number of arms, [generateDustClouds(count)] adds at least
    [max(4, floor(count / n))] clouds per galaxy, [n] being the number of
    recorded galaxies: never fewer than four per galaxy, however small
    [count] is. *)
Theorem generateDustClouds_at_least (E : Oracle) (D : DustGeometry)
    (o : OtherSettings) (count : Q) (nm : NetworkManager)
    (Hrecorded : lastGalaxies nm <> [])
    (Harms : Forall (fun g => 0 < lg_arms g)%Q (lastGalaxies nm)) :
  let nm' := finalState (Dust.generateDustClouds E D o count nm) in
  exists added : nat,
    length (dustClouds nm') = (length (dustClouds nm) + added)%nat /\
    (inject_Z (Z.of_nat (length (lastGalaxies nm)))
     * Dust.cloudsPerGalaxy count (lastGalaxies nm)
     <= inject_Z (Z.of_nat added))%Q /\
    (4 * length (lastGalaxies nm) <= added)%nat.
Proof.
  intros nm'. subst nm'.
  destruct (generateDustClouds_run E D o count nm) as (new & k & Hr & Hl & _).
  rewrite Hr. cbn [finalState].
  destruct (placeAll_frame new (set_world (afterDraws k (world nm)) nm))
    as (_ & _ & _ & _ & _ & _ & _ & _ & _ & _ & H11 & _).
  rewrite H11. cbn [dustClouds set_world]. exists (length new).
  split; [apply length_app|].
  pose proof (cloudsPerGalaxy_ge count (lastGalaxies nm)) as H4.
  assert (Hb : (inject_Z (Z.of_nat (length (lastGalaxies nm)))
                * Dust.cloudsPerGalaxy count (lastGalaxies nm)
                <= inject_Z (Z.of_nat (length new)))%Q).
  { rewrite Hl. unfold cloudsGenerated.
    destruct (lastGalaxies nm) as [|g gs] eqn:Hgs; [contradiction|].
    apply arms_clouds; [exact Harms|].
    apply Qle_trans with 4%Q; [discriminate|exact H4]. }
  split; [exact Hb|]. exact (at_least_four _ _ _ H4 Hb).
Qed.

Lemma generateDustClouds_at_least_witness :
  let nm := Scenario.lateGalaxy in
  let nm' := finalState
               (Dust.generateDustClouds (Scenario.constantOracle (1 # 2) 0)
                  DustScenario.flatDust (other SettingsMethods.defaults) 0 nm) in
  exists added : nat,
    length (dustClouds nm') = (length (dustClouds nm) + added)%nat /\
    (inject_Z (Z.of_nat (length (lastGalaxies nm)))
     * Dust.cloudsPerGalaxy 0 (lastGalaxies nm)
     <= inject_Z (Z.of_nat added))%Q /\
    (4 * length (lastGalaxies nm) <= added)%nat.
Proof.
  apply (generateDustClouds_at_least (Scenario.constantOracle (1 # 2) 0)
           DustScenario.flatDust (other SettingsMethods.defaults) 0
           Scenario.lateGalaxy).
  - discriminate.
  - repeat constructor.
Defined.

(** X9: with galaxies recorded, random draws in [0, 1) and a radius
    range that is not negative, every cloud that
    [generateDustClouds(count)] adds has a radius between
    [dustCloudMinRadius] and [dustCloudMinRadius + dustCloudRadiusRange];
    the clouds that were there are kept, in their order. *)
Theorem generateDustClouds_radius (E : Oracle) (D : DustGeometry)
    (o : OtherSettings) (count : Q) (nm : NetworkManager)
    (Hrecorded : lastGalaxies nm <> [])
    (Hdraws : forall u, (0 <= random E u /\ random E u < 1)%Q)
    (Hrange : (0 <= dustCloudRadiusRange (settings nm))%Q) :
  let nm' := finalState (Dust.generateDustClouds E D o count nm) in
  exists new,
    dustClouds nm' = dustClouds nm ++ new /\
    forall cloud, cloud ∈ new ->
      (dustCloudMinRadius (settings nm) <= cloud_radius cloud /\
       cloud_radius cloud
       <= dustCloudMinRadius (settings nm) + dustCloudRadiusRange (settings nm))%Q.
Proof.
  intros nm'. subst nm'.
  destruct (generateDustClouds_run E D o count nm) as (new & k & Hr & _ & Hall).
  rewrite Hr. cbn [finalState].
  destruct (placeAll_frame new (set_world (afterDraws k (world nm)) nm))
    as (_ & _ & _ & _ & _ & _ & _ & _ & _ & _ & H11 & _).
  exists new. split; [exact H11|].
  intros cloud Hin. rewrite Forall_forall in Hall.
  exact (radiusDrawn_bounds E o _ _ _ Hrecorded Hdraws Hrange (Hall cloud Hin)).
Qed.

Lemma generateDustClouds_radius_witness :
  let nm := Scenario.lateGalaxy in
  let nm' := finalState
               (Dust.generateDustClouds (Scenario.constantOracle (1 # 2) 0)
                  DustScenario.flatDust (other SettingsMethods.defaults) 243 nm) in
  exists new,
    dustClouds nm' = dustClouds nm ++ new /\
    forall cloud, cloud ∈ new ->
      (dustCloudMinRadius (settings nm) <= cloud_radius cloud /\
       cloud_radius cloud
       <= dustCloudMinRadius (settings nm) + dustCloudRadiusRange (settings nm))%Q.
Proof.
  apply (generateDustClouds_radius (Scenario.constantOracle (1 # 2) 0)
           DustScenario.flatDust (other SettingsMethods.defaults) 243
           Scenario.lateGalaxy).
  - discriminate.
  - intros u. split; [discriminate|reflexivity].
  - discriminate.
Defined.

End DustTheorems.

(** ** The invariant of the manager *)

Section InvariantFacts.
Import Entities Manager.
Variable E : Oracle.
Variable G : Geometry.

Lemma newStar_Ok_spec S pos center profile w id st w' :
  newStar E S pos center profile w = Ok (id, st) w' ->
  id = nextId w /\ nextId w' = Datatypes.S (nextId w) /\
  flagsConsistent st /\ isEmitting st = false /\ isGoingSupernova st = false /\
  isActive st = false /\ position st = pos.
Proof.
  unfold newStar, clone, generateStarColor, M_type, K_type, G_type, F_type,
    A_type, B_type, O_type, spectral. unfold_world.
  intros H.
  destruct center; [|discriminate].
  destruct profile;
    repeat match type of H with
           | context [if ?b then _ else _] => destruct b
           end;
    injection H as <- <- <-; cbn [nextId];
    (split; [reflexivity|]); (split; [reflexivity|]);
    (split; [|repeat split]);
    (split; [split|]); cbn; try done; by intros [? ?].
Qed.

Lemma managerInvariant_set_world nm w :
  managerInvariant nm -> (nextId (world nm) <= nextId w)%nat ->
  managerInvariant (set_world w nm).
Proof.
  intros (Hv & Hid & Hc & Hf & Hd & Hw) Hle.
  split; [exact Hv|]. split.
  { intros star Hs. specialize (Hid star Hs). cbn [world set_world]. lia. }
  split; [exact Hc|]. split; [exact Hf|]. split; [exact Hd|exact Hw].
Qed.


Lemma deref_insert nm id st star :
  deref (set_heap (<[id := st]> (heap nm)) nm) star
  = if decide (id = star) then st else deref nm star.
Proof.
  unfold deref. cbn [heap set_heap]. rewrite lookup_total_insert. reflexivity.
Qed.

(** The push of a new star object, under a fresh id. *)
Lemma pushed_invariant nm w id st :
  managerInvariant nm ->
  id = nextId (world nm) -> nextId w = S id ->
  flagsConsistent st -> isEmitting st = false -> isGoingSupernova st = false ->
  managerInvariant
    (set_stars (stars nm ++ [id]) (set_heap (<[id := st]> (heap nm)) (set_world w nm))).
Proof.
  intros ((Hnd & Hvalid) & Hid & Hc & Hf & Hd & Hw) -> Hw' Hst Hem Hnova.
  assert (Hfresh : heap nm !! nextId (world nm) = None).
  { apply eq_None_not_Some. intros Hs. specialize (Hid _ Hs). lia. }
  assert (Hnew : nextId (world nm) ∉ stars nm).
  { intros Hin. specialize (Hid _ (Hvalid _ Hin)). lia. }
  split; [split|].
  - cbn [stars set_stars]. apply NoDup_app. split; [exact Hnd|]. split.
    + intros x Hx Hx'. apply list_elem_of_singleton in Hx'. subst x. contradiction.
    + apply NoDup_singleton.
  - cbn [stars set_stars heap set_heap set_world]. intros star Hin.
    apply lookup_insert_is_Some'.
    apply elem_of_app in Hin as [Hin|Hin]; [right; now apply Hvalid|left].
    now apply list_elem_of_singleton in Hin.
  - split.
    { cbn [heap set_stars set_heap world set_world]. intros star Hs. rewrite Hw'.
      apply lookup_insert_is_Some' in Hs as [<-|Hs]; [lia|].
      specialize (Hid _ Hs). lia. }
    split.
    { cbn [heap set_stars set_heap]. intros star st' Hs.
      apply lookup_insert_Some in Hs as [[_ <-]|[_ Hs]]; [exact Hst|].
      eapply Hc; eauto. }
    split.
    { intros star Hin. cbn [stars set_stars] in Hin.
      change (deref _ star)
        with (deref (set_heap (<[nextId (world nm) := st]> (heap nm)) nm) star).
      rewrite deref_insert. destruct (decide (nextId (world nm) = star)) as [<-|Hne].
      - split; assumption.
      - apply Hf. apply elem_of_app in Hin as [Hin|Hin]; [exact Hin|].
        apply list_elem_of_singleton in Hin. congruence. }
    split; [exact Hd|exact Hw].
Qed.

Lemma pushNewStar_invariant position center profile :
  preserves managerInvariant (pushNewStar E position center profile).
Proof.
  intros nm Hinv. unfold pushNewStar.
  unfold mbind, M_bind, bind, gets, modify, liftW.
  destruct (newStar E (settings nm) position center profile (world nm))
    as [[id st] w|w] eqn:Hnew; cbn [finalState].
  - destruct (newStar_Ok_spec _ _ _ _ _ _ _ _ Hnew)
      as (Hid & Hw & Hst & Hem & Hnova & _).
    subst id.
    exact (pushed_invariant nm w (nextId (world nm)) st Hinv eq_refl Hw Hst Hem Hnova).
  - apply managerInvariant_set_world; [exact Hinv|].
    pose proof (newStar_nextId_grows E (settings nm) position center profile
                  (nextId (world nm)) (world nm) (le_n _)) as Hg.
    now rewrite Hnew in Hg.
Qed.

Lemma liftW_random_invariant :
  preserves managerInvariant (liftW (Math_random E)).
Proof.
  apply preserves_liftW_world. intros nm Hinv.
  apply managerInvariant_set_world; [exact Hinv|]. reflexivity.
Qed.

Ltac invariant_step :=
  lazymatch goal with
  | |- preserves _ (liftW (Math_random _)) => apply liftW_random_invariant
  | |- preserves _ (pushNewStar _ _ _ _) => apply pushNewStar_invariant
  | _ => preserves_step
  end.

Lemma createSpiralGalaxy_invariant center count radius arms config :
  preserves managerInvariant
    (createSpiralGalaxy E G center count radius arms config).
Proof.
  unfold createSpiralGalaxy, bulgeStar, armStar. cbv zeta.
  repeat invariant_step.
Qed.

Lemma clearSceneObjects_invariant nm :
  managerInvariant nm -> managerInvariant (clearSceneObjects nm).
Proof.
  intros (_ & Hid & Hc & _ & _ & _).
  split; [split|].
  - apply NoDup_nil_2.
  - intros star H. by apply elem_of_nil in H.
  - split; [exact Hid|]. split; [exact Hc|]. split.
    { intros star H. by apply elem_of_nil in H. }
    split; intros x H; by apply elem_of_nil in H.
Qed.

Lemma initializeGalaxy_invariant :
  preserves managerInvariant (initializeGalaxy E G).
Proof.
  unfold initializeGalaxy. cbv zeta.
  apply preserves_bind; [apply preserves_modify; apply clearSceneObjects_invariant|].
  intros _.
  apply preserves_bind; [apply preserves_modify; intros nm H; exact H|].
  intros _.
  apply preserves_bind; [apply preserves_gets|]. intros s.
  apply preserves_forEach. intros config.
  apply preserves_bind; [apply createSpiralGalaxy_invariant|]. intros _.
  apply preserves_modify. intros nm H. exact H.
Qed.


Lemma flagsConsistent_sameLife st st' :
  sameLife st st' -> flagsConsistent st -> flagsConsistent st'.
Proof.
  unfold sameLife, flagsConsistent.
  intros (_ & _ & _ & Ha & Ht & Hd & _) H. now rewrite Ha, Ht, Hd.
Qed.

Lemma flagsConsistent_consumed st : flagsConsistent st -> flagsConsistent (consumed st).
Proof.
  destruct (consumed_frame st) as (_ & _ & _ & Ha & Ht & Hd & _).
  unfold flagsConsistent. now rewrite Ha, Ht, Hd.
Qed.

(** The heap after the first loop of [update], object by object. *)
Lemma updateStars_heap deltaTime nm nm1 :
  NoDup (stars nm) ->
  forEach (stars nm) (updateStar E deltaTime) nm = Ok tt nm1 ->
  forall star st0,
    heap nm !! star = Some st0 ->
    ((star ∉ stars nm) /\ heap nm1 !! star = Some st0) \/
    (star ∈ stars nm /\
     exists st w w',
       Star_update E (settings nm) deltaTime st0 w = Ok st w' /\
       heap nm1 !! star = Some (consumed st)).
Proof.
  intros Hnd Hrun star st0 H0.
  destruct (updateStars_loop E deltaTime (stars nm) nm Hnd)
    as (nm1' & Hrun' & _ & Hother & Hsame & _).
  rewrite Hrun in Hrun'. injection Hrun' as <-.
  destruct (decide (star ∈ stars nm)) as [Hin|Hout].
  - right. split; [exact Hin|].
    destruct (Hsame star Hin) as (st & w & w' & HS & Hh).
    exists st, w, w'. split.
    + unfold deref, lookup_total, map_lookup_total in HS. now rewrite H0 in HS.
    + now rewrite Hh, H0.
  - left. split; [exact Hout|]. now rewrite (Hother star Hout).
Qed.

Lemma update_invariant deltaTime :
  preserves managerInvariant (update E G deltaTime).
Proof.
  intros nm ((Hnd & Hvalid) & Hid & Hc & Hf & Hd & Hw).
  destruct (updateStars_loop E deltaTime (stars nm) nm Hnd)
    as (nm1 & Hrun & Hframe & Hother & Hsame & Hwaves & _).
  pose proof (updateStars_heap deltaTime nm nm1 Hnd Hrun) as Hheap.
  destruct Hframe as (Hs & Hst & _ & Hdc & _ & Hdg & Hn).
  destruct (update_final E G deltaTime nm nm1 Hrun)
    as (Fs & Fst & Fd & Fg & _ & _ & Fw & Fn & Flife).
  set (nm' := finalState (update E G deltaTime nm)) in *.
  assert (Hdom : forall star, is_Some (heap nm' !! star) -> is_Some (heap nm !! star)).
  { intros star Hsome. apply Flife in Hsome.
    destruct (decide (star ∈ stars nm)) as [Hin|Hout].
    - now apply Hvalid.
    - now rewrite <- (Hother star Hout). }
  assert (Hobj : forall star st',
            heap nm' !! star = Some st' -> sameLife (deref nm1 star) st').
  { intros star st' H'. destruct (Flife star) as [Hl _].
    unfold deref at 2 in Hl. unfold lookup_total, map_lookup_total in Hl.
    now rewrite H' in Hl. }
  split; [split|].
  - rewrite Fst, Hst. eapply sublist_NoDup; [exact Hnd|apply spliceBackward_sublist].
  - intros star Hin. rewrite Fst, Hst in Hin.
    apply elem_of_spliceBackward in Hin as [Hin _].
    apply Flife. destruct (Hvalid star Hin) as [st0 H0].
    destruct (Hheap star st0 H0) as [[_ H1]|(_ & st & w & w' & _ & H1)];
      rewrite H1; eauto.
  - split.
    { intros star Hsome. specialize (Hid star (Hdom star Hsome)). lia. }
    split.
    { intros star st' H'.
      apply (flagsConsistent_sameLife _ _ (Hobj star st' H')).
      destruct (Hdom star (mk_is_Some _ _ H')) as [st0 H0].
      unfold deref, lookup_total, map_lookup_total.
      destruct (Hheap star st0 H0) as [[_ H1]|(_ & st & w & w' & HS & H1)];
        rewrite H1; cbn [default].
      - eapply Hc; eauto.
      - apply flagsConsistent_consumed.
        eapply Star_update_flags; [exact HS|]. eapply Hc; eauto. }
    split.
    { intros star Hin. rewrite Fst, Hst in Hin.
      apply elem_of_spliceBackward in Hin as [Hin _].
      destruct (Hvalid star Hin) as [st0 H0].
      destruct (Hheap star st0 H0) as [[Hout _]|(_ & st & w & w' & HS & H1)];
        [contradiction|].
      destruct (Flife star) as [(_ & _ & _ & _ & _ & _ & Hem & Hnova) _].
      rewrite Hem, Hnova.
      unfold deref, lookup_total, map_lookup_total. rewrite H1. cbn [default].
      destruct (consumed_frame st) as (_ & _ & _ & _ & _ & _ & He & Hn').
      split; assumption. }
    split.
    { unfold dustIndexed. rewrite Fd, Fg, Hdc, Hdg. exact Hd. }
    destruct Hwaves as (new & Hwv & Hnew).
    assert (Hact : forall wave, wave ∈ waves nm1 -> wave_isActive wave = true).
    { intros wave Hin. rewrite Hwv in Hin.
      apply elem_of_app in Hin as [Hin|Hin]; [now apply Hw|].
      now destruct (Hnew wave Hin) as (_ & ? & _). }
    intros wave Hin. destruct Fw as [Fw|Fw]; rewrite Fw in Hin.
    + now apply Hact.
    + now apply elem_of_spliceBackward in Hin as [_ ?].
Qed.

Lemma createConnection_fields a b nm :
  createConnection a b nm
  = set_connections (connections (createConnection a b nm)) nm.
Proof.
  unfold createConnection. cbv zeta.
  repeat match goal with
         | |- context [if ?c then _ else _] => destruct c
         end; try (now destruct nm); reflexivity.
Qed.

Lemma createConnection_invariant a b nm :
  managerInvariant nm -> managerInvariant (createConnection a b nm).
Proof. intros H. rewrite createConnection_fields. exact H. Qed.


Lemma placeDustCloud_invariant cloud nm :
  managerInvariant nm -> managerInvariant (placeDustCloud cloud nm).
Proof.
  intros (Hv & Hid & Hc & Hf & Hd & Hw).
  split; [exact Hv|]. split; [exact Hid|]. split; [exact Hc|].
  split; [exact Hf|]. split; [|exact Hw].
  intros c Hin. unfold placeDustCloud in *. cbn [dustClouds dustGrid set_dustClouds set_dustGrid] in *.
  apply elem_of_app in Hin as [Hin|Hin].
  - specialize (Hd c Hin). unfold SpatialGrid.query in *.
    change (SpatialGrid.getCellKey ?g (vx ?p) (vy ?p) (vz ?p))
      with (SpatialGrid.cellOf g p) in *.
    rewrite cellOf_insert.
    destruct (SpatialGrid.grid (dustGrid nm) !! SpatialGrid.cellOf (dustGrid nm) (cloud_position c))
      as [items|] eqn:Hk; [|by apply elem_of_nil in Hd].
    destruct (insert_grows (cloud_position cloud) cloud (dustGrid nm) _ _ Hk)
      as (items' & -> & Hsub).
    now apply Hsub.
  - apply list_elem_of_singleton in Hin as ->. apply query_insert.
Qed.

Lemma placeAll_invariant new nm :
  managerInvariant nm -> managerInvariant (placeAll new nm).
Proof.
  unfold placeAll. revert nm. induction new as [|c new IH]; intros nm H; [exact H|].
  cbn [fold_left]. apply IH. now apply placeDustCloud_invariant.
Qed.

Lemma generateDustClouds_invariant D o count :
  preserves managerInvariant (Dust.generateDustClouds E D o count).
Proof.
  intros nm H.
  destruct (generateDustClouds_run E D o count nm) as (new & k & -> & _).
  cbn [finalState]. apply placeAll_invariant.
  apply managerInvariant_set_world; [exact H|]. reflexivity.
Qed.

Lemma new_invariant s w : managerInvariant (Manager.new s w).
Proof.
  split; [split|].
  - apply NoDup_nil_2.
  - intros star H. by apply elem_of_nil in H.
  - split. { intros star [st H]. cbn in H. by rewrite lookup_empty in H. }
    split. { intros star st H. cbn in H. by rewrite lookup_empty in H. }
    split. { intros star H. by apply elem_of_nil in H. }
    split; intros x H; by apply elem_of_nil in H.
Qed.

Lemma addWave_invariant wave nm :
  wave_isActive wave = true ->
  managerInvariant nm -> managerInvariant (addWave wave nm).
Proof.
  intros Hact (Hv & Hid & Hc & Hf & Hd & Hw).
  split; [exact Hv|]. split; [exact Hid|]. split; [exact Hc|].
  split; [exact Hf|]. split; [exact Hd|].
  intros x Hin. unfold addWave in Hin. cbn [waves set_waves] in Hin.
  apply elem_of_app in Hin as [Hin|Hin]; [now apply Hw|].
  now apply list_elem_of_singleton in Hin as ->.
Qed.

End InvariantFacts.

Section InvariantTheorem.
Import Entities Manager.

(** X10: between any two calls of its methods the manager is
    consistent, whatever the calls were and whether or not they threw:
    [stars] holds no star twice and every identifier handed out is below
    [Star.nextId]; every star object ever constructed has its activation
    flags linked ([isActive] exactly when [activationTime] is set and
    never together with [hasDormantPlanet]); the one-shot flags
    [isEmitting] and [isGoingSupernova] of the stars are down; every dust
    cloud is found in the dust grid at its position; every wave of
    [waves] is active. *)
Theorem manager_invariant (E : Oracle) (G : Geometry) (D : DustGeometry)
    (o : OtherSettings) (nm : NetworkManager)
    (Hlife : Lifecycle E G D o nm) :
  managerInvariant nm.
Proof.
  induction Hlife as [s w|nm _ IH|nm count _ IH|nm dt _ IH|nm _ IH
                      |nm a b _ IH|nm wave _ IH Hact].
  - apply new_invariant.
  - now apply initializeGalaxy_invariant.
  - now apply generateDustClouds_invariant.
  - now apply update_invariant.
  - now apply clearSceneObjects_invariant.
  - now apply createConnection_invariant.
  - now apply addWave_invariant.
Qed.

Lemma manager_invariant_witness :
  managerInvariant
    (finalState
       (update (Scenario.constantOracle (1 # 2) 0) Scenario.flatGeometry (16 # 1000)
          (finalState
             (Dust.generateDustClouds (Scenario.constantOracle (1 # 2) 0)
                DustScenario.flatDust (other SettingsMethods.defaults) 243
                (Dust.reset
                   (Manager.new Scenario.defaultSettings
                      {| rngPos := 0; clockPos := 0; nextId := 0 |})))))).
Proof.
  apply (manager_invariant (Scenario.constantOracle (1 # 2) 0)
           Scenario.flatGeometry DustScenario.flatDust
           (other SettingsMethods.defaults)).
  apply life_update, life_generateDustClouds, life_reset, life_new.
Defined.

End InvariantTheorem.

(** ** The end of a tick *)

Section TickIndexes.
Import Entities Manager.
Variable E : Oracle.
Variable G : Geometry.
Local Open Scope Q_scope.

Lemma size_clear {T} (g : SpatialGrid.t T) :
  SpatialGrid.size (SpatialGrid.clear g) = 0%nat.
Proof. unfold SpatialGrid.size, SpatialGrid.clear. cbn. apply map_fold_empty. Qed.

Lemma size_rebuilt {T} (entries : list (Vector3 * T)) (g : SpatialGrid.t T) :
  SpatialGrid.size (SpatialGrid.insertAll entries (SpatialGrid.clear g))
  = length entries.
Proof. now rewrite size_insertAll, size_clear. Qed.

Lemma filter_split_length {A} (p : A -> bool) (l : list A) :
  (length (List.filter p l) + length (List.filter (fun x => negb (p x)) l)
   = length l)%nat.
Proof.
  induction l as [|x l IH]; [reflexivity|].
  cbn [List.filter]. destruct (p x); cbn [negb length]; lia.
Qed.

(** The grids and the waves at the end of a tick. *)
Lemma tickEnd_grids deltaTime dead w t nm :
  let nm' := tickEnd deltaTime dead w t nm in
  waveGrid nm'
  = SpatialGrid.insertAll (map (fun wave => (wave_origin wave, wave)) (waves nm'))
      (SpatialGrid.clear (waveGrid nm)) /\
  starGrid nm'
  = SpatialGrid.insertAll
      (map (fun star => (position (deref nm star), star)) (activeStars nm))
      (SpatialGrid.clear (starGrid nm)).
Proof.
  cbv zeta. unfold tickEnd.
  set (nm3 := set_world w _).
  destruct (dustObscuration_heap (handshakeAt t nm3)) as [Hd _].
  pose proof (handshakeAt_connections t nm3) as Hh.
  split; rewrite Hd, Hh; reflexivity.
Qed.

Lemma updated_wave_in_range deltaTime wave :
  wave_isActive (RadioWave_update deltaTime wave) = true ->
  wave_radius (RadioWave_update deltaTime wave)
  < wave_maxRadius (RadioWave_update deltaTime wave).
Proof.
  unfold RadioWave_update. cbv zeta. cbn [wave_isActive wave_radius wave_maxRadius].
  destruct (Qgeb _ _) eqn:Hge; [discriminate|]. intros _.
  unfold Qgeb in Hge. now apply Qleb_gt in Hge.
Qed.

(** Who the connections at the end of a tick join. *)
Lemma tickEnd_connections deltaTime dead w t nm c :
  c ∈ connections (tickEnd deltaTime dead w t nm) ->
  isActive (deref nm (star1 c)) = true /\ isActive (deref nm (star2 c)) = true.
Proof.
  unfold tickEnd.
  set (nm2 := rebuildWaveGrid (updateWaves deltaTime (pruneConnections dead nm))).
  destruct (dustObscuration_frame
              (handshakeAt t (set_world w (rebuildStarGrid nm2)))) as [_ ->].
  intros Hc. apply handshakeAt_origin in Hc as [Hc|Hc].
  - change (connections (set_world w (rebuildStarGrid nm2)))
      with (spliceBackward (connectionSurvives nm dead) (connections nm)) in Hc.
    apply elem_of_spliceBackward in Hc as [_ Hc].
    unfold connectionSurvives in Hc.
    destruct (isActive (deref nm (star1 c))); [|discriminate].
    destruct (isActive (deref nm (star2 c))); [|discriminate]. done.
  - apply elem_of_candidatePairs in Hc as [Ha Hb].
    change (nearby (set_world w (rebuildStarGrid nm2)) (star1 c))
      with (nearby (rebuildStarGrid nm2) (star1 c)) in Hb.
    apply nearby_rebuilt_active in Hb.
    apply elem_of_activeStars in Ha as (_ & Ha & _).
    apply elem_of_activeStars in Hb as (_ & Hb & _).
    split; [exact Ha|exact Hb].
Qed.

Lemma update_Ok_tickEnd deltaTime nm nm' :
  update E G deltaTime nm = Ok tt nm' ->
  exists nm1 w w' t,
    updateStars E deltaTime nm = Ok tt nm1 /\
    nm' = tickEnd deltaTime (deadStarsOf nm1) w' t (set_world w (removeDeadStars nm1)).
Proof.
  intros H. destruct (update_Ok_inv E G deltaTime nm nm' H)
    as (nm1 & w & w' & t & H1 & H2).
  exists nm1, w, w', t. split; [exact H1|]. exact H2.
Qed.

Lemma activeStars_sameLife nm nm' :
  stars nm' = stars nm ->
  (forall star, sameLife (deref nm star) (deref nm' star)) ->
  activeStars nm' = activeStars nm.
Proof.
  intros Hs Hl. unfold activeStars. rewrite Hs. apply filter_ext.
  intros star. destruct (Hl star) as (_ & _ & _ & -> & -> & _). reflexivity.
Qed.

Lemma activeStars_consistent nm :
  (forall star, star ∈ stars nm -> flagsConsistent (deref nm star)) ->
  activeStars nm = List.filter (fun star => isActive (deref nm star)) (stars nm).
Proof.
  intros Hc. unfold activeStars. apply filter_ext_in. intros star Hin.
  apply list_elem_of_In in Hin. destruct (Hc star Hin) as [Hact _].
  destruct (isActive (deref nm star)) eqn:Ha; [|reflexivity].
  cbn [andb]. apply bool_decide_eq_true. now apply Hact.
Qed.

Lemma invariant_starsConsistent nm :
  managerInvariant nm ->
  forall star, star ∈ stars nm -> flagsConsistent (deref nm star).
Proof.
  intros ((_ & Hvalid) & _ & Hc & _) star Hin.
  destruct (Hvalid star Hin) as [st Hst].
  unfold deref, lookup_total, map_lookup_total. rewrite Hst. cbn [default].
  exact (Hc star st Hst).
Qed.

(** The postcondition of a completed tick. *)
Lemma completed_tick deltaTime nm nm' :
  managerInvariant nm ->
  update E G deltaTime nm = Ok tt nm' ->
  getStats nm'
  = (length (stars nm'), SpatialGrid.size (starGrid nm'),
     SpatialGrid.size (waveGrid nm'), length (connections nm')) /\
  (forall wave, wave ∈ waves nm' ->
     wave_isActive wave = true /\ wave_radius wave < wave_maxRadius wave) /\
  (forall c, c ∈ connections nm' ->
     isActive (deref nm' (star1 c)) = true /\
     isActive (deref nm' (star2 c)) = true).
Proof.
  intros Hinv Hok.
  pose proof (update_invariant E G deltaTime nm Hinv) as Hinv'.
  rewrite Hok in Hinv'. cbn [finalState] in Hinv'.
  destruct (update_Ok_tickEnd deltaTime nm nm' Hok) as (nm1 & w & w' & t & _ & Hnm').
  set (nm2 := set_world w (removeDeadStars nm1)) in *.
  destruct (tickEnd_frame deltaTime (deadStarsOf nm1) w' t nm2)
    as (_ & Hst & _ & _ & _ & _ & Hwv & _ & Hlife).
  destruct (tickEnd_grids deltaTime (deadStarsOf nm1) w' t nm2) as [Hwg Hsg].
  rewrite <- Hnm' in Hst, Hwv, Hlife, Hwg, Hsg.
  split; [|split].
  - assert (Ha : SpatialGrid.size (starGrid nm')
                 = length (List.filter (fun star => isActive (deref nm' star))
                                       (stars nm'))).
    { rewrite Hsg, size_rebuilt, length_map.
      rewrite <- (activeStars_sameLife nm2 nm' Hst (fun star => proj1 (Hlife star))).
      rewrite (activeStars_consistent nm' (invariant_starsConsistent nm' Hinv')).
      reflexivity. }
    assert (Hb : SpatialGrid.size (waveGrid nm') = length (waves nm')).
    { rewrite Hwg, size_rebuilt, length_map. reflexivity. }
    unfold getStats. rewrite Ha, Hb. reflexivity.
  - intros wave Hin. rewrite Hwv in Hin.
    apply elem_of_spliceBackward in Hin as [Hin Hact]. split; [exact Hact|].
    apply list_elem_of_fmap in Hin as (wave0 & -> & _).
    now apply updated_wave_in_range.
  - intros c Hc. rewrite Hnm' in Hc.
    apply tickEnd_connections in Hc as [H1 H2].
    destruct (Hlife (star1 c)) as [(_ & _ & _ & Ha1 & _) _].
    destruct (Hlife (star2 c)) as [(_ & _ & _ & Ha2 & _) _].
    rewrite Ha1, Ha2. split; [exact H1|exact H2].
Qed.

(** The managers of the examples are consistent. *)
Lemma scene_invariant s p0 a0 age0 life0 p1 a1 age1 life1 clouds :
  managerInvariant
    (Scenario.scene s (Scenario.starAt p0 a0 age0 life0)
       (Scenario.starAt p1 a1 age1 life1) clouds).
Proof.
  unfold Scenario.scene. cbv zeta. apply (placeAll_invariant clouds).
  assert (Hflags : forall p a ag l, flagsConsistent (Scenario.starAt p a ag l)).
  { intros p [a|] ag l; split; cbn; try done;
      split; try done; by intros [? ?]. }
  assert (Hlook : forall star st,
            (<[0%nat := Scenario.starAt p0 a0 age0 life0]>
               (<[1%nat := Scenario.starAt p1 a1 age1 life1]> ∅)
             : gmap nat Star) !! star = Some st ->
            (star < 2)%nat /\
            (st = Scenario.starAt p0 a0 age0 life0 \/
             st = Scenario.starAt p1 a1 age1 life1)).
  { intros star st H.
    apply lookup_insert_Some in H as [[<- <-]|[_ H]]; [split; [lia|by left]|].
    apply lookup_insert_Some in H as [[<- <-]|[_ H]]; [split; [lia|by right]|].
    by rewrite lookup_empty in H. }
  split; [split|].
  - cbn [stars set_stars]. apply NoDup_cons. split.
    + intros H. apply list_elem_of_singleton in H. discriminate.
    + apply NoDup_singleton.
  - intros star Hin. cbn [stars set_stars heap set_heap] in *.
    apply elem_of_cons in Hin as [->|Hin].
    { rewrite lookup_insert_eq. eauto. }
    apply list_elem_of_singleton in Hin as ->.
    rewrite lookup_insert_ne by done. rewrite lookup_insert_eq. eauto.
  - split.
    { intros star [st Hst]. cbn [heap set_heap set_stars] in Hst.
      apply Hlook in Hst as [Hlt _]. exact Hlt. }
    split.
    { intros star st Hst. cbn [heap set_heap set_stars] in Hst.
      apply Hlook in Hst as [_ [->| ->]]; apply Hflags. }
    split.
    { intros star Hin. cbn [stars set_stars] in Hin.
      unfold deref, lookup_total, map_lookup_total. cbn [heap set_heap set_stars].
      apply elem_of_cons in Hin as [->|Hin].
      { rewrite lookup_insert_eq. split; reflexivity. }
      apply list_elem_of_singleton in Hin as ->.
      rewrite lookup_insert_ne by done. rewrite lookup_insert_eq.
      split; reflexivity. }
    split; intros x H; by apply elem_of_nil in H.
Qed.

Lemma set_connections_invariant l nm :
  managerInvariant nm -> managerInvariant (set_connections l nm).
Proof. intros H. exact H. Qed.

End TickIndexes.

Section TickTheorems.
Import Entities Manager.
Local Open Scope Q_scope.

(** X11: [Star.update(deltaTime)] always returns.  It adds exactly
    [deltaTime] to the age of the star, never moves the star or changes
    its lifetime, and raises [isGoingSupernova] only on a star that has
    reached the end of its life ([age + deltaTime >= lifetime]), unless
    the flag was up already. *)
Theorem Star_update_ages_in_place (E : Oracle) (S : SimulationSettings)
    (deltaTime : Q) (st : Star) (w : World) :
  exists st' w',
    Star_update E S deltaTime st w = Ok st' w' /\
    age st' = age st + deltaTime /\ lifetime st' = lifetime st /\
    position st' = position st /\
    nextId w' = nextId w /\
    (isGoingSupernova st' = true ->
     isGoingSupernova st = true \/ Qgeb (age st + deltaTime) (lifetime st) = true).
Proof.
  destruct (Star_update_returns E S deltaTime st w) as (st' & w' & H).
  exists st', w'. split; [exact H|].
  destruct (Star_update_frame E S deltaTime st w st' w' H) as (Ha & Hl & Hp & Hn).
  split; [exact Ha|]. split; [exact Hl|]. split; [exact Hp|].
  split; [|exact Hn]. exact (Star_update_nextId E S deltaTime st w st' w' H).
Qed.

(** X12: one call of [update(deltaTime)], whether it completes or
    throws, leaves in [stars] exactly the stars with
    [age + deltaTime < lifetime], in their order, and adds none.  Every
    star that stays is [deltaTime] older, where it was and with the
    lifetime it had; the flash hook [onSupernovaFlash] is called at most
    once for each star that leaves; the settings, the dust clouds, the
    dust grid and the recorded galaxies are left as they were. *)
Theorem tick_keeps_unexpired_stars (E : Oracle) (G : Geometry)
    (deltaTime : Q) (nm : NetworkManager)
    (Hinv : managerInvariant nm) :
  let nm' := finalState (update E G deltaTime nm) in
  stars nm'
  = List.filter (fun star => negb (expires deltaTime nm star)) (stars nm) /\
  (forall star, star ∈ stars nm' ->
     age (deref nm' star) = age (deref nm star) + deltaTime /\
     lifetime (deref nm' star) = lifetime (deref nm star) /\
     position (deref nm' star) = position (deref nm star)) /\
  (supernovaFlashes nm' + length (stars nm')
   <= supernovaFlashes nm + length (stars nm))%nat /\
  (settings nm' = settings nm /\ dustClouds nm' = dustClouds nm /\
   dustGrid nm' = dustGrid nm /\ lastGalaxies nm' = lastGalaxies nm).
Proof.
  destruct Hinv as (Hvalid & _ & _ & Hflags & _).
  destruct (tick_survivors E G deltaTime nm Hvalid) as (Hst & Hobj & Hframe & Hflash).
  cbv zeta in *. split; [exact Hst|]. split; [|split; [|exact Hframe]].
  - intros star Hin. rewrite Hst in Hin.
    apply list_elem_of_In, filter_In in Hin as [Hin _].
    apply list_elem_of_In in Hin.
    destruct (Hobj star Hin) as (st & w & w' & HS & Hlife).
    destruct (Star_update_frame E _ _ _ _ _ _ HS) as (Ha & Hl & Hp & _).
    destruct (consumed_frame st) as (Ha' & Hl' & Hp' & _).
    destruct Hlife as (Hp'' & Ha'' & Hl'' & _).
    rewrite Ha'', Hl'', Hp'', Ha', Hl', Hp', Ha, Hl, Hp. done.
  - assert (Hquiet : forall star, star ∈ stars nm ->
                       isGoingSupernova (deref nm star) = false).
    { intros star Hin. now destruct (Hflags star Hin). }
    specialize (Hflash Hquiet). rewrite Hst.
    pose proof (filter_split_length (expires deltaTime nm) (stars nm)). lia.
Qed.

Lemma tick_keeps_unexpired_stars_witness :
  let E := Scenario.constantOracle 1 5 in
  let nm := Scenario.dyingEndpoint in
  let nm' := finalState (update E Scenario.flatGeometry (16 # 1000) nm) in
  stars nm'
  = List.filter (fun star => negb (expires (16 # 1000) nm star)) (stars nm) /\
  (forall star, star ∈ stars nm' ->
     age (deref nm' star) = age (deref nm star) + (16 # 1000) /\
     lifetime (deref nm' star) = lifetime (deref nm star) /\
     position (deref nm' star) = position (deref nm star)) /\
  (supernovaFlashes nm' + length (stars nm')
   <= supernovaFlashes nm + length (stars nm))%nat /\
  (settings nm' = settings nm /\ dustClouds nm' = dustClouds nm /\
   dustGrid nm' = dustGrid nm /\ lastGalaxies nm' = lastGalaxies nm).
Proof.
  intros E nm nm'.
  apply (tick_keeps_unexpired_stars E Scenario.flatGeometry (16 # 1000) nm).
  exact (scene_invariant Scenario.handshakeSettings (V3 0 0 0) (Some 0) 100 100
           (V3 10 0 0) (Some 0) 10 100 []).
Defined.

(** X13: after a call of [update] that completes on a consistent
    manager, [getStats()] agrees with the grids: the star grid holds as
    many entries as there are active stars and the wave grid as many as
    there are waves.  Every wave left is active with a radius below its
    maximum, and every connection left joins two active stars. *)
Theorem completed_tick_is_indexed (E : Oracle) (G : Geometry)
    (deltaTime : Q) (nm nm' : NetworkManager)
    (Hinv : managerInvariant nm)
    (Hok : update E G deltaTime nm = Ok tt nm') :
  getStats nm'
  = (length (stars nm'), SpatialGrid.size (starGrid nm'),
     SpatialGrid.size (waveGrid nm'), length (connections nm')) /\
  (forall wave, wave ∈ waves nm' ->
     wave_isActive wave = true /\ wave_radius wave < wave_maxRadius wave) /\
  (forall c, c ∈ connections nm' ->
     isActive (deref nm' (star1 c)) = true /\
     isActive (deref nm' (star2 c)) = true).
Proof. exact (completed_tick E G deltaTime nm nm' Hinv Hok). Qed.

Lemma completed_tick_is_indexed_witness :
  let E := Scenario.constantOracle 1 5 in
  let nm := Scenario.dyingEndpoint in
  let nm' := finalState (update E Scenario.flatGeometry (16 # 1000) nm) in
  getStats nm'
  = (length (stars nm'), SpatialGrid.size (starGrid nm'),
     SpatialGrid.size (waveGrid nm'), length (connections nm')) /\
  (forall wave, wave ∈ waves nm' ->
     wave_isActive wave = true /\ wave_radius wave < wave_maxRadius wave) /\
  (forall c, c ∈ connections nm' ->
     isActive (deref nm' (star1 c)) = true /\
     isActive (deref nm' (star2 c)) = true).
Proof.
  intros E nm nm'.
  apply (completed_tick_is_indexed E Scenario.flatGeometry (16 # 1000) nm nm').
  - exact (scene_invariant Scenario.handshakeSettings (V3 0 0 0) (Some 0) 100 100
             (V3 10 0 0) (Some 0) 10 100 []).
  - vm_compute. reflexivity.
Defined.

End TickTheorems.

(** ** The grid: what [size] counts, and a query without radius *)

Section GridSoundness.
Context {T : Type}.
Implicit Types (g : SpatialGrid.t T) (p q : Vector3) (x : T).
Import SpatialGrid.
Local Open Scope Q_scope.

Lemma offsets_0 : offsets 0 = [0%Z].
Proof. reflexivity. Qed.

Lemma offsets_negative (c : Z) : (c < 0)%Z -> offsets c = [].
Proof.
  intros H. unfold offsets, seqZ.
  replace (Z.to_nat (2 * c + 1)) with 0%nat by lia. reflexivity.
Qed.

Lemma queryRadius_cellRadius_0 g q radius :
  Qceiling (radius / cellSize g) = 0%Z -> queryRadius g q radius = query g q.
Proof.
  intros H0. unfold queryRadius, query. cbv zeta. rewrite H0, offsets_0.
  unfold getCellKey. cbv zeta. cbn [mbind list_bind app].
  rewrite !Z.add_0_r, !app_nil_r. reflexivity.
Qed.

Lemma queryRadius_cellRadius_negative g q radius :
  (Qceiling (radius / cellSize g) < 0)%Z -> queryRadius g q radius = [].
Proof.
  intros H0. unfold queryRadius. cbv zeta. rewrite (offsets_negative _ H0).
  destruct (getCellKey g (vx q) (vy q) (vz q)) as [[cx cy] cz]. reflexivity.
Qed.

Lemma Qceiling_0 (x : Q) : -1 < x -> x <= 0 -> Qceiling x = 0%Z.
Proof.
  intros H1 H2. pose proof (Qle_ceiling x) as Hle. pose proof (Qceiling_lt x) as Hlt.
  unfold Z.sub in Hlt. rewrite inject_Z_plus, inject_Z_opp in Hlt.
  change (inject_Z 1) with 1 in Hlt.
  assert (Ha : -1 < inject_Z (Qceiling x)) by lra.
  assert (Hb : inject_Z (Qceiling x) < 1) by lra.
  change (-1) with (inject_Z (-1)) in Ha. change 1 with (inject_Z 1) in Hb.
  rewrite <- Zlt_Qlt in Ha, Hb. lia.
Qed.

Lemma Qceiling_negative (x : Q) : x <= -1 -> (Qceiling x < 0)%Z.
Proof.
  intros H. pose proof (Qceiling_lt x) as Hlt.
  unfold Z.sub in Hlt. rewrite inject_Z_plus, inject_Z_opp in Hlt.
  change (inject_Z 1) with 1 in Hlt.
  assert (Ha : inject_Z (Qceiling x) < 0) by lra.
  change 0 with (inject_Z 0) in Ha. rewrite <- Zlt_Qlt in Ha. exact Ha.
Qed.

Lemma gridAfter_app (ops ops' : list (GridOp T)) g :
  gridAfter (ops ++ ops') g = gridAfter ops' (gridAfter ops g).
Proof. unfold gridAfter. apply fold_left_app. Qed.

Lemma runOps_app (ops ops' : list (GridOp T)) g :
  runOps (ops ++ ops') g = runOps ops g ++ runOps ops' (gridAfter ops g).
Proof.
  revert g. induction ops as [|op ops IH]; intros g; [reflexivity|].
  cbn [app runOps]. unfold gridAfter. cbn [fold_left].
  destruct (applyOp op g) as [g1 r1] eqn:Hop. cbn [fst app]. f_equal. apply IH.
Qed.

Lemma size_gridAfter (ops : list (GridOp T)) g :
  size (gridAfter ops g) = insertsSinceClear ops (size g).
Proof.
  unfold gridAfter, insertsSinceClear. revert g.
  induction ops as [|op ops IH]; intros g; [reflexivity|].
  cbn [fold_left]. rewrite IH. f_equal.
  destruct op; cbn [applyOp fst];
    first [apply size_insert | apply size_clear | reflexivity].
Qed.

End GridSoundness.

Section GridTheorems.
Import SpatialGrid.
Local Open Scope Q_scope.

(** X15: [size()] counts the calls of [insert] since the last call of
    [clear] (since the construction when there was none): whatever the
    calls made on a new grid, a call of [size()] after them returns
    that number, items stored twice or sharing a cell included. *)
Theorem size_counts_inserts {T : Type} (ops : list (GridOp T))
    (cellSize : Q) (minBounds maxBounds : Vector3) :
  runOps (ops ++ [OpSize]) (new cellSize minBounds maxBounds)
  = runOps ops (new cellSize minBounds maxBounds)
    ++ [ResCount (insertsSinceClear ops 0)].
Proof.
  rewrite runOps_app. f_equal. cbn [runOps applyOp].
  rewrite size_gridAfter.
  replace (size (new cellSize minBounds maxBounds)) with 0%nat
    by (symmetry; apply map_fold_empty).
  reflexivity.
Qed.

(** X16: a radius that is not positive makes [queryRadius] scan at most
    the cell of the position: for [-cellSize < radius <= 0] it returns
    what [query] returns there, and for [radius <= -cellSize] it returns
    nothing, whatever the grid holds. *)
Theorem queryRadius_without_radius {T : Type} (g : SpatialGrid.t T)
    (q : Vector3) (radius : Q)
    (Hcell : 0 < cellSize g) (Hradius : radius <= 0) :
  queryRadius g q radius
  = if Qltb (- cellSize g) radius then query g q else [].
Proof.
  assert (Hne : ~ cellSize g == 0)
    by (intros H0; rewrite H0 in Hcell; now apply Qlt_irrefl in Hcell).
  destruct (Qltb (- cellSize g) radius) eqn:Hlt.
  - apply Qltb_lt in Hlt. apply queryRadius_cellRadius_0, Qceiling_0.
    + apply Qlt_shift_div_l; [exact Hcell|]. lra.
    + apply Qle_shift_div_r; [exact Hcell|]. lra.
  - apply Qltb_ge in Hlt. apply queryRadius_cellRadius_negative, Qceiling_negative.
    apply Qle_shift_div_r; [exact Hcell|]. lra.
Qed.

Lemma queryRadius_without_radius_witness :
  let g := SpatialGrid.insertAll [(V3 3 4 0, 7%nat); (V3 (-12) 0 0, 8%nat)]
             (SpatialGrid.new (T := nat) 10 (V3 0 0 0) (V3 1 1 1)) in
  queryRadius g (V3 1 1 1) (-3)
  = if Qltb (- cellSize g) (-3) then query g (V3 1 1 1) else [].
Proof.
  intros g.
  apply (queryRadius_without_radius g (V3 1 1 1) (-3)).
  - reflexivity.
  - discriminate.
Defined.

End GridTheorems.

(** ** The population [initializeGalaxy] creates *)

Section Population.
Import Entities Manager.
Variable E : Oracle.
Variable G : Geometry.
Local Open Scope Q_scope.

(** The constructor of a star returns when it is given a centre, and
    takes the next identifier. *)
Lemma newStar_returns S pos c profile w :
  exists st w',
    newStar E S pos (CenterVector c) profile w = Ok (nextId w, st) w' /\
    nextId w' = Datatypes.S (nextId w).
Proof.
  unfold newStar, clone, generateStarColor, M_type, K_type, G_type, F_type,
    A_type, B_type, O_type, spectral. unfold_world.
  destruct profile;
    repeat match goal with
           | |- context [if ?b then _ else _] => destruct b
           end;
    eexists _, _; split; reflexivity.
Qed.

Lemma galaxyGrows_ret {A} (a : A) : galaxyGrows 0 [] (mret a).
Proof.
  intros nm. exists a, nm. split; [reflexivity|].
  rewrite !app_nil_r, Nat.add_0_r. repeat split.
Qed.

Lemma galaxyGrows_gets {A} (f : NetworkManager -> A) : galaxyGrows 0 [] (gets f).
Proof.
  intros nm. exists (f nm), nm. split; [reflexivity|].
  rewrite !app_nil_r, Nat.add_0_r. repeat split.
Qed.

Lemma galaxyGrows_random : galaxyGrows 0 [] (liftW (Math_random E)).
Proof.
  intros nm. eexists _, _. split; [reflexivity|].
  cbn. rewrite !app_nil_r, Nat.add_0_r. repeat split.
Qed.

Lemma galaxyGrows_bind {A B} n1 n2 gs1 gs2 (m : M NetworkManager A)
    (k : A -> M NetworkManager B) :
  galaxyGrows n1 gs1 m -> (forall a, galaxyGrows n2 gs2 (k a)) ->
  galaxyGrows (n1 + n2) (gs1 ++ gs2) (m ≫= k).
Proof.
  intros Hm Hk nm.
  destruct (Hm nm) as (a & nm1 & Hr1 & Hs1 & Hn1 & Hg1 & Hset1 & Hw1 & Hc1 & Hd1).
  destruct (Hk a nm1) as (b & nm2 & Hr2 & Hs2 & Hn2 & Hg2 & Hset2 & Hw2 & Hc2 & Hd2).
  exists b, nm2. split.
  { unfold mbind, M_bind, bind. rewrite Hr1. exact Hr2. }
  rewrite Hs2, Hn2, Hg2, Hset2, Hw2, Hc2, Hd2, Hs1, Hn1, Hg1.
  rewrite <- !app_assoc, seq_app, Nat.add_assoc. repeat split; assumption.
Qed.

Lemma galaxyGrows_bind0 {A B} n gs (m : M NetworkManager A)
    (k : A -> M NetworkManager B) :
  galaxyGrows 0 [] m -> (forall a, galaxyGrows n gs (k a)) ->
  galaxyGrows n gs (m ≫= k).
Proof. intros Hm Hk. exact (galaxyGrows_bind 0 n [] gs m k Hm Hk). Qed.

Lemma galaxyGrows_forEach {A} (f : A -> nat) (l : list A)
    (body : A -> M NetworkManager unit) :
  (forall x, galaxyGrows (f x) [] (body x)) ->
  galaxyGrows (sum_list_with f l) [] (forEach l body).
Proof.
  intros Hb. induction l as [|x l IH].
  - apply (galaxyGrows_ret tt).
  - cbn [forEach sum_list_with].
    exact (galaxyGrows_bind (f x) (sum_list_with f l) [] [] (body x)
             (fun _ => forEach l body) (Hb x) (fun _ => IH)).
Qed.

Lemma pushNewStar_grows position c profile :
  galaxyGrows 1 [] (pushNewStar E position (CenterVector c) profile).
Proof.
  intros nm. unfold pushNewStar.
  unfold mbind at 1, M_bind at 1, bind at 1, gets at 1.
  destruct (newStar_returns (settings nm) position c profile (world nm))
    as (st & w' & Hnew & Hid).
  unfold mbind, M_bind, bind, liftW. rewrite Hnew. unfold modify.
  eexists _, _. split; [reflexivity|].
  cbn [stars set_stars set_heap set_world world lastGalaxies settings waves
       connections dustClouds seq].
  rewrite Hid, app_nil_r. repeat split. lia.
Qed.

Ltac grows0 :=
  lazymatch goal with
  | |- galaxyGrows _ _ (mbind _ (gets _)) =>
      apply galaxyGrows_bind0; [apply galaxyGrows_gets|intros ?]
  | |- galaxyGrows _ _ (mbind _ (liftW (Math_random _))) =>
      apply galaxyGrows_bind0; [apply galaxyGrows_random|intros ?]
  end.

Lemma bulgeStar_grows c config ageProfile :
  galaxyGrows 1 [] (bulgeStar E G (CenterVector c) config ageProfile).
Proof.
  unfold bulgeStar. cbv zeta. repeat grows0. apply pushNewStar_grows.
Qed.

Lemma armStar_grows c radius arms config ageProfile :
  galaxyGrows 1 [] (armStar E G (CenterVector c) radius arms config ageProfile).
Proof.
  unfold armStar. cbv zeta. repeat grows0.
  apply galaxyGrows_bind0; [|intros ?; apply pushNewStar_grows].
  destruct ageProfile; try destruct (armStarIsInner _ _ _ _);
    first [ apply galaxyGrows_ret
          | apply galaxyGrows_bind0;
            [apply galaxyGrows_random|intros ?; apply galaxyGrows_ret] ].
Qed.

Lemma sum_ones {A} (l : list A) : sum_list_with (fun _ => 1%nat) l = length l.
Proof. induction l as [|x l IH]; cbn; [reflexivity|]. now rewrite IH. Qed.

Lemma galaxyGrows_count {A} n n' gs (m : M NetworkManager A) :
  n = n' -> galaxyGrows n gs m -> galaxyGrows n' gs m.
Proof. now intros ->. Qed.

(** The stars of one galaxy: the iterations of the two loops. *)
Lemma createSpiralGalaxy_grows c count radius arms config :
  let bulgeCount := inject_Z (Qfloor (count * gc_centralBulgeFraction config)) in
  galaxyGrows (loopCount bulgeCount + loopCount (count - bulgeCount)) []
    (createSpiralGalaxy E G (CenterVector c) count radius arms (Some config)).
Proof.
  cbv zeta. unfold createSpiralGalaxy. cbv zeta.
  grows0.
  apply (galaxyGrows_bind _ _ [] []).
  - eapply galaxyGrows_count; [|apply (galaxyGrows_forEach (fun _ => 1%nat))].
    + now rewrite sum_ones, length_seq.
    + intros _. apply bulgeStar_grows.
  - intros _.
    eapply galaxyGrows_count; [|apply (galaxyGrows_forEach (fun _ => 1%nat))].
    + now rewrite sum_ones, length_seq.
    + intros _. apply armStar_grows.
Qed.

(** For a whole number of stars and a bulge fraction between 0 and 1,
    the two loops make that number of stars. *)
Lemma whole_galaxy (count fraction : Q) :
  SettingsMethods.Number_isInteger count = true -> 0 <= count ->
  0 <= fraction -> fraction <= 1 ->
  let bulgeCount := inject_Z (Qfloor (count * fraction)) in
  (loopCount bulgeCount + loopCount (count - bulgeCount))%nat
  = Z.to_nat (Qfloor count).
Proof.
  intros Hint Hc Hf0 Hf1. cbv zeta.
  unfold SettingsMethods.Number_isInteger in Hint. apply Qeq_bool_eq in Hint.
  set (n := Qfloor count) in *.
  set (b := Qfloor (count * fraction)).
  assert (Hb0 : (0 <= b)%Z).
  { unfold b. change 0%Z with (Qfloor 0). apply Qfloor_resp_le. nra. }
  assert (Hbn : (b <= n)%Z).
  { unfold b. rewrite <- (Qfloor_Z n). apply Qfloor_resp_le. rewrite <- Hint. nra. }
  unfold loopCount. rewrite Qceiling_Z.
  assert (Harm : count - inject_Z b == inject_Z (n - b)).
  { unfold Z.sub. rewrite inject_Z_plus, inject_Z_opp, <- Hint. ring. }
  rewrite (Qceiling_comp _ _ Harm), Qceiling_Z. lia.
Qed.


Lemma galaxyGrows_forEach_records {A} (f : A -> nat) (r : A -> GalaxyRecord)
    (l : list A) (body : A -> M NetworkManager unit) :
  (forall x, galaxyGrows (f x) [r x] (body x)) ->
  galaxyGrows (sum_list_with f l) (map r l) (forEach l body).
Proof.
  intros Hb. induction l as [|x l IH].
  - apply (galaxyGrows_ret tt).
  - cbn [forEach sum_list_with map].
    exact (galaxyGrows_bind (f x) (sum_list_with f l) [r x] (map r l) (body x)
             (fun _ => forEach l body) (Hb x) (fun _ => IH)).
Qed.

Lemma record_pushed (rec : GalaxyRecord) :
  galaxyGrows 0 [rec]
    (modify (fun nm => set_lastGalaxies (lastGalaxies nm ++ [rec]) nm)).
Proof.
  intros nm. eexists tt, _. split; [reflexivity|].
  cbn. rewrite app_nil_r, Nat.add_0_r. repeat split.
Qed.

Lemma modify_bind {B} (f : NetworkManager -> NetworkManager)
    (k : unit -> M NetworkManager B) nm :
  (modify f ≫= k) nm = k tt (f nm).
Proof. reflexivity. Qed.

Lemma gets_bind {A B} (f : NetworkManager -> A) (k : A -> M NetworkManager B) nm :
  (gets f ≫= k) nm = k (f nm) nm.
Proof. reflexivity. Qed.

(** The loop of [initializeGalaxy] over the configured galaxies. *)
Lemma galaxyLoop_grows s (configs : list GalaxyConfig) :
  galaxyGrows
    (sum_list_with
       (fun config =>
          let count := Qmin (gc_starCount config) (maxStars s) in
          let bulgeCount :=
            inject_Z (Qfloor (count * gc_centralBulgeFraction config)) in
          (loopCount bulgeCount + loopCount (count - bulgeCount))%nat)
       configs)
    (map (fun config =>
            {| lg_center := gc_position config; lg_radius := gc_radius config;
               lg_arms := gc_arms config;
               lg_count := Qmin (gc_starCount config) (maxStars s);
               lg_config := Some config |})
         configs)
    (forEach configs
       (fun config =>
          let center := gc_position config in
          let galaxyStarCount := Qmin (gc_starCount config) (maxStars s) in
          createSpiralGalaxy E G (CenterVector center) galaxyStarCount
            (Some (gc_radius config)) (Some (gc_arms config)) (Some config);;
          modify (fun nm =>
                    set_lastGalaxies
                      (lastGalaxies nm ++
                       [{| lg_center := center; lg_radius := gc_radius config;
                           lg_arms := gc_arms config;
                           lg_count := galaxyStarCount;
                           lg_config := Some config |}]) nm))).
Proof.
  apply galaxyGrows_forEach_records. intros config. cbv beta zeta.
  eapply galaxyGrows_count; cycle 1.
  - eapply (galaxyGrows_bind _ 0%nat [] [_]);
      [apply createSpiralGalaxy_grows|intros _; apply record_pushed].
  - cbv zeta. lia.
Qed.

(** What [initializeGalaxy] builds, for the number of iterations of the
    loops of each galaxy. *)
Lemma initializeGalaxy_run nm :
  let s := settings nm in
  let made config :=
    let count := Qmin (gc_starCount config) (maxStars s) in
    let bulgeCount := inject_Z (Qfloor (count * gc_centralBulgeFraction config)) in
    (loopCount bulgeCount + loopCount (count - bulgeCount))%nat in
  let total := sum_list_with made (Settings.galaxyConfigs s) in
  exists nm',
    initializeGalaxy E G nm = Ok tt nm' /\
    stars nm' = seq (nextId (world nm)) total /\
    nextId (world nm') = (nextId (world nm) + total)%nat /\
    lastGalaxies nm' = Scenario.lastGalaxiesOf s /\
    settings nm' = s /\ waves nm' = [] /\ connections nm' = [] /\
    dustClouds nm' = [].
Proof.
  cbv zeta. unfold initializeGalaxy.
  rewrite modify_bind, modify_bind, gets_bind.
  destruct (galaxyLoop_grows (settings nm) (Settings.galaxyConfigs (settings nm))
              (set_lastGalaxies [] (clearSceneObjects nm)))
    as ([] & nm' & Hr & Hs & Hn & Hg & Hset & Hw & Hc & Hd).
  exists nm'. split; [exact Hr|].
  split; [exact Hs|]. split; [exact Hn|]. split; [exact Hg|].
  split; [exact Hset|]. split; [exact Hw|]. split; [exact Hc|exact Hd].
Qed.

Lemma sum_list_with_ext_Forall {A} (f g : A -> nat) (l : list A) :
  Forall (fun x => f x = g x) l -> sum_list_with f l = sum_list_with g l.
Proof. induction 1 as [|x l Hx _ IH]; cbn; [reflexivity|]. now rewrite Hx, IH. Qed.

End Population.

Section PopulationTheorem.
Import Entities Manager.
Local Open Scope Q_scope.

(** X17: [initializeGalaxy()], the arm glow sprites left aside, returns
    normally.  When, for every
    configured galaxy, the star count capped by [maxStars] is a whole
    number and the bulge fraction lies between 0 and 1, it creates
    exactly that capped number of stars per galaxy, with consecutive
    identifiers from [Star.nextId] on, records the galaxies in
    [lastGalaxies], and leaves no wave, connection or dust cloud,
    whatever the manager held before. *)
Theorem initializeGalaxy_population (E : Oracle) (G : Geometry)
    (nm : NetworkManager)
    (Hwhole : Forall (fun config =>
                 let count := Qmin (gc_starCount config) (maxStars (settings nm)) in
                 SettingsMethods.Number_isInteger count = true /\ 0 <= count /\
                 0 <= gc_centralBulgeFraction config /\
                 gc_centralBulgeFraction config <= 1)
              (Settings.galaxyConfigs (settings nm))) :
  let total :=
    sum_list_with
      (fun config =>
         Z.to_nat (Qfloor (Qmin (gc_starCount config) (maxStars (settings nm)))))
      (Settings.galaxyConfigs (settings nm)) in
  exists nm',
    initializeGalaxy E G nm = Ok tt nm' /\
    stars nm' = seq (nextId (world nm)) total /\
    nextId (world nm') = (nextId (world nm) + total)%nat /\
    lastGalaxies nm' = Scenario.lastGalaxiesOf (settings nm) /\
    waves nm' = [] /\ connections nm' = [] /\ dustClouds nm' = [].
Proof.
  cbv zeta.
  destruct (initializeGalaxy_run E G nm)
    as (nm' & Hr & Hs & Hn & Hg & _ & Hw & Hc & Hd).
  cbv zeta in Hs, Hn.
  match type of Hs with
  | _ = seq _ (sum_list_with ?f ?l) =>
      assert (Heq : sum_list_with f l
                    = sum_list_with
                        (fun config =>
                           Z.to_nat (Qfloor (Qmin (gc_starCount config)
                                                  (maxStars (settings nm))))) l)
  end.
  { apply sum_list_with_ext_Forall.
    eapply Forall_impl; [exact Hwhole|]. cbv zeta.
    intros config (Hint & Hc0 & Hf0 & Hf1).
    exact (whole_galaxy _ _ Hint Hc0 Hf0 Hf1). }
  rewrite Heq in Hs, Hn.
  exists nm'. split; [exact Hr|]. split; [exact Hs|]. split; [exact Hn|].
  split; [exact Hg|]. split; [exact Hw|]. split; [exact Hc|exact Hd].
Qed.

Lemma initializeGalaxy_population_witness :
  let E := Scenario.constantOracle (1 # 2) 0 in
  let nm := Manager.new Scenario.defaultSettings
              {| rngPos := 0; clockPos := 0; nextId := 0 |} in
  exists nm',
    initializeGalaxy E Scenario.flatGeometry nm = Ok tt nm' /\
    stars nm' = seq 0 40000 /\
    nextId (world nm') = 40000%nat /\
    lastGalaxies nm' = Scenario.lastGalaxiesOf Scenario.defaultSettings /\
    waves nm' = [] /\ connections nm' = [] /\ dustClouds nm' = [].
Proof.
  intros E nm.
  apply (initializeGalaxy_population E Scenario.flatGeometry nm).
  repeat constructor; discriminate.
Defined.

End PopulationTheorem.

(** ** The pairs that the handshake connects *)

Section HandshakeCandidates.
Import Entities Manager.
Local Open Scope Q_scope.

(** X19: the handshake phase of a tick creates a connection between two
    distinct stars A and B exactly when no connection joins them yet,
    both are active with an activation time, the query of the rebuilt
    star grid around one of them returns the other, their distance is
    at most [maxConnectionDistance], each has been active for at least
    [2 * distance / waveSpeed], and no dust test stops the pair.  In the
    scene with A at (0,0,0), B at (10,0,0), speed 5, maximal distance 20,
    both active since t = 0 and no cloud, there is no connection at
    t = 3.9 and exactly one at t = 4.1, after the phase alone and after a
    whole tick in which no star changes state. *)
Theorem handshake_connects_candidates (nm : NetworkManager) (currentTime : Q)
    (starA starB : nat) :
  starA ≠ starB ->
  0 < waveSpeed (settings nm) ->
  let A := deref nm starA in
  let B := deref nm starB in
  let distanceSquared := Vec.distanceToSquared (position A) (position B) in
  let rebuilt := rebuildStarGrid nm in
  let nm' := handshakeAt currentTime rebuilt in
  ((connected starA starB (connections nm') /\
    ~ connected starA starB (connections nm))
   <->
   (~ connected starA starB (connections nm) /\
    starA ∈ activeStars nm /\ starB ∈ activeStars nm /\
    (starB ∈ nearby rebuilt starA \/ starA ∈ nearby rebuilt starB) /\
    (exists timeA timeB,
       activationTime A = Some timeA /\ activationTime B = Some timeB /\
       HandshakeSpec.distanceWithin distanceSquared
         (Settings.maxConnectionDistance (settings nm)) /\
       HandshakeSpec.roundTripWithin (waveSpeed (settings nm)) distanceSquared
         (currentTime - timeA) /\
       HandshakeSpec.roundTripWithin (waveSpeed (settings nm)) distanceSquared
         (currentTime - timeB)) /\
    occluded nm starA starB = false))
  /\
  (let scene := Scenario.twoActiveStars [] in
   let E t := Scenario.constantOracle 1 t in
   connections (handshakeAt (39 # 10) (rebuildStarGrid scene)) = [] /\
   connections (handshakeAt (41 # 10) (rebuildStarGrid scene))
   = [{| star1 := 0; star2 := 1 |}] /\
   connections (finalState (update (E (39 # 10)) Scenario.flatGeometry
                                   (1 # 10) scene)) = [] /\
   connections (finalState (update (E (41 # 10)) Scenario.flatGeometry
                                   (1 # 10) scene))
   = [{| star1 := 0; star2 := 1 |}]).
Proof.
  intros Hab Hw A B distanceSquared rebuilt nm'. split.
  - unfold nm', rebuilt.
    rewrite (handshake_connected nm currentTime starA starB Hab).
    rewrite (accepted_spec currentTime nm starA starB Hw).
    fold A B. cbv zeta. fold distanceSquared.
    split.
    + intros [[Hc|(Ha & Hb & Hnear & Hr & Ho)] Hn]; [by destruct Hn|].
      split; [exact Hn|]. split; [exact Ha|]. split; [exact Hb|].
      split; [exact Hnear|]. split; [exact Hr|exact Ho].
    + intros (Hn & Ha & Hb & Hnear & Hr & Ho). split; [|exact Hn]. right.
      split; [exact Ha|]. split; [exact Hb|]. split; [exact Hnear|].
      split; [exact Hr|exact Ho].
  - cbv zeta. repeat split; vm_compute; reflexivity.
Qed.

Lemma handshake_connects_candidates_witness :
  let nm := Scenario.twoActiveStars [] in
  let nm' := handshakeAt (41 # 10) (rebuildStarGrid nm) in
  connected 0 1 (connections nm') /\ ~ connected 0 1 (connections nm).
Proof.
  intros nm nm'.
  assert (H0 : (0%nat : nat) ≠ 1%nat) by discriminate.
  assert (Hw : 0 < waveSpeed (settings nm)) by reflexivity.
  destruct (handshake_connects_candidates nm (41 # 10) 0 1 H0 Hw) as [Hiff _].
  cbv zeta in Hiff. apply Hiff. split.
  - intros (c & Hin & _). vm_compute in Hin. by apply elem_of_nil in Hin.
  - split; [vm_compute; apply list_elem_of_here|].
    split; [vm_compute; apply list_elem_of_further, list_elem_of_here|].
    split; [left; vm_compute; apply list_elem_of_further, list_elem_of_here|].
    split; [|reflexivity].
    exists 0%Q, 0%Q. split; [reflexivity|]. split; [reflexivity|].
    repeat split; vm_compute; discriminate.
Defined.

End HandshakeCandidates.
